(* ===== verification/_CoqProject ===== *)
-Q . S2P
Prelude.v
RustStr.v
Addr.v
World.v
Grpc.v
Json.v
SimWorld.v
IpAllocator.v
Lifecycle.v
FcConfig.v
VmManager.v
Network.v
Events.v
AgentClient.v
Registry.v
Service.v
Concurrency.v
ProxyProtocol.v
Sni.v
AuthClient.v
Llm.v
ProxyLog.v
DnsProxy.v
DnsTcp.v
HttpProxy.v
System.v
Agent.v
AgentStream.v
Sql.v
EventQueries.v
CliLogs.v
EventLog.v
Ca.v
TlsProxy.v
HttpsPath.v
Listeners.v
Telemetry.v
Startup.v
Cli.v
UnitTests.v
LlmTests.v
EventTests.v
