(* ===== verification/Prelude.v ===== *)
(** * Clawpot: a verification of the server, the guest agent and the client

    Clawpot runs untrusted workloads in Firecracker microVMs.  Its server
    (clawpot-server) creates and deletes VMs over gRPC, gives each an address on a
    private bridge, redirects all their traffic to proxies that ask an external
    authorization service before anything leaves the host, and logs what happens.
    An agent inside each VM (clawpot-agent) runs commands for the server, and a
    command-line client (clawpot-cli) calls the server and reads its log.

    ** The parts, and where they are modelled

    - Data of the language and of the libraries: this file (results, panics, the
      state monad, bytes and machine integers), [RustStr] (the string routines of
      the Rust standard library), [Addr] (std::net addresses, their text and its
      parser), [Json] (serde_json values), [Grpc] (tonic's status), [Sql] (the
      statements the two programs run, and what SQLite answers to them).
    - [World]: the outside world, one class of operations per foreign interface
      (files, processes, clocks, iptables, netlink, the TUN device, Firecracker's
      API, the guest agent, byte streams), and the laws that some theorems assume of
      them.  [SimWorld] is an in-memory host that satisfies the laws; every theorem
      that has a hypothesis has a witness evaluated on it or on a concrete value.
    - [IpAllocator]: clawpot-server/src/network/ip_allocator.rs.
    - [Lifecycle]: clawpot-common/src/vm/lifecycle.rs.
    - [FcConfig]: clawpot-common/src/firecracker/config.rs and models.rs.
    - [VmManager]: clawpot-common/src/firecracker/client.rs and vm/manager.rs.
    - [Network]: clawpot-server/src/network/ (iptables.rs, bridge.rs, tap.rs, mod.rs).
    - [Events]: clawpot-server/src/events/ (emitting and the background writer), and
      [EventQueries]: its tables and its read-only queries.
    - [AgentClient]: clawpot-server/src/agent/client.rs.
    - [Registry]: clawpot-server/src/vm/registry.rs.
    - [Service]: clawpot-server/src/grpc/service.rs, and the shutdown handler of
      clawpot-server/src/main.rs.
    - [Concurrency]: all requests and the shutdown interleaved, and calls dropped when
      their clients give up.  [System]: the requests that the DNS and HTTP proxies serve
      interleaved with them.
    - [ProxyProtocol], [Sni] (extract_sni of tls_mitm.rs), [AuthClient], [Llm],
      [DnsProxy], [HttpProxy] (with body_store.rs), [Ca] (ca.rs), [TlsProxy] (the
      rest of tls_mitm.rs) and [Listeners] (the accept loops of the three proxies):
      clawpot-server/src/proxy/.  [ProxyLog] is what the proofs about the DNS and
      HTTP proxies share; [DnsTcp] is about the TCP connections of the DNS proxy, and
      [HttpsPath] puts the TLS proxy before the HTTP proxy.
    - [Startup]: main of clawpot-server/src/main.rs, with [Telemetry]: telemetry.rs.
    - [Agent] (exec.rs, service.rs, main.rs) and [AgentStream] (stream.rs):
      clawpot-agent/src/.
    - [CliLogs] (commands/logs.rs) and [Cli] (main.rs and the other commands):
      clawpot-cli/src/.
    - [EventLog]: the tasks that emit events, the background writer, the database and
      the client that exports a session, put together.
    - [UnitTests], [LlmTests] and [EventTests]: the 49 unit tests of the sources as
      functions on the model, each evaluated to pass.

    A Rust struct is a record, an enum an inductive type; a function that can fail
    returns [result] with the chain of messages of its [anyhow::Error]; code that
    reads or changes something is a function [ST S A = S -> A * S] on the part [S] of
    the state it reaches (the manager, the server's shared memory, the world, or
    pairs of these); an index that can be out of range, or a loop that is cut off,
    returns in [outcome], which has [Panic] and [NoFuel].  The calls to the guest agent
    and the client's calls to the server have no time limit in the code and return in
    [option], where [None] is a call that never completes; what awaits one does not
    return.  Where tasks run at the
    same time ([Concurrency], [System], [EventLog], [AgentStream]) the program is a step relation on
    configurations.  Logging to stdout and tracing spans are left out; events written
    to the event store, and what the client prints, are not.

    ** How the parts interact

    [Startup] opens the event store, prepares the bridge, makes the certificate
    authority and the proxies, and then serves.  create_vm takes an address from the
    allocator, makes a TAP device and its rules ([Network]), starts Firecracker
    ([VmManager], which follows [Lifecycle] and sends the bodies of [FcConfig]), waits
    for the agent ([AgentClient]) and registers the VM ([Registry]); delete_vm and the
    shutdown handler undo it.  A TLS connection is terminated by [TlsProxy] with a
    certificate of [Ca] and passed on to the HTTP proxy behind a PROXY line
    ([ProxyProtocol], [HttpsPath]).  The proxies find the VM of a connection by its address
    ([Registry.find_by_ip]), ask [AuthClient] and forward or refuse, while VMs come and
    go ([System]).  All of them emit events ([Events]), which the background writer
    stores and the client reads from the database with queries of its own ([CliLogs],
    [EventLog]).  The client's exec goes through [Service.exec_vm] to
    [Agent.agent_exec] in the VM ([Cli]).

    ** What the theorems show

    - Addresses (C1, C2, C7-C9, C15, C25, C26): the bitmap allocator implements an
      abstract pool; under every interleaving of requests, shutdown and cancelled calls
      the addresses held are exactly those of registered VMs, of requests in progress
      and of the creations and deletions that were dropped, one owner each, the last
      kind absent while no client gives up a call and never given back (C1); so the
      lookup by address names the right VM, and every entry is a running VM with names
      and sizes in range; creating and deleting restore the pool on every path that
      returns, with one exception that C7 states.
    - Confinement (C3-C5, C14, C19, C20, C27-C30): the server serves only with
      the redirect and drop rules and the proxies in place; nothing is forwarded
      without a registered source and the permission for that very request, for a
      single query (C4), for a connection of the web proxies, plain or through the
      TLS proxy, which is attributed to the client that made it (C5), and in every
      history of the whole server, where the source is the one VM that had the
      address when the request was looked up (C3); authorization fails closed; API
      keys replace what the VM sent in requests to a provider's host and are added to
      no other, as long as the Host header has no user information (C20); TAP devices
      are attached and removed, with what is left when a step fails.
    - Certificates (C23, C24): one per domain, and an authority that restarts keep.
    - Processes (C16-C18, C40): the boot sequence, the graceful shutdown and the release
      of the hypervisor process on every path, the wait for the agent, which is bounded
      except in an attempt that never completes.
    - Commands (C12, C13, C22): a streamed command delivers its output in order and,
      once the process has ended, all of it with the exit code last; exec from client
      to guest and back, where a call may fail, be refused for its size or never be
      answered.
    - Wire formats (C6, C31-C35, C37, C38): round trips of SNI, PROXY line, DNS
      question and event streams; exact conditions for panics; DNS over TCP answers
      each query in order and always ends.
    - The log (C10, C11, C21, C39) and answers (C36): the running writer refines the
      function on batches, loses nothing that was sent before the close, and a close
      is answered; what tasks emitted is what the client exports; client and server
      queries agree and select what the filters say; responses are relayed.
    - Lemmas beside these: capacity and order of the allocator
      ([IpAllocator.allocate_capacity], [IpAllocator.allocate_round_robin]), accepted
      transitions ([Lifecycle.lifecycle_running_after_starting]), numbering of events
      ([Events.emit_all_in_order]), batches stored whole and in order
      ([Events.writer_stores_batches_in_order]), the exported table
      ([CliLogs.export_prints_session]), one HTTP request
      ([HttpProxy.http_forwards_only_authorized]) and one TLS connection
      ([TlsProxy.tls_connection_attributed]), DNS framing
      ([DnsProxy.dns_framing_round_trip]) and the totality of the question parser
      ([DnsProxy.parse_dns_question_total]), the cut vCPU count
      ([Service.create_vm_truncates_vcpus]), the accept loops
      ([Listeners.serve_loop_spec]), telemetry ([Telemetry.init_telemetry_run]).

    ** Bounds and fuel

    [AgentClient.ready_fuel] iterations bound the retry loop; under [ClockLaws] they
    are enough unless an attempt never completes, where no number is (C40).  The PROXY line is read in at most 257 steps because the code
    stops past 256 bytes (C33).  The label loop of the DNS parser and the extension
    loop of the SNI parser advance at least one byte each time, so the length of the
    input plus one is enough (C32, [DnsProxy.parse_dns_question_total]), and a TCP
    connection takes at most one turn more than it has bytes (C6).
    [wait_for_socket] has the 50 attempts of the code.  The accept loops consume a
    given list of turns, one per event of their select.  The step relation of [AgentStream] has no fuel: C12 proves that no run is
    infinite once the process has ended.  Nor has that of [EventLog], where each move
    of the writer after a close lowers [EventLog.moves_left]; tasks that never stop
    sending could keep it in its draining loop, as in the code.  Addresses and
    counters are integers with the wrap-around written out where the code can reach
    it (u8 casts, u16 lengths, u32 addresses, i64 ids).

    ** Assumptions

    Each handler's segments are atomic with respect to the shared memory, as the
    locks make them; between segments the world is arbitrary ([Concurrency], [System]).
    A handler whose client has gone is dropped by tonic at an await, where it has done
    to the registry and the allocator what its segments up to there do; the shutdown
    handler serves no client and is not dropped.  Foreign calls other than those that
    return in [option] are taken to complete.
    The writer's transaction is one step, because the tasks share only the channel
    with it ([EventLog]); the client reads what is committed, under ids that increase
    in the order of insertion (AUTOINCREMENT), and serde_json reads back the values
    that it wrote (hypotheses of C11).
    [Uuid::new_v4] does not repeat.  Hash maps are iterated in an unknown order.
    What is assumed of a library is a class of laws: [NetworkLaws] (iptables and
    netlink), [SqliteLaws] (statements of the writer), [SelectLaws] (what a SELECT
    answers), [ClockLaws], [UuidLaws], [DiskLaws] (files and the text of keys and
    certificates), [ConsoleLaws] and [StreamLaws] (what printing adds), [Traced],
    [NetTrace], [UpstreamTrace], [HttpTrace] and [TlsTrace] (which operations leave a
    trace), [TelemetryLaws] (one subscriber per process), [StartLaws] (what start-up
    leaves alone), [Deployment] (a call between client, server and agent is answered by
    its handler, with messages of up to tonic's default size, or fails, or is never
    answered), [ExecMessages] (an encoded answer is no shorter than the output in it).

    ** The unit tests

    The tests of the sources run on the model as they run on the program: the same
    calls on the same inputs, with the same assertions, as functions that panic when
    an assertion fails.  They check the definitions, not the program: a definition
    that departed from the code where a test looks would fail here.  Tests that need
    root run on [SimWorld], those of the event store on an in-memory SQLite
    ([EventTests]), and JSON is read by a small reader ([LlmTests]).

    ** Not modelled

    The code generated from the .proto files and the integration tests of it, the
    libraries themselves (rustls, rcgen, SQLite, hyper, tonic, clap, tokio's runtime,
    OpenTelemetry), and accessors that return a field.  All other code of the three programs is modelled, alone and composed
    where its parts interact. *)

From Stdlib Require Import ZArith Lia Ascii String.
From Stdlib Require Import Strings.Byte.
From stdpp Require Import base gmap strings list fin_maps sorting.

Open Scope Z_scope.

(** * Results, errors and panics *)

(** [Result<A, E>] of the Rust standard library. *)
Inductive result (A E : Type) : Type :=
| Ok (a : A)
| Err (e : E).
Arguments Ok {A E} a.
Arguments Err {A E} e.

(** An [anyhow::Error]: the chain of messages, outermost context first. *)
Definition error : Type := list string.

(** [anyhow!("...")] *)
Definition anyhow (msg : string) : error := [msg].

(** [e.to_string()]: an [anyhow::Error] displays its outermost message. *)
Definition err_string (e : error) : string := default ""%string (head e).

(** [.context("...")] on a result. *)
Definition context {A} (msg : string) (r : result A error) : result A error :=
  match r with
  | Ok a => Ok a
  | Err e => Err (msg :: e)
  end.

(** [.map_err(f)] *)
Definition map_err {A E F} (f : E -> F) (r : result A E) : result A F :=
  match r with
  | Ok a => Ok a
  | Err e => Err (f e)
  end.

(** [.ok()] *)
Definition res_ok {A E} (r : result A E) : option A :=
  match r with
  | Ok a => Some a
  | Err _ => None
  end.

(** [.ok_or_else(|| e)] *)
Definition ok_or {A E} (o : option A) (e : E) : result A E :=
  match o with
  | Some a => Ok a
  | None => Err e
  end.

(** The [?] operator in code that has no effect. *)
Definition rbind {A B E} (r : result A E) (k : A -> result B E) : result B E :=
  match r with
  | Ok a => k a
  | Err e => Err e
  end.

Definition is_ok {A E} (r : result A E) : bool :=
  match r with
  | Ok _ => true
  | Err _ => false
  end.

Lemma is_ok_true {A E} (r : result A E) : is_ok r = true <-> exists a, r = Ok a.
Proof. destruct r; simpl; split; [by eauto|done|done|by intros [? ?]]. Qed.

Lemma is_ok_context {A} m (r : result A error) : is_ok (context m r) = is_ok r.
Proof. by destruct r. Qed.

Lemma is_ok_map_err {A E F} (f : E -> F) (r : result A E) : is_ok (map_err f r) = is_ok r.
Proof. by destruct r. Qed.

Lemma context_Ok {A} m (r : result A error) a : context m r = Ok a <-> r = Ok a.
Proof. destruct r; simpl; naive_solver. Qed.

Lemma map_err_Ok {A E F} (f : E -> F) (r : result A E) a : map_err f r = Ok a <-> r = Ok a.
Proof. destruct r; simpl; naive_solver. Qed.

(** What a computation that may panic or loop does: [Done] with a value,
    [Panic] (an out-of-range index or slice, an overflow), or [NoFuel] when it has not
    returned: a bounded interpretation of a loop ran out of iterations, or a call it
    awaits never completes. *)
Inductive outcome (A : Type) : Type :=
| Done (a : A)
| Panic
| NoFuel.
Arguments Done {A} a.
Arguments Panic {A}.
Arguments NoFuel {A}.

Definition obind {A B} (m : outcome A) (k : A -> outcome B) : outcome B :=
  match m with
  | Done a => k a
  | Panic => Panic
  | NoFuel => NoFuel
  end.

(** * State passing *)

(** A computation over a state [S]: the server's memory together with the
    outside world. *)
Definition ST (S A : Type) : Type := S -> A * S.

Definition ret {S A} (a : A) : ST S A := fun s => (a, s).

Definition bind {S A B} (m : ST S A) (k : A -> ST S B) : ST S B :=
  fun s => let '(a, s') := m s in k a s'.

(** The [?] operator: continue on [Ok], return early on [Err]. *)
Definition bind_ok {S A B E} (m : ST S (result A E)) (k : A -> ST S (result B E))
  : ST S (result B E) :=
  bind m (fun r => match r with
                   | Ok a => k a
                   | Err e => ret (Err e)
                   end).

(** The [?] operator on the answer of a peer that may never come: [None] is a call
    that does not complete, and neither does what awaits it. *)
Definition bind_awaited {S A B E} (m : ST S (option (result A E))) (k : A -> ST S (option (result B E)))
  : ST S (option (result B E)) :=
  bind m (fun r => match r with
                   | Some (Ok a) => k a
                   | Some (Err e) => ret (Some (Err e))
                   | None => ret None
                   end).

(** What awaits an answer has not returned until it comes. *)
Definition settled {A} (r : option A) : outcome A := match r with Some a => Done a | None => NoFuel end.

(** Apply a pure function to the value a computation returns. *)
Definition st_map {S A B} (f : A -> B) (m : ST S A) : ST S B :=
  bind m (fun a => ret (f a)).

(** [for x in xs { f(x)?; }] followed by [Ok(())], and a loop that goes on
    whatever [f] returns. *)
Fixpoint for_ok {S A E} (f : A -> ST S (result unit E)) (xs : list A) : ST S (result unit E) :=
  match xs with
  | [] => ret (Ok tt)
  | x :: rest => bind_ok (f x) (fun _ => for_ok f rest)
  end.

Fixpoint for_each {S A B} (f : A -> ST S B) (xs : list A) : ST S unit :=
  match xs with
  | [] => ret tt
  | x :: rest => bind (f x) (fun _ => for_each f rest)
  end.

Declare Scope rs_scope.
Delimit Scope rs_scope with rs.

Notation "'let!' x ':=' m 'in' k" := (bind m (fun x => k))
  (at level 10, x name, m at level 100, k at level 200) : rs_scope.
Notation "'let?' x ':=' m 'in' k" := (bind_ok m (fun x => k))
  (at level 10, x name, m at level 100, k at level 200) : rs_scope.
Notation "'do!' m 'in' k" := (bind m (fun _ => k))
  (at level 10, m at level 100, k at level 200) : rs_scope.
Notation "'do?' m 'in' k" := (bind_ok m (fun _ => k))
  (at level 10, m at level 100, k at level 200) : rs_scope.
Notation "'let*' x ':=' m 'in' k" := (bind_awaited m (fun x => k))
  (at level 10, x name, m at level 100, k at level 200) : rs_scope.
Notation "'do*' m 'in' k" := (bind_awaited m (fun _ => k))
  (at level 10, m at level 100, k at level 200) : rs_scope.
Notation "m '.context' msg" := (st_map (context msg) m)
  (at level 90, msg at level 80, left associativity) : rs_scope.
Notation "'let^' x ':=' m 'in' k" := (rbind m (fun x => k))
  (at level 10, x name, m at level 100, k at level 200) : rs_scope.
Notation "'let$' x ':=' m 'in' k" := (obind m (fun x => k))
  (at level 10, x name, m at level 100, k at level 200) : rs_scope.

Open Scope rs_scope.

Lemma bind_eq {S A B} (m : ST S A) (k : A -> ST S B) s a s' :
  m s = (a, s') -> bind m k s = k a s'.
Proof. unfold bind. by intros ->. Qed.

Lemma bind_awaited_eq {S A B E} (m : ST S (option (result A E))) (k : A -> ST S (option (result B E))) s a s' :
  m s = (Some (Ok a), s') -> bind_awaited m k s = k a s'.
Proof. unfold bind_awaited, bind. by intros ->. Qed.

Lemma bind_ok_eq {S A B E} (m : ST S (result A E)) (k : A -> ST S (result B E)) s a s' :
  m s = (Ok a, s') -> bind_ok m k s = k a s'.
Proof. unfold bind_ok, bind. by intros ->. Qed.

Lemma bind_err_eq {S A B E} (m : ST S (result A E)) (k : A -> ST S (result B E)) s e s' :
  m s = (Err e, s') -> bind_ok m k s = (Err e, s').
Proof. unfold bind_ok, bind. by intros ->. Qed.

Lemma bind_assoc {S A B C} (m : ST S A) (k : A -> ST S B) (h : B -> ST S C) s :
  bind m (fun a => bind (k a) h) s = bind (bind m k) h s.
Proof. unfold bind. by destruct (m s). Qed.

Lemma bind_ok_unit {S E} (m : ST S (result unit E)) s : bind_ok m (fun _ => ret (Ok tt)) s = m s.
Proof. unfold bind_ok, bind, ret. by destruct (m s) as [[[]|e] s']. Qed.

(** Inversion of a run. *)
Lemma bind_inv {S A B} (m : ST S A) (k : A -> ST S B) s b s' :
  bind m k s = (b, s') -> exists a s1, m s = (a, s1) /\ k a s1 = (b, s').
Proof. unfold bind. destruct (m s) as [a s1]. by eauto. Qed.

Lemma bind_ok_inv {S A B E} (m : ST S (result A E)) (k : A -> ST S (result B E)) s b s' :
  bind_ok m k s = (Ok b, s') -> exists a s1, m s = (Ok a, s1) /\ k a s1 = (Ok b, s').
Proof. unfold bind_ok, bind. destruct (m s) as [[a|e] s1]; [by eauto|done]. Qed.

Lemma context_inv {S A} msg (m : ST S (result A error)) s a s' :
  st_map (context msg) m s = (Ok a, s') -> m s = (Ok a, s').
Proof. unfold st_map, bind. destruct (m s) as [[b|e] s1]; simpl; unfold ret; congruence. Qed.

(** ** Hoare triples for state passing *)

(** From every state that satisfies [P], [m] returns a value and a state that
    satisfy [Q]. *)
Definition hoare {S A} (P : S -> Prop) (m : ST S A) (Q : A -> S -> Prop) : Prop :=
  forall s, P s -> Q (m s).1 (m s).2.

Lemma hoare_ret {S A} (P : S -> Prop) (a : A) (Q : A -> S -> Prop) :
  (forall s, P s -> Q a s) -> hoare P (ret a) Q.
Proof. intros H s Hs. by apply H. Qed.

Lemma hoare_bind {S A B} (P : S -> Prop) (m : ST S A) (k : A -> ST S B) R Q :
  hoare P m R -> (forall a, hoare (R a) (k a) Q) -> hoare P (bind m k) Q.
Proof.
  intros Hm Hk s Hs. unfold bind. specialize (Hm s Hs). destruct (m s) as [a s'].
  apply (Hk a s' Hm).
Qed.

Lemma hoare_bind_ok {S A B E} (P : S -> Prop) (m : ST S (result A E)) (k : A -> ST S (result B E)) R Q :
  hoare P m R -> (forall a, hoare (R (Ok a)) (k a) Q) ->
  (forall e s, R (Err e) s -> Q (Err e) s) -> hoare P (bind_ok m k) Q.
Proof.
  intros Hm Hk He. unfold bind_ok. eapply hoare_bind; [exact Hm|].
  intros [a|e]; [apply Hk|]. intros s Hs. by apply He.
Qed.

Lemma hoare_conseq {S A} (P P' : S -> Prop) (m : ST S A) (Q Q' : A -> S -> Prop) :
  hoare P' m Q' -> (forall s, P s -> P' s) -> (forall a s, Q' a s -> Q a s) -> hoare P m Q.
Proof. intros Hm HP HQ s Hs. apply HQ, Hm, HP, Hs. Qed.

(** [m] leaves the observation [f] of the state alone. *)
Definition keeps {S A X} (f : S -> X) (m : ST S A) : Prop := forall s, f (m s).2 = f s.

Lemma keeps_ret {S A X} (f : S -> X) (a : A) : keeps f (ret a).
Proof. done. Qed.

Lemma keeps_bind {S A B X} (f : S -> X) (m : ST S A) (k : A -> ST S B) :
  keeps f m -> (forall a, keeps f (k a)) -> keeps f (bind m k).
Proof.
  intros Hm Hk s. unfold bind. specialize (Hm s). destruct (m s) as [a s'] eqn:E. simpl in Hm.
  rewrite <- Hm. apply Hk.
Qed.

Lemma keeps_bind_ok {S A B E X} (f : S -> X) (m : ST S (result A E)) (k : A -> ST S (result B E)) :
  keeps f m -> (forall a, keeps f (k a)) -> keeps f (bind_ok m k).
Proof. intros Hm Hk. apply keeps_bind; [done|]. intros [a|e]; [apply Hk|apply keeps_ret]. Qed.

Lemma keeps_bind_awaited {S A B E X} (f : S -> X) (m : ST S (option (result A E))) (k : A -> ST S (option (result B E))) :
  keeps f m -> (forall a, keeps f (k a)) -> keeps f (bind_awaited m k).
Proof. intros Hm Hk. apply keeps_bind; [done|]. intros [[a|e]|]; [apply Hk|apply keeps_ret..]. Qed.

Lemma keeps_st_map {S A B X} (f : S -> X) (g : A -> B) (m : ST S A) :
  keeps f m -> keeps f (st_map g m).
Proof. intros Hm. apply keeps_bind; [done|]. intros; apply keeps_ret. Qed.

Lemma keeps_hoare {S A X} (f : S -> X) (m : ST S A) x :
  keeps f m -> hoare (fun s => f s = x) m (fun _ s => f s = x).
Proof. intros Hm s <-. apply Hm. Qed.

(** * Machine integers *)

(** The value of a [u8]. *)
Definition u8 (b : byte) : Z := Z.of_N (Byte.to_N b).

(** [z as u8]: truncation to the low eight bits. *)
Definition to_u8 (z : Z) : byte :=
  match Byte.of_N (Z.to_N (z mod 256)) with
  | Some b => b
  | None => x00
  end.

Definition wrap16 (z : Z) : Z := z mod 2 ^ 16.
Definition wrap32 (z : Z) : Z := z mod 2 ^ 32.

(** [u16::from_be_bytes([a, b])] *)
Definition u16_be (a b : byte) : Z := u8 a * 256 + u8 b.

(** [n.to_be_bytes()] for [n : u16] *)
Definition be_u16 (n : Z) : list byte := [to_u8 (n / 256); to_u8 n].

Lemma u8_range b : 0 <= u8 b < 256.
Proof.
  unfold u8. pose proof (Byte.to_N_bounded b). split; [lia|].
  enough (Byte.to_N b < 256)%N by lia. lia.
Qed.

Lemma u8_to_u8 z : u8 (to_u8 z) = z mod 256.
Proof.
  unfold u8, to_u8. pose proof (Z.mod_pos_bound z 256 ltac:(lia)) as Hb.
  destruct (Byte.of_N (Z.to_N (z mod 256))) as [b|] eqn:E.
  - apply Byte.to_of_N in E. rewrite E. lia.
  - apply Byte.of_N_None_iff in E. lia.
Qed.

Lemma u8_inj a b : u8 a = u8 b -> a = b.
Proof.
  unfold u8. intros H. apply N2Z.inj in H.
  pose proof (Byte.of_to_N a) as Ha. pose proof (Byte.of_to_N b) as Hb.
  rewrite H in Ha. congruence.
Qed.

Lemma to_u8_u8 b : to_u8 (u8 b) = b.
Proof. apply u8_inj. rewrite u8_to_u8. pose proof (u8_range b). by rewrite Z.mod_small. Qed.

Lemma u16_be_range a b : 0 <= u16_be a b < 2 ^ 16.
Proof. unfold u16_be. pose proof (u8_range a). pose proof (u8_range b). lia. Qed.

Lemma u16_be_be_u16 n :
  0 <= n < 2 ^ 16 -> exists a b, be_u16 n = [a; b] /\ u16_be a b = n.
Proof.
  intros Hn. do 2 eexists. split; [reflexivity|].
  unfold u16_be. rewrite !u8_to_u8.
  rewrite (Z.mod_small (n / 256)); [|split; [apply Z.div_pos; lia|apply Z.div_lt_upper_bound; lia]].
  pose proof (Z.div_mod n 256 ltac:(lia)). lia.
Qed.

#[export] Instance byte_eq_decision : EqDecision byte := Byte.byte_eq_dec.

(** * Indexing and slicing as Rust does it *)

(** [buf[i]]: panics out of range. *)
Definition idx {A} (buf : list A) (i : nat) : outcome A :=
  match buf !! i with
  | Some b => Done b
  | None => Panic
  end.

(** [&buf[a..b]]: panics when [a > b] or [b > buf.len()]. *)
Definition slice {A} (buf : list A) (a b : nat) : outcome (list A) :=
  if (a <=? b)%nat && (b <=? length buf)%nat then Done (take (b - a) (drop a buf)) else Panic.

Lemma idx_lt {A} (buf : list A) i : (i < length buf)%nat -> exists x, idx buf i = Done x /\ buf !! i = Some x.
Proof. intros H. destruct (lookup_lt_is_Some_2 _ _ H) as [x Hx]. exists x. unfold idx. by rewrite Hx. Qed.

Lemma idx_ge {A} (buf : list A) i : (length buf <= i)%nat -> idx buf i = Panic.
Proof. intros H. unfold idx. by rewrite lookup_ge_None_2. Qed.

Lemma slice_ok {A} (buf : list A) a b :
  (a <= b)%nat -> (b <= length buf)%nat -> slice buf a b = Done (take (b - a) (drop a buf)).
Proof.
  intros H1 H2. unfold slice.
  by rewrite (proj2 (Nat.leb_le a b) H1), (proj2 (Nat.leb_le b (length buf)) H2).
Qed.

(** [&buf[a..buf.len().min(a + n)]] *)
Lemma slice_min {A} (buf : list A) a n :
  (a <= length buf)%nat -> slice buf a (Nat.min (length buf) (a + n)) = Done (take n (drop a buf)).
Proof.
  intros Ha. rewrite slice_ok by lia. f_equal. destruct (decide (a + n <= length buf)%nat).
  - f_equal. lia.
  - rewrite !take_ge by (rewrite length_drop; lia). done.
Qed.

Lemma Forall_removelast {A} (P : A -> Prop) (l : list A) : Forall P l -> Forall P (removelast l).
Proof.
  induction l as [|x l IH]; [done|]. intros Hl. inversion Hl; subst. destruct l; [constructor|].
  constructor; auto.
Qed.

(** * Strings *)

Lemma sapp_nil (s : string) : (EmptyString +:+ s)%string = s.
Proof. reflexivity. Qed.

Lemma sapp_cons c (s t : string) : (String c s +:+ t)%string = String c (s +:+ t).
Proof. reflexivity. Qed.

Lemma sapp_nil_r (s : string) : (s +:+ EmptyString)%string = s.
Proof. induction s as [|c s IH]; [done|]. by rewrite sapp_cons, IH. Qed.

Lemma sapp_assoc (s t u : string) : ((s +:+ t) +:+ u)%string = (s +:+ (t +:+ u))%string.
Proof. induction s as [|c s IH]; [done|]. by rewrite !sapp_cons, IH. Qed.

Lemma slength_app (s t : string) : String.length (s +:+ t) = (String.length s + String.length t)%nat.
Proof. induction s as [|c s IH]; [done|]. rewrite sapp_cons. simpl. by rewrite IH. Qed.

(** * Automation *)

Create HintDb rs.
Create Rewrite HintDb rs.
#[export] Hint Resolve u8_range u16_be_range : rs.
#[export] Hint Resolve keeps_ret keeps_bind keeps_bind_ok keeps_bind_awaited keeps_st_map : rs.
#[export] Hint Rewrite sapp_nil sapp_cons sapp_nil_r @is_ok_context @is_ok_map_err u8_to_u8 to_u8_u8 : rs.

(** Case analysis on every [match] whose scrutinee is a variable-headed term of
    the goal, keeping the equation. *)
Ltac case_res :=
  match goal with
  | |- context [match ?x with Ok _ => _ | Err _ => _ end] => destruct x eqn:?
  | |- context [if ?b then _ else _] => destruct b eqn:?
  | |- context [match ?x with Some _ => _ | None => _ end] => destruct x eqn:?
  end.

Ltac simp_eq := repeat (progress simplify_eq/= || case_res).

(** Unfold the monad on a concrete run. *)
Ltac run_st := unfold bind_ok, st_map, bind, ret in *.
