(* ===== verification/RustStr.v ===== *)
(** The string routines of the Rust standard library the program calls.  A Rust
    [&str]/[String] is its UTF-8 bytes, held in a [string] (an [ascii] is one
    byte): [len()] is [String.length], slicing is by byte offset, and the
    character-level routines ([trim], [split_whitespace], [lines], ...)
    recognise the UTF-8 encodings they look for. *)

From S2P Require Import Prelude.
From Stdlib Require Import ZArith Lia Ascii String.
From Stdlib Require Import Strings.Byte.
From Stdlib Require DecimalString HexadecimalString DecimalZ.
From stdpp Require Import base gmap strings list.

Open Scope Z_scope.

(** The value of one byte of a string. *)
Definition code (c : ascii) : Z := Z.of_N (N_of_ascii c).

(** A byte buffer read as a string, and back. *)
Definition str_of_bytes (bs : list byte) : string := string_of_list_byte bs.
Definition bytes_of_str (s : string) : list byte := list_byte_of_string s.

Lemma bytes_of_str_of_bytes bs : bytes_of_str (str_of_bytes bs) = bs.
Proof. apply list_byte_of_string_of_list_byte. Qed.

Lemma str_of_bytes_of_str s : str_of_bytes (bytes_of_str s) = s.
Proof. apply string_of_list_byte_of_string. Qed.

Lemma length_bytes_of_str s : length (bytes_of_str s) = String.length s.
Proof.
  unfold bytes_of_str, list_byte_of_string. rewrite length_map. induction s as [|c s IH]; simpl; [done|]. by rewrite IH.
Qed.

Lemma str_of_bytes_app xs ys :
  str_of_bytes (xs ++ ys) = (str_of_bytes xs +:+ str_of_bytes ys)%string.
Proof.
  induction xs as [|x xs IH]; [done|]. change (str_of_bytes ((x :: xs) ++ ys)) with
    (String (ascii_of_byte x) (str_of_bytes (xs ++ ys))). by rewrite IH.
Qed.

(** * UTF-8 *)

Definition in_range (lo hi : Z) (b : byte) : bool := (lo <=? u8 b) && (u8 b <=? hi).

(** A continuation byte: [b & 0xC0 == 0x80]. *)
Definition is_cont (b : byte) : bool := in_range 128 191 b.

(** Is [b2] a legal second byte after the leading byte [b1]? *)
Definition second_ok (b1 b2 : byte) : bool :=
  if u8 b1 =? 224 then in_range 160 191 b2
  else if u8 b1 =? 237 then in_range 128 159 b2
  else if u8 b1 =? 240 then in_range 144 191 b2
  else if u8 b1 =? 244 then in_range 128 143 b2
  else is_cont b2.

(** Number of bytes of the character a leading byte announces (0: none). *)
Definition char_width (b : byte) : nat :=
  if in_range 0 127 b then 1
  else if in_range 194 223 b then 2
  else if in_range 224 239 b then 3
  else if in_range 240 244 b then 4
  else 0.

(** One step of the decoder: [(true, n)] when the buffer starts with a well
    formed character of [n] bytes, [(false, n)] when its first [n] bytes are
    the maximal ill-formed prefix that is replaced as one. *)
Definition utf8_step (b : byte) (rest : list byte) : bool * nat :=
  match char_width b with
  | 1%nat => (true, 1%nat)
  | 2%nat => match rest with
             | b2 :: _ => if second_ok b b2 then (true, 2%nat) else (false, 1%nat)
             | [] => (false, 1%nat)
             end
  | 3%nat => match rest with
             | b2 :: r2 =>
                 if second_ok b b2 then
                   match r2 with
                   | b3 :: _ => if is_cont b3 then (true, 3%nat) else (false, 2%nat)
                   | [] => (false, 2%nat)
                   end
                 else (false, 1%nat)
             | [] => (false, 1%nat)
             end
  | 4%nat => match rest with
             | b2 :: r2 =>
                 if second_ok b b2 then
                   match r2 with
                   | b3 :: r3 =>
                       if is_cont b3 then
                         match r3 with
                         | b4 :: _ => if is_cont b4 then (true, 4%nat) else (false, 3%nat)
                         | [] => (false, 3%nat)
                         end
                       else (false, 2%nat)
                   | [] => (false, 2%nat)
                   end
                 else (false, 1%nat)
             | [] => (false, 1%nat)
             end
  | _ => (false, 1%nat)
  end.

(** Chunks of a buffer: well-formed characters and ill-formed prefixes.
    Every chunk has at least one byte, so [length bs] steps suffice. *)
Fixpoint utf8_chunks (fuel : nat) (bs : list byte) : list (bool * list byte) :=
  match fuel, bs with
  | S fuel, b :: rest =>
      let '(ok, n) := utf8_step b rest in
      (ok, take n bs) :: utf8_chunks fuel (drop n bs)
  | _, _ => []
  end.

Definition chunks (bs : list byte) : list (bool * list byte) := utf8_chunks (length bs) bs.

(** U+FFFD REPLACEMENT CHARACTER *)
Definition replacement : list byte := [xef; xbf; xbd].

(** [String::from_utf8_lossy(bs)] *)
Definition from_utf8_lossy (bs : list byte) : string :=
  str_of_bytes (mjoin ((fun ch : bool * list byte => if ch.1 then ch.2 else replacement) <$> chunks bs)).

(** [std::str::from_utf8(bs)] and [String::from_utf8(bs)] succeed *)
Definition utf8_valid (bs : list byte) : bool := forallb fst (chunks bs).

Definition from_utf8 (bs : list byte) : option string :=
  if utf8_valid bs then Some (str_of_bytes bs) else None.

Lemma utf8_step_pos b rest : (1 <= (utf8_step b rest).2)%nat.
Proof. unfold utf8_step. repeat (case_match; simpl; try lia). Qed.

Lemma utf8_chunks_concat fuel bs :
  (length bs <= fuel)%nat -> mjoin (snd <$> utf8_chunks fuel bs) = bs.
Proof.
  revert bs. induction fuel as [|fuel IH]; intros [|b rest] Hlen; try done; simpl in *; [lia|].
  pose proof (utf8_step_pos b rest) as Hpos.
  destruct (utf8_step b rest) as [ok n] eqn:E; simpl in *.
  destruct n as [|n]; [lia|]. simpl. f_equal.
  rewrite IH; [apply take_drop|]. rewrite length_drop. lia.
Qed.

(** Valid text is unchanged by the lossy conversion. *)
Lemma from_utf8_lossy_valid bs : utf8_valid bs = true -> from_utf8_lossy bs = str_of_bytes bs.
Proof.
  unfold utf8_valid, from_utf8_lossy. intros H. f_equal.
  rewrite <- (utf8_chunks_concat (length bs) bs) at 2 by done. unfold chunks in *. f_equal.
  apply list_fmap_ext. intros i [ok c] Hi.
  rewrite forallb_forall in H.
  assert (ok = true) as ->; [|done].
  apply (H (ok, c)). apply list_elem_of_In. by eapply list_elem_of_lookup_2.
Qed.

Definition is_ascii (b : byte) : bool := in_range 0 127 b.

Lemma utf8_valid_ascii bs : forallb is_ascii bs = true -> utf8_valid bs = true.
Proof.
  unfold utf8_valid, chunks.
  enough (H : forall fuel bs, forallb is_ascii bs = true -> forallb fst (utf8_chunks fuel bs) = true) by apply H.
  clear. induction fuel as [|fuel IH]; intros [|b rest]; try done. simpl.
  intros [Hb Hr]%andb_prop. unfold utf8_step, char_width.
  unfold is_ascii in Hb. rewrite Hb. simpl. by apply IH.
Qed.

(** * Prefixes and white space *)

(** [s.strip_prefix(p)] *)
Fixpoint strip_prefix (p s : string) : option string :=
  match p, s with
  | EmptyString, _ => Some s
  | String a p', String b s' => if Ascii.eqb a b then strip_prefix p' s' else None
  | String _ _, EmptyString => None
  end.

(** [s.starts_with(p)] *)
Definition starts_with (p s : string) : bool :=
  match strip_prefix p s with Some _ => true | None => false end.

(** Number of bytes of the [char::is_whitespace] character a string starts
    with, 0 when it starts with none. *)
Definition ws_len (s : string) : nat :=
  match s with
  | EmptyString => 0
  | String a s1 =>
      let x := code a in
      if ((9 <=? x) && (x <=? 13)) || (x =? 32) then 1
      else match s1 with
           | EmptyString => 0
           | String b s2 =>
               let y := code b in
               if (x =? 194) && ((y =? 133) || (y =? 160)) then 2
               else match s2 with
                    | EmptyString => 0
                    | String c _ =>
                        let z := code c in
                        if ((x =? 225) && (y =? 154) && (z =? 128))
                           || ((x =? 226) && (y =? 128)
                               && (((128 <=? z) && (z <=? 138)) || (z =? 168) || (z =? 169) || (z =? 175)))
                           || ((x =? 226) && (y =? 129) && (z =? 159))
                           || ((x =? 227) && (y =? 128) && (z =? 128))
                        then 3 else 0
                    end
           end
  end.

(** [(token in progress, later tokens)] of [s.split_whitespace()], after
    skipping [skip] bytes of a white-space character. *)
Fixpoint split_ws (skip : nat) (s : string) : string * list string :=
  match s with
  | EmptyString => (EmptyString, [])
  | String c s' =>
      match skip with
      | S k => split_ws k s'
      | O => match ws_len s with
             | O => let '(t, ts) := split_ws 0 s' in (String c t, ts)
             | S k => let '(t, ts) := split_ws k s' in
                      (EmptyString, match t with EmptyString => ts | _ => t :: ts end)
             end
      end
  end.

(** [s.split_whitespace().collect()] *)
Definition split_whitespace (s : string) : list string :=
  let '(t, ts) := split_ws 0 s in
  match t with EmptyString => ts | _ => t :: ts end.

(** [s.trim_start()] *)
Fixpoint trim_start_aux (skip : nat) (s : string) : string :=
  match s with
  | EmptyString => EmptyString
  | String _ s' =>
      match skip with
      | S k => trim_start_aux k s'
      | O => match ws_len s with
             | O => s
             | S k => trim_start_aux k s'
             end
      end
  end.
Definition trim_start (s : string) : string := trim_start_aux 0 s.

(** Is the whole of [s] white space? *)
Definition all_ws (s : string) : bool := String.eqb (trim_start s) EmptyString.

(** [s.trim_end()]: cut at the first character from which only white space
    follows. *)
Fixpoint trim_end (s : string) : string :=
  if all_ws s then EmptyString
  else match s with
       | EmptyString => EmptyString
       | String c s' => String c (trim_end s')
       end.

(** [s.trim()] *)
Definition trim (s : string) : string := trim_end (trim_start s).

(** * Searching and splitting *)

(** The pieces of [s.split(p)], the current one first, after skipping the rest of
    a match; [p] is not empty. *)
Fixpoint split_aux (p : string) (skip : nat) (s : string) : string * list string :=
  match s with
  | EmptyString => (EmptyString, [])
  | String c s' =>
      match skip with
      | S k => split_aux p k s'
      | O =>
          if starts_with p s
          then let '(t, ts) := split_aux p (String.length p - 1) s' in (EmptyString, t :: ts)
          else let '(t, ts) := split_aux p 0 s' in (String c t, ts)
      end
  end.

(** [s.split(p)] for a non-empty text or character [p] *)
Definition split_str (p s : string) : list string := let '(t, ts) := split_aux p 0 s in t :: ts.

(** [s.contains(p)] *)
Fixpoint contains (p s : string) : bool :=
  starts_with p s || match s with EmptyString => false | String _ s' => contains p s' end.

Definition nl : string := String "010" EmptyString.

(** One trailing carriage return removed. *)
Fixpoint strip_cr (s : string) : string :=
  match s with
  | EmptyString => EmptyString
  | String c EmptyString => if Ascii.eqb c "013" then EmptyString else s
  | String c s' => String c (strip_cr s')
  end.

(** The lines among the pieces between newlines: each ends at its newline, with a
    carriage return before it removed; the last piece, which no newline ends, is a
    line if it is not empty. *)
Fixpoint lines_of (pieces : list string) : list string :=
  match pieces with
  | [] => []
  | [last] => if String.eqb last EmptyString then [] else [last]
  | p :: rest => strip_cr p :: lines_of rest
  end.

(** [s.lines()] *)
Definition lines (s : string) : list string := lines_of (split_str nl s).

(** [s.to_ascii_lowercase()]; for ASCII text also [s.to_lowercase()] *)
Definition lower_ascii (c : ascii) : ascii :=
  if (65 <=? code c) && (code c <=? 90) then ascii_of_N (Z.to_N (code c + 32)) else c.
Fixpoint to_ascii_lowercase (s : string) : string :=
  match s with EmptyString => EmptyString | String c s' => String (lower_ascii c) (to_ascii_lowercase s') end.

(** [s.eq_ignore_ascii_case(t)] *)
Definition eq_ignore_ascii_case (s t : string) : bool := String.eqb (to_ascii_lowercase s) (to_ascii_lowercase t).

(** [parts.join(sep)] *)
Fixpoint str_join (sep : string) (parts : list string) : string :=
  match parts with
  | [] => EmptyString
  | [p] => p
  | p :: rest => p +:+ sep +:+ str_join sep rest
  end.

Example split_str_ex :
  split_str ":" "a:b:" = ["a"; "b"; ""]%string /\ split_str (nl +:+ nl) ("x" +:+ nl +:+ nl +:+ nl) = ["x"%string; nl] /\
  lines ("a" +:+ String "013" nl +:+ "b" +:+ nl) = ["a"; "b"]%string /\ contains "vent" "event" = true /\
  eq_ignore_ascii_case "API.x" "api.X" = true.
Proof. by vm_compute. Qed.

(** * Numbers *)

(** [format!("{z}")] of an integer *)
Definition show_Z (z : Z) : string := DecimalString.NilEmpty.string_of_int (Z.to_int z).

(** [format!("{n:x}")] of an unsigned integer *)
Definition show_hex (n : Z) : string := HexadecimalString.NilEmpty.string_of_uint (N.to_hex_uint (Z.to_N n)).

Example show_Z_ex : show_Z 10053 = "10053"%string /\ show_Z 0 = "0"%string /\ show_hex 48879 = "beef"%string.
Proof. by vm_compute. Qed.

(** A printable, white-space free ASCII byte. *)
Definition graphic (c : ascii) : bool := (33 <=? code c) && (code c <=? 126).
Definition all_graphic (s : string) : bool := forallb graphic (list_ascii_of_string s).

Lemma all_graphic_app s t : all_graphic (s +:+ t) = all_graphic s && all_graphic t.
Proof.
  unfold all_graphic. induction s as [|c s IH]; [done|].
  rewrite sapp_cons. simpl. rewrite IH. by rewrite andb_assoc.
Qed.

Lemma graphic_ws_len c s : graphic c = true -> ws_len (String c s) = 0%nat.
Proof.
  unfold graphic. intros [H1 H2]%andb_prop. rewrite Z.leb_le in H1, H2. simpl.
  repeat (case_match; rewrite ?orb_true_iff, ?andb_true_iff, ?Z.leb_le, ?Z.eqb_eq in *; try lia).
Qed.

Lemma split_ws_graphic t s :
  all_graphic t = true ->
  split_ws 0 (t +:+ s) = (t +:+ (split_ws 0 s).1, (split_ws 0 s).2)%string.
Proof.
  unfold all_graphic. induction t as [|c t IH].
  - intros _. rewrite !sapp_nil. by destruct (split_ws 0 s) as [? ?].
  - cbn [list_ascii_of_string forallb]. intros [Hc Ht]%andb_prop.
    rewrite !sapp_cons. cbn [split_ws]. rewrite (graphic_ws_len c (t +:+ s) Hc), (IH Ht). done.
Qed.

(** A token followed by a space is the first token of the line. *)
Lemma split_whitespace_token t s :
  all_graphic t = true -> t <> EmptyString ->
  split_whitespace (t +:+ String " " s) = t :: split_whitespace s.
Proof.
  intros Ht Hne. unfold split_whitespace. rewrite split_ws_graphic by done. simpl.
  destruct (split_ws 0 s) as [u us]. simpl. rewrite sapp_nil_r.
  by destruct t.
Qed.

Lemma string_of_uint_graphic u : all_graphic (DecimalString.NilEmpty.string_of_uint u) = true.
Proof. induction u; simpl; try done. Qed.

Lemma show_Z_graphic z : all_graphic (show_Z z) = true.
Proof.
  unfold show_Z. destruct (Z.to_int z) as [u|u]; simpl; [apply string_of_uint_graphic|].
  apply (string_of_uint_graphic u).
Qed.
