(* ===== verification/Addr.v ===== *)
(** IP addresses as [std::net] has them: the types, [u32::from] and
    [Ipv4Addr::from], [Display] and [FromStr].  The parser follows the standard
    library's recursive-descent reader over the remaining input. *)

From S2P Require Import Prelude RustStr.
From Stdlib Require Import ZArith Lia Ascii String.
From Stdlib Require Import Strings.Byte.
From stdpp Require Import base gmap strings list.

Open Scope Z_scope.

(** * Types *)

Record Ipv4Addr : Type := mkIpv4 { oct_a : byte; oct_b : byte; oct_c : byte; oct_d : byte }.

(** Eight 16-bit segments. *)
Record Ipv6Addr : Type := mkIpv6 { segments : list Z }.

Inductive IpAddr : Type :=
| V4 (a : Ipv4Addr)
| V6 (a : Ipv6Addr).

Record SocketAddr : Type := mkSocketAddr { sa_ip : IpAddr; sa_port : Z }.

#[export] Instance Ipv4Addr_eq_dec : EqDecision Ipv4Addr.
Proof. solve_decision. Defined.
#[export] Instance Ipv6Addr_eq_dec : EqDecision Ipv6Addr.
Proof. solve_decision. Defined.
#[export] Instance IpAddr_eq_dec : EqDecision IpAddr.
Proof. solve_decision. Defined.

(** [Ipv4Addr::new(a, b, c, d)] *)
Definition ipv4 (a b c d : Z) : Ipv4Addr := mkIpv4 (to_u8 a) (to_u8 b) (to_u8 c) (to_u8 d).

(** [u32::from(ip)] *)
Definition u32_of_ipv4 (ip : Ipv4Addr) : Z :=
  ((u8 (oct_a ip) * 256 + u8 (oct_b ip)) * 256 + u8 (oct_c ip)) * 256 + u8 (oct_d ip).

(** [Ipv4Addr::from(n)] *)
Definition ipv4_of_u32 (n : Z) : Ipv4Addr :=
  mkIpv4 (to_u8 (n / 2 ^ 24)) (to_u8 (n / 2 ^ 16)) (to_u8 (n / 2 ^ 8)) (to_u8 n).

Lemma u32_of_ipv4_range ip : 0 <= u32_of_ipv4 ip < 2 ^ 32.
Proof.
  unfold u32_of_ipv4.
  pose proof (u8_range (oct_a ip)). pose proof (u8_range (oct_b ip)).
  pose proof (u8_range (oct_c ip)). pose proof (u8_range (oct_d ip)). lia.
Qed.

Lemma u32_of_ipv4_of_u32 n : 0 <= n < 2 ^ 32 -> u32_of_ipv4 (ipv4_of_u32 n) = n.
Proof.
  intros Hn. unfold u32_of_ipv4, ipv4_of_u32; simpl oct_a; simpl oct_b; simpl oct_c; simpl oct_d.
  rewrite !u8_to_u8. change (2 ^ 24) with (256 * 256 * 256). change (2 ^ 16) with (256 * 256).
  change (2 ^ 8) with 256. rewrite <- !Z.div_div by lia.
  pose proof (Z.div_mod n 256 ltac:(lia)). pose proof (Z.div_mod (n / 256) 256 ltac:(lia)).
  pose proof (Z.div_mod (n / 256 / 256) 256 ltac:(lia)).
  rewrite (Z.mod_small (n / 256 / 256 / 256)); [lia|].
  rewrite !Z.div_div by lia. split; [apply Z.div_pos; lia|apply Z.div_lt_upper_bound; lia].
Qed.

Lemma u32_of_ipv4_inj a b : u32_of_ipv4 a = u32_of_ipv4 b -> a = b.
Proof.
  destruct a as [a1 a2 a3 a4], b as [b1 b2 b3 b4]. unfold u32_of_ipv4; simpl. intros H.
  pose proof (u8_range a1). pose proof (u8_range a2). pose proof (u8_range a3). pose proof (u8_range a4).
  pose proof (u8_range b1). pose proof (u8_range b2). pose proof (u8_range b3). pose proof (u8_range b4).
  f_equal; apply u8_inj; lia.
Qed.

Lemma ipv4_of_u32_of_ipv4 ip : ipv4_of_u32 (u32_of_ipv4 ip) = ip.
Proof. apply u32_of_ipv4_inj, u32_of_ipv4_of_u32, u32_of_ipv4_range. Qed.

(** * Display *)

Open Scope string_scope.

Definition show_ipv4 (ip : Ipv4Addr) : string :=
  show_Z (u8 (oct_a ip)) +:+ "." +:+ show_Z (u8 (oct_b ip)) +:+ "."
    +:+ show_Z (u8 (oct_c ip)) +:+ "." +:+ show_Z (u8 (oct_d ip)).

(** [segs] joined with [":"] in lower-case hexadecimal. *)
Fixpoint show_segs (segs : list Z) : string :=
  match segs with
  | [] => ""
  | [s] => show_hex s
  | s :: rest => show_hex s +:+ ":" +:+ show_segs rest
  end.

(** Longest run of zero segments, first one on a tie: [(start, length)]. *)
Fixpoint longest_zeros (i : nat) (cur best : nat * nat) (segs : list Z) : nat * nat :=
  match segs with
  | [] => best
  | s :: rest =>
      if (s =? 0)%Z then
        let cur := ((if (cur.2 =? 0)%nat then i else cur.1), S cur.2) in
        longest_zeros (S i) cur (if (best.2 <? cur.2)%nat then cur else best) rest
      else longest_zeros (S i) (0, 0)%nat best rest
  end.

(** [ip.to_ipv4_mapped()] *)
Definition to_ipv4_mapped (ip : Ipv6Addr) : option Ipv4Addr :=
  match segments ip with
  | [0; 0; 0; 0; 0; 65535; ab; cd]%Z => Some (ipv4 (ab / 256) ab (cd / 256) cd)
  | _ => None
  end.

Definition show_ipv6 (ip : Ipv6Addr) : string :=
  match to_ipv4_mapped ip with
  | Some v4 => "::ffff:" +:+ show_ipv4 v4
  | None =>
      let '(start, len) := longest_zeros 0 (0, 0)%nat (0, 0)%nat (segments ip) in
      if (1 <? len)%nat
      then show_segs (take start (segments ip)) +:+ "::" +:+ show_segs (drop (start + len) (segments ip))
      else show_segs (segments ip)
  end.

(** [ip.to_string()] *)
Definition show_ip (ip : IpAddr) : string :=
  match ip with
  | V4 a => show_ipv4 a
  | V6 a => show_ipv6 a
  end.

(** * Parsing *)

(** [c.to_digit(radix)] *)
Definition to_digit (radix : Z) (c : ascii) : option Z :=
  let x := code c in
  let d := if ((48 <=? x) && (x <=? 57))%Z then x - 48
           else if ((97 <=? x) && (x <=? 122))%Z then x - 87
           else if ((65 <=? x) && (x <=? 90))%Z then x - 55
           else 99 in
  if (d <? radix)%Z then Some d else None.

(** The digits of [read_number]: value, how many, rest; [None] on overflow of
    [max_value] or on more than [max_digits] digits. *)
Fixpoint read_digits (radix max_value : Z) (max_digits count : nat) (acc : Z) (s : string)
  : option (Z * nat * string) :=
  match s with
  | EmptyString => Some (acc, count, s)
  | String c s' =>
      match to_digit radix c with
      | None => Some (acc, count, s)
      | Some d =>
          let acc' := (acc * radix + d)%Z in
          if (max_value <? acc')%Z then None
          else if (max_digits <? S count)%nat then None
          else read_digits radix max_value max_digits (S count) acc' s'
      end
  end.

Definition read_number (radix max_value : Z) (max_digits : nat) (allow_zero_prefix : bool)
    (s : string) : option (Z * string) :=
  match read_digits radix max_value max_digits 0 0 s with
  | None => None
  | Some (n, count, rest) =>
      if (count =? 0)%nat then None
      else if negb allow_zero_prefix && starts_with "0" s && (1 <? count)%nat then None
      else Some (n, rest)
  end.

Definition read_given_char (c : ascii) (s : string) : option string :=
  match s with
  | String d s' => if Ascii.eqb c d then Some s' else None
  | EmptyString => None
  end.

(** [p.read_separator(sep, index, inner)] *)
Definition read_separator {A} (sep : ascii) (index : nat) (inner : string -> option (A * string))
    (s : string) : option (A * string) :=
  if (index =? 0)%nat then inner s
  else match read_given_char sep s with
       | Some s' => inner s'
       | None => None
       end.

Definition read_octet (s : string) : option (Z * string) := read_number 10 255 3 false s.

Definition read_ipv4_addr (s : string) : option (Ipv4Addr * string) :=
  '(a, s) ← read_separator "." 0 read_octet s;
  '(b, s) ← read_separator "." 1 read_octet s;
  '(c, s) ← read_separator "." 2 read_octet s;
  '(d, s) ← read_separator "." 3 read_octet s;
  Some (ipv4 a b c d, s).

(** [read_groups]: up to [limit - i] groups from the [i]-th on; the groups read,
    whether the last two came from an embedded IPv4 address, and the rest. *)
Fixpoint read_groups (todo i : nat) (s : string) : list Z * bool * string :=
  match todo with
  | O => ([], false, s)
  | S todo' =>
      let embedded := if (0 <? todo')%nat then read_separator ":" i read_ipv4_addr s else None in
      match embedded with
      | Some (v4, rest) =>
          ([u16_be (oct_a v4) (oct_b v4); u16_be (oct_c v4) (oct_d v4)], true, rest)
      | None =>
          match read_separator ":" i (read_number 16 65535 4 true) s with
          | Some (g, rest) =>
              let '(gs, v4, rest') := read_groups todo' (S i) rest in (g :: gs, v4, rest')
          | None => ([], false, s)
          end
      end
  end.

Definition read_ipv6_addr (s : string) : option (Ipv6Addr * string) :=
  let '(head, head_ipv4, s) := read_groups 8 0 s in
  if (length head =? 8)%nat then Some (mkIpv6 head, s)
  else if head_ipv4 then None
  else
    s ← read_given_char ":" s;
    s ← read_given_char ":" s;
    let '(tail, _, s) := read_groups (8 - (length head + 1)) 0 s in
    Some (mkIpv6 (head ++ replicate (8 - length head - length tail) 0%Z ++ tail), s).

(** [s.parse::<IpAddr>()] *)
Definition parse_ip (s : string) : option IpAddr :=
  match read_ipv4_addr s with
  | Some (a, rest) => match rest with EmptyString => Some (V4 a) | _ => None end
  | None =>
      match read_ipv6_addr s with
      | Some (a, rest) => match rest with EmptyString => Some (V6 a) | _ => None end
      | None => None
      end
  end.

Example parse_ip_ex :
  parse_ip "192.168.100.2" = Some (V4 (ipv4 192 168 100 2)) /\
  parse_ip "not-an-ip" = None /\ parse_ip "1.2.3.04" = None /\ parse_ip "1.2.3.256" = None /\
  parse_ip "fe80::1:2" = Some (V6 (mkIpv6 [65152; 0; 0; 0; 0; 0; 1; 2]%Z)) /\
  show_ip (V6 (mkIpv6 [65152; 0; 0; 0; 0; 0; 1; 2]%Z)) = "fe80::1:2" /\
  show_ip (V4 (ipv4 192 168 100 2)) = "192.168.100.2".
Proof. by vm_compute. Qed.

(** * The IPv4 round trip *)

(** A string that cannot continue a decimal number. *)
Definition no_digit_head (s : string) : Prop :=
  match s with
  | EmptyString => True
  | String c _ => to_digit 10 c = None
  end.

Lemma read_digits_app radix mx k s t : forall c a n c',
  (match s with EmptyString => True | String d _ => to_digit radix d = None end) ->
  read_digits radix mx k c a t = Some (n, c', EmptyString) ->
  read_digits radix mx k c a (t +:+ s) = Some (n, c', s).
Proof.
  induction t as [|d t IH]; intros c a n c' Hs; simpl.
  - intros [= -> ->]. destruct s as [|e s]; [done|]. rewrite sapp_nil. simpl. by rewrite Hs.
  - destruct (to_digit radix d); [|done].
    destruct (mx <? _)%Z; [done|]. destruct (k <? _)%nat; [done|]. by apply IH.
Qed.

Lemma read_octet_show b s :
  no_digit_head s -> read_octet (show_Z (u8 b) +:+ s) = Some (u8 b, s).
Proof.
  intros Hs. unfold read_octet, read_number.
  rewrite (read_digits_app 10 255 3 s (show_Z (u8 b)) 0 0 (u8 b) (String.length (show_Z (u8 b)))).
  - destruct b; vm_compute; reflexivity.
  - by destruct s.
  - destruct b; vm_compute; reflexivity.
Qed.

Lemma read_ipv4_show ip s :
  no_digit_head s -> read_ipv4_addr (show_ipv4 ip +:+ s) = Some (ip, s).
Proof.
  intros Hs. unfold read_ipv4_addr, show_ipv4, read_separator.
  rewrite !sapp_assoc. cbn [Nat.eqb]. rewrite (read_octet_show (oct_a ip)) by done. simpl.
  rewrite ?sapp_cons, ?sapp_nil. simpl.
  rewrite (read_octet_show (oct_b ip)) by done. simpl. rewrite ?sapp_cons, ?sapp_nil. simpl.
  rewrite (read_octet_show (oct_c ip)) by done. simpl. rewrite ?sapp_cons, ?sapp_nil. simpl.
  rewrite (read_octet_show (oct_d ip)) by done. simpl.
  unfold ipv4. rewrite !to_u8_u8. by destruct ip.
Qed.

(** Parsing what [Display] prints gives the address back. *)
Lemma parse_ip_show_v4 ip : parse_ip (show_ip (V4 ip)) = Some (V4 ip).
Proof.
  unfold parse_ip, show_ip. rewrite <- (sapp_nil_r (show_ipv4 ip)).
  by rewrite read_ipv4_show.
Qed.

Lemma show_ipv4_inj a b : show_ipv4 a = show_ipv4 b -> a = b.
Proof.
  intros H. pose proof (parse_ip_show_v4 a) as Ha. pose proof (parse_ip_show_v4 b) as Hb.
  simpl in Ha, Hb. rewrite H in Ha. congruence.
Qed.

Lemma show_ipv4_graphic ip : all_graphic (show_ipv4 ip) = true.
Proof. unfold show_ipv4. by rewrite !all_graphic_app, !show_Z_graphic. Qed.
