(* ===== verification/World.v ===== *)
(** The outside world, as the program reaches it: one class of operations per
    foreign interface (the operating system, the [iptables] and [rtnetlink]
    crates, Firecracker's HTTP API, the guest agent, clocks and random ids).
    Nothing is assumed about the operations here: a world [W] is whatever state
    lies behind them, and every call may answer anything.  What a component
    relies on is stated as a class of laws next to the component that needs it,
    and [SimWorld] builds a world in which all the laws hold. *)

From S2P Require Import Prelude RustStr Addr.
From Stdlib Require Import ZArith Lia Ascii String.
From Stdlib Require Import Strings.Byte.
From stdpp Require Import base gmap strings list.

Open Scope Z_scope.

(** [std::io::ErrorKind], the kinds the code distinguishes. *)
Inductive io_kind : Type :=
| PermissionDenied
| UnexpectedEof
| ConnectionRefused
| OtherKind.

#[export] Instance io_kind_eq_dec : EqDecision io_kind.
Proof. solve_decision. Defined.

(** [std::io::Error] *)
Record io_error : Type := mkIoError { io_error_kind : io_kind; io_error_msg : string }.

(** [std::fs] *)
Class FileSystem (W : Type) := {
  path_exists : string -> ST W bool;
  remove_file : string -> ST W (result unit io_error);
  write_file : string -> string -> ST W (result unit io_error);
  read_to_string : string -> ST W (result string io_error);
}.

(** [std::fs::create_dir_all] *)
Class Directories (W : Type) := { create_dir_all : string -> ST W (result unit io_error) }.

(** [dir.join(name)] for a relative name *)
Definition path_join (dir name : string) : string :=
  if String.eqb dir EmptyString then name
  else if String.eqb (String.substring (String.length dir - 1) 1 dir) "/" then dir +:+ name
  else dir +:+ "/" +:+ name.

(** [std::process]: a child is known by its process id. *)
Class Processes (W : Type) := {
  spawn : list string -> ST W (result Z io_error);
  kill : Z -> ST W (result unit io_error);
  wait : Z -> ST W (result unit io_error);
}.

(** [std::time] and [tokio::time]: milliseconds, and seconds since the epoch. *)
Class Clock (W : Type) := {
  instant_now : ST W Z;
  system_now : ST W Z;
  sleep_ms : Z -> ST W unit;
}.

(** [chrono::Utc::now().to_rfc3339_opts(Millis, true)] and [.to_rfc3339()] *)
Class Timestamps (W : Type) := {
  rfc3339_now : ST W string;
  rfc3339_long : ST W string;
}.

(** The [iptables] crate: [iptables::new(false)] and the methods used. *)
Class Iptables (W : Type) := {
  ipt_open : ST W (result unit string);
  ipt_crate_append : string -> string -> string -> ST W (result unit string);
  ipt_crate_exists : string -> string -> string -> ST W (result bool string);
  ipt_crate_delete : string -> string -> string -> ST W (result unit string);
}.

(** The [rtnetlink] crate.  [nl_link_get] is
    [link().get().match_name(name).execute().try_next()]: the index of the link. *)
Class Netlink (W : Type) := {
  nl_link_get : string -> ST W (result (option Z) string);
  nl_add_bridge : string -> ST W (result unit string);
  nl_address_add : Z -> IpAddr -> Z -> ST W (result unit string);
  nl_link_up : Z -> ST W (result unit string);
  nl_link_controller : Z -> Z -> ST W (result unit string);
  nl_link_del : Z -> ST W (result unit string);
}.

(** /dev/net/tun: a descriptor, the two [ioctl]s on it, and its closing.
    [TUNSETIFF] takes the [ifr_name] bytes and the flags of the [ifreq]. *)
Class TunDevice (W : Type) := {
  tun_open : ST W (result Z io_error);
  tun_setiff : Z -> list byte -> Z -> ST W (result unit string);
  tun_setpersist : Z -> Z -> ST W (result unit string);
  tun_close : Z -> ST W unit;
}.

(** Firecracker's HTTP API over its Unix socket: the request sent, and either a
    failure to build or to send it, or a status with the response body (or the
    error reading that). *)
Inductive http_method : Type := PUT | GET.

Record fc_request : Type := mkFcRequest {
  fc_socket : string;
  fc_method : http_method;
  fc_path : string;
  fc_body : string;
}.

Inductive fc_failure : Type :=
| BuildFailed (e : string)
| SendFailed (e : string).

Abbreviation fc_reply := (result (Z * result (list byte) string) fc_failure).

Class FirecrackerApi (W : Type) := {
  fc_send : fc_request -> ST W fc_reply;
}.

(** [http::StatusCode]: [is_success] is the range 200-299; [Display] is the
    code with its reason phrase. *)
Definition is_success (status : Z) : bool := (200 <=? status) && (status <=? 299).

Class HttpText := {
  status_display : Z -> string;
}.

(** [Uuid]: the 128-bit value and the [uuid] crate's text forms. *)
Abbreviation Uuid := N.

Class UuidText := {
  uuid_string : Uuid -> string;               (* hyphenated, lower case *)
  uuid_simple : Uuid -> string;               (* 32 hexadecimal digits *)
  uuid_parse_str : string -> result Uuid string;
}.

Class UuidGen (W : Type) := {
  new_v4 : ST W Uuid;
}.

(** What the [uuid] crate documents of its text forms. *)
Class UuidLaws `{UuidText} := {
  uuid_parse_string : forall u, uuid_parse_str (uuid_string u) = Ok u;
  uuid_simple_length : forall u, String.length (uuid_simple u) = 32%nat;
}.

(** The guest agent's gRPC service, behind Firecracker's vsock socket.  A
    connection attempt performs the [CONNECT] handshake of the connector. *)
Record ExecRequest : Type := mkExecRequest {
  er_command : string;
  er_args : list string;
  er_env : list (string * string);
  er_working_dir : string;
}.

Record ExecResponse : Type := mkExecResponse {
  rs_exit_code : Z;
  rs_stdout : list byte;
  rs_stderr : list byte;
}.

(** Nothing bounds the time these calls take: [None] is one that never completes. *)
Class AgentTransport (W : Type) := {
  uds_connect : string -> ST W (option (result Z io_error));          (* stream handle *)
  uds_write_all : Z -> string -> ST W (option (result unit io_error));
  uds_read_line : Z -> ST W (option (result string io_error));
  rpc_health : Z -> ST W (option (result (string * Z) string));       (* version, uptime *)
  rpc_exec : Z -> ExecRequest -> ST W (option (result ExecResponse string));
}.

(** [AsyncRead] and [AsyncWrite], as far as the proxies use them; a [&[u8]] and
    a [Vec<u8>] are the instances on a list of bytes. *)
Class ByteSource (R : Type) := {
  read_exact : nat -> ST R (result (list byte) io_error);
}.

Class ByteSink (K : Type) := {
  write_all : list byte -> ST K (result unit io_error);
  flush : ST K (result unit io_error);
}.

#[export] Instance slice_source : ByteSource (list byte) := {|
  read_exact n := fun bs =>
    if (n <=? length bs)%nat then (Ok (take n bs), drop n bs)
    else (Err (mkIoError UnexpectedEof "early eof"), []);
|}.

#[export] Instance vec_sink : ByteSink (list byte) := {|
  write_all bs := fun out => (Ok tt, out ++ bs);
  flush := fun out => (Ok tt, out);
|}.

(** * Laws *)

(** ** The trace of calls

    A world that records the calls made on it, in order, with their answers:
    what the manager and the server do is read off the trace. *)
Inductive call : Type :=
| CallFc (req : fc_request) (reply : fc_reply)
| CallSpawn (argv : list string) (r : result Z io_error)
| CallKill (pid : Z) (r : result unit io_error)
| CallWait (pid : Z) (r : result unit io_error)
| CallExists (path : string) (there : bool)
| CallRemove (path : string) (r : result unit io_error)
| CallSleep (ms : Z).

Class Traced (W : Type) `{FirecrackerApi W, Processes W, FileSystem W, Clock W} := {
  calls : W -> list call;
  calls_fc : forall req w, calls (fc_send req w).2 = calls w ++ [CallFc req (fc_send req w).1];
  calls_spawn : forall a w, calls (spawn a w).2 = calls w ++ [CallSpawn a (spawn a w).1];
  calls_kill : forall p w, calls (kill p w).2 = calls w ++ [CallKill p (kill p w).1];
  calls_wait : forall p w, calls (wait p w).2 = calls w ++ [CallWait p (wait p w).1];
  calls_exists : forall p w, calls (path_exists p w).2 = calls w ++ [CallExists p (path_exists p w).1];
  calls_remove : forall p w, calls (remove_file p w).2 = calls w ++ [CallRemove p (remove_file p w).1];
  calls_sleep : forall ms w, calls (sleep_ms ms w).2 = calls w ++ [CallSleep ms];
}.

(** How a state is traced: the calls recorded in it, and what stays true of it. *)
Record tracer (S : Type) : Type := mkTracer { view : S -> list call; kept : S -> Prop }.
Arguments mkTracer {S} view kept.
Arguments view {S} t s.
Arguments kept {S} t s.

(** A computation adds some calls [evs] to the trace, and [Q] relates its result
    to them. *)
Definition emits {S A} (t : tracer S) (m : ST S A) (Q : A -> list call -> Prop) : Prop :=
  forall s, kept t s -> exists evs, view t (m s).2 = view t s ++ evs /\ kept t (m s).2 /\ Q (m s).1 evs.

Section emits.
Context {S : Type} (t : tracer S).

Lemma emits_ret {A} (a : A) (Q : A -> list call -> Prop) : Q a [] -> emits t (ret a) Q.
Proof. intros H s. exists []. by rewrite app_nil_r. Qed.

Lemma emits_conseq {A} (m : ST S A) (Q Q' : A -> list call -> Prop) :
  emits t m Q -> (forall a evs, Q a evs -> Q' a evs) -> emits t m Q'.
Proof. intros Hm HQ s Hs. destruct (Hm s Hs) as (evs & ? & ? & ?). exists evs. eauto. Qed.

Lemma emits_bind {A B} (m : ST S A) (k : A -> ST S B) Q R :
  emits t m Q -> (forall a, emits t (k a) (R a)) ->
  emits t (bind m k) (fun b evs => exists a e1 e2, evs = e1 ++ e2 /\ Q a e1 /\ R a b e2).
Proof.
  intros Hm Hk s Hs. unfold bind. destruct (Hm s Hs) as (e1 & H1 & Hs1 & HQ).
  destruct (m s) as [a s1]. simpl in *. destruct (Hk a s1 Hs1) as (e2 & H2 & Hs2 & HR).
  exists (e1 ++ e2). split; [by rewrite H2, H1, app_assoc|]. split; [done|]. by exists a, e1, e2.
Qed.

End emits.

(** ** The host's network state

    The rules of each chain of each table, in order, and the links by name. *)
Record link : Type := mkLink {
  link_index : Z;
  link_up : bool;
  link_master : option Z;
  link_persistent : bool;
}.

Definition ruleset : Type := string -> string -> list string.

(** Append a rule to a chain; remove its first occurrence. *)
Definition rule_add (t c r : string) (rs : ruleset) : ruleset :=
  fun t' c' => if bool_decide (t' = t /\ c' = c) then rs t' c' ++ [r] else rs t' c'.

Fixpoint remove_first (r : string) (l : list string) : list string :=
  match l with
  | [] => []
  | x :: l' => if bool_decide (x = r) then l' else x :: remove_first r l'
  end.

Definition rule_del (t c r : string) (rs : ruleset) : ruleset :=
  fun t' c' => if bool_decide (t' = t /\ c' = c) then remove_first r (rs t' c') else rs t' c'.

Definition with_up (l : link) : link := mkLink (link_index l) true (link_master l) (link_persistent l).
Definition with_master (m : Z) (l : link) : link :=
  mkLink (link_index l) (link_up l) (Some m) (link_persistent l).
Definition with_persistent (p : bool) (l : link) : link :=
  mkLink (link_index l) (link_up l) (link_master l) p.

(** Apply [f] to the link with index [i]. *)
Definition on_index (i : Z) (f : link -> link) (ls : gmap string link) : gmap string link :=
  (fun l => if link_index l =? i then f l else l) <$> ls.

(** No link has this index. *)
Definition fresh_index (i : Z) (ls : gmap string link) : Prop :=
  forall n l, ls !! n = Some l -> link_index l <> i.

Class NetworkView (W : Type) := {
  rules : W -> ruleset;
  links : W -> gmap string link;
  tun_name : W -> Z -> option string;   (* the device a tun descriptor is attached to *)
}.

(** The name in an [ifr_name] buffer: up to the first NUL. *)
Fixpoint ifr_string (bs : list byte) : string :=
  match bs with
  | [] => EmptyString
  | b :: bs' => if bool_decide (b = x00) then EmptyString else String (ascii_of_byte b) (ifr_string bs')
  end.

(** What the crates and the kernel document of the calls the program makes. *)
Class NetworkLaws (W : Type) `{Iptables W, Netlink W, TunDevice W, FileSystem W, NetworkView W} := {
  ipt_open_keeps : forall w, rules (ipt_open w).2 = rules w /\ links (ipt_open w).2 = links w;
  ipt_append_law : forall t c r w,
    links (ipt_crate_append t c r w).2 = links w /\
    rules (ipt_crate_append t c r w).2 =
      (if is_ok (ipt_crate_append t c r w).1 then rule_add t c r (rules w) else rules w);
  ipt_exists_law : forall t c r w,
    links (ipt_crate_exists t c r w).2 = links w /\ rules (ipt_crate_exists t c r w).2 = rules w /\
    forall b, (ipt_crate_exists t c r w).1 = Ok b -> (b = true <-> r ∈ rules w t c);
  ipt_delete_law : forall t c r w,
    links (ipt_crate_delete t c r w).2 = links w /\
    rules (ipt_crate_delete t c r w).2 =
      (if is_ok (ipt_crate_delete t c r w).1 then rule_del t c r (rules w) else rules w);
  nl_get_law : forall n w,
    links (nl_link_get n w).2 = links w /\ rules (nl_link_get n w).2 = rules w /\
    tun_name (nl_link_get n w).2 = tun_name w /\
    match (nl_link_get n w).1 with
    | Ok (Some i) => exists l, links w !! n = Some l /\ link_index l = i
    | Ok None => links w !! n = None
    | Err _ => True
    end;
  nl_add_bridge_law : forall n w,
    rules (nl_add_bridge n w).2 = rules w /\
    if is_ok (nl_add_bridge n w).1
    then exists i, fresh_index i (links w) /\ links w !! n = None /\
           links (nl_add_bridge n w).2 = <[n := mkLink i false None false]> (links w)
    else links (nl_add_bridge n w).2 = links w;
  nl_address_add_law : forall i ip len w,
    rules (nl_address_add i ip len w).2 = rules w /\ links (nl_address_add i ip len w).2 = links w;
  nl_link_up_law : forall i w,
    rules (nl_link_up i w).2 = rules w /\ tun_name (nl_link_up i w).2 = tun_name w /\
    links (nl_link_up i w).2 =
      (if is_ok (nl_link_up i w).1 then on_index i with_up (links w) else links w);
  nl_link_controller_law : forall i m w,
    rules (nl_link_controller i m w).2 = rules w /\
    links (nl_link_controller i m w).2 =
      (if is_ok (nl_link_controller i m w).1 then on_index i (with_master m) (links w) else links w);
  nl_link_del_law : forall i w,
    rules (nl_link_del i w).2 = rules w /\
    links (nl_link_del i w).2 =
      (if is_ok (nl_link_del i w).1
       then filter (fun nl : string * link => link_index nl.2 <> i) (links w) else links w);
  tun_open_law : forall w, rules (tun_open w).2 = rules w /\ links (tun_open w).2 = links w /\
    forall fd, (tun_open w).1 = Ok fd -> tun_name (tun_open w).2 fd = None;
  (* TUNSETIFF attaches to the named device, which it creates (not persistent) if need be *)
  tun_setiff_law : forall fd name flags w,
    rules (tun_setiff fd name flags w).2 = rules w /\
    if is_ok (tun_setiff fd name flags w).1
    then tun_name (tun_setiff fd name flags w).2 fd = Some (ifr_string name) /\
         ((exists l, links w !! ifr_string name = Some l /\ links (tun_setiff fd name flags w).2 = links w) \/
          (exists i, fresh_index i (links w) /\ links w !! ifr_string name = None /\
             links (tun_setiff fd name flags w).2 = <[ifr_string name := mkLink i false None false]> (links w)))
    else links (tun_setiff fd name flags w).2 = links w /\
         tun_name (tun_setiff fd name flags w).2 fd = tun_name w fd;
  tun_setpersist_law : forall fd flag w,
    rules (tun_setpersist fd flag w).2 = rules w /\
    tun_name (tun_setpersist fd flag w).2 fd = tun_name w fd /\
    links (tun_setpersist fd flag w).2 =
      (if is_ok (tun_setpersist fd flag w).1
       then match tun_name w fd with
            | Some n => alter (with_persistent (negb (flag =? 0))) n (links w)
            | None => links w
            end
       else links w);
  (* closing the descriptor removes a device that is not persistent *)
  tun_close_law : forall fd w,
    rules (tun_close fd w).2 = rules w /\
    links (tun_close fd w).2 =
      match tun_name w fd with
      | Some n => match links w !! n with
                  | Some l => if link_persistent l then links w else delete n (links w)
                  | None => links w
                  end
      | None => links w
      end;
  fs_write_law : forall p t w, rules (write_file p t w).2 = rules w /\ links (write_file p t w).2 = links w;
  fs_read_law : forall p w, rules (read_to_string p w).2 = rules w /\ links (read_to_string p w).2 = links w;
}.
