(* ===== verification/Grpc.v ===== *)
(** What the gRPC services share: the status a handler fails with
    ([tonic::Status]). *)

From S2P Require Import Prelude.
From Stdlib Require Import ZArith String.
From stdpp Require Import base strings.

(** [tonic::Code]: the codes the handlers use, and any other that a peer sends. *)
Inductive Code : Type :=
| InvalidArgument
| NotFound
| ResourceExhausted
| Unavailable
| Internal
| Unimplemented
| OtherCode (n : Z).

Record Status : Type := mkStatus { code : Code; message : string }.

#[export] Instance code_eq_dec : EqDecision Code.
Proof. solve_decision. Defined.

#[export] Instance status_eq_dec : EqDecision Status.
Proof. solve_decision. Defined.
