(* ===== verification/Json.v ===== *)
(** [serde_json::Value] and the accessors the program uses.  Parsing and printing
    are the [serde_json] crate's: the class [SerdeJson] is a parameter. *)

From S2P Require Import Prelude RustStr.
From Stdlib Require Import ZArith Lia Ascii String.
From Stdlib Require Import Strings.Byte.
From stdpp Require Import base gmap strings list.

Open Scope Z_scope.
Set Warnings "-register-all".

(** [serde_json::Number]: a [u64], a negative [i64], or the bits of an [f64]. *)
Inductive number : Type :=
| PosInt (n : Z)
| NegInt (n : Z)
| Float (bits : Z).

Inductive json : Type :=
| JNull
| JBool (b : bool)
| JNumber (n : number)
| JString (s : string)
| JArray (xs : list json)
| JObject (fields : list (string * json)).

(** Lookup by key: the first field of that name. *)
Fixpoint field (key : string) (fields : list (string * json)) : option json :=
  match fields with
  | [] => None
  | (k, v) :: rest => if String.eqb k key then Some v else field key rest
  end.

(** [v.get("key")]: [None] unless [v] is an object that has the key. *)
Definition get (key : string) (v : json) : option json :=
  match v with
  | JObject fields => field key fields
  | _ => None
  end.

Definition as_str (v : json) : option string := match v with JString s => Some s | _ => None end.
Definition as_bool (v : json) : option bool := match v with JBool b => Some b | _ => None end.
Definition as_array (v : json) : option (list json) := match v with JArray xs => Some xs | _ => None end.
Definition as_u64 (v : json) : option Z := match v with JNumber (PosInt n) => Some n | _ => None end.
Definition is_null (v : json) : bool := match v with JNull => true | _ => false end.

(** [as_i64]: a negative number, or a non-negative one that fits an [i64]. *)
Definition as_i64 (v : json) : option Z :=
  match v with
  | JNumber (PosInt n) => if n <? 2 ^ 63 then Some n else None
  | JNumber (NegInt n) => Some n
  | _ => None
  end.

(** [json!(z)] of an integer expression. *)
Definition jint (z : Z) : json := JNumber (if z <? 0 then NegInt z else PosInt z).

(** [json!(o)] of an [Option]. *)
Definition jopt {A} (f : A -> json) (o : option A) : json :=
  match o with
  | Some a => f a
  | None => JNull
  end.

Class SerdeJson := {
  json_to_string : json -> result string string;
  json_from_slice : list byte -> result json string;
  (* [from_slice::<ErrorResponse>]: its [fault_message] *)
  de_error_response : list byte -> result string string;
  (* [from_slice::<InstanceInfo>]: [state] and [vmm_version] *)
  de_instance_info : list byte -> result (string * string) string;
}.
