(* ===== verification/SimWorld.v ===== *)
(** A concrete world: an in-memory host on which every interface of [World] is
    implemented and every law holds.  It shows that the laws can be met, and the
    examples of the development run on it.  Calls fail according to a script,
    one entry per fallible call ([true]: this call fails). *)

From S2P Require Import Prelude RustStr Addr World Json.
From Stdlib Require Import ZArith Lia Ascii String.
From Stdlib Require Import Strings.Byte.
From stdpp Require Import base gmap strings list.

Open Scope Z_scope.

Record sim : Type := mkSim {
  sim_rules : ruleset;
  sim_links : gmap string link;
  sim_tun : Z -> option string;
  sim_calls : list call;
  sim_files : list string;
  sim_clock : Z;
  sim_next : Z;               (* next process id, descriptor or uuid *)
  sim_script : list bool;     (* failures of the calls to come *)
  sim_statuses : list Z;      (* statuses of the API answers to come (204 by default) *)
}.

Definition empty_sim : sim :=
  mkSim (fun _ _ => []) ∅ (fun _ => None) [] ["/k"; "/r"]%string 0 100 [] [].

Definition set_rules rs s := mkSim rs (sim_links s) (sim_tun s) (sim_calls s) (sim_files s) (sim_clock s) (sim_next s) (sim_script s) (sim_statuses s).
Definition set_links ls s := mkSim (sim_rules s) ls (sim_tun s) (sim_calls s) (sim_files s) (sim_clock s) (sim_next s) (sim_script s) (sim_statuses s).
Definition set_tun t s := mkSim (sim_rules s) (sim_links s) t (sim_calls s) (sim_files s) (sim_clock s) (sim_next s) (sim_script s) (sim_statuses s).
Definition log_call c s := mkSim (sim_rules s) (sim_links s) (sim_tun s) (sim_calls s ++ [c]) (sim_files s) (sim_clock s) (sim_next s) (sim_script s) (sim_statuses s).
Definition set_files fs s := mkSim (sim_rules s) (sim_links s) (sim_tun s) (sim_calls s) fs (sim_clock s) (sim_next s) (sim_script s) (sim_statuses s).
Definition set_clock n s := mkSim (sim_rules s) (sim_links s) (sim_tun s) (sim_calls s) (sim_files s) n (sim_next s) (sim_script s) (sim_statuses s).
Definition set_next n s := mkSim (sim_rules s) (sim_links s) (sim_tun s) (sim_calls s) (sim_files s) (sim_clock s) n (sim_script s) (sim_statuses s).
Definition set_script l s := mkSim (sim_rules s) (sim_links s) (sim_tun s) (sim_calls s) (sim_files s) (sim_clock s) (sim_next s) l (sim_statuses s).
Definition set_statuses l s := mkSim (sim_rules s) (sim_links s) (sim_tun s) (sim_calls s) (sim_files s) (sim_clock s) (sim_next s) (sim_script s) l.

(** Does the next call fail? *)
Definition next_fails : ST sim bool :=
  fun s => (default false (head (sim_script s)), set_script (tail (sim_script s)) s).

(** Run [m] unless the script says the call fails with [e]. *)
Definition scripted {A E} (e : E) (m : ST sim (result A E)) : ST sim (result A E) :=
  fun s => let '(f, s') := next_fails s in if f then (Err e, s') else m s'.

Definition io_fail : io_error := mkIoError OtherKind "I/O error".

#[export] Instance sim_fs : FileSystem sim := {|
  path_exists p := fun s => let b := bool_decide (p ∈ sim_files s) in (b, log_call (CallExists p b) s);
  remove_file p := fun s => (Ok tt, log_call (CallRemove p (Ok tt)) (set_files (filter (fun q => q <> p) (sim_files s)) s));
  write_file p _ := fun s => (Ok tt, set_files (p :: sim_files s) s);
  read_to_string _ := fun s => (Ok ""%string, s);
|}.

(** The last argument of the command line is the API socket, which the process creates. *)
#[export] Instance sim_proc : Processes sim := {|
  spawn argv := fun s =>
    let '(f, s1) := next_fails s in
    if (f : bool) then (Err io_fail, log_call (CallSpawn argv (Err io_fail)) s1)
    else (Ok (sim_next s1), log_call (CallSpawn argv (Ok (sim_next s1)))
            (set_next (sim_next s1 + 1) (set_files (default ""%string (last argv) :: sim_files s1) s1)));
  kill p := fun s => (Ok tt, log_call (CallKill p (Ok tt)) s);
  wait p := fun s => (Ok tt, log_call (CallWait p (Ok tt)) s);
|}.

#[export] Instance sim_clk : Clock sim := {|
  instant_now := fun s => (sim_clock s, s);
  system_now := fun s => (sim_clock s / 1000, s);
  sleep_ms ms := fun s => (tt, log_call (CallSleep ms) (set_clock (sim_clock s + ms) s));
|}.

#[export] Instance sim_ts : Timestamps sim := {|
  rfc3339_now := fun s => (show_Z (sim_clock s), s);
  rfc3339_long := fun s => (show_Z (sim_clock s), s);
|}.

#[export] Instance sim_ipt : Iptables sim := {|
  ipt_open := scripted "iptables not found"%string (fun s => (Ok tt, s));
  ipt_crate_append t c r :=
    scripted "append failed"%string (fun s => (Ok tt, set_rules (rule_add t c r (sim_rules s)) s));
  ipt_crate_exists t c r :=
    scripted "exists failed"%string (fun s => (Ok (bool_decide (r ∈ sim_rules s t c)), s));
  ipt_crate_delete t c r :=
    scripted "delete failed"%string (fun s =>
      if bool_decide (r ∈ sim_rules s t c) then (Ok tt, set_rules (rule_del t c r (sim_rules s)) s)
      else (Err "no such rule"%string, s));
|}.

(** An index no link has: one more than the largest. *)
Definition next_index (ls : gmap string link) : Z :=
  1 + foldr (fun nl m => Z.max (link_index nl.2) m) 0 (map_to_list ls).

#[export] Instance sim_nl : Netlink sim := {|
  nl_link_get n := scripted "ENODEV"%string (fun s =>
    match sim_links s !! n with
    | Some l => (Ok (Some (link_index l)), s)
    | None => (Err "ENODEV"%string, s)
    end);
  nl_add_bridge n := scripted "EPERM"%string (fun s =>
    match sim_links s !! n with
    | Some _ => (Err "EEXIST"%string, s)
    | None => (Ok tt, set_links (<[n := mkLink (next_index (sim_links s)) false None false]> (sim_links s)) s)
    end);
  nl_address_add _ _ _ := scripted "EPERM"%string (fun s => (Ok tt, s));
  nl_link_up i := scripted "EPERM"%string (fun s => (Ok tt, set_links (on_index i with_up (sim_links s)) s));
  nl_link_controller i m := scripted "EPERM"%string (fun s =>
    (Ok tt, set_links (on_index i (with_master m) (sim_links s)) s));
  nl_link_del i := scripted "EPERM"%string (fun s =>
    (Ok tt, set_links (filter (fun nl : string * link => link_index nl.2 <> i) (sim_links s)) s));
|}.

#[export] Instance sim_tun_dev : TunDevice sim := {|
  tun_open := scripted io_fail (fun s =>
    (Ok (sim_next s), set_tun (fun fd => if fd =? sim_next s then None else sim_tun s fd)
                        (set_next (sim_next s + 1) s)));
  tun_setiff fd name _ := scripted "EPERM"%string (fun s =>
    let n := ifr_string name in
    let s1 := set_tun (fun fd' => if fd' =? fd then Some n else sim_tun s fd') s in
    match sim_links s !! n with
    | Some _ => (Ok tt, s1)
    | None => (Ok tt, set_links (<[n := mkLink (next_index (sim_links s)) false None false]> (sim_links s)) s1)
    end);
  tun_setpersist fd flag := scripted "EPERM"%string (fun s =>
    match sim_tun s fd with
    | Some n => (Ok tt, set_links (alter (with_persistent (negb (flag =? 0))) n (sim_links s)) s)
    | None => (Ok tt, s)
    end);
  tun_close fd := fun s =>
    match sim_tun s fd with
    | Some n => match sim_links s !! n with
                | Some l => if link_persistent l then (tt, s) else (tt, set_links (delete n (sim_links s)) s)
                | None => (tt, s)
                end
    | None => (tt, s)
    end;
|}.

#[export] Instance sim_fc : FirecrackerApi sim := {|
  fc_send req := fun s =>
    let st := default 204 (head (sim_statuses s)) in
    let reply := Ok (st, Ok []) in
    (reply, log_call (CallFc req reply) (set_statuses (tail (sim_statuses s)) s));
|}.

#[export] Instance sim_uuid_gen : UuidGen sim := {|
  new_v4 := fun s => (Z.to_N (sim_next s), set_next (sim_next s + 1) s);
|}.

#[export] Instance sim_agent : AgentTransport sim := {|
  uds_connect _ := st_map Some (scripted io_fail (fun s => (Ok 7, s)));
  uds_write_all _ _ := fun s => (Some (Ok tt), s);
  uds_read_line _ := fun s => (Some (Ok "OK 10051"%string), s);
  rpc_health _ := fun s => (Some (Ok ("0.1.0"%string, 1)), s);
  rpc_exec _ _ := fun s => (Some (Ok (mkExecResponse 0 [] [])), s);
|}.

(** Text forms of a [Uuid] in the example world: its binary digits. *)
Fixpoint pos_string (p : positive) : string :=
  match p with
  | xH => "e"
  | xO p' => String "0" (pos_string p')
  | xI p' => String "1" (pos_string p')
  end.

Fixpoint pos_parse (s : string) : option positive :=
  match s with
  | EmptyString => None
  | String c s' =>
      if Ascii.eqb c "e" then match s' with EmptyString => Some xH | _ => None end
      else if Ascii.eqb c "0" then xO <$> pos_parse s'
      else if Ascii.eqb c "1" then xI <$> pos_parse s'
      else None
  end.

Definition bin_string (u : Uuid) : string := pos_string (N.succ_pos u).
Definition bin_parse (s : string) : result Uuid string :=
  match pos_parse s with
  | Some p => Ok (Pos.pred_N p)
  | None => Err "invalid character"%string
  end.

(** The first [n] characters of a string, padded with zeroes. *)
Fixpoint pad (n : nat) (s : string) : string :=
  match n, s with
  | O, _ => EmptyString
  | S n', EmptyString => String "0" (pad n' EmptyString)
  | S n', String c s' => String c (pad n' s')
  end.

#[export] Instance sim_uuid : UuidText := {|
  uuid_string := bin_string;
  uuid_simple u := pad 32 (bin_string u);
  uuid_parse_str := bin_parse;
|}.

#[export] Instance sim_http : HttpText := {| status_display := show_Z |}.

#[export] Instance sim_serde : SerdeJson := {|
  json_to_string _ := Ok "{}"%string;
  json_from_slice _ := Err "unexpected end"%string;
  de_error_response _ := Err "missing field"%string;
  de_instance_info _ := Err "missing field"%string;
|}.

(** * The laws hold *)

#[export] Instance sim_traced : Traced sim.
Proof.
  refine {| calls := sim_calls |}; try reflexivity.
  intros a s. unfold spawn, sim_proc. simpl. by destruct (default false (head (sim_script s))).
Defined.

#[export] Instance sim_view : NetworkView sim := {| rules := sim_rules; links := sim_links; tun_name := sim_tun |}.

Lemma next_index_fresh ls : fresh_index (next_index ls) ls.
Proof.
  intros n l Hn. unfold next_index. apply elem_of_map_to_list in Hn.
  enough (link_index l <= foldr (fun (nl : string * link) m => Z.max (link_index nl.2) m) 0 (map_to_list ls)) by lia.
  revert Hn. generalize (map_to_list ls). intros xs Hn.
  induction xs as [|[n' l'] xs IH]; [by apply not_elem_of_nil in Hn|]. simpl.
  apply elem_of_cons in Hn as [[= -> ->]|Hn]; [lia|]. specialize (IH Hn). lia.
Qed.

Ltac sim_cases :=
  repeat match goal with
         | |- context [default false (head ?l)] => destruct (default false (head l)); simpl; try done
         | |- context [match ?x !! ?n with _ => _ end] => destruct (x !! n) eqn:?; simpl; try done
         | |- context [match sim_tun ?s ?fd with _ => _ end] => destruct (sim_tun s fd) eqn:?; simpl; try done
         end.

#[export] Instance sim_laws : NetworkLaws sim.
Proof.
  constructor.
  - intros w. unfold ipt_open; simpl. unfold scripted; simpl. by sim_cases.
  - intros t c r w. simpl. unfold scripted; simpl. by sim_cases.
  - intros t c r w. simpl. unfold scripted; simpl. sim_cases.
    split; [done|]. split; [done|]. intros b [= <-]. by rewrite bool_decide_eq_true.
  - intros t c r w. simpl. unfold scripted; simpl. sim_cases. by case_bool_decide.
  - intros n w. simpl. unfold scripted; simpl. sim_cases. by eauto 10.
  - intros n w. simpl. unfold scripted; simpl. sim_cases.
    split; [done|]. eexists. split; [apply next_index_fresh|done].
  - intros i ip len w. simpl. unfold scripted; simpl. by sim_cases.
  - intros i w. simpl. unfold scripted; simpl. by sim_cases.
  - intros i m w. simpl. unfold scripted; simpl. by sim_cases.
  - intros i w. simpl. unfold scripted; simpl. by sim_cases.
  - intros w. simpl. unfold scripted; simpl. sim_cases.
    split; [done|]. split; [done|]. intros fd [= <-]. by rewrite Z.eqb_refl.
  - intros fd name flags w. simpl. unfold scripted; simpl. sim_cases;
      (split; [done|]; rewrite Z.eqb_refl; split; [done|]).
    + left. by eauto.
    + right. eexists. split; [apply next_index_fresh|]. done.
  - intros fd flag w. simpl. unfold scripted; simpl. by sim_cases.
  - intros fd w. simpl. sim_cases. by case_match.
  - intros p t w. done.
  - intros p w. done.
Qed.

Lemma pos_parse_string p : pos_parse (pos_string p) = Some p.
Proof. induction p as [p IH|p IH|]; simpl; rewrite ?IH; done. Qed.

Lemma pad_length n : forall s, String.length (pad n s) = n.
Proof. induction n as [|n IH]; intros [|c s]; simpl; rewrite ?IH; done. Qed.

#[export] Instance sim_uuid_laws : UuidLaws.
Proof.
  constructor.
  - intros u. simpl. unfold bin_parse, bin_string. rewrite pos_parse_string. by rewrite N.pos_pred_succ.
  - intros u. apply pad_length.
Qed.
