(* ===== verification/IpAllocator.v ===== *)
(** clawpot-server/src/network/ip_allocator.rs: the allocator of guest addresses
    192.168.100.2 .. 192.168.100.254, a bitmap scanned round robin.

    The state is the Rust struct; [bitvec![0; 253]] is a list of booleans and
    [usize] indices are naturals.  [held] is the abstract state, the set of
    addresses that are given out; the lemmas say what the two operations do to
    it, and the theorems at the end what the pool promises to the server. *)

From S2P Require Import Prelude RustStr Addr.
From Stdlib Require Import ZArith Lia Ascii String.
From stdpp Require Import base gmap strings list.

Open Scope Z_scope.

Record IpAllocator : Type := mkIpAllocator {
  network_base : Z;        (* 192.168.100.0 as u32 *)
  gateway_ip : Ipv4Addr;   (* 192.168.100.1 *)
  allocated : list bool;   (* bitmap of allocated IPs *)
  next_index : nat;        (* hint for the next allocation *)
}.

(** [IpAllocator::new()] *)
Definition new : IpAllocator :=
  mkIpAllocator (u32_of_ipv4 (ipv4 192 168 100 0)) (ipv4 192 168 100 1) (replicate 253 false) 0.

(** [self.network_base + 2 + index as u32], on 32 bits *)
Definition index_u32 (a : IpAllocator) (index : nat) : Z :=
  wrap32 (wrap32 (network_base a + 2) + Z.of_nat index).

(** The address of a bitmap index. *)
Definition ip_at (a : IpAllocator) (index : nat) : IpAddr := V4 (ipv4_of_u32 (index_u32 a index)).

Definition no_available : error := anyhow "No available IP addresses in the pool".

(** The iterations [i .. i + todo] of the loop of [allocate]. *)
Fixpoint allocate_loop (todo i : nat) (a : IpAllocator) : result IpAddr error * IpAllocator :=
  match todo with
  | O => (Err no_available, a)
  | S todo' =>
      let len := length (allocated a) in
      let index := ((next_index a + i) mod len)%nat in
      match allocated a !! index with
      | Some false =>
          (Ok (ip_at a index),
           mkIpAllocator (network_base a) (gateway_ip a)
             (<[index := true]> (allocated a)) ((index + 1) mod len)%nat)
      | _ => allocate_loop todo' (S i) a
      end
  end.

(** [allocate(&mut self) -> Result<IpAddr>] *)
Definition allocate (a : IpAllocator) : result IpAddr error * IpAllocator :=
  allocate_loop (length (allocated a)) 0 a.

Definition not_in_range (v4 : Ipv4Addr) : error :=
  anyhow ("IP address " +:+ show_ipv4 v4 +:+ " is not in the allocatable range (192.168.100.2-254)").

(** [release(&mut self, ip) -> Result<()>] *)
Definition release (ip : IpAddr) (a : IpAllocator) : result unit error * IpAllocator :=
  match ip with
  | V6 _ => (Err (anyhow "IPv6 addresses are not supported"), a)
  | V4 v4 =>
      let ip_u32 := u32_of_ipv4 v4 in
      if (ip_u32 <? wrap32 (network_base a + 2)) || (wrap32 (network_base a + 254) <? ip_u32)
      then (Err (not_in_range v4), a)
      else
        let index := Z.to_nat (ip_u32 - network_base a - 2) in
        if (length (allocated a) <=? index)%nat
        then (Err (anyhow ("IP address " +:+ show_ipv4 v4 +:+ " is out of range")), a)
        else (Ok tt, mkIpAllocator (network_base a) (gateway_ip a)
                       (<[index := false]> (allocated a)) (next_index a))
  end.

(** [gateway(&self)] *)
Definition gateway (a : IpAllocator) : IpAddr := V4 (gateway_ip a).

(** [allocated_count(&self)]: [BitVec::count_ones] *)
Definition allocated_count (a : IpAllocator) : nat := length (filter (fun b => b = true) (allocated a)).

(** [available_count(&self)] *)
Definition available_count (a : IpAllocator) : nat := (length (allocated a) - allocated_count a)%nat.

(** * Invariant and abstract state *)

(** What every allocator built by [new] and the two operations satisfies. *)
Definition wf (a : IpAllocator) : Prop :=
  network_base a = 3232261120 /\ gateway_ip a = ipv4 192 168 100 1 /\
  length (allocated a) = 253%nat /\ (next_index a < 253)%nat.

(** The addresses the pool hands out: 192.168.100.2 .. 192.168.100.254. *)
Definition in_pool (ip : IpAddr) : Prop :=
  match ip with
  | V4 v4 => 3232261122 <= u32_of_ipv4 v4 <= 3232261374
  | V6 _ => False
  end.

(** [ip] is currently given out. *)
Definition held (a : IpAllocator) (ip : IpAddr) : Prop :=
  exists i, allocated a !! i = Some true /\ ip = ip_at a i.

(** Executable version, used on concrete states. *)
Definition is_held (a : IpAllocator) (ip : IpAddr) : bool :=
  existsb (fun i => bool_decide (allocated a !! i = Some true /\ ip = ip_at a i))
    (seq 0 (length (allocated a))).

Lemma is_held_spec a ip : is_held a ip = true <-> held a ip.
Proof.
  unfold is_held, held. rewrite existsb_exists. split.
  - intros (i & _ & H%bool_decide_eq_true_1). by exists i.
  - intros (i & Hi & ->). exists i. split; [|by apply bool_decide_eq_true_2].
    apply in_seq. apply lookup_lt_Some in Hi. lia.
Qed.

Lemma wf_new : wf new.
Proof. repeat split; vm_compute; lia || reflexivity. Qed.

Lemma wf_index_u32 a i : wf a -> (i < 253)%nat -> index_u32 a i = 3232261122 + Z.of_nat i.
Proof.
  intros (Hb & _) Hi. unfold index_u32, wrap32. rewrite Hb.
  rewrite (Z.mod_small (3232261120 + 2)) by lia. rewrite Z.mod_small; lia.
Qed.

Lemma wf_u32_ip_at a i :
  wf a -> (i < 253)%nat ->
  exists v4, ip_at a i = V4 v4 /\ u32_of_ipv4 v4 = 3232261122 + Z.of_nat i.
Proof.
  intros Hwf Hi. eexists. split; [reflexivity|].
  rewrite wf_index_u32 by done. apply u32_of_ipv4_of_u32. lia.
Qed.

Lemma ip_at_inj a i j :
  wf a -> (i < 253)%nat -> (j < 253)%nat -> ip_at a i = ip_at a j -> i = j.
Proof.
  intros Hwf Hi Hj E.
  destruct (wf_u32_ip_at a i Hwf Hi) as (vi & Ei & Ui).
  destruct (wf_u32_ip_at a j Hwf Hj) as (vj & Ej & Uj).
  assert (vi = vj) by congruence. subst. lia.
Qed.

Lemma ip_at_in_pool a i : wf a -> (i < 253)%nat -> in_pool (ip_at a i).
Proof. intros Hwf Hi. destruct (wf_u32_ip_at a i Hwf Hi) as (v & -> & U). simpl. lia. Qed.

Lemma in_pool_ip_at a ip :
  wf a -> in_pool ip -> exists i, (i < 253)%nat /\ ip = ip_at a i /\
    match ip with V4 v4 => Z.of_nat i = u32_of_ipv4 v4 - 3232261122 | V6 _ => False end.
Proof.
  intros Hwf. destruct ip as [v4|]; [|done]. simpl. intros Hp.
  exists (Z.to_nat (u32_of_ipv4 v4 - 3232261122)). split; [lia|].
  destruct (wf_u32_ip_at a (Z.to_nat (u32_of_ipv4 v4 - 3232261122)) Hwf ltac:(lia)) as (v & E & U).
  split; [|lia]. rewrite E. f_equal. apply u32_of_ipv4_inj. lia.
Qed.

Lemma held_in_pool a ip : wf a -> held a ip -> in_pool ip.
Proof.
  intros Hwf (i & Hi & ->). apply ip_at_in_pool; [done|].
  apply lookup_lt_Some in Hi. destruct Hwf as (_ & _ & Hl & _). lia.
Qed.

Lemma held_ip_at a i : wf a -> (i < 253)%nat -> held a (ip_at a i) <-> allocated a !! i = Some true.
Proof.
  intros Hwf Hi. split.
  - intros (j & Hj & E). pose proof (lookup_lt_Some _ _ _ Hj) as Hlt.
    assert (i = j) as -> ; [|done].
    eapply ip_at_inj; eauto. destruct Hwf as (_ & _ & Hl & _). lia.
  - intros H. by exists i.
Qed.

(** * The allocation loop *)

(** Where the scan stands at its [k]-th iteration. *)
Definition cursor (a : IpAllocator) (k : nat) : nat := ((next_index a + k) mod length (allocated a))%nat.

Definition take_index (a : IpAllocator) (index : nat) : IpAllocator :=
  mkIpAllocator (network_base a) (gateway_ip a)
    (<[index := true]> (allocated a)) ((index + 1) mod length (allocated a))%nat.

Lemma allocate_loop_ok todo a : forall i ip a',
  allocate_loop todo i a = (Ok ip, a') ->
  exists k, (i <= k < i + todo)%nat /\ allocated a !! cursor a k = Some false /\
    (forall j, (i <= j < k)%nat -> allocated a !! cursor a j <> Some false) /\
    ip = ip_at a (cursor a k) /\ a' = take_index a (cursor a k).
Proof.
  induction todo as [|todo IH]; intros i ip a' H; simpl in H; [done|].
  fold (cursor a i) in H.
  assert (Hrec : allocated a !! cursor a i <> Some false -> allocate_loop todo (S i) a = (Ok ip, a') ->
    exists k, (i <= k < i + S todo)%nat /\ allocated a !! cursor a k = Some false /\
    (forall j, (i <= j < k)%nat -> allocated a !! cursor a j <> Some false) /\
    ip = ip_at a (cursor a k) /\ a' = take_index a (cursor a k)).
  { intros Hi Hl. destruct (IH _ _ _ Hl) as (k & Hk & Hf & Hall & Hip & Ha').
    exists k. split; [lia|]. split; [done|]. split; [|done]. intros j Hj.
    destruct (decide (j = i)) as [->|]; [done|]. apply Hall. lia. }
  destruct (allocated a !! cursor a i) as [[|]|] eqn:E; try (by apply Hrec).
  injection H as <- <-. exists i. split; [lia|]. split; [done|]. split; [lia|done].
Qed.

Lemma allocate_loop_err todo a : forall i e a',
  allocate_loop todo i a = (Err e, a') ->
  e = no_available /\ a' = a /\
  forall j, (i <= j < i + todo)%nat -> allocated a !! cursor a j <> Some false.
Proof.
  induction todo as [|todo IH]; intros i e a' H; simpl in H.
  - injection H as <- <-. split; [done|]. split; [done|lia].
  - fold (cursor a i) in H.
    destruct (allocated a !! cursor a i) as [[|]|] eqn:E; try done;
      destruct (IH _ _ _ H) as (-> & -> & Hall); split; try done; split; try done; intros j Hj;
      (destruct (decide (j = i)) as [->|]; [congruence|apply Hall; lia]).
Qed.

(** Every index is visited by one of the [len] iterations. *)
Lemma cursor_onto a i :
  (i < length (allocated a))%nat -> exists k, (k < length (allocated a))%nat /\ cursor a k = i.
Proof.
  intros Hi. set (n := length (allocated a)) in *.
  exists ((i + (n - next_index a mod n)) mod n)%nat. split; [apply Nat.mod_upper_bound; lia|].
  unfold cursor. fold n. pose proof (Nat.mod_upper_bound (next_index a) n ltac:(lia)).
  rewrite Nat.Div0.add_mod_idemp_r.
  rewrite <- (Nat.Div0.add_mod_idemp_l (next_index a)).
  replace (next_index a mod n + (i + (n - next_index a mod n)))%nat with (i + 1 * n)%nat by lia.
  rewrite Nat.Div0.mod_add. by apply Nat.mod_small.
Qed.

Lemma cursor_lt a k : (0 < length (allocated a))%nat -> (cursor a k < length (allocated a))%nat.
Proof. intros H. apply Nat.mod_upper_bound. lia. Qed.

Lemma wf_take_index a i : wf a -> wf (take_index a i).
Proof.
  intros (Hb & Hg & Hl & Hn). unfold take_index. repeat split; simpl; try done.
  - by rewrite length_insert.
  - rewrite Hl. apply Nat.mod_upper_bound. lia.
Qed.

Lemma held_take_index a i ip :
  wf a -> (i < 253)%nat -> held (take_index a i) ip <-> held a ip \/ ip = ip_at a i.
Proof.
  intros Hwf Hi. unfold held. simpl. split.
  - intros (j & Hj & ->). destruct (decide (j = i)) as [->|Hne]; [by right|].
    left. exists j. by rewrite list_lookup_insert_ne in Hj by done.
  - intros [(j & Hj & ->)| ->].
    + exists j. split; [|done]. destruct (decide (j = i)) as [->|Hne].
      * apply list_lookup_insert_eq. destruct Hwf as (_ & _ & Hl & _). lia.
      * by rewrite list_lookup_insert_ne.
    + exists i. split; [|done]. apply list_lookup_insert_eq. destruct Hwf as (_ & _ & Hl & _). lia.
Qed.

(** * What the operations do *)

Lemma allocate_ok a ip a' :
  wf a -> allocate a = (Ok ip, a') ->
  exists i, (i < 253)%nat /\ allocated a !! i = Some false /\ ip = ip_at a i /\ a' = take_index a i.
Proof.
  intros Hwf H. destruct (allocate_loop_ok _ _ _ _ _ H) as (k & Hk & Hf & _ & Hip & Ha').
  exists (cursor a k). split; [|done].
  pose proof (lookup_lt_Some _ _ _ Hf). destruct Hwf as (_ & _ & Hl & _). lia.
Qed.

Lemma allocate_err a e a' :
  wf a -> allocate a = (Err e, a') ->
  e = no_available /\ a' = a /\ forall i, (i < 253)%nat -> allocated a !! i = Some true.
Proof.
  intros (Hb & Hg & Hl & Hn) H. destruct (allocate_loop_err _ _ _ _ _ H) as (-> & -> & Hall).
  split; [done|]. split; [done|]. intros i Hi.
  destruct (cursor_onto a i) as (k & Hk & Hc); [lia|].
  specialize (Hall k ltac:(lia)). rewrite Hc in Hall.
  destruct (lookup_lt_is_Some_2 (allocated a) i) as [[|] Hb']; [lia|done|congruence].
Qed.

Lemma wf_allocate a : wf a -> wf (allocate a).2.
Proof.
  intros Hwf. destruct (allocate a) as [[ip|e] a'] eqn:E.
  - destruct (allocate_ok _ _ _ Hwf E) as (i & _ & _ & _ & ->). by apply wf_take_index.
  - by destruct (allocate_err _ _ _ Hwf E) as (_ & -> & _).
Qed.

(** The contract of [allocate] on the abstract pool. *)
Lemma allocate_held a ip a' :
  wf a -> allocate a = (Ok ip, a') ->
  in_pool ip /\ ~ held a ip /\ forall x, held a' x <-> held a x \/ x = ip.
Proof.
  intros Hwf E. destruct (allocate_ok _ _ _ Hwf E) as (i & Hi & Hf & -> & ->).
  split; [by apply ip_at_in_pool|]. split.
  - rewrite held_ip_at by done. congruence.
  - intros x. by apply held_take_index.
Qed.

Lemma wf_release ip a : wf a -> wf (release ip a).2.
Proof.
  intros (Hb & Hg & Hl & Hn). unfold release. destruct ip as [v4|]; [|done].
  repeat case_match; simpl; try done. unfold wf; simpl. by rewrite length_insert.
Qed.

(** [release] of a pool address clears its bit; it always succeeds. *)
Lemma release_in_pool ip a :
  wf a -> in_pool ip ->
  exists i, (i < 253)%nat /\ ip = ip_at a i /\
    release ip a = (Ok tt, mkIpAllocator (network_base a) (gateway_ip a)
                             (<[i := false]> (allocated a)) (next_index a)).
Proof.
  intros Hwf Hp. destruct (in_pool_ip_at a ip Hwf Hp) as (i & Hi & Hip & Hidx).
  exists i. split; [done|]. split; [done|]. destruct ip as [v4|]; [|done].
  destruct Hwf as (Hb & _ & Hl & _). unfold release, wrap32. rewrite Hb.
  rewrite !(Z.mod_small (3232261120 + _)) by lia. simpl in Hp.
  rewrite (proj2 (Z.ltb_ge _ _)) by lia. rewrite (proj2 (Z.ltb_ge _ _)) by lia. simpl.
  replace (Z.to_nat (u32_of_ipv4 v4 - 3232261120 - 2)) with i by lia.
  by rewrite (proj2 (Nat.leb_gt _ _)) by lia.
Qed.

(** Any other address is refused and changes nothing. *)
Lemma release_not_in_pool ip a :
  wf a -> ~ in_pool ip -> exists e, release ip a = (Err e, a).
Proof.
  intros (Hb & _ & Hl & _) Hp. unfold release, wrap32. destruct ip as [v4|]; [|by eexists].
  rewrite Hb. rewrite !(Z.mod_small (3232261120 + _)) by lia. simpl in Hp.
  destruct (_ || _) eqn:E; [by eexists|]. exfalso.
  apply orb_false_iff in E as [E1%Z.ltb_ge E2%Z.ltb_ge]. lia.
Qed.

Lemma release_held ip a :
  wf a -> in_pool ip ->
  forall x, held (release ip a).2 x <-> held a x /\ x <> ip.
Proof.
  intros Hwf Hp. destruct (release_in_pool ip a Hwf Hp) as (i & Hi & -> & ->).
  intros x. unfold held at 1. simpl. split.
  - intros (j & Hj & ->). pose proof (lookup_lt_Some _ _ _ Hj) as Hlt.
    rewrite length_insert in Hlt. destruct Hwf as (Hb & Hg & Hl & Hn).
    destruct (decide (j = i)) as [->|Hne].
    + rewrite list_lookup_insert_eq in Hj by lia. done.
    + rewrite list_lookup_insert_ne in Hj by done. split; [by exists j|].
      intros E. apply Hne. eapply (ip_at_inj a); try done. lia.
  - intros [(j & Hj & ->) Hne]. exists j. split; [|done].
    rewrite list_lookup_insert_ne; [done|]. intros ->. by apply Hne.
Qed.

(** * Counting *)

Lemma count_insert_true (l : list bool) i :
  l !! i = Some false ->
  length (filter (fun b => b = true) (<[i := true]> l)) = S (length (filter (fun b => b = true) l)).
Proof.
  revert i. induction l as [|b l IH]; intros [|i] H; simplify_eq/=.
  - done.
  - rewrite !filter_cons. destruct (decide (b = true)); simpl; by rewrite IH.
Qed.

Lemma allocate_ok_count a ip a' :
  wf a -> allocate a = (Ok ip, a') -> allocated_count a' = S (allocated_count a).
Proof.
  intros Hwf E. destruct (allocate_ok _ _ _ Hwf E) as (i & _ & Hf & _ & ->).
  by apply count_insert_true.
Qed.

Lemma count_all_true (l : list bool) :
  length (filter (fun b => b = true) l) = length l <-> forall i, (i < length l)%nat -> l !! i = Some true.
Proof.
  induction l as [|b l IH]; simpl.
  - split; [lia|done].
  - rewrite filter_cons. pose proof (length_filter (fun b => b = true) l) as Hle.
    destruct b; simpl.
    + split.
      * intros H [|i] Hi; [done|]. simpl. apply IH; lia.
      * intros H. f_equal. apply IH. intros i Hi. apply (H (S i)). lia.
    + split; [lia|]. intros H. specialize (H 0%nat ltac:(lia)). done.
Qed.

Lemma allocated_count_le a : (allocated_count a <= length (allocated a))%nat.
Proof. apply length_filter. Qed.

(** Allocation fails exactly when nothing is available. *)
Lemma allocate_err_iff a :
  wf a -> is_ok (allocate a).1 = false <-> available_count a = 0%nat.
Proof.
  intros Hwf. pose proof (allocated_count_le a). unfold available_count.
  destruct (allocate a) as [[ip|e] a'] eqn:E; simpl.
  - pose proof (allocate_ok_count _ _ _ Hwf E). pose proof (allocated_count_le a') as Hle.
    assert (length (allocated a') = 253%nat /\ length (allocated a) = 253%nat) as [H1 H2].
    { destruct (wf_allocate a Hwf) as (_ & _ & Hl & _). rewrite E in Hl.
      by destruct Hwf as (_ & _ & Hl' & _). }
    split; [done|lia].
  - destruct (allocate_err _ _ _ Hwf E) as (_ & _ & Hall). split; [|done]. intros _.
    assert (allocated_count a = length (allocated a)); [|lia].
    apply count_all_true. destruct Hwf as (_ & _ & Hl & _). rewrite Hl. done.
Qed.

Lemma allocate_ok_available a ip a' :
  wf a -> allocate a = (Ok ip, a') -> available_count a = S (available_count a').
Proof.
  intros Hwf E. pose proof (allocate_ok_count _ _ _ Hwf E). unfold available_count.
  destruct (wf_allocate a Hwf) as (_ & _ & Hl & _). rewrite E in Hl. simpl in Hl.
  pose proof (allocated_count_le a') as Hle. destruct Hwf as (_ & _ & Hl' & _). lia.
Qed.

(** [n] allocations in a row. *)
Fixpoint allocate_many (n : nat) (a : IpAllocator) : list (result IpAddr error) * IpAllocator :=
  match n with
  | O => ([], a)
  | S n' => let '(r, a1) := allocate a in
            let '(rs, a2) := allocate_many n' a1 in (r :: rs, a2)
  end.

Lemma allocate_many_available n : forall a,
  wf a -> (n <= available_count a)%nat ->
  exists ips a', allocate_many n a = (Ok <$> ips, a') /\ wf a' /\ length ips = n /\ NoDup ips /\
    Forall (fun ip => in_pool ip /\ ~ held a ip) ips /\
    (available_count a' + n = available_count a)%nat.
Proof.
  induction n as [|n IH]; intros a Hwf Hn; simpl.
  { exists [], a. split; [done|]. split; [done|]. split; [done|]. split; [constructor|]. split; [done|lia]. }
  destruct (allocate a) as [[ip|e] a1] eqn:E.
  2:{ assert (available_count a = 0%nat) by (apply allocate_err_iff; [done|by rewrite E]). lia. }
  pose proof (wf_allocate a Hwf) as Hwf1. rewrite E in Hwf1. simpl in Hwf1.
  pose proof (allocate_ok_available _ _ _ Hwf E) as Hav.
  destruct (allocate_held _ _ _ Hwf E) as (Hp & Hnh & Hh).
  destruct (IH a1 Hwf1) as (ips & a2 & -> & Hwf2 & Hlen & Hnd & Hall & Hcnt); [lia|].
  exists (ip :: ips), a2. split; [done|]. split; [done|]. split; [simpl; lia|].
  rewrite Forall_forall in Hall. split; [|split; [|lia]].
  - constructor; [|done]. intros Hin. destruct (Hall _ Hin) as [_ Hn']. apply Hn', Hh. by right.
  - constructor; [done|]. apply Forall_forall. intros x Hx. destruct (Hall _ Hx) as [? Hn'].
    split; [done|]. intros Hx'. apply Hn', Hh. by left.
Qed.

(** * The pool as its clients see it *)

(** Operations and replies of an address pool. *)
Inductive pool_op : Type :=
| PAllocate
| PRelease (ip : IpAddr).

Inductive pool_reply : Type :=
| RIp (ip : IpAddr)
| RExhausted
| RReleased
| RRefused.

(** The abstract pool: the set of addresses given out, over a fixed range.
    Allocation may return any free address of the range; it fails only when
    there is none.  Releasing is idempotent and confined to the range. *)
Inductive pool_step : (IpAddr -> Prop) -> pool_op -> pool_reply -> (IpAddr -> Prop) -> Prop :=
| pool_allocate (h h' : IpAddr -> Prop) ip :
    in_pool ip -> ~ h ip -> (forall x, h' x <-> h x \/ x = ip) ->
    pool_step h PAllocate (RIp ip) h'
| pool_exhausted (h h' : IpAddr -> Prop) :
    (forall ip, in_pool ip -> h ip) -> (forall x, h' x <-> h x) ->
    pool_step h PAllocate RExhausted h'
| pool_release (h h' : IpAddr -> Prop) ip :
    in_pool ip -> (forall x, h' x <-> h x /\ x <> ip) ->
    pool_step h (PRelease ip) RReleased h'
| pool_refuse (h h' : IpAddr -> Prop) ip :
    ~ in_pool ip -> (forall x, h' x <-> h x) ->
    pool_step h (PRelease ip) RRefused h'.

(** One call on the implementation. *)
Definition run_op (op : pool_op) (a : IpAllocator) : pool_reply * IpAllocator :=
  match op with
  | PAllocate => match allocate a with
                 | (Ok ip, a') => (RIp ip, a')
                 | (Err _, a') => (RExhausted, a')
                 end
  | PRelease ip => match release ip a with
                   | (Ok _, a') => (RReleased, a')
                   | (Err _, a') => (RRefused, a')
                   end
  end.

Lemma in_pool_dec ip : {in_pool ip} + {~ in_pool ip}.
Proof. destruct ip as [v4|]; simpl; [apply and_dec; apply Z_le_dec|right; intros []]. Defined.

Lemma run_op_refines op a :
  wf a -> pool_step (held a) op (run_op op a).1 (held (run_op op a).2) /\ wf (run_op op a).2.
Proof.
  intros Hwf. destruct op as [|ip]; simpl.
  - pose proof (wf_allocate a Hwf) as Hwf'.
    destruct (allocate a) as [[ip|e] a'] eqn:E; simpl in *.
    + destruct (allocate_held _ _ _ Hwf E) as (? & ? & ?). split; [by constructor|done].
    + destruct (allocate_err _ _ _ Hwf E) as (_ & -> & Hall). split; [|done].
      constructor; [|done]. intros ip Hp.
      destruct (in_pool_ip_at a ip Hwf Hp) as (i & Hi & -> & _). apply held_ip_at; auto.
  - pose proof (wf_release ip a Hwf) as Hwf'. destruct (in_pool_dec ip) as [Hp|Hp].
    + pose proof (release_held ip a Hwf Hp) as Hh.
      destruct (release_in_pool ip a Hwf Hp) as (i & _ & _ & E). rewrite E in *. simpl in *.
      split; [by constructor|done].
    + destruct (release_not_in_pool ip a Hwf Hp) as (e & E). rewrite E in *. simpl in *.
      split; [by constructor|done].
Qed.

(** A sequence of calls, with the replies in order. *)
Fixpoint run_ops (ops : list pool_op) (a : IpAllocator) : list pool_reply * IpAllocator :=
  match ops with
  | [] => ([], a)
  | op :: rest => let '(r, a1) := run_op op a in
                  let '(rs, a2) := run_ops rest a1 in (r :: rs, a2)
  end.

Inductive pool_steps : (IpAddr -> Prop) -> list pool_op -> list pool_reply -> (IpAddr -> Prop) -> Prop :=
| pool_nil h : pool_steps h [] [] h
| pool_cons h op r h1 ops rs h2 :
    pool_step h op r h1 -> pool_steps h1 ops rs h2 -> pool_steps h (op :: ops) (r :: rs) h2.

(** C9. Refinement: for every sequence of [allocate] and [release] calls made on
    an allocator in a well-formed state, the replies are those of the abstract
    address pool whose state is the set of addresses given out: an allocation
    returns an address of 192.168.100.2-254 that nobody holds, fails only when
    all 253 are held, a release frees exactly its address, and addresses
    outside the range are refused without effect; the state stays well formed. *)
Theorem allocator_refines_pool ops a :
  wf a -> pool_steps (held a) ops (run_ops ops a).1 (held (run_ops ops a).2) /\ wf (run_ops ops a).2.
Proof.
  revert a. induction ops as [|op ops IH]; intros a Hwf; simpl; [split; [constructor|done]|].
  destruct (run_op_refines op a Hwf) as [Hs Hwf1].
  destruct (run_op op a) as [r a1]. simpl in *. destruct (IH a1 Hwf1) as [Hss Hwf2].
  destruct (run_ops ops a1) as [rs a2]. simpl in *. split; [|done]. by econstructor.
Qed.

Lemma allocator_refines_pool_witness :
  pool_steps (held new) [PAllocate; PRelease (V4 (ipv4 192 168 100 2)); PAllocate]
    [RIp (V4 (ipv4 192 168 100 2)); RReleased; RIp (V4 (ipv4 192 168 100 3))]
    (held (run_ops [PAllocate; PRelease (V4 (ipv4 192 168 100 2)); PAllocate] new).2).
Proof.
  exact (proj1 (allocator_refines_pool [PAllocate; PRelease (V4 (ipv4 192 168 100 2)); PAllocate] new wf_new)).
Defined.

(** Capacity: from a well-formed state with [k] free addresses, any [n <= k]
    allocations in a row all succeed, return [n] distinct addresses of the pool
    that were free before, and leave exactly [k - n] free; the allocation after
    the last free address is the error "No available IP addresses in the pool"
    and changes nothing.  A fresh allocator has exactly 253 free addresses. *)
Theorem allocate_capacity a n :
  wf a -> (n <= available_count a)%nat ->
  (exists ips a', allocate_many n a = (Ok <$> ips, a') /\ wf a' /\ length ips = n /\ NoDup ips /\
     Forall (fun ip => in_pool ip /\ ~ held a ip) ips /\
     (available_count a' + n = available_count a)%nat /\
     (n = available_count a -> allocate a' = (Err no_available, a'))) /\
  available_count new = 253%nat.
Proof.
  intros Hwf Hn. split; [|by vm_compute].
  destruct (allocate_many_available n a Hwf Hn) as (ips & a' & E & Hwf' & Hl & Hnd & Hall & Hc).
  exists ips, a'. split_and!; try done. intros ->.
  assert (Herr : is_ok (allocate a').1 = false) by (apply allocate_err_iff; [done|lia]).
  destruct (allocate a') as [[ip|e] a''] eqn:E'; [done|].
  by destruct (allocate_err _ _ _ Hwf' E') as (-> & -> & _).
Qed.

Lemma allocate_capacity_witness :
  exists ips a', allocate_many 253 new = (Ok <$> ips, a') /\ NoDup ips /\
    allocate a' = (Err no_available, a').
Proof.
  destruct (allocate_capacity new 253 wf_new) as [(ips & a' & E & _ & _ & Hnd & _ & _ & Hfull) _].
  { vm_compute. lia. }
  exists ips, a'. split; [exact E|]. split; [exact Hnd|]. apply Hfull. by vm_compute.
Defined.

(** Round robin: a successful allocation takes the free address closest to
    the cursor in cyclic order (every address the cursor passes is held), moves
    the cursor just behind it, and changes no other bit, so an address that was
    just released is not handed out again while another one is free ahead of
    the cursor. *)
Theorem allocate_round_robin a ip a' :
  wf a -> allocate a = (Ok ip, a') ->
  exists k, (k < 253)%nat /\
    ip = ip_at a ((next_index a + k) mod 253) /\
    (forall j, (j < k)%nat -> held a (ip_at a ((next_index a + j) mod 253))) /\
    next_index a' = ((next_index a + k + 1) mod 253)%nat /\
    (forall i, i <> ((next_index a + k) mod 253)%nat -> allocated a' !! i = allocated a !! i).
Proof.
  intros Hwf E. destruct (allocate_loop_ok _ _ _ _ _ E) as (k & Hk & Hf & Hbefore & -> & ->).
  pose proof Hwf as (_ & _ & Hl & _).
  assert (Hc : forall j, cursor a j = ((next_index a + j) mod 253)%nat) by (intros; unfold cursor; by rewrite Hl).
  exists k. rewrite Hc. split; [lia|]. split; [done|]. split; [|split].
  - intros j Hj. specialize (Hbefore j ltac:(lia)). rewrite Hc in Hbefore.
    pose proof (Nat.mod_upper_bound (next_index a + j) 253 ltac:(lia)) as Hlt.
    apply held_ip_at; [done|lia|].
    destruct (lookup_lt_is_Some_2 (allocated a) ((next_index a + j) mod 253)) as [[|] H]; [lia|done|congruence].
  - unfold take_index. cbn [next_index]. rewrite Hl. by rewrite Nat.Div0.add_mod_idemp_l.
  - intros i Hi. simpl. by rewrite list_lookup_insert_ne.
Qed.

Lemma allocate_round_robin_witness :
  exists k, (k < 253)%nat /\
    V4 (ipv4 192 168 100 3) = ip_at (release (V4 (ipv4 192 168 100 2)) (allocate new).2).2
                                ((next_index (release (V4 (ipv4 192 168 100 2)) (allocate new).2).2 + k) mod 253).
Proof.
  destruct (allocate_round_robin (release (V4 (ipv4 192 168 100 2)) (allocate new).2).2
              (V4 (ipv4 192 168 100 3))
              (allocate (release (V4 (ipv4 192 168 100 2)) (allocate new).2).2).2)
    as (k & Hk & Hip & _).
  - apply wf_release, wf_allocate, wf_new.
  - vm_compute. reflexivity.
  - exists k. split; [exact Hk|exact Hip].
Defined.
