(* ===== verification/Lifecycle.v ===== *)
(** clawpot-common/src/vm/lifecycle.rs: the states of a VM and the transitions
    [VmLifecycle::transition_to] accepts. *)

From S2P Require Import Prelude.
From Stdlib Require Import ZArith Lia Ascii String.
From stdpp Require Import base gmap strings list.

Inductive VmState : Type :=
| NotStarted
| Starting
| Running
| Stopping
| Stopped
| VmErr.   (* VmState::Error *)

#[export] Instance VmState_eq_dec : EqDecision VmState.
Proof. solve_decision. Defined.

(** [impl Display for VmState] *)
Definition show_state (s : VmState) : string :=
  match s with
  | NotStarted => "Not Started"
  | Starting => "Starting"
  | Running => "Running"
  | Stopping => "Stopping"
  | Stopped => "Stopped"
  | VmErr => "Error"
  end.

Record VmLifecycle : Type := mkLifecycle { state : VmState }.

(** [VmLifecycle::new()] *)
Definition new : VmLifecycle := mkLifecycle NotStarted.

(** [current_state(&self)] *)
Definition current_state (l : VmLifecycle) : VmState := state l.

(** The [matches!] of [transition_to]. *)
Definition is_valid (old new_state : VmState) : bool :=
  match old, new_state with
  | _, VmErr
  | (NotStarted | Stopped), Starting
  | Starting, (Running | Stopping | Stopped)
  | Running, Stopping
  | Stopping, Stopped => true
  | _, _ => bool_decide (old = new_state)
  end.

(** [transition_to(&mut self, new_state) -> Result<()>] *)
Definition transition_to (new_state : VmState) (l : VmLifecycle) : result unit error * VmLifecycle :=
  if is_valid (state l) new_state then (Ok tt, mkLifecycle new_state)
  else (Err (anyhow ("Invalid state transition from " +:+ show_state (state l)
                       +:+ " to " +:+ show_state new_state)), l).

(** A sequence of transitions, stopping at the first one refused. *)
Fixpoint transitions (ss : list VmState) (l : VmLifecycle) : result unit error * VmLifecycle :=
  match ss with
  | [] => (Ok tt, l)
  | s :: rest =>
      match transition_to s l with
      | (Ok _, l') => transitions rest l'
      | (Err e, l') => (Err e, l')
      end
  end.

Lemma transition_to_ok s l l' :
  transition_to s l = (Ok tt, l') <-> is_valid (state l) s = true /\ l' = mkLifecycle s.
Proof. unfold transition_to. destruct (is_valid (state l) s); naive_solver. Qed.

Lemma transition_to_err s l e l' : transition_to s l = (Err e, l') -> l' = l /\ is_valid (state l) s = false.
Proof. unfold transition_to. destruct (is_valid (state l) s); naive_solver. Qed.

(** Being [Running] can only be entered from [Starting]. *)
Lemma into_running s : is_valid s Running = true -> s = Starting \/ s = Running.
Proof. destruct s; simpl; naive_solver. Qed.

Lemma transitions_snoc ss s l :
  is_ok (transitions (ss ++ [s]) l).1 = true ->
  is_ok (transitions ss l).1 = true /\
  is_valid (state (transitions ss l).2) s = true /\ (transitions (ss ++ [s]) l).2 = mkLifecycle s.
Proof.
  revert l. induction ss as [|x ss IH]; intros l; simpl.
  - unfold transition_to. by destruct (is_valid (state l) s).
  - destruct (transition_to x l) as [[?|?] l']; [apply IH|done].
Qed.

Lemma transitions_last ss s l :
  is_ok (transitions ss l).1 = true -> last ss = Some s -> state (transitions ss l).2 = s.
Proof.
  induction ss as [|x ss _] using rev_ind; [done|]. intros Hok.
  rewrite last_snoc. intros [= ->]. by destruct (transitions_snoc _ _ _ Hok) as (_ & _ & ->).
Qed.

(** A run that ends in [Running] ends with [Starting], then only [Running]. *)
Lemma running_suffix ss l :
  is_ok (transitions ss l).1 = true -> state l <> Running -> last ss = Some Running ->
  (state l = Starting /\ exists n, ss = replicate n Running) \/
  exists pre n, ss = pre ++ [Starting] ++ replicate n Running.
Proof.
  intros Hok Hl Hlast. apply last_Some in Hlast as [ss' ->].
  induction ss' as [|x ss' IH] using rev_ind.
  { destruct (transitions_snoc [] _ _ Hok) as (_ & Hv & _). simpl in Hv.
    destruct (into_running _ Hv) as [E|E]; [|done]. left. split; [done|]. by exists 1%nat. }
  destruct (transitions_snoc _ _ _ Hok) as (Hok' & Hv & _).
  rewrite (transitions_last (ss' ++ [x]) x) in Hv; [|done|apply last_snoc].
  destruct (into_running _ Hv) as [-> | ->].
  - right. exists ss', 1%nat. by rewrite <- app_assoc.
  - destruct (IH Hok') as [[E [n Hn]]|[pre [n Hn]]]; rewrite Hn.
    + left. split; [done|]. exists (n + 1)%nat. by rewrite replicate_add.
    + right. exists pre, (n + 1)%nat. by rewrite replicate_add, <- !app_assoc.
Qed.

(** State machine: whatever sequence of transitions a VM's lifecycle accepts
    from its creation on, each time it is [Running] the last state before that
    was [Starting] (so a VM is never reported running without having been
    started, and a stopped VM runs again only through a new start); a refused
    transition leaves the state as it was; and a VM in [Error] stays there. *)
Theorem lifecycle_running_after_starting ss :
  (is_ok (transitions ss new).1 = true -> last ss = Some Running ->
   exists pre n, ss = pre ++ [Starting] ++ replicate n Running) /\
  (forall s l e l', transition_to s l = (Err e, l') -> l' = l) /\
  (forall s, is_ok (transition_to s (mkLifecycle VmErr)).1 = true -> s = VmErr).
Proof.
  split; [|split].
  - intros Hok Hlast. destruct (running_suffix ss new Hok) as [[? _]|?]; done.
  - intros s l e l' H. by destruct (transition_to_err _ _ _ _ H).
  - intros s. by destruct s.
Qed.

Lemma lifecycle_running_after_starting_witness :
  exists pre n, [Starting; Running; Stopping; Stopped; Starting; Running]
                = pre ++ [Starting] ++ replicate n Running.
Proof.
  apply (proj1 (lifecycle_running_after_starting [Starting; Running; Stopping; Stopped; Starting; Running]));
    reflexivity.
Defined.
