(* ===== verification/FcConfig.v ===== *)
(** clawpot-common/src/firecracker/config.rs and models.rs: the VM configuration
    builder with its validation, and the request bodies of Firecracker's API.
    A [PathBuf] is its UTF-8 text. *)

From S2P Require Import Prelude RustStr World Json.
From Stdlib Require Import ZArith Lia Ascii String.
From stdpp Require Import base gmap strings list.

Open Scope Z_scope.

Record VmConfig : Type := mkVmConfig {
  kernel_path : string;
  rootfs_path : string;
  vcpu_count : Z;                    (* u8 *)
  mem_size_mib : Z;                  (* u32 *)
  boot_args : string;
  tap_device : option string;
  ip_address : option string;
  guest_cid : option Z;              (* u32 *)
  vsock_uds_path : option string;
}.

(** [VmConfig::new(kernel_path, rootfs_path)] *)
Definition new (kernel rootfs : string) : VmConfig :=
  mkVmConfig kernel rootfs 1 256 "console=ttyS0 reboot=k panic=1 pci=off" None None None None.

Definition with_vcpus (count : Z) (c : VmConfig) : VmConfig :=
  mkVmConfig (kernel_path c) (rootfs_path c) count (mem_size_mib c) (boot_args c)
    (tap_device c) (ip_address c) (guest_cid c) (vsock_uds_path c).

Definition with_memory (mib : Z) (c : VmConfig) : VmConfig :=
  mkVmConfig (kernel_path c) (rootfs_path c) (vcpu_count c) mib (boot_args c)
    (tap_device c) (ip_address c) (guest_cid c) (vsock_uds_path c).

Definition with_boot_args (args : string) (c : VmConfig) : VmConfig :=
  mkVmConfig (kernel_path c) (rootfs_path c) (vcpu_count c) (mem_size_mib c) args
    (tap_device c) (ip_address c) (guest_cid c) (vsock_uds_path c).

Definition ip_config (ip : string) : string :=
  "ip=" +:+ ip +:+ "::192.168.100.1:255.255.255.0::eth0:off".

(** [with_network(tap_device, ip_address)] *)
Definition with_network (tap ip : string) (c : VmConfig) : VmConfig :=
  mkVmConfig (kernel_path c) (rootfs_path c) (vcpu_count c) (mem_size_mib c)
    ("console=ttyS0 reboot=k panic=1 pci=off " +:+ ip_config ip)
    (Some tap) (Some ip) (guest_cid c) (vsock_uds_path c).

Definition with_vsock (cid : Z) (uds_path : string) (c : VmConfig) : VmConfig :=
  mkVmConfig (kernel_path c) (rootfs_path c) (vcpu_count c) (mem_size_mib c) (boot_args c)
    (tap_device c) (ip_address c) (Some cid) (Some uds_path).

Section validate.
Context {W : Type} `{FileSystem W}.

(** [validate(&self) -> anyhow::Result<()>] *)
Definition validate (c : VmConfig) : ST W (result unit error) :=
  let! kernel_there := path_exists (kernel_path c) in
  if negb kernel_there
  then ret (Err (anyhow ("Kernel image not found: " +:+ kernel_path c)))
  else
    let! rootfs_there := path_exists (rootfs_path c) in
    if negb rootfs_there
    then ret (Err (anyhow ("Rootfs image not found: " +:+ rootfs_path c)))
    else if vcpu_count c =? 0
    then ret (Err (anyhow "vCPU count must be at least 1"))
    else if mem_size_mib c <? 128
    then ret (Err (anyhow "Memory size must be at least 128 MiB"))
    else ret (Ok tt).

Lemma validate_ok c w w' :
  validate c w = (Ok tt, w') -> vcpu_count c <> 0 /\ 128 <= mem_size_mib c.
Proof.
  unfold validate, bind, ret. destruct (path_exists (kernel_path c) w) as [[|] w1]; simpl; [|done].
  destruct (path_exists (rootfs_path c) w1) as [[|] w2]; simpl; [|done].
  destruct (vcpu_count c =? 0) eqn:E1; [done|]. destruct (mem_size_mib c <? 128) eqn:E2; [done|].
  intros _. apply Z.eqb_neq in E1. apply Z.ltb_ge in E2. done.
Qed.

End validate.

(** * Request bodies (models.rs) *)

Record BootSource : Type := mkBootSource { bs_kernel_image_path : string; bs_boot_args : string }.
Record Drive : Type := mkDrive {
  dr_drive_id : string; dr_path_on_host : string; dr_is_root_device : bool; dr_is_read_only : bool }.
Record MachineConfig : Type := mkMachineConfig { mc_vcpu_count : Z; mc_mem_size_mib : Z }.
Record InstanceActionInfo : Type := mkInstanceActionInfo { action_type : string }.
Record VsockDevice : Type := mkVsockDevice { vs_guest_cid : Z; vs_uds_path : string }.
Record NetworkInterface : Type := mkNetworkInterface {
  ni_iface_id : string; ni_host_dev_name : string; ni_guest_mac : option string }.
Record EntropyDevice : Type := mkEntropyDevice { }.

(** [InstanceActionInfo::start()] *)
Definition action_start : InstanceActionInfo := mkInstanceActionInfo "InstanceStart".

(** [InstanceActionInfo::send_ctrl_alt_del()] *)
Definition action_send_ctrl_alt_del : InstanceActionInfo := mkInstanceActionInfo "SendCtrlAltDel".

(** The [Serialize] derivations: one field per struct field, under its name. *)
Definition ser_boot_source (b : BootSource) : json :=
  JObject [("kernel_image_path", JString (bs_kernel_image_path b)); ("boot_args", JString (bs_boot_args b))].
Definition ser_drive (d : Drive) : json :=
  JObject [("drive_id", JString (dr_drive_id d)); ("path_on_host", JString (dr_path_on_host d));
           ("is_root_device", JBool (dr_is_root_device d)); ("is_read_only", JBool (dr_is_read_only d))].
Definition ser_machine_config (m : MachineConfig) : json :=
  JObject [("vcpu_count", jint (mc_vcpu_count m)); ("mem_size_mib", jint (mc_mem_size_mib m))].
Definition ser_action (a : InstanceActionInfo) : json := JObject [("action_type", JString (action_type a))].
Definition ser_vsock (v : VsockDevice) : json :=
  JObject [("guest_cid", jint (vs_guest_cid v)); ("uds_path", JString (vs_uds_path v))].

(** [guest_mac] is skipped when it is [None]. *)
Definition ser_network_interface (n : NetworkInterface) : json :=
  JObject ([("iface_id", JString (ni_iface_id n)); ("host_dev_name", JString (ni_host_dev_name n))]
             ++ match ni_guest_mac n with Some mac => [("guest_mac", JString mac)] | None => [] end).
Definition ser_entropy (_ : EntropyDevice) : json := JObject [].
