(* ===== verification/VmManager.v ===== *)
(** clawpot-common/src/firecracker/client.rs and vm/manager.rs: the HTTP client of
    Firecracker's API and the manager that spawns, configures, starts and stops
    one microVM.  The state of an operation is the manager together with the
    world; a failure returns early with the context the code attaches. *)

From S2P Require Import Prelude RustStr World Json SimWorld Lifecycle FcConfig.
From Stdlib Require Import ZArith Lia Ascii String.
From Stdlib Require Import Strings.Byte.
From stdpp Require Import base gmap strings list.

Open Scope Z_scope.

(** [FirecrackerClient]: the hyper client holds no state of its own. *)
Record FirecrackerClient : Type := mkFirecrackerClient { client_socket_path : string }.

(** [Child] is its process id. *)
Record VmManager : Type := mkVmManager {
  socket_path : string;
  firecracker_process : option Z;
  client : FirecrackerClient;
  lifecycle : VmLifecycle;
}.

(** [FirecrackerClient::new(socket_path)] *)
Definition client_new (path : string) : FirecrackerClient := mkFirecrackerClient path.

(** [VmManager::new(socket_path)] *)
Definition new (path : string) : VmManager :=
  mkVmManager path None (client_new path) Lifecycle.new.

(** [state(&self)] *)
Definition state (m : VmManager) : VmState := current_state (lifecycle m).

Section client.
Context {W : Type} `{FirecrackerApi W} `{SerdeJson} `{HttpText}.

(** The handling of a response both [put] and [get] share: the body of a 2xx
    answer, or the error they report. *)
Definition check_response (reply : fc_reply) : result (list byte) error :=
  match reply with
  | Err (BuildFailed e) => Err ["Failed to build request"%string; e]
  | Err (SendFailed e) => Err ["Failed to send request"%string; e]
  | Ok (_, Err e) => Err ["Failed to read response body"%string; e]
  | Ok (status, Ok body_bytes) =>
      if is_success status then Ok body_bytes
      else match de_error_response body_bytes with
           | Ok fault =>
               Err (anyhow ("Firecracker API error (" +:+ status_display status +:+ "): " +:+ fault))
           | Err _ =>
               Err (anyhow ("Request failed with status " +:+ status_display status +:+ ": "
                              +:+ from_utf8_lossy body_bytes))
           end
  end.

(** [put(&self, path, body) -> Result<()>] *)
Definition put (c : FirecrackerClient) (path : string) (body : json) : ST W (result unit error) :=
  match json_to_string body with
  | Err e => ret (Err ["Failed to serialize request body"%string; e])
  | Ok text =>
      let! reply := fc_send (mkFcRequest (client_socket_path c) PUT path text) in
      match check_response reply with
      | Ok _ => ret (Ok tt)
      | Err e => ret (Err e)
      end
  end.

(** [get::<InstanceInfo>(&self, path)]; the only type it is used at *)
Definition get_info (c : FirecrackerClient) (path : string) : ST W (result (string * string) error) :=
  let! reply := fc_send (mkFcRequest (client_socket_path c) GET path "") in
  match check_response reply with
  | Ok body_bytes => ret (map_err (fun e => ["Failed to deserialize response"%string; e]) (de_instance_info body_bytes))
  | Err e => ret (Err e)
  end.

Definition set_boot_source (c : FirecrackerClient) (config : BootSource) : ST W (result unit error) :=
  put c "/boot-source" (ser_boot_source config) .context "Failed to set boot source"%string.
Definition set_drive (c : FirecrackerClient) (drive : Drive) : ST W (result unit error) :=
  put c ("/drives/" +:+ dr_drive_id drive) (ser_drive drive) .context "Failed to set drive"%string.
Definition set_machine_config (c : FirecrackerClient) (config : MachineConfig) : ST W (result unit error) :=
  put c "/machine-config" (ser_machine_config config) .context "Failed to set machine config"%string.
Definition start_instance (c : FirecrackerClient) : ST W (result unit error) :=
  put c "/actions" (ser_action action_start) .context "Failed to start instance"%string.
Definition send_ctrl_alt_del (c : FirecrackerClient) : ST W (result unit error) :=
  put c "/actions" (ser_action action_send_ctrl_alt_del) .context "Failed to send Ctrl+Alt+Del"%string.
Definition get_instance_info (c : FirecrackerClient) : ST W (result (string * string) error) :=
  get_info c "/" .context "Failed to get instance info"%string.
Definition set_network_interface (c : FirecrackerClient) (iface : NetworkInterface) : ST W (result unit error) :=
  put c ("/network-interfaces/" +:+ ni_iface_id iface) (ser_network_interface iface)
    .context "Failed to set network interface"%string.
Definition set_vsock (c : FirecrackerClient) (vsock : VsockDevice) : ST W (result unit error) :=
  put c "/vsock" (ser_vsock vsock) .context "Failed to set vsock device"%string.
Definition set_entropy (c : FirecrackerClient) (entropy : EntropyDevice) : ST W (result unit error) :=
  put c "/entropy" (ser_entropy entropy) .context "Failed to set entropy device"%string.

End client.

Section manager.
Context {W : Type} `{FirecrackerApi W} `{FileSystem W} `{Processes W} `{Clock W} `{SerdeJson} `{HttpText}.

(** A computation on the world alone, and a change of the manager alone. *)
Definition on_world {A} (m : ST W A) : ST (VmManager * W) A :=
  fun '(mgr, w) => let '(a, w') := m w in (a, (mgr, w')).

Definition set_process (p : option Z) (m : VmManager) : VmManager :=
  mkVmManager (socket_path m) p (client m) (lifecycle m).

(** [self.lifecycle.transition_to(s)] *)
Definition transition (s : VmState) : ST (VmManager * W) (result unit error) :=
  fun '(mgr, w) =>
    let '(r, l) := transition_to s (lifecycle mgr) in
    (r, (mkVmManager (socket_path mgr) (firecracker_process mgr) (client mgr) l, w)).

Definition self : ST (VmManager * W) VmManager := fun s => (s.1, s).

Definition io_err (e : io_error) : error := [io_error_msg e].

(** [start_firecracker_process(&mut self)] *)
Definition start_firecracker_process : ST (VmManager * W) (result unit error) :=
  let! mgr := self in
  let! child := on_world (spawn ["firecracker"; "--api-sock"; socket_path mgr]%string) in
  match child with
  | Ok pid => fun '(mgr, w) => (Ok tt, (set_process (Some pid) mgr, w))
  | Err e => ret (Err ("Failed to spawn firecracker process"%string :: io_err e))
  end.

(** The attempts that remain of the loop of [wait_for_socket]. *)
Fixpoint wait_for_socket_loop (todo : nat) (path : string) : ST W (result unit error) :=
  match todo with
  | O => ret (Err (anyhow "Socket did not become ready after 50 attempts (5000 ms)"))
  | S todo' =>
      let! there := path_exists path in
      if there
      then do! sleep_ms 50 in ret (Ok tt)
      else do! sleep_ms 100 in wait_for_socket_loop todo' path
  end.

(** [wait_for_socket(&self)] *)
Definition wait_for_socket (mgr : VmManager) : ST W (result unit error) :=
  wait_for_socket_loop 50 (socket_path mgr).

(** [configure_vm(&self, config)].  Paths are text here, so [to_str] succeeds. *)
Definition configure_vm (mgr : VmManager) (config : VmConfig) : ST W (result unit error) :=
  do? set_boot_source (client mgr) (mkBootSource (kernel_path config) (boot_args config))
        .context "Failed to set boot source"%string in
  do? set_drive (client mgr) (mkDrive "rootfs" (rootfs_path config) true false)
        .context "Failed to set root drive"%string in
  do? set_machine_config (client mgr) (mkMachineConfig (vcpu_count config) (mem_size_mib config))
        .context "Failed to set machine config"%string in
  do? match tap_device config, ip_address config with
      | Some tap, Some _ =>
          set_network_interface (client mgr) (mkNetworkInterface "eth0" tap None)
            .context "Failed to set network interface"%string
      | _, _ => ret (Ok tt)
      end in
  do? set_entropy (client mgr) mkEntropyDevice .context "Failed to enable entropy device"%string in
  do? match guest_cid config, vsock_uds_path config with
      | Some cid, Some uds =>
          set_vsock (client mgr) (mkVsockDevice cid uds) .context "Failed to set vsock device"%string
      | _, _ => ret (Ok tt)
      end in
  ret (Ok tt).

(** [start(&mut self, config)] *)
Definition start (config : VmConfig) : ST (VmManager * W) (result unit error) :=
  do? on_world (validate config) .context "Invalid VM configuration"%string in
  do? transition Starting .context "Failed to transition to Starting state"%string in
  let! mgr := self in
  let! stale := on_world (path_exists (socket_path mgr)) in
  do? (if (stale : bool)
       then on_world (st_map (map_err io_err) (remove_file (socket_path mgr)))
              .context "Failed to remove existing socket file"%string
       else ret (Ok tt)) in
  do? start_firecracker_process .context "Failed to start Firecracker process"%string in
  let! mgr := self in
  do? on_world (wait_for_socket mgr) .context "Socket did not become ready"%string in
  do? on_world (configure_vm mgr config) .context "Failed to configure VM"%string in
  do? on_world (start_instance (client mgr)) .context "Failed to start instance"%string in
  do? transition Running .context "Failed to transition to Running state"%string in
  ret (Ok tt).

(** [self.firecracker_process.take()] *)
Definition take_process : ST (VmManager * W) (option Z) :=
  fun '(mgr, w) => (firecracker_process mgr, (set_process None mgr, w)).

(** [stop(&mut self)]: every step but the last transition is best effort. *)
Definition stop : ST (VmManager * W) (result unit error) :=
  do! transition Stopping in
  let! mgr := self in
  do! on_world (send_ctrl_alt_del (client mgr)) in
  do! on_world (sleep_ms 2000) in
  let! child := take_process in
  do! match child with
      | Some pid => do! on_world (kill pid) in do! on_world (wait pid) in ret tt
      | None => ret tt
      end in
  let! there := on_world (path_exists (socket_path mgr)) in
  do! (if (there : bool) then do! on_world (remove_file (socket_path mgr)) in ret tt else ret tt) in
  do? transition Stopped .context "Failed to transition to Stopped state"%string in
  ret (Ok tt).

(** [status(&self)] *)
Definition status (mgr : VmManager) : ST W (result string error) :=
  let? info := get_instance_info (client mgr) .context "Failed to get instance info"%string in
  ret (Ok ("State: " +:+ show_state (state mgr) +:+ String "010" "Firecracker State: " +:+ info.1
             +:+ String "010" "VMM Version: " +:+ info.2)%string).

(** [impl Drop for VmManager] *)
Definition drop_manager : ST (VmManager * W) unit :=
  let! child := take_process in
  do! match child with
      | Some pid => do! on_world (kill pid) in ret tt
      | None => ret tt
      end in
  let! mgr := self in
  let! there := on_world (path_exists (socket_path mgr)) in
  if (there : bool) then do! on_world (remove_file (socket_path mgr)) in ret tt else ret tt.

End manager.

(** * Properties *)

(** The requests to Firecracker's API among the calls, with their answers. *)
Definition api_calls (evs : list call) : list (fc_request * fc_reply) :=
  omap (fun c => match c with CallFc req reply => Some (req, reply) | _ => None end) evs.

(** The answer is a success status with a readable body. *)
Definition answered (rr : fc_request * fc_reply) : Prop :=
  exists status body, rr.2 = Ok (status, Ok body) /\ is_success status = true.

Lemma api_calls_app e1 e2 : api_calls (e1 ++ e2) = api_calls e1 ++ api_calls e2.
Proof. apply omap_app. Qed.

#[export] Instance fc_pair_nil_dec (l : list (fc_request * fc_reply)) : Decision (l = []).
Proof. destruct l; [by left|by right]. Defined.

Section plan.
Context `{SerdeJson}.

(** A request that carries out a planned [PUT path body] on the socket [sock]. *)
Definition sent (sock : string) (step : string * json) (rr : fc_request * fc_reply) : Prop :=
  exists text, json_to_string step.2 = Ok text /\ rr.1 = mkFcRequest sock PUT step.1 text.

(** The calls carry out a plan: its steps are sent in order up to some point,
    every one but the last was answered with success, and when the operation
    succeeds all of them were. *)
Definition follows {A E} (sock : string) (plan : list (string * json)) (r : result A E) (evs : list call) : Prop :=
  exists done todo, plan = done ++ todo /\ Forall2 (sent sock) done (api_calls evs) /\
    Forall answered (removelast (api_calls evs)) /\
    (is_ok r = true -> todo = [] /\ Forall answered (api_calls evs)).

(** What [start] asks of Firecracker, in order. *)
Definition boot_plan (config : VmConfig) : list (string * json) :=
  [ ("/boot-source", ser_boot_source (mkBootSource (kernel_path config) (boot_args config)));
    ("/drives/rootfs", ser_drive (mkDrive "rootfs" (rootfs_path config) true false));
    ("/machine-config", ser_machine_config (mkMachineConfig (vcpu_count config) (mem_size_mib config))) ]%string
  ++ match tap_device config, ip_address config with
     | Some tap, Some _ =>
         [("/network-interfaces/eth0"%string, ser_network_interface (mkNetworkInterface "eth0" tap None))]
     | _, _ => []
     end
  ++ [("/entropy"%string, ser_entropy mkEntropyDevice)]
  ++ match guest_cid config, vsock_uds_path config with
     | Some cid, Some uds => [("/vsock"%string, ser_vsock (mkVsockDevice cid uds))]
     | _, _ => []
     end
  ++ [("/actions"%string, ser_action action_start)].

Lemma follows_nil {A E} sock (r : result A E) evs : api_calls evs = [] -> follows sock [] r evs.
Proof. intros Hn. exists [], []. rewrite Hn. by repeat split. Qed.

Lemma follows_app {A B E} sock p1 p2 (a : A) (r : result B E) e1 e2 :
  follows sock p1 (Ok (E := E) a) e1 -> follows sock p2 r e2 -> follows sock (p1 ++ p2) r (e1 ++ e2).
Proof.
  intros (d1 & t1 & -> & HF1 & _ & Hok1) (d2 & t2 & -> & HF2 & Hl2 & Hok2).
  destruct (Hok1 eq_refl) as [-> HA1]. exists (d1 ++ d2), t2. rewrite api_calls_app.
  split; [by rewrite app_nil_r, app_assoc|]. split; [by apply Forall2_app|]. split.
  - destruct (decide (api_calls e2 = [])) as [-> |Hne].
    + rewrite app_nil_r. by apply Forall_removelast.
    + rewrite removelast_app by done. by apply Forall_app.
  - intros Hr. destruct (Hok2 Hr) as [-> HA2]. split; [done|]. by apply Forall_app.
Qed.

Lemma follows_fail {A B E} sock p1 p2 (e : E) evs :
  follows sock p1 (Err (A := A) e) evs -> follows sock (p1 ++ p2) (Err (A := B) e) evs.
Proof.
  intros (d & t & -> & HF & Hl & _). exists d, (t ++ p2).
  split; [by rewrite app_assoc|]. repeat split; try done.
Qed.

Lemma follows_result {A B E F} sock p (r : result A E) (r' : result B F) evs :
  is_ok r' = is_ok r -> follows sock p r evs -> follows sock p r' evs.
Proof. intros Hr. unfold follows. by rewrite Hr. Qed.

End plan.

Section traced.
Context {W : Type} `{FirecrackerApi W} `{Processes W} `{FileSystem W} `{Clock W} `{SerdeJson} `{HttpText} `{!Traced W}.

(** [m] carries out [plan]. *)
Abbreviation carries_out t sock plan m := (emits t m (follows sock plan)).

(** The world alone, and the manager of client [c] with the world. *)
Definition wtrace : tracer W := mkTracer calls (fun _ => True).
Definition mtrace (c : FirecrackerClient) : tracer (VmManager * W) :=
  mkTracer (fun s => calls s.2) (fun s => client s.1 = c).

Lemma carries_bind_ok {S A B E} (t : tracer S) sock p1 p2
    (m : ST S (result A E)) (k : A -> ST S (result B E)) :
  carries_out t sock p1 m -> (forall a, carries_out t sock p2 (k a)) ->
  carries_out t sock (p1 ++ p2) (bind_ok m k).
Proof.
  intros Hm Hk. unfold bind_ok.
  eapply emits_conseq.
  { apply (emits_bind t _ _ _
      (fun r r' evs => match r with Ok _ => follows sock p2 r' evs
                                | Err e => r' = Err e /\ evs = [] end) Hm).
    intros [a|e]; [apply Hk|]. by apply emits_ret. }
  intros r evs (r1 & e1 & e2 & -> & Hp1 & Hp2). destruct r1 as [a|e].
  - by eapply follows_app.
  - destruct Hp2 as [-> ->]. rewrite app_nil_r. by apply (follows_fail (A := A)).
Qed.

Lemma carries_context {S A} (t : tracer S) sock p msg (m : ST S (result A error)) :
  carries_out t sock p m -> carries_out t sock p (st_map (context msg) m).
Proof.
  intros Hm s Hs. destruct (Hm s Hs) as (evs & Hp1 & Hs' & Hp2). exists evs. unfold st_map, bind.
  destruct (m s) as [r s'] eqn:E. simpl in *. split; [done|]. split; [done|].
  eapply follows_result; [|exact Hp2]. by rewrite is_ok_context.
Qed.

Lemma carries_ret {S A E} (t : tracer S) sock (r : result A E) : carries_out t sock [] (ret r).
Proof. apply emits_ret. by apply follows_nil. Qed.

Lemma carries_on_world {A E} c sock p (m : ST W (result A E)) :
  carries_out wtrace sock p m -> carries_out (mtrace c) sock p (on_world m).
Proof.
  intros Hm [mgr w] Hc. destruct (Hm w I) as (evs & Hp1 & _ & Hp2). exists evs. unfold on_world.
  by destruct (m w).
Qed.

(** Every call [m] makes satisfies [P]. *)
Definition only {S A} (P : call -> Prop) (t : tracer S) (m : ST S A) : Prop :=
  emits t m (fun _ evs => Forall P evs).

Lemma only_bind {S A B} P (t : tracer S) (m : ST S A) (k : A -> ST S B) :
  only P t m -> (forall a, only P t (k a)) -> only P t (bind m k).
Proof.
  intros Hm Hk. eapply emits_conseq;
    [exact (emits_bind t _ _ _ (fun _ _ evs => Forall P evs) Hm Hk)|].
  intros b evs (a & e1 & e2 & -> & Hp1 & Hp2). simpl in *. by apply Forall_app.
Qed.

Lemma only_ret {S A} P (t : tracer S) (a : A) : only P t (ret a).
Proof. by apply emits_ret. Qed.

Lemma only_bind_ok {S A B E} P (t : tracer S) (m : ST S (result A E)) (k : A -> ST S (result B E)) :
  only P t m -> (forall a, only P t (k a)) -> only P t (bind_ok m k).
Proof. intros Hm Hk. apply only_bind; [done|]. intros [a|e]; [apply Hk|apply only_ret]. Qed.

Lemma only_st_map {S A B} P (t : tracer S) (f : A -> B) (m : ST S A) :
  only P t m -> only P t (st_map f m).
Proof. intros Hm. apply only_bind; [done|]. intros. apply only_ret. Qed.

Lemma only_on_world {A} P c (m : ST W A) : only P wtrace m -> only P (mtrace c) (on_world m).
Proof.
  intros Hm [mgr w] Hc. destruct (Hm w I) as (evs & Hp1 & _ & Hp2). exists evs. unfold on_world.
  by destruct (m w).
Qed.

Lemma only_exists (P : call -> Prop) p : (forall b, P (CallExists p b)) -> only P wtrace (path_exists p).
Proof. intros HP w _. eexists. split; [apply calls_exists|]. split; [done|]. by constructor. Qed.
Lemma only_remove (P : call -> Prop) p : (forall r, P (CallRemove p r)) -> only P wtrace (remove_file p).
Proof. intros HP w _. eexists. split; [apply calls_remove|]. split; [done|]. by constructor. Qed.
Lemma only_spawn (P : call -> Prop) a : (forall r, P (CallSpawn a r)) -> only P wtrace (spawn a).
Proof. intros HP w _. eexists. split; [apply calls_spawn|]. split; [done|]. by constructor. Qed.
Lemma only_sleep (P : call -> Prop) ms : P (CallSleep ms) -> only P wtrace (sleep_ms ms).
Proof. intros HP w _. eexists. split; [apply calls_sleep|]. split; [done|]. by constructor. Qed.
Lemma only_put (P : call -> Prop) c path body :
  (forall req reply, P (CallFc req reply)) -> only P wtrace (put c path body).
Proof.
  intros HP w _. unfold put. destruct (json_to_string body) as [text|e]; [|exists []; by rewrite app_nil_r].
  unfold bind. set (req := mkFcRequest (client_socket_path c) PUT path text).
  pose proof (calls_fc req w) as Hc. destruct (fc_send req w) as [reply w']. simpl in Hc.
  exists [CallFc req reply]. destruct (check_response reply); repeat split; try done; by constructor.
Qed.
Lemma only_self P c : only P (mtrace c) self.
Proof. intros s Hs. exists []. by rewrite app_nil_r. Qed.
Lemma only_transition P c st : only P (mtrace c) (transition st).
Proof.
  intros [mgr w] Hc. exists []. unfold transition.
  destruct (transition_to st (lifecycle mgr)). by rewrite app_nil_r.
Qed.

(** Calls other than requests to the API, and other than spawning. *)
Definition not_api (c : call) : Prop := match c with CallFc _ _ => False | _ => True end.
Definition not_spawn (c : call) : Prop := match c with CallSpawn _ _ => False | _ => True end.

Lemma only_api_calls evs : Forall not_api evs -> api_calls evs = [].
Proof. induction 1 as [|c evs Hc _ IH]; [done|]. by destruct c. Qed.

Lemma quiet_carries {S A E} (t : tracer S) sock (m : ST S (result A E)) :
  only not_api t m -> carries_out t sock [] m.
Proof.
  intros Hm. eapply emits_conseq; [exact Hm|]. intros r evs Hev. apply follows_nil. by apply only_api_calls.
Qed.

Lemma carries_bind {S A B E} (t : tracer S) sock p (m : ST S A) (k : A -> ST S (result B E)) :
  only not_api t m -> (forall a, carries_out t sock p (k a)) -> carries_out t sock p (bind m k).
Proof.
  intros Hm Hk. eapply emits_conseq; [exact (emits_bind t _ _ _ (fun _ => follows sock p) Hm Hk)|].
  intros r evs (a & e1 & e2 & -> & Hp1%only_api_calls & Hp2). simpl in Hp2.
  apply (follows_app (E := E) sock [] p tt); [by apply follows_nil|done].
Qed.

Lemma carries_quiet {S A B E} (t : tracer S) sock p (m : ST S (result A E)) (k : A -> ST S (result B E)) :
  only not_api t m -> (forall a, carries_out t sock p (k a)) -> carries_out t sock p (bind_ok m k).
Proof. intros Hm Hk. apply (carries_bind_ok t sock [] p); [by apply quiet_carries|done]. Qed.

Hint Resolve only_bind only_bind_ok only_ret only_st_map only_on_world only_exists only_remove
  only_spawn only_sleep only_put only_self only_transition : rs.
Hint Resolve carries_context carries_on_world carries_ret : rs.
Hint Extern 1 (not_api _) => exact I : rs.
Hint Extern 1 (not_spawn _) => exact I : rs.

(** One [put] carries out one step. *)
Lemma carries_put c path body : carries_out wtrace (client_socket_path c) [(path, body)] (put c path body).
Proof.
  intros w _. unfold put. destruct (json_to_string body) as [text|e] eqn:Ht.
  2: { exists []. rewrite app_nil_r. split; [done|]. split; [done|]. exists [], [(path, body)].
       split; [done|]. split; [constructor|]. split; [constructor|]. done. }
  unfold bind. set (req := mkFcRequest (client_socket_path c) PUT path text).
  pose proof (calls_fc req w) as Hc. destruct (fc_send req w) as [reply w'] eqn:Ef. simpl in Hc.
  exists [CallFc req reply].
  assert (Hs : forall r, (is_ok r = true -> answered (req, reply)) ->
            follows (A := unit) (E := error) (client_socket_path c) [(path, body)] r [CallFc req reply]).
  { intros r Hr. exists [(path, body)], []. split; [done|]. simpl. split.
    { constructor; [|constructor]. exists text. by split. }
    split; [constructor|]. intros Hok. split; [done|]. constructor; [auto|constructor]. }
  destruct (check_response reply) as [b|e] eqn:Ec; (split; [done|]; split; [done|]); apply Hs; [|done].
  intros _. unfold check_response in Ec. destruct reply as [[st [bb|]]|[|]]; try done.
  destruct (is_success st) eqn:Es; [by exists st, bb|by destruct (de_error_response bb)].
Qed.

Lemma only_wait_for_socket (P : call -> Prop) n path :
  (forall b, P (CallExists path b)) -> (forall ms, P (CallSleep ms)) -> only P wtrace (wait_for_socket_loop n path).
Proof.
  intros HP1 HP2. induction n as [|n IH]; simpl; [apply only_ret|].
  apply only_bind; [auto with rs|]. intros [|]; apply only_bind; auto with rs.
Qed.

Lemma quiet_start_process c : only not_api (mtrace c) start_firecracker_process.
Proof.
  apply only_bind; [apply only_self|]. intros mgr. apply only_bind; [auto with rs|].
  intros [pid|e]; [|apply only_ret]. intros [m w] Hc. exists []. by rewrite app_nil_r.
Qed.

Lemma only_validate (P : call -> Prop) config :
  (forall p b, P (CallExists p b)) -> only P wtrace (validate config).
Proof.
  intros HP. unfold validate. apply only_bind; [auto with rs|]. intros [|]; simpl; [|apply only_ret].
  apply only_bind; [auto with rs|]. intros [|]; simpl; [|apply only_ret].
  repeat case_match; apply only_ret.
Qed.

Hint Resolve only_wait_for_socket quiet_start_process only_validate : rs.

(** [configure_vm] carries out all of the boot plan but the start action. *)
Lemma carries_configure mgr config :
  carries_out wtrace (client_socket_path (client mgr)) (removelast (boot_plan config)) (configure_vm mgr config).
Proof.
  unfold boot_plan. rewrite !app_assoc, removelast_last, <- !app_assoc. unfold configure_vm.
  do 3 (apply (carries_bind_ok _ _ [_]); [do 2 apply carries_context; apply carries_put|intros _]).
  apply carries_bind_ok.
  { destruct (tap_device config), (ip_address config); try apply carries_ret.
    do 2 apply carries_context. apply carries_put. }
  intros _. apply carries_bind_ok; [do 2 apply carries_context; apply carries_put|intros _].
  rewrite <- (app_nil_r (match guest_cid config with Some _ => _ | None => _ end)).
  apply carries_bind_ok; [|intros _; apply carries_ret].
  destruct (guest_cid config), (vsock_uds_path config); try apply carries_ret.
  do 2 apply carries_context. apply carries_put.
Qed.

Lemma carries_self {A E} c sock p (k : VmManager -> ST (VmManager * W) (result A E)) :
  (forall mgr, client mgr = c -> carries_out (mtrace c) sock p (k mgr)) ->
  carries_out (mtrace c) sock p (bind self k).
Proof. intros Hk [mgr w] Hc. apply (Hk mgr Hc (mgr, w) Hc). Qed.

Lemma carries_start c config :
  carries_out (mtrace c) (client_socket_path c) (boot_plan config) (start config).
Proof.
  unfold start. apply carries_quiet; [auto with rs|intros _].
  apply carries_quiet; [auto with rs|intros _]. apply carries_self. intros mgr0 _.
  apply carries_bind; [auto with rs|]. intros stale. apply carries_quiet. { destruct stale; auto with rs. }
  intros _. apply carries_quiet; [auto with rs|intros _]. apply carries_self. intros mgr <-.
  apply carries_quiet. { unfold wait_for_socket. auto with rs. }
  intros _.
  replace (boot_plan config) with (removelast (boot_plan config) ++ [("/actions"%string, ser_action action_start)]).
  2: { unfold boot_plan. by rewrite !app_assoc, removelast_last, <- !app_assoc. }
  apply carries_bind_ok; [apply carries_context, carries_on_world, carries_configure|intros _].
  apply (carries_bind_ok _ _ [_] []).
  { apply carries_context, carries_on_world. apply carries_context, carries_put. }
  intros _. apply carries_quiet; [auto with rs|intros _]. apply carries_ret.
Qed.

(** ** The Firecracker process *)

Section process.
Variable old : list call.

(** Since [old]: nothing was spawned; or what was spawned is the process held. *)
Definition unspawned (s : VmManager * W) : Prop :=
  exists evs, calls s.2 = old ++ evs /\ Forall not_spawn evs.
Definition holds_spawned (s : VmManager * W) : Prop :=
  exists evs, calls s.2 = old ++ evs /\
    forall a pid, CallSpawn a (Ok pid) ∈ evs -> firecracker_process s.1 = Some pid.

Lemma unspawned_holds s : unspawned s -> holds_spawned s.
Proof.
  intros (evs & Hc & Hn). exists evs. split; [done|]. intros a pid Hin.
  by destruct (proj1 (Forall_forall _ _) Hn _ Hin).
Qed.

Lemma on_world_unspawned {A} (m : ST W A) :
  only not_spawn wtrace m -> hoare unspawned (on_world m) (fun _ => unspawned).
Proof.
  intros Hm [mgr w] (evs & Hc & Hn). destruct (Hm w I) as (e2 & Hp1 & _ & Hp2). unfold on_world.
  destruct (m w) as [a w']. simpl in *. exists (evs ++ e2). simpl. rewrite Hp1, Hc, app_assoc.
  split; [done|]. by apply Forall_app.
Qed.

Lemma on_world_holds {A} (m : ST W A) :
  only not_spawn wtrace m -> hoare holds_spawned (on_world m) (fun _ => holds_spawned).
Proof.
  intros Hm [mgr w] (evs & Hc & Hn). destruct (Hm w I) as (e2 & Hp1 & _ & Hp2). unfold on_world.
  destruct (m w) as [a w']. simpl in *. exists (evs ++ e2). simpl. rewrite Hp1, Hc, app_assoc.
  split; [done|]. intros b pid [Hin|Hin]%elem_of_app; [by eapply Hn|].
  by destruct (proj1 (Forall_forall _ _) Hp2 _ Hin).
Qed.

Lemma transition_unspawned st : hoare unspawned (transition st) (fun _ => unspawned).
Proof. intros [mgr w] Hs. unfold transition. by destruct (transition_to st (lifecycle mgr)). Qed.
Lemma transition_holds st : hoare holds_spawned (transition st) (fun _ => holds_spawned).
Proof. intros [mgr w] Hs. unfold transition. by destruct (transition_to st (lifecycle mgr)). Qed.

Lemma hoare_st_map {S A B} (P : S -> Prop) (f : A -> B) (m : ST S A) (Q : S -> Prop) :
  hoare P m (fun _ => Q) -> hoare P (st_map f m) (fun _ => Q).
Proof. intros Hm s Hs. specialize (Hm s Hs). unfold st_map, bind. by destruct (m s). Qed.

Lemma hoare_self (P : VmManager * W -> Prop) : hoare P self (fun _ => P).
Proof. by intros s Hs. Qed.

Lemma start_process_holds : hoare unspawned start_firecracker_process (fun _ => holds_spawned).
Proof.
  intros [mgr w] (evs & Hc & Hn). unfold start_firecracker_process, bind, self, on_world. simpl in *.
  set (argv := ["firecracker"; "--api-sock"; socket_path mgr]%string).
  pose proof (calls_spawn argv w) as Hs. destruct (spawn argv w) as [r w']. simpl in Hs.
  assert (Hall : forall a pid, CallSpawn a (Ok pid) ∈ evs ++ [CallSpawn argv r] -> r = Ok pid).
  { intros a pid [Hin|Hin]%elem_of_app.
    - by destruct (proj1 (Forall_forall _ _) Hn _ Hin).
    - apply list_elem_of_singleton in Hin. by simplify_eq. }
  rewrite Hc, <- app_assoc in Hs.
  destruct r as [pid|e]; eexists; (split; [exact Hs|]); intros a pid' Hin; specialize (Hall _ _ Hin); by simplify_eq/=.
Qed.

Lemma configure_no_spawn mgr config : only not_spawn wtrace (configure_vm mgr config).
Proof.
  unfold configure_vm, set_boot_source, set_drive, set_machine_config, set_network_interface, set_entropy, set_vsock.
  repeat (apply only_bind_ok; [|intros _]); repeat case_match; auto 8 with rs.
Qed.

Hint Resolve configure_no_spawn only_put : rs.

Lemma start_holds config : hoare unspawned (start config) (fun _ => holds_spawned).
Proof.
  assert (HE : forall (e : error) s, unspawned s -> holds_spawned s) by (intros; by apply unspawned_holds).
  unfold start. eapply hoare_bind_ok; [apply hoare_st_map, on_world_unspawned; auto with rs|intros []|exact HE].
  eapply hoare_bind_ok; [apply hoare_st_map, transition_unspawned|intros []|exact HE].
  eapply hoare_bind; [apply hoare_self|intros mgr0].
  eapply hoare_bind; [apply on_world_unspawned; auto with rs|intros stale].
  apply (hoare_bind_ok _ _ _ (fun _ => unspawned)); [|intros []|exact HE].
  { destruct stale; [|by apply hoare_ret].
    apply hoare_st_map, on_world_unspawned, only_st_map. auto with rs. }
  eapply hoare_bind_ok; [apply hoare_st_map, start_process_holds|intros []|done].
  eapply hoare_bind; [apply hoare_self|intros mgr].
  eapply hoare_bind_ok; [apply hoare_st_map, on_world_holds; unfold wait_for_socket; auto with rs|intros []|done].
  eapply hoare_bind_ok; [apply hoare_st_map, on_world_holds; auto with rs|intros []|done].
  eapply hoare_bind_ok; [apply hoare_st_map, on_world_holds, only_st_map; auto with rs|intros []|done].
  eapply hoare_bind_ok; [apply hoare_st_map, transition_holds|intros []|done].
  by apply hoare_ret.
Qed.

End process.

Lemma on_world_inv {A} (m : ST W A) mgr w a s' :
  on_world m (mgr, w) = (a, s') -> exists w', m w = (a, w') /\ s' = (mgr, w').
Proof. unfold on_world. destruct (m w) as [b w']. intros [= <- <-]. by eauto. Qed.

Lemma transition_inv st mgr (w : W) s' :
  transition st (mgr, w) = (Ok tt, s') ->
  s' = (mkVmManager (socket_path mgr) (firecracker_process mgr) (client mgr) (mkLifecycle st), w).
Proof.
  unfold transition. destruct (transition_to st (lifecycle mgr)) as [r l] eqn:E. intros [= -> <-].
  by apply transition_to_ok in E as [_ ->].
Qed.

(** A successful start: the configuration is valid, the VM is [Running] and the
    manager holds the process. *)
Lemma start_ok config mgr (w : W) s' :
  start config (mgr, w) = (Ok tt, s') ->
  vcpu_count config <> 0 /\ 128 <= mem_size_mib config /\
  state s'.1 = Running /\ firecracker_process s'.1 <> None /\
  socket_path s'.1 = socket_path mgr /\ client s'.1 = client mgr.
Proof.
  unfold start. intros ([] & s1 & E1%context_inv & Hr)%bind_ok_inv.
  apply on_world_inv in E1 as (w1 & Hv%validate_ok & ->).
  apply bind_ok_inv in Hr as ([] & s2 & ->%context_inv%transition_inv & Hr).
  apply bind_inv in Hr as (m2 & s3 & [= <- <-] & Hr). simpl in Hr.
  apply bind_inv in Hr as (stale & s4 & (w2 & _ & ->)%on_world_inv & Hr).
  apply bind_ok_inv in Hr as ([] & s5 & E5 & Hr).
  assert (exists w3, s5 = (mkVmManager (socket_path mgr) (firecracker_process mgr) (client mgr) (mkLifecycle Starting), w3)) as [w3 ->].
  { destruct stale; [|by injection E5; eauto].
    apply context_inv, on_world_inv in E5 as (w' & _ & ->). eauto. }
  apply bind_ok_inv in Hr as ([] & s6 & E6%context_inv & Hr).
  assert (exists pid w4, s6 = (mkVmManager (socket_path mgr) (Some pid) (client mgr) (mkLifecycle Starting), w4)) as (pid & w4 & ->).
  { unfold start_firecracker_process, bind, self, on_world in E6. simpl in E6.
    destruct (spawn _ w3) as [[pid|e] w4]; [|done]. injection E6 as <-. by exists pid, w4. }
  apply bind_inv in Hr as (m6 & s7 & [= <- <-] & Hr). simpl in Hr.
  do 3 (apply bind_ok_inv in Hr as ([] & ? & (? & _ & ->)%context_inv%on_world_inv & Hr)).
  apply bind_ok_inv in Hr as ([] & s8 & ->%context_inv%transition_inv & Hr).
  injection Hr as <-. by destruct Hv.
Qed.

(** C16. Booting a VM: whatever the host and Firecracker answer, [start] sends
    Firecracker a prefix of the boot sequence (boot source, root drive, machine
    configuration, network interface when configured, entropy device, vsock when
    configured, and only then [InstanceStart]), each with the configured values
    and on the manager's socket, going on only after a 2xx answer; if it returns
    [Ok], the whole sequence was sent and accepted, the vCPUs are not zero and the
    memory is at least 128 MiB, the VM is [Running] and its process is held. *)
Theorem start_boot_sequence config mgr (w : W) :
  let '(r, (mgr', w')) := start config (mgr, w) in
  exists evs, calls w' = calls w ++ evs /\
    follows (client_socket_path (client mgr)) (boot_plan config) r evs /\
    client mgr' = client mgr /\
    (r = Ok tt -> vcpu_count config <> 0 /\ 128 <= mem_size_mib config /\
                  state mgr' = Running /\ firecracker_process mgr' <> None).
Proof.
  destruct (start config (mgr, w)) as [r [mgr' w']] eqn:E.
  destruct (carries_start (client mgr) config (mgr, w) eq_refl) as (evs & Hev & Hk & Hf).
  rewrite E in Hev, Hk, Hf. simpl in *. exists evs. split; [done|]. split; [done|]. split; [done|].
  intros ->. destruct (start_ok _ _ _ _ E) as (? & ? & ? & ? & ? & ?). done.
Qed.

(** C17. No orphaned hypervisor: whether [start] succeeds or fails at any step,
    every Firecracker process it spawned is the one the manager holds, and
    dropping the manager then kills it as its first act. *)
Theorem start_then_drop_kills config mgr (w : W) evs a pid :
  calls (start config (mgr, w)).2.2 = calls w ++ evs ->
  CallSpawn a (Ok pid) ∈ evs ->
  let s1 := (start config (mgr, w)).2 in
  firecracker_process s1.1 = Some pid /\
  exists r rest, calls (drop_manager s1).2.2 = calls s1.2 ++ CallKill pid r :: rest /\
    firecracker_process (drop_manager s1).2.1 = None.
Proof.
  intros Hev Hin s1.
  assert (unspawned (calls w) (mgr, w)) as Hu by (exists []; by rewrite app_nil_r).
  destruct (start_holds (calls w) config (mgr, w) Hu) as (evs' & Hev' & Hp).
  rewrite Hev in Hev'. apply app_inv_head in Hev' as <-. specialize (Hp _ _ Hin).
  split; [exact Hp|]. fold s1 in Hp. destruct s1 as [m1 w1]. simpl in *.
  unfold drop_manager, take_process, bind, self, ret, on_world. simpl. rewrite Hp.
  pose proof (calls_kill pid w1) as Hk. destruct (kill pid w1) as [r w2]. simpl in *.
  pose proof (calls_exists (socket_path m1) w2) as He. destruct (path_exists (socket_path m1) w2) as [b w3]. simpl in *.
  destruct b; simpl; [|eexists _, _; split; [by rewrite He, Hk, <- app_assoc|done]].
  pose proof (calls_remove (socket_path m1) w3) as Hr. destruct (remove_file (socket_path m1) w3) as [r' w4]. simpl in *.
  eexists _, _; split; [|done]. simpl. by rewrite Hr, He, Hk, <- !app_assoc.
Qed.

(** The one request that [PUT path body] on [sock] makes, which got that answer; none
    when the body cannot be written as JSON text. *)
Definition put_calls (sock path : string) (body : json) (reply : fc_reply) : list call :=
  match json_to_string body with
  | Ok text => [CallFc (mkFcRequest sock PUT path text) reply]
  | Err _ => []
  end.

Lemma put_trace c path body (w : W) :
  exists r reply w', put c path body w = (r, w') /\ calls w' = calls w ++ put_calls (client_socket_path c) path body reply.
Proof.
  unfold put, put_calls. destruct (json_to_string body) as [text|e].
  - unfold bind. set (req := mkFcRequest _ _ _ _). pose proof (calls_fc req w) as Hc.
    destruct (fc_send req w) as [reply w'] eqn:Ef. simpl in Hc.
    destruct (check_response reply); eexists _, reply, w'; by split.
  - eexists _, (Err (SendFailed EmptyString)), w. rewrite app_nil_r. by split.
Qed.

(** The graceful part of [stop]. *)
Lemma ctrl_alt_del_trace mgr (w : W) :
  exists r reply w', send_ctrl_alt_del (client mgr) w = (r, w') /\
    calls w' = calls w ++ put_calls (client_socket_path (client mgr)) "/actions" (ser_action action_send_ctrl_alt_del) reply.
Proof.
  destruct (put_trace (client mgr) "/actions" (ser_action action_send_ctrl_alt_del) w) as (r & reply & w' & Hr & Hc).
  unfold send_ctrl_alt_del, st_map, bind, ret. rewrite Hr. by eexists _, reply, w'.
Qed.

(** Killing and reaping the process taken out of the manager. *)
Lemma reap_run p mgr (w : W) :
  exists w' evs,
    match p with
    | Some pid => do! on_world (kill pid) in do! on_world (wait pid) in ret tt
    | None => ret tt
    end (mgr, w) = (tt, (mgr, w')) /\ calls w' = calls w ++ evs /\
    match p with
    | Some pid => exists rk rw, evs = [CallKill pid rk; CallWait pid rw]
    | None => evs = []
    end.
Proof.
  destruct p as [pid|]; [|exists w, []; by rewrite app_nil_r].
  unfold bind, on_world, ret. pose proof (calls_kill pid w) as Hk. destruct (kill pid w) as [rk w1].
  pose proof (calls_wait pid w1) as Hw. destruct (wait pid w1) as [rw w2]. simpl in *.
  eexists w2, _. split; [done|]. rewrite Hw, Hk, <- app_assoc. eauto.
Qed.

(** Removing the socket file, if there is one. *)
Lemma remove_socket_run path mgr (w : W) :
  exists w' evs,
    (let! there := on_world (path_exists path) in
     if (there : bool) then do! on_world (remove_file path) in ret tt else ret tt) (mgr, w) = (tt, (mgr, w')) /\
    calls w' = calls w ++ evs /\ forall pid rk, ~ CallKill pid rk ∈ evs.
Proof.
  unfold bind, on_world, ret. pose proof (calls_exists path w) as He.
  destruct (path_exists path w) as [[|] w1]; simpl in *.
  - pose proof (calls_remove path w1) as Hr. destruct (remove_file path w1) as [r w2]. simpl in *.
    eexists w2, _. split; [done|]. split; [by rewrite Hr, He, <- app_assoc|]. intros pid rk. set_solver.
  - eexists w1, _. split; [done|]. split; [done|]. intros pid rk. set_solver.
Qed.

Lemma stop_states s : is_ok (transition_to Stopped (transition_to Stopping (mkLifecycle s)).2).1 = false
                      <-> s = NotStarted \/ s = VmErr.
Proof. destruct s; simpl; naive_solver. Qed.


End traced.

(** * Runs on the example host *)

Definition example_config : VmConfig :=
  with_vsock 3 "/s.vsock" (with_network "tap0" "192.168.100.2" (FcConfig.new "/k" "/r")).

Lemma start_boot_sequence_witness :
  exists evs, calls (start example_config (new "/s", empty_sim)).2.2 = calls empty_sim ++ evs /\
    map (fun rr => fc_path rr.1) (api_calls evs) =
      ["/boot-source"; "/drives/rootfs"; "/machine-config"; "/network-interfaces/eth0"; "/entropy"; "/vsock";
       "/actions"]%string /\
    state (start example_config (new "/s", empty_sim)).2.1 = Running.
Proof.
  pose proof (start_boot_sequence example_config (new "/s") empty_sim) as H.
  destruct (start example_config (new "/s", empty_sim)) as [r [mgr' w']] eqn:E.
  vm_compute in E. injection E as <- <- <-. destruct H as (evs & Hev & _ & _ & Hok).
  exists evs. split; [exact Hev|]. split; [|by apply Hok].
  simpl in Hev. subst evs. reflexivity.
Defined.

(** The configuration is refused by Firecracker: the spawned process is killed. *)
Lemma start_then_drop_kills_witness :
  let s1 := (start example_config (new "/s", set_statuses [204; 400] empty_sim)).2 in
  firecracker_process s1.1 = Some 100 /\
  exists r rest, calls (drop_manager s1).2.2 = calls s1.2 ++ CallKill 100 r :: rest /\
    firecracker_process (drop_manager s1).2.1 = None.
Proof.
  apply (start_then_drop_kills example_config (new "/s") (set_statuses [204; 400] empty_sim)
           (calls (start example_config (new "/s", set_statuses [204; 400] empty_sim)).2.2)
           ["firecracker"; "--api-sock"; "/s"]%string 100).
  - vm_compute. reflexivity.
  - apply (list_elem_of_lookup_2 _ 3). vm_compute. reflexivity.
Defined.
