(* ===== verification/Network.v ===== *)
(** clawpot-server/src/network/: the iptables rules (iptables.rs), the bridge
    (bridge.rs), the TAP devices (tap.rs) and the [NetworkManager] (mod.rs).  The
    host behind the calls is a world; its chains and links are read through
    [NetworkView] and change as [NetworkLaws] states. *)

From S2P Require Import Prelude RustStr Addr World Json SimWorld.
From Stdlib Require Import ZArith Lia Ascii String.
From Stdlib Require Import Strings.Byte.
From stdpp Require Import base gmap strings list.

Open Scope Z_scope.

(** A rule with the table and chain it belongs to. *)
Definition rule_at : Type := string * string * string.

(** The rules of the bridge, as [format!] writes them. *)
Definition http_rule (bridge : string) : string :=
  "-i " +:+ bridge +:+ " -p tcp --dport 80 -j REDIRECT --to-port 10080".
Definition https_rule (bridge : string) : string :=
  "-i " +:+ bridge +:+ " -p tcp --dport 443 -j REDIRECT --to-port 10443".
Definition dns_udp_rule (bridge : string) : string :=
  "-i " +:+ bridge +:+ " -p udp --dport 53 -j REDIRECT --to-port 10053".
Definition dns_tcp_rule (bridge : string) : string :=
  "-i " +:+ bridge +:+ " -p tcp --dport 53 -j REDIRECT --to-port 10053".
Definition drop_rule (bridge : string) : string := "-i " +:+ bridge +:+ " -j DROP".

(** The rule that pins a TAP device to its address. *)
Definition source_ip_rule (tap : string) (ip : IpAddr) : string :=
  "-i " +:+ tap +:+ " ! -s " +:+ show_ip ip +:+ " -j DROP".

Section iptables.
Context {W : Type} `{Iptables W}.

Definition ipt_new : ST W (result unit error) :=
  st_map (map_err (fun e => anyhow ("Failed to initialize iptables: " +:+ e))) ipt_open.

Definition ipt_append (table chain rule description : string) : ST W (result unit error) :=
  do? st_map (map_err (fun e => anyhow ("iptables rule '" +:+ description +:+ "' failed: " +:+ e)))
        (ipt_crate_append table chain rule) in
  ret (Ok tt).

Definition add_source_ip_rule (tap : string) (ip : IpAddr) : ST W (result unit error) :=
  do? ipt_new in
  do? ipt_append "filter" "FORWARD" (source_ip_rule tap ip)
        ("enforce source IP " +:+ show_ip ip +:+ " on " +:+ tap) in
  ret (Ok tt).

(** Best effort: always [Ok]. *)
Definition remove_source_ip_rule (tap : string) (ip : IpAddr) : ST W (result unit error) :=
  let! ipt := ipt_open in
  match ipt with
  | Err _ => ret (Ok tt)
  | Ok _ => do! ipt_crate_delete "filter" "FORWARD" (source_ip_rule tap ip) in ret (Ok tt)
  end.

Definition add_proxy_redirect_rules (bridge : string) : ST W (result unit error) :=
  do? ipt_new in
  do? ipt_append "nat" "PREROUTING" (http_rule bridge) "REDIRECT port 80 -> 10080" in
  do? ipt_append "nat" "PREROUTING" (https_rule bridge) "REDIRECT port 443 -> 10443" in
  ret (Ok tt).

Definition add_egress_filter_rules (bridge : string) : ST W (result unit error) :=
  do? ipt_new in
  do? ipt_append "nat" "PREROUTING" (dns_udp_rule bridge) "REDIRECT DNS UDP → 10053" in
  do? ipt_append "nat" "PREROUTING" (dns_tcp_rule bridge) "REDIRECT DNS TCP → 10053" in
  do? ipt_append "filter" "FORWARD" (drop_rule bridge) "DROP all other forwarded traffic" in
  ret (Ok tt).

Definition ensure_iptables_rule (table chain rule description : string) : ST W (result unit error) :=
  let? there := st_map (map_err (fun e => anyhow ("iptables exists check for '" +:+ description +:+ "' failed: " +:+ e)))
                  (ipt_crate_exists table chain rule) in
  if (there : bool) then ret (Ok tt) else ipt_append table chain rule description.

(** One turn of the loop of the two [ensure_*] functions. *)
Definition ensure_entry (e : rule_at * string) : ST W (result unit error) :=
  let '(table, chain, rule, desc) := e in ensure_iptables_rule table chain rule desc.

Definition ensure_proxy_redirect_rules (bridge : string) : ST W (result unit error) :=
  do? ipt_new in
  for_ok ensure_entry
    [ ("nat", "PREROUTING", http_rule bridge, "REDIRECT port 80 → 10080");
      ("nat", "PREROUTING", https_rule bridge, "REDIRECT port 443 → 10443") ]%string.

Definition ensure_egress_filter_rules (bridge : string) : ST W (result unit error) :=
  do? ipt_new in
  for_ok ensure_entry
    [ ("nat", "PREROUTING", dns_udp_rule bridge, "REDIRECT DNS UDP → 10053");
      ("nat", "PREROUTING", dns_tcp_rule bridge, "REDIRECT DNS TCP → 10053");
      ("filter", "FORWARD", drop_rule bridge, "DROP all other forwarded traffic") ]%string.

Definition remove_entry (e : rule_at) : ST W (result unit string) :=
  let '(table, chain, rule) := e in ipt_crate_delete table chain rule.

Definition remove_proxy_rules (bridge : string) : ST W unit :=
  let! ipt := ipt_open in
  match ipt with
  | Err _ => ret tt
  | Ok _ =>
      for_each remove_entry
        [ ("nat", "PREROUTING", http_rule bridge); ("nat", "PREROUTING", https_rule bridge);
          ("nat", "PREROUTING", dns_udp_rule bridge); ("nat", "PREROUTING", dns_tcp_rule bridge);
          ("filter", "FORWARD", drop_rule bridge) ]%string
  end.

End iptables.

Section bridge.
Context {W : Type} `{Iptables W} `{Netlink W} `{FileSystem W}.

(** [.context(msg)] on the error of a crate. *)
Definition crate_context {A} (msg : string) (m : ST W (result A string)) : ST W (result A error) :=
  st_map (map_err (fun e => [msg; e])) m.

Definition get_link_index (name : string) : ST W (result Z error) :=
  let? link := crate_context ("Failed to query link " +:+ name) (nl_link_get name) in
  ret (ok_or link (anyhow ("Link " +:+ name +:+ " not found"))).

Definition enable_ip_forwarding : ST W (result unit error) :=
  let! r := write_file "/proc/sys/net/ipv4/ip_forward" "1" in
  match r with
  | Ok _ => ret (Ok tt)
  | Err e =>
      if bool_decide (io_error_kind e = PermissionDenied)
      then
        let? current := st_map (map_err (fun e => ["Failed to read IP forwarding status"%string; io_error_msg e]))
                          (read_to_string "/proc/sys/net/ipv4/ip_forward") in
        if bool_decide (trim current = "1"%string)
        then ret (Ok tt)
        else ret (Err (anyhow ("IP forwarding is disabled and cannot be enabled: " +:+ io_error_msg e)))
      else ret (Err (anyhow ("Failed to enable IP forwarding: " +:+ io_error_msg e)))
  end.

Definition create_bridge (name : string) (gateway_ip : IpAddr) : ST W (result unit error) :=
  do? crate_context ("Failed to create bridge " +:+ name) (nl_add_bridge name) in
  let? index := get_link_index name .context ("Failed to get index for bridge " +:+ name) in
  do? crate_context ("Failed to assign IP " +:+ show_ip gateway_ip +:+ "/24 to bridge " +:+ name)
        (nl_address_add index gateway_ip 24) in
  do? crate_context ("Failed to bring up bridge " +:+ name) (nl_link_up index) in
  do? enable_ip_forwarding in
  do? add_proxy_redirect_rules name in
  do? add_egress_filter_rules name in
  ret (Ok tt).

(** [links.try_next().await.is_ok()] is true also of a stream that ends at once. *)
Definition ensure_bridge (name : string) (gateway_ip : IpAddr) : ST W (result unit error) :=
  let! link := nl_link_get name in
  do? (if is_ok link then ret (Ok tt) else create_bridge name gateway_ip) in
  do? enable_ip_forwarding in
  do? ensure_proxy_redirect_rules name in
  do? ensure_egress_filter_rules name in
  ret (Ok tt).

Definition attach_tap_to_bridge (bridge tap : string) : ST W (result unit error) :=
  let? bridge_index := get_link_index bridge .context ("Failed to get index for bridge " +:+ bridge) in
  let? tap_index := get_link_index tap .context ("Failed to get index for TAP " +:+ tap) in
  do? crate_context ("Failed to attach TAP " +:+ tap +:+ " to bridge " +:+ bridge)
        (nl_link_controller tap_index bridge_index) in
  ret (Ok tt).

End bridge.

Definition IFNAMSIZ : nat := 16.
Definition IFF_TAP : Z := 0x0002.
Definition IFF_NO_PI : Z := 0x1000.

(** [ifr.ifr_name]: the bytes of the name over sixteen zeroes. *)
Definition ifr_name (name : string) : list byte :=
  bytes_of_str name ++ replicate (IFNAMSIZ - String.length name) x00.

(** No byte of the name is NUL. *)
Fixpoint no_nul (s : string) : Prop :=
  match s with
  | EmptyString => True
  | String c s' => byte_of_ascii c <> x00 /\ no_nul s'
  end.

Lemma ifr_string_name s : no_nul s -> ifr_string (ifr_name s) = s.
Proof.
  unfold ifr_name, bytes_of_str, list_byte_of_string. generalize (IFNAMSIZ - String.length s)%nat. intros n.
  induction s as [|c s IH]; simpl.
  - intros _. by destruct n.
  - intros [Hc Hs]. rewrite bool_decide_eq_false_2 by done. rewrite ascii_of_byte_of_ascii. by rewrite IH.
Qed.

Section tap.
Context {W : Type} `{Netlink W} `{TunDevice W}.

Definition bring_up (name : string) : ST W (result unit error) :=
  let? index := get_link_index name .context ("Failed to get index for device " +:+ name) in
  do? crate_context ("Failed to bring up device " +:+ name) (nl_link_up index) in
  ret (Ok tt).

(** The descriptor is closed when it goes out of scope, on every path. *)
Definition create_tap (name : string) : ST W (result unit error) :=
  if (String.length name <? IFNAMSIZ)%nat then
    let! opened := tun_open in
    match opened with
    | Err e => ret (Err ["Failed to open /dev/net/tun"%string; io_error_msg e])
    | Ok tun_fd =>
        let! r :=
          (do? crate_context ("ioctl TUNSETIFF failed for TAP device " +:+ name)
                 (tun_setiff tun_fd (ifr_name name) (Z.lor IFF_TAP IFF_NO_PI)) in
           do? st_map (map_err (fun e => anyhow ("ioctl TUNSETPERSIST failed for TAP device " +:+ name +:+ ": " +:+ e)))
                 (tun_setpersist tun_fd 1) in
           do? bring_up name in
           ret (Ok tt)) in
        do! tun_close tun_fd in ret r
    end
  else ret (Err (anyhow ("TAP device name '" +:+ name +:+ "' too long (max 15 chars)"))).

Definition delete_tap (name : string) : ST W (result unit error) :=
  let! index := get_link_index name in
  match index with
  | Ok index =>
      do? crate_context ("Failed to delete TAP device " +:+ name) (nl_link_del index) in
      ret (Ok tt)
  | Err _ => ret (Ok tt)
  end.

End tap.

Record NetworkManager : Type := mkNetworkManager { bridge_name : string }.

Section manager.
Context {W : Type} `{Iptables W} `{Netlink W} `{FileSystem W} `{TunDevice W}.

(** [NetworkManager::new()], once the netlink connection is open *)
Definition nm_new : NetworkManager := mkNetworkManager "br0".

(** [NetworkManager::ensure_bridge(&self)] *)
Definition nm_ensure_bridge (nm : NetworkManager) : ST W (result unit error) :=
  do? ensure_bridge (bridge_name nm) (V4 (ipv4 192 168 100 1)) in
  ret (Ok tt).

(** [NetworkManager::create_tap(&self, tap_name, ip)] *)
Definition nm_create_tap (nm : NetworkManager) (tap_name : string) (ip : IpAddr) : ST W (result unit error) :=
  do? create_tap tap_name in
  do? attach_tap_to_bridge (bridge_name nm) tap_name in
  do? add_source_ip_rule tap_name ip in
  ret (Ok tt).

(** [NetworkManager::delete_tap(&self, tap_name, ip)] *)
Definition nm_delete_tap (nm : NetworkManager) (tap_name : string) (ip : IpAddr) : ST W (result unit error) :=
  do! remove_source_ip_rule tap_name ip in
  do? delete_tap tap_name in
  ret (Ok tt).

End manager.

(** * Properties *)

(** The rules the bridge needs, in the order they are installed. *)
Definition bridge_rules (bridge : string) : list rule_at :=
  [ ("nat", "PREROUTING", http_rule bridge); ("nat", "PREROUTING", https_rule bridge);
    ("nat", "PREROUTING", dns_udp_rule bridge); ("nat", "PREROUTING", dns_tcp_rule bridge);
    ("filter", "FORWARD", drop_rule bridge) ]%string.

Definition has_rule (rs : ruleset) (e : rule_at) : Prop := e.2 ∈ rs e.1.1 e.1.2.
Definition add_at (e : rule_at) (rs : ruleset) : ruleset := rule_add e.1.1 e.1.2 e.2 rs.

(** Add the rules; add those that are missing. *)
Definition add_all (es : list rule_at) (rs : ruleset) : ruleset := fold_left (fun rs e => add_at e rs) es rs.
Definition add_missing (es : list rule_at) (rs : ruleset) : ruleset :=
  fold_left (fun rs e => if bool_decide (e.2 ∈ rs e.1.1 e.1.2) then rs else add_at e rs) es rs.

(** Nothing is removed from a chain or moved in it. *)
Definition extends (rs rs' : ruleset) : Prop := forall t c, rs t c `prefix_of` rs' t c.

#[export] Instance extends_preorder : PreOrder extends.
Proof. split; [intros rs t c; reflexivity|]. intros a b d Hab Hbd t c. etrans; [apply Hab|apply Hbd]. Qed.

Lemma extends_refl rs : extends rs rs.
Proof. reflexivity. Qed.
#[export] Hint Resolve extends_refl : core.

Lemma extends_antisym rs rs' : extends rs rs' -> extends rs' rs -> forall t c, rs' t c = rs t c.
Proof. intros H1 H2 t c. apply (anti_symm prefix); [apply H2|apply H1]. Qed.

Lemma extends_add e rs : extends rs (add_at e rs).
Proof. intros t c. unfold add_at, rule_add. case_bool_decide; [|reflexivity]. by apply prefix_app_r. Qed.

Lemma has_rule_add e rs : has_rule (add_at e rs) e.
Proof.
  unfold has_rule, add_at, rule_add. rewrite bool_decide_eq_true_2 by done.
  apply elem_of_app. right. by apply list_elem_of_singleton.
Qed.

Lemma has_rule_extends rs rs' e : extends rs rs' -> has_rule rs e -> has_rule rs' e.
Proof. intros Hx Hr. destruct (Hx e.1.1 e.1.2) as [k Hk]. unfold has_rule. rewrite Hk. set_solver. Qed.

Lemma add_missing_extends es rs : extends rs (add_missing es rs).
Proof.
  revert rs. induction es as [|e es IH]; intros rs; simpl; [reflexivity|].
  etrans; [|apply IH]. case_bool_decide; [reflexivity|apply extends_add].
Qed.

Lemma add_missing_has es rs e : e ∈ es -> has_rule (add_missing es rs) e.
Proof.
  revert rs. induction es as [|x es IH]; intros rs Hin; [by apply not_elem_of_nil in Hin|]. simpl.
  apply elem_of_cons in Hin as [-> |Hin]; [|by apply IH].
  eapply has_rule_extends; [apply add_missing_extends|].
  case_bool_decide; [done|apply has_rule_add].
Qed.

Lemma add_missing_id es rs : Forall (has_rule rs) es -> add_missing es rs = rs.
Proof.
  induction 1 as [|e es He _ IH]; [done|]. simpl. by rewrite bool_decide_eq_true_2.
Qed.

Lemma add_all_extends es rs : extends rs (add_all es rs).
Proof.
  revert rs. induction es as [|e es IH]; intros rs; simpl; [reflexivity|]. etrans; [apply extends_add|apply IH].
Qed.

Lemma add_all_has es rs : Forall (has_rule (add_all es rs)) es.
Proof.
  revert rs. induction es as [|e es IH]; intros rs; [constructor|]. simpl. constructor; [|apply IH].
  eapply has_rule_extends; [apply add_all_extends|apply has_rule_add].
Qed.

Section laws.
Context {W : Type} `{NetworkLaws W}.

(** Run [m] from rules [rs] and links [ls]: the triple used below. *)
Definition at_net (rs : ruleset) (ls : gmap string link) (w : W) : Prop := rules w = rs /\ links w = ls.

(** A computation that touches neither rules nor links. *)
Definition net_keeps {A} (m : ST W A) : Prop := keeps rules m /\ keeps links m.

Lemma net_keeps_ret {A} (a : A) : net_keeps (ret a).
Proof. done. Qed.

Lemma net_keeps_bind {A B} (m : ST W A) (k : A -> ST W B) :
  net_keeps m -> (forall a, net_keeps (k a)) -> net_keeps (bind m k).
Proof.
  intros [Hm1 Hm2] Hk. split; apply keeps_bind; try done; intros a; by destruct (Hk a).
Qed.

Lemma net_keeps_bind_ok {A B E} (m : ST W (result A E)) (k : A -> ST W (result B E)) :
  net_keeps m -> (forall a, net_keeps (k a)) -> net_keeps (bind_ok m k).
Proof. intros Hm Hk. apply net_keeps_bind; [done|]. intros [a|e]; [apply Hk|apply net_keeps_ret]. Qed.

Lemma net_keeps_st_map {A B} (f : A -> B) (m : ST W A) : net_keeps m -> net_keeps (st_map f m).
Proof. intros Hm. apply net_keeps_bind; [done|]. intros; apply net_keeps_ret. Qed.

Lemma net_keeps_open : net_keeps ipt_open.
Proof. split; intros w; apply ipt_open_keeps. Qed.
Lemma net_keeps_write p t : net_keeps (write_file p t).
Proof. split; intros w; apply fs_write_law. Qed.
Lemma net_keeps_read p : net_keeps (read_to_string p).
Proof. split; intros w; apply fs_read_law. Qed.
Lemma net_keeps_get n : net_keeps (nl_link_get n).
Proof. split; intros w; apply nl_get_law. Qed.
Lemma net_keeps_address i ip len : net_keeps (nl_address_add i ip len).
Proof. split; intros w; apply nl_address_add_law. Qed.

Hint Resolve net_keeps_ret net_keeps_bind net_keeps_bind_ok net_keeps_st_map net_keeps_open net_keeps_write
  net_keeps_read net_keeps_get net_keeps_address : rs.

Lemma net_keeps_forwarding : net_keeps enable_ip_forwarding.
Proof.
  apply net_keeps_bind; [auto with rs|]. intros [u|e]; [auto with rs|].
  case_bool_decide; [|auto with rs]. apply net_keeps_bind_ok; [auto with rs|]. intros current.
  case_bool_decide; auto with rs.
Qed.

Lemma net_keeps_ipt_new : net_keeps ipt_new.
Proof. unfold ipt_new. auto with rs. Qed.

Hint Resolve net_keeps_forwarding net_keeps_ipt_new : rs.

Lemma ipt_append_run t c r d w :
  let '(x, w') := ipt_append t c r d w in
  links w' = links w /\ rules w' = if is_ok x then add_at (t, c, r) (rules w) else rules w.
Proof.
  unfold ipt_append, bind_ok, st_map, bind, ret.
  pose proof (ipt_append_law t c r w) as [Hl Hr].
  destruct (ipt_crate_append t c r w) as [[u|e] w']; done.
Qed.

(** [m] changes the rules by [f], up to the point where it fails; it keeps the links. *)
Definition installs {A E} (f : ruleset -> ruleset) (m : ST W (result A E)) : Prop :=
  forall w, let '(x, w') := m w in
    links w' = links w /\ extends (rules w) (rules w') /\ extends (rules w') (f (rules w)) /\
    (is_ok x = true -> rules w' = f (rules w)).

Lemma installs_bind_ok {A B E} f g (m : ST W (result A E)) (k : A -> ST W (result B E)) :
  (forall rs, extends rs (g rs)) -> installs f m -> (forall a, installs g (k a)) ->
  installs (fun rs => g (f rs)) (bind_ok m k).
Proof.
  intros Hg Hm Hk w. unfold bind_ok, bind. specialize (Hm w). destruct (m w) as [[a|e] w1].
  - destruct Hm as (Hl & Hx & _ & Hok). specialize (Hk a w1). specialize (Hok eq_refl).
    destruct (k a w1) as [x w2]. destruct Hk as (Hl2 & Hx2 & Hy2 & Hok2). rewrite Hok in *.
    split; [by rewrite Hl2|]. split; [by etrans|]. done.
  - destruct Hm as (Hl & Hx & Hy & _). unfold ret. split; [done|]. split; [done|]. split; [|done].
    etrans; [exact Hy|apply Hg].
Qed.

Lemma installs_keeps {A E} (m : ST W (result A E)) : net_keeps m -> installs (fun rs => rs) m.
Proof. intros [H1' H2'] w. specialize (H1' w). specialize (H2' w). destruct (m w) as [x w']. simpl in *. by rewrite H1', H2'. Qed.

Lemma installs_append t c r d : installs (add_at (t, c, r)) (ipt_append t c r d).
Proof.
  intros w. pose proof (ipt_append_run t c r d w) as Ha. destruct (ipt_append t c r d w) as [x w'].
  destruct Ha as [-> ->]. destruct (is_ok x); (split; [done|]; split; [|split; [|done]]); auto using extends_add.
Qed.

Lemma installs_ensure_entry t c r d : installs (add_missing [(t, c, r)]) (ensure_entry (t, c, r, d)).
Proof.
  intros w. unfold ensure_entry, ensure_iptables_rule, bind_ok, st_map, bind, ret.
  pose proof (ipt_exists_law t c r w) as (Hl & Hr & Hb).
  destruct (ipt_crate_exists t c r w) as [[b|e] w1]; simpl in *; rewrite <- Hl, <- Hr in *.
  2: { split; [done|]. split; [done|]. split; [|done]. exact (add_missing_extends [(t, c, r)] (rules w1)). }
  specialize (Hb b eq_refl). destruct b.
  - rewrite bool_decide_eq_true_2; [done|by apply Hb].
  - rewrite bool_decide_eq_false_2; [|intros Hx; by apply Hb in Hx]. exact (installs_append t c r d w1).
Qed.

Lemma installs_ensure_all es : installs (add_missing (map fst es)) (for_ok ensure_entry es).
Proof.
  induction es as [|[[[t c] r] d] es IH]; simpl for_ok; [by apply installs_keeps, net_keeps_ret|].
  apply (installs_bind_ok (add_missing [(t, c, r)])).
  - apply add_missing_extends.
  - apply installs_ensure_entry.
  - intros _. exact IH.
Qed.

Lemma installs_skip {A B E} g (m : ST W (result A E)) (k : A -> ST W (result B E)) :
  (forall rs, extends rs (g rs)) -> net_keeps m -> (forall a, installs g (k a)) -> installs g (bind_ok m k).
Proof. intros Hg Hm Hk. apply (installs_bind_ok (fun rs => rs)); [done|by apply installs_keeps|done]. Qed.

Lemma installs_append_then {B} t c r d es (k : ST W (result B error)) :
  installs (add_all es) k -> installs (add_all ((t, c, r) :: es)) (do? ipt_append t c r d in k).
Proof. intros Hk. apply (installs_bind_ok (add_at (t, c, r))); [apply add_all_extends|apply installs_append|done]. Qed.

(** The end of [ensure_bridge], run in every case. *)
Lemma installs_ensure_tail name :
  installs (add_missing (bridge_rules name))
    (do? enable_ip_forwarding in do? ensure_proxy_redirect_rules name in
     do? ensure_egress_filter_rules name in ret (Ok tt)).
Proof.
  pose proof add_missing_extends as Hx. apply installs_skip; [auto|auto with rs|intros _].
  apply (installs_bind_ok (add_missing (take 2 (bridge_rules name)))
           (add_missing (drop 2 (bridge_rules name)))); [auto| |intros _].
  { apply installs_skip; [auto|auto with rs|intros _]. apply installs_ensure_all. }
  apply (installs_bind_ok (add_missing (drop 2 (bridge_rules name))) (fun rs => rs)); [auto| |intros _].
  { apply installs_skip; [auto|auto with rs|intros _]. apply installs_ensure_all. }
  apply installs_keeps, net_keeps_ret.
Qed.

(** The end of [create_bridge]. *)
Lemma installs_create_tail name :
  installs (add_all (bridge_rules name))
    (do? enable_ip_forwarding in do? add_proxy_redirect_rules name in
     do? add_egress_filter_rules name in ret (Ok tt)).
Proof.
  pose proof add_all_extends as Hx. apply installs_skip; [auto|auto with rs|intros _].
  apply (installs_bind_ok (add_all (take 2 (bridge_rules name)))
           (add_all (drop 2 (bridge_rules name)))); [auto| |intros _].
  { apply installs_skip; [auto|auto with rs|intros _]. do 2 apply installs_append_then.
    apply installs_keeps, net_keeps_ret. }
  apply (installs_bind_ok (add_all (drop 2 (bridge_rules name))) (fun rs => rs)); [auto| |intros _].
  { apply installs_skip; [auto|auto with rs|intros _]. do 3 apply installs_append_then.
    apply installs_keeps, net_keeps_ret. }
  apply installs_keeps, net_keeps_ret.
Qed.

Lemma get_link_index_run name w :
  let '(x, w') := get_link_index name w in
  rules w' = rules w /\ links w' = links w /\ tun_name w' = tun_name w /\
  forall i, x = Ok i -> exists l, links w !! name = Some l /\ link_index l = i.
Proof.
  unfold get_link_index, crate_context, bind_ok, st_map, bind, ret.
  pose proof (nl_get_law name w) as (Hl & Hr & Ht & Hx).
  destruct (nl_link_get name w) as [[[i|]|e] w']; simpl in *; (split; [done|split; [done|split; [done|]]]); try done.
  by intros j [= <-].
Qed.

Lemma net_keeps_get_link_index name : net_keeps (get_link_index name).
Proof.
  split; intros w; pose proof (get_link_index_run name w) as Hg;
    destruct (get_link_index name w); by destruct Hg as (? & ? & _).
Qed.

Lemma crate_context_eq {A} msg (m : ST W (result A string)) w :
  crate_context msg m w = (map_err (fun e => [msg; e]) (m w).1, (m w).2).
Proof. unfold crate_context, st_map, bind, ret. by destruct (m w). Qed.

Lemma st_map_eq {A B} (f : A -> B) (m : ST W A) w : st_map f m w = (f (m w).1, (m w).2).
Proof. unfold st_map, bind, ret. by destruct (m w). Qed.

Lemma context_eq {A} msg (m : ST W (result A error)) w : (m .context msg) w = (context msg (m w).1, (m w).2).
Proof. unfold st_map, bind, ret. by destruct (m w). Qed.

Lemma lookup_on_index i f ls n : on_index i f ls !! n = (fun l => if link_index l =? i then f l else l) <$> ls !! n.
Proof. apply lookup_fmap. Qed.

(** The end of [create_bridge] after the device was added: the links change by [with_up] only. *)
Lemma create_bridge_run name gw w :
  let '(x, w') := create_bridge name gw w in
  extends (rules w) (rules w') /\
  (links w !! name <> None -> is_ok x = false /\ rules w' = rules w /\ links w' = links w) /\
  (is_ok x = true -> rules w' = add_all (bridge_rules name) (rules w) /\
                     exists l, links w' !! name = Some l /\ link_up l = true).
Proof.
  unfold create_bridge. unfold bind_ok at 1, bind at 1. rewrite crate_context_eq.
  pose proof (nl_add_bridge_law name w) as [Hr Hl]. destruct (nl_add_bridge name w) as [[u|e] w1]; simpl in *.
  2: { rewrite Hr, Hl. done. }
  destruct Hl as (i & Hfresh & Hnone & Hl). rewrite <- Hr, Hnone. unfold bind_ok at 1, bind at 1. rewrite context_eq.
  pose proof (get_link_index_run name w1) as Hg. destruct (get_link_index name w1) as [[j|e] w2];
    destruct Hg as (Hr2 & Hl2 & _ & Hj); simpl; [|unfold ret; by rewrite Hr2].
  destruct (Hj j eq_refl) as (l & Hlk & Hidx). rewrite Hl, lookup_insert_eq in Hlk. injection Hlk as <-. simpl in Hidx. subst j.
  unfold bind_ok at 1, bind at 1. rewrite crate_context_eq.
  pose proof (nl_address_add_law i gw 24 w2) as [Hr3 Hl3].
  destruct (nl_address_add i gw 24 w2) as [[v|e] w3]; simpl in *; [|unfold ret; by rewrite Hr3, Hr2].
  unfold bind_ok at 1, bind at 1. rewrite crate_context_eq.
  pose proof (nl_link_up_law i w3) as (Hr4 & _ & Hl4).
  destruct (nl_link_up i w3) as [[v'|e] w4]; simpl in *; [|unfold ret; by rewrite Hr4, Hr3, Hr2].
  pose proof (installs_create_tail name w4) as Ht. cbv zeta in *.
  destruct ((do? enable_ip_forwarding in _) w4) as [x w5]. destruct Ht as (Hl5 & Hx5 & _ & Hok5).
  rewrite Hr4, Hr3, Hr2 in *. split; [done|]. split; [done|]. intros Hx. split; [by apply Hok5|].
  rewrite Hl5, Hl4, Hl3, Hl2, Hl, lookup_on_index, lookup_insert_eq. simpl. rewrite Z.eqb_refl. by eexists.
Qed.

Lemma ensure_bridge_run (nm : NetworkManager) (w : W) :
  let found := is_ok (nl_link_get (bridge_name nm) w).1 in
  let es := bridge_rules (bridge_name nm) in
  let '(x, w') := nm_ensure_bridge nm w in
  extends (rules w) (rules w') /\
  (x = Ok tt -> Forall (has_rule (rules w')) es /\
     if found then rules w' = add_missing es (rules w) /\ links w' = links w
     else rules w' = add_all es (rules w) /\ exists l, links w' !! bridge_name nm = Some l /\ link_up l = true) /\
  (links w !! bridge_name nm <> None -> Forall (has_rule (rules w)) es ->
     links w' = links w /\ forall t c, rules w' t c = rules w t c).
Proof.
  destruct nm as [name]. cbv zeta. simpl bridge_name. set (es := bridge_rules name).
  unfold nm_ensure_bridge. rewrite bind_ok_unit. simpl bridge_name. unfold ensure_bridge.
  set (tail := do? enable_ip_forwarding in _). pose proof (installs_ensure_tail name) as Ht. fold tail in Ht.
  unfold bind at 1. pose proof (nl_get_law name w) as (Hl & Hr & _ & _).
  destruct (nl_link_get name w) as [found w1]. simpl in *. destruct (is_ok found).
  - change (bind_ok (ret (Ok tt)) (fun _ : unit => tail) w1) with (tail w1).
    specialize (Ht w1). destruct (tail w1) as [x w2]. destruct Ht as (Hl2 & Hx & Hy & Hok).
    rewrite <- Hr, <- Hl. split; [done|]. split.
    + intros ->. rewrite (Hok eq_refl). split; [|done]. apply Forall_forall. intros e. apply add_missing_has.
    + intros _ Hall. split; [done|]. fold es in Hy. rewrite (add_missing_id _ _ Hall) in Hy. by apply extends_antisym.
  - unfold bind_ok at 1, bind at 1.
    pose proof (create_bridge_run name (V4 (ipv4 192 168 100 1)) w1) as Hc.
    destruct (create_bridge name (V4 (ipv4 192 168 100 1)) w1) as [[u|e] w2]; destruct Hc as (Hx1 & Hex & Hok1).
    2: { unfold ret. rewrite <- Hr, <- Hl. split; [done|]. split; [done|].
         intros Hne _. destruct (Hex Hne) as (_ & -> & ->). done. }
    destruct (Hok1 eq_refl) as (Hr2 & l & Hlk & Hup). specialize (Ht w2). destruct (tail w2) as [x w3].
    destruct Ht as (Hl3 & Hx & Hy & Hok). rewrite <- Hr, <- Hl. split; [by etrans|]. split.
    + intros ->. rewrite (Hok eq_refl), Hl3, Hr2. fold es. pose proof (add_all_has es (rules w1)) as Hall.
      rewrite (add_missing_id _ _ Hall). split; [done|]. split; [done|]. by exists l.
    + intros Hne. by destruct (Hex Hne).
Qed.

(** C27. Installing the bridge's rules: [ensure_bridge] never removes or reorders
    a rule of any chain, whatever fails; when it succeeds all five rules (HTTP,
    HTTPS and DNS redirection, and the DROP of everything else) are in place, and
    on a bridge that was found, exactly the missing ones have been added; a
    bridge it created is up.  It is idempotent: once the bridge and its rules are
    there, running it again changes no rule and no link, whatever the calls
    answer. *)
Theorem ensure_bridge_installs_rules (nm : NetworkManager) (w : W) :
  let found := is_ok (nl_link_get (bridge_name nm) w).1 in
  let es := bridge_rules (bridge_name nm) in
  let '(x, w') := nm_ensure_bridge nm w in
  extends (rules w) (rules w') /\
  (x = Ok tt -> Forall (has_rule (rules w')) es /\
     if found then rules w' = add_missing es (rules w) /\ links w' = links w
     else rules w' = add_all es (rules w) /\ exists l, links w' !! bridge_name nm = Some l /\ link_up l = true) /\
  (links w !! bridge_name nm <> None -> Forall (has_rule (rules w)) es ->
     links w' = links w /\ forall t c, rules w' t c = rules w t c).
Proof. apply ensure_bridge_run. Qed.

(** ** TAP devices *)

Lemma on_index_fresh i f ls n l :
  fresh_index i ls -> link_index l = i -> on_index i f (<[n := l]> ls) = <[n := f l]> ls.
Proof.
  intros Hf <-. apply map_eq. intros n'. rewrite lookup_on_index.
  destruct (decide (n = n')) as [<-|Hn]; [rewrite !lookup_insert_eq; simpl; by rewrite Z.eqb_refl|].
  rewrite !lookup_insert_ne by done. destruct (ls !! n') as [l'|] eqn:E; [|done]. simpl.
  destruct (Z.eqb_spec (link_index l') (link_index l)) as [Heq|]; [|done]. by destruct (Hf _ _ E).
Qed.

Lemma filter_index_fresh i ls n l :
  fresh_index i ls -> link_index l = i -> ls !! n = None ->
  filter (fun nl : string * link => link_index nl.2 <> i) (<[n := l]> ls) = ls.
Proof.
  intros Hf <- Hn. rewrite map_filter_insert_False by auto. rewrite delete_id by done.
  apply map_filter_id. intros n' l' Hl. by apply (Hf n').
Qed.

Lemma bring_up_run name w :
  let '(x, w') := bring_up name w in
  rules w' = rules w /\ tun_name w' = tun_name w /\
  match x with
  | Ok _ => exists l, links w !! name = Some l /\ links w' = on_index (link_index l) with_up (links w)
  | Err _ => links w' = links w
  end.
Proof.
  unfold bring_up. unfold bind_ok at 1, bind at 1. rewrite context_eq.
  pose proof (get_link_index_run name w) as Hg.
  destruct (get_link_index name w) as [[i|e] w1]; destruct Hg as (Hr & Hl & Ht & Hi); simpl; [|done].
  destruct (Hi i eq_refl) as (l & Hlk & <-). rewrite bind_ok_unit, crate_context_eq.
  pose proof (nl_link_up_law (link_index l) w1) as (Hr2 & Ht2 & Hl2).
  destruct (nl_link_up (link_index l) w1) as [[u|e] w2]; simpl in *; (split; [congruence|split; [congruence|]]).
  - exists l. rewrite Hl2, Hl. done.
  - by rewrite Hl2.
Qed.

(** [tap::create_tap] on a name that is not taken: on success the device is up
    and persistent; on failure there is none, unless only bringing it up failed. *)
Lemma create_tap_run name w :
  no_nul name -> links w !! name = None ->
  let '(x, w') := create_tap name w in
  rules w' = rules w /\
  match x with
  | Ok _ => exists i, fresh_index i (links w) /\ links w' = <[name := mkLink i true None true]> (links w)
  | Err _ => links w' = links w \/
             exists i, fresh_index i (links w) /\ links w' = <[name := mkLink i false None true]> (links w)
  end.
Proof.
  intros Hnul Hnone. unfold create_tap. destruct (String.length name <? IFNAMSIZ)%nat; [|split; [done|by left]].
  unfold bind at 1. pose proof (tun_open_law w) as (Hr & Hl & Hfd).
  destruct (tun_open w) as [[fd|e] w1]; simpl in *; [|split; [done|by left]]. specialize (Hfd fd eq_refl).
  rewrite <- Hr, <- Hl in *. clear Hr Hl.
  unfold bind at 1, bind_ok at 1, bind at 1. rewrite crate_context_eq.
  pose proof (tun_setiff_law fd (ifr_name name) (Z.lor IFF_TAP IFF_NO_PI) w1) as [Hr2 Hif].
  destruct (tun_setiff fd (ifr_name name) (Z.lor IFF_TAP IFF_NO_PI) w1) as [[u|e] w2]; simpl in *.
  2: { destruct Hif as [Hl2 Ht2]. unfold bind, ret. pose proof (tun_close_law fd w2) as [Hr3 Hl3].
       destruct (tun_close fd w2) as [v w3]; simpl in *. rewrite Ht2, Hfd in Hl3. rewrite Hr3, Hl3. by auto. }
  rewrite (ifr_string_name name Hnul) in Hif. destruct Hif as [Ht2 [(l & Hl & _)|(i & Hf & _ & Hl2)]]; [congruence|].
  unfold bind_ok at 1, bind at 1. rewrite st_map_eq.
  pose proof (tun_setpersist_law fd 1 w2) as (Hr3 & Ht3 & Hl3).
  destruct (tun_setpersist fd 1 w2) as [[u'|e] w3]; simpl in *.
  2: { unfold bind, ret. pose proof (tun_close_law fd w3) as [Hr4 Hl4].
       destruct (tun_close fd w3) as [v w4]; simpl in *.
       rewrite Ht3, Ht2, Hl3, Hl2, lookup_insert_eq in Hl4. simpl in Hl4.
       rewrite delete_insert_id in Hl4 by done. split; [congruence|]. left. congruence. }
  rewrite Ht2, Hl2, alter_insert_eq in Hl3. rewrite Ht2 in Ht3. rewrite bind_ok_unit.
  unfold bind, ret. pose proof (bring_up_run name w3) as Hb. destruct (bring_up name w3) as [x w4].
  destruct Hb as (Hr4 & Ht4 & Hl4). pose proof (tun_close_law fd w4) as [Hr5 Hl5].
  destruct (tun_close fd w4) as [v w5]; simpl in *. rewrite Ht4, Ht3 in Hl5.
  split; [congruence|]. destruct x as [[]|e].
  - destruct Hl4 as (l & Hlk & Hl4). rewrite Hl3, lookup_insert_eq in Hlk. injection Hlk as <-.
    rewrite Hl3, on_index_fresh in Hl4 by done. rewrite Hl4, lookup_insert_eq in Hl5. by exists i.
  - right. exists i. rewrite Hl4, Hl3, lookup_insert_eq in Hl5. done.
Qed.

Lemma attach_run bridge tap w :
  let '(x, w') := attach_tap_to_bridge bridge tap w in
  rules w' = rules w /\
  match x with
  | Ok _ => exists b l, links w !! bridge = Some b /\ links w !! tap = Some l /\
              links w' = on_index (link_index l) (with_master (link_index b)) (links w)
  | Err _ => links w' = links w
  end.
Proof.
  unfold attach_tap_to_bridge. unfold bind_ok at 1, bind at 1. rewrite context_eq.
  pose proof (get_link_index_run bridge w) as Hg.
  destruct (get_link_index bridge w) as [[i|e] w1]; destruct Hg as (Hr & Hl & _ & Hi); simpl; [|done].
  destruct (Hi i eq_refl) as (b & Hb & <-). unfold bind_ok at 1, bind at 1. rewrite context_eq.
  pose proof (get_link_index_run tap w1) as Hg.
  destruct (get_link_index tap w1) as [[j|e] w2]; destruct Hg as (Hr2 & Hl2 & _ & Hj); simpl;
    [|unfold ret; split; congruence].
  destruct (Hj j eq_refl) as (l & Hlk & <-). rewrite bind_ok_unit, crate_context_eq.
  pose proof (nl_link_controller_law (link_index l) (link_index b) w2) as (Hr3 & Hl3).
  destruct (nl_link_controller (link_index l) (link_index b) w2) as [[u|e] w3]; simpl in *; (split; [congruence|]).
  - exists b, l. rewrite Hl3, Hl2, Hl. rewrite Hl in Hlk. done.
  - congruence.
Qed.

Lemma add_source_ip_rule_run tap ip w :
  let '(x, w') := add_source_ip_rule tap ip w in
  links w' = links w /\
  rules w' = if is_ok x then rule_add "filter" "FORWARD" (source_ip_rule tap ip) (rules w) else rules w.
Proof.
  unfold add_source_ip_rule. unfold bind_ok at 1, bind at 1.
  destruct net_keeps_ipt_new as [Hr Hl]. specialize (Hr w). specialize (Hl w).
  destruct (ipt_new w) as [[u|e] w1]; simpl in *; [|done]. rewrite bind_ok_unit.
  pose proof (ipt_append_run "filter" "FORWARD" (source_ip_rule tap ip)
                ("enforce source IP " +:+ show_ip ip +:+ " on " +:+ tap) w1) as Ha.
  destruct (ipt_append _ _ _ _ w1) as [x w2]. destruct Ha as [-> ->]. by rewrite Hl, Hr.
Qed.

(** What [create_tap] leaves, on every path. *)
Lemma nm_create_tap_run nm tap ip w :
  no_nul tap -> links w !! tap = None -> tap <> bridge_name nm ->
  let '(x, w') := nm_create_tap nm tap ip w in
  match x with
  | Ok _ => exists i b, fresh_index i (links w) /\ links w !! bridge_name nm = Some b /\
              links w' = <[tap := mkLink i true (Some (link_index b)) true]> (links w) /\
              rules w' = rule_add "filter" "FORWARD" (source_ip_rule tap ip) (rules w)
  | Err _ => rules w' = rules w /\
             (is_ok (create_tap tap w).1 = true ->
              exists l, links w' = <[tap := l]> (links w) /\ link_persistent l = true)
  end.
Proof.
  intros Hnul Hnone Hne. unfold nm_create_tap. unfold bind_ok at 1, bind at 1.
  pose proof (create_tap_run tap w Hnul Hnone) as Hc.
  destruct (create_tap tap w) as [[u|e] w1]; destruct Hc as [Hr Hl]; [|done].
  destruct Hl as (i & Hf & Hl). unfold bind_ok at 1, bind at 1.
  pose proof (attach_run (bridge_name nm) tap w1) as Ha.
  destruct (attach_tap_to_bridge (bridge_name nm) tap w1) as [[v|e] w2]; destruct Ha as [Hr2 Hl2].
  2: { unfold ret. split; [congruence|]. intros _. eexists. split; [by rewrite Hl2, Hl|done]. }
  destruct Hl2 as (b & l & Hb & Hlk & Hl2). rewrite Hl, lookup_insert_eq in Hlk. injection Hlk as <-.
  rewrite Hl, lookup_insert_ne in Hb by done. rewrite Hl, on_index_fresh in Hl2 by done.
  rewrite bind_ok_unit. pose proof (add_source_ip_rule_run tap ip w2) as Hs.
  destruct (add_source_ip_rule tap ip w2) as [[z|e] w3]; destruct Hs as [Hl3 Hr3]; simpl in Hr3.
  - exists i, b. rewrite Hl3, Hl2, Hr3, Hr2, Hr. done.
  - split; [congruence|]. intros _. eexists. split; [by rewrite Hl3, Hl2|done].
Qed.

(** C28. Creating a VM's network device: on success the TAP device exists, is up,
    persistent and attached to the bridge, no other link has changed, and the
    rule that pins it to its address has been appended to FORWARD, behind every
    rule that was there (the bridge's catch-all DROP included); on failure no
    rule has been added. *)
Theorem create_tap_attaches (nm : NetworkManager) tap ip (w : W) :
  no_nul tap -> links w !! tap = None -> tap <> bridge_name nm ->
  let '(x, w') := nm_create_tap nm tap ip w in
  match x with
  | Ok _ => exists i b, fresh_index i (links w) /\ links w !! bridge_name nm = Some b /\
              links w' = <[tap := mkLink i true (Some (link_index b)) true]> (links w) /\
              rules w' "filter"%string "FORWARD"%string =
                rules w "filter"%string "FORWARD"%string ++ [source_ip_rule tap ip] /\
              forall t c, (t, c) <> ("filter", "FORWARD")%string -> rules w' t c = rules w t c
  | Err _ => rules w' = rules w
  end.
Proof.
  intros Hnul Hnone Hne. pose proof (nm_create_tap_run nm tap ip w Hnul Hnone Hne) as Hc.
  destruct (nm_create_tap nm tap ip w) as [[u|e] w']; [|by destruct Hc].
  destruct Hc as (i & b & Hf & Hb & Hl & Hr). exists i, b. rewrite Hr. unfold rule_add.
  rewrite bool_decide_eq_true_2 by done. repeat (split; [done|]).
  intros t c Htc. rewrite bool_decide_eq_false_2; [done|]. intros [-> ->]. done.
Qed.

(** C30. A half-made device is left behind: when the TAP device was made but
    attaching it to the bridge or adding its rule fails, [create_tap] reports the
    error and leaves the persistent device on the host. *)
Theorem create_tap_failure_leaves_device (nm : NetworkManager) tap ip (w : W) :
  no_nul tap -> links w !! tap = None -> tap <> bridge_name nm ->
  is_ok (create_tap tap w).1 = true -> is_ok (nm_create_tap nm tap ip w).1 = false ->
  exists l, links (nm_create_tap nm tap ip w).2 !! tap = Some l /\ link_persistent l = true.
Proof.
  intros Hnul Hnone Hne Hok. pose proof (nm_create_tap_run nm tap ip w Hnul Hnone Hne) as Hc.
  destruct (nm_create_tap nm tap ip w) as [[u|e] w']; [done|]. intros _.
  destruct Hc as [_ Hl]. destruct (Hl Hok) as (l & Hl' & Hp). exists l. simpl.
  by rewrite Hl', lookup_insert_eq.
Qed.

Lemma remove_first_last r l : r ∉ l -> remove_first r (l ++ [r]) = l.
Proof.
  induction l as [|x l IH]; simpl; intros Hni; [by rewrite bool_decide_eq_true_2|].
  apply not_elem_of_cons in Hni as [Hx Hl]. rewrite bool_decide_eq_false_2 by done. by rewrite IH.
Qed.

Lemma rule_del_add t c r rs : r ∉ rs t c -> forall t' c', rule_del t c r (rule_add t c r rs) t' c' = rs t' c'.
Proof.
  intros Hni t' c'. unfold rule_del, rule_add. case_bool_decide as Htc; [|done].
  destruct Htc as [-> ->]. by apply remove_first_last.
Qed.

(** Was the VM's rule deleted, and was its device found, when they were to be? *)
Definition rule_deleted (tap : string) (ip : IpAddr) (w : W) : bool :=
  is_ok (ipt_open w).1 && is_ok (ipt_crate_delete "filter" "FORWARD" (source_ip_rule tap ip) (ipt_open w).2).1.
Definition device_found (tap : string) (ip : IpAddr) (w : W) : bool :=
  is_ok (nl_link_get tap (remove_source_ip_rule tap ip w).2).1.

Lemma remove_source_ip_rule_run tap ip w :
  let w' := (remove_source_ip_rule tap ip w).2 in
  links w' = links w /\
  rules w' = if rule_deleted tap ip w then rule_del "filter" "FORWARD" (source_ip_rule tap ip) (rules w) else rules w.
Proof.
  unfold remove_source_ip_rule, rule_deleted, bind, ret. pose proof (ipt_open_keeps w) as [Hr Hl].
  destruct (ipt_open w) as [[u|e] w1]; simpl in *; [|by split].
  pose proof (ipt_delete_law "filter" "FORWARD" (source_ip_rule tap ip) w1) as [Hl2 Hr2].
  destruct (ipt_crate_delete "filter" "FORWARD" (source_ip_rule tap ip) w1) as [r2 w2]; simpl in *.
  split; [congruence|]. by rewrite Hr2, Hr.
Qed.

Lemma delete_tap_run tap w l :
  links w !! tap = Some l ->
  let '(x, w') := delete_tap tap w in
  rules w' = rules w /\ (is_ok x = false -> is_ok (nl_link_get tap w).1 = true) /\
  links w' = if is_ok (nl_link_get tap w).1 && is_ok x
             then filter (fun nl : string * link => link_index nl.2 <> link_index l) (links w) else links w.
Proof.
  intros Hlk. pose proof (nl_get_law tap w) as (Hl & Hr & _ & Hi).
  unfold delete_tap, get_link_index. unfold bind at 1, bind_ok at 1, bind at 1. rewrite crate_context_eq.
  destruct (nl_link_get tap w) as [[[i|]|e] w1]; simpl in *; [|congruence|done].
  destruct Hi as (l' & Hlk' & <-). rewrite Hlk in Hlk'. injection Hlk' as <-.
  rewrite bind_ok_unit, crate_context_eq. pose proof (nl_link_del_law (link_index l) w1) as [Hr2 Hl2].
  destruct (nl_link_del (link_index l) w1) as [[u|e] w2]; simpl in *; (split; [congruence|]); (split; [done|]); by rewrite Hl2, Hl.
Qed.

(** C29. Round trip of a VM's network, with what becomes of it when a step of the
    deletion is not carried out.  After a TAP device was created, for a name and a rule
    that were not there before, deleting it again leaves every chain of the host as it
    was before the creation when iptables could be opened and the rule deleted; when
    not, the rule stays, and that is not an error.  It leaves every link as it was when
    the device could be looked up and deleted; when the look-up fails the device stays
    and that is not an error either, and when its deletion fails the device stays and
    an error is returned. *)
Theorem create_delete_tap_round_trip (nm : NetworkManager) tap ip (w w1 : W) :
  no_nul tap -> links w !! tap = None -> tap <> bridge_name nm ->
  source_ip_rule tap ip ∉ rules w "filter"%string "FORWARD"%string ->
  nm_create_tap nm tap ip w = (Ok tt, w1) ->
  source_ip_rule tap ip ∈ rules w1 "filter"%string "FORWARD"%string /\ is_Some (links w1 !! tap) /\
  let '(x, w2) := nm_delete_tap nm tap ip w1 in
  (forall t c, rules w2 t c = if rule_deleted tap ip w1 then rules w t c else rules w1 t c) /\
  links w2 = (if device_found tap ip w1 && is_ok x then links w else links w1) /\
  (is_ok x = false -> device_found tap ip w1 = true).
Proof.
  intros Hnul Hnone Hne Hni Hc. pose proof (nm_create_tap_run nm tap ip w Hnul Hnone Hne) as H'. rewrite Hc in H'.
  destruct H' as (i & b & Hf & Hb & Hl & Hr).
  assert (links w1 !! tap = Some (mkLink i true (Some (link_index b)) true)) as Hlk
    by by rewrite Hl, lookup_insert_eq.
  split; [rewrite Hr; unfold rule_add; rewrite bool_decide_eq_true_2 by done; set_solver|].
  split; [by rewrite Hlk|]. unfold device_found. pose proof (remove_source_ip_rule_run tap ip w1) as [Hl1 Hr1].
  unfold nm_delete_tap, bind. destruct (remove_source_ip_rule tap ip w1) as [x1 w1'] eqn:E1. simpl in *.
  rewrite bind_ok_unit. rewrite <- Hl1 in Hlk. pose proof (delete_tap_run tap w1' _ Hlk) as H'.
  destruct (delete_tap tap w1') as [x w2]. destruct H' as (Hr2 & Hx & Hl2). split; [|split; [|done]].
  - intros t c. rewrite Hr2, Hr1. destruct (rule_deleted tap ip w1); [|done]. rewrite Hr. by apply rule_del_add.
  - rewrite Hl2. destruct (_ && _); [|done]. rewrite Hl1, Hl. by apply filter_index_fresh.
Qed.

End laws.

(** * Runs on the example host *)

Definition bridge_host : sim := set_links {[ "br0"%string := mkLink 1 true None false ]} empty_sim.
Definition vm_ip : IpAddr := V4 (ipv4 192 168 100 2).

Lemma tap1_no_nul : no_nul "tap1".
Proof. repeat split; discriminate. Qed.

(** A fresh host: the bridge is made and its five rules are installed. *)
Lemma ensure_bridge_installs_rules_witness :
  let w' := (nm_ensure_bridge nm_new empty_sim).2 in
  Forall (has_rule (rules w')) (bridge_rules "br0") /\
  let w'' := (nm_ensure_bridge nm_new w').2 in
  links w'' = links w' /\ forall t c, rules w'' t c = rules w' t c.
Proof.
  pose proof (ensure_bridge_installs_rules nm_new empty_sim) as H.
  pose proof (ensure_bridge_installs_rules nm_new (nm_ensure_bridge nm_new empty_sim).2) as H2.
  assert ((nm_ensure_bridge nm_new empty_sim).1 = Ok tt) as Hx by (vm_compute; reflexivity).
  assert (links (nm_ensure_bridge nm_new empty_sim).2 !! "br0"%string <> None) as Hbr by (vm_compute; discriminate).
  cbv zeta in *. destruct (nm_ensure_bridge nm_new empty_sim) as [x w']. simpl in Hx, Hbr. subst x.
  destruct H as (_ & H & _). destruct (H eq_refl) as [Hall _]. split; [exact Hall|]. simpl in H2 |- *.
  destruct (nm_ensure_bridge nm_new w') as [y w'']. by apply H2.
Defined.

Lemma create_tap_attaches_witness :
  let w' := (nm_create_tap nm_new "tap1" vm_ip bridge_host).2 in
  rules w' "filter"%string "FORWARD"%string = ["-i tap1 ! -s 192.168.100.2 -j DROP"]%string.
Proof.
  pose proof (create_tap_attaches nm_new "tap1" vm_ip bridge_host tap1_no_nul eq_refl ltac:(discriminate)) as H.
  destruct (nm_create_tap nm_new "tap1" vm_ip bridge_host) as [[u|e] w'] eqn:E.
  - destruct H as (i & b & _ & _ & _ & H & _). exact H.
  - vm_compute in E. discriminate.
Defined.

(** The bridge lookup fails: the device stays. *)
Lemma create_tap_failure_leaves_device_witness :
  let w := set_script [false; false; false; false; false; true] bridge_host in
  exists l, links (nm_create_tap nm_new "tap1" vm_ip w).2 !! "tap1"%string = Some l /\ link_persistent l = true.
Proof.
  apply (create_tap_failure_leaves_device nm_new "tap1" vm_ip
           (set_script [false; false; false; false; false; true] bridge_host) tap1_no_nul);
    [reflexivity|discriminate|vm_compute; reflexivity|vm_compute; reflexivity].
Defined.

(** All is undone; where iptables cannot be opened after the creation, the deletion
    succeeds and the rule stays. *)
Lemma create_delete_tap_round_trip_witness :
  let stuck := set_script (replicate 10 false ++ [true]) bridge_host in
  (let w2 := (nm_delete_tap nm_new "tap1" vm_ip (nm_create_tap nm_new "tap1" vm_ip bridge_host).2).2 in
   links w2 = links bridge_host /\ forall t c, rules w2 t c = rules bridge_host t c) /\
  (let '(x, w2) := nm_delete_tap nm_new "tap1" vm_ip (nm_create_tap nm_new "tap1" vm_ip stuck).2 in
   x = Ok tt /\ links w2 = links bridge_host /\ source_ip_rule "tap1" vm_ip ∈ rules w2 "filter"%string "FORWARD"%string).
Proof.
  intros stuck.
  pose proof (fun w w1 => create_delete_tap_round_trip nm_new "tap1" vm_ip w w1 tap1_no_nul) as Hrt. split.
  - destruct (Hrt bridge_host (nm_create_tap nm_new "tap1" vm_ip bridge_host).2 eq_refl ltac:(discriminate)
      (not_elem_of_nil _) ltac:(vm_compute; reflexivity)) as (_ & _ & H1).
    replace (rule_deleted _ _ _) with true in H1 by (vm_compute; reflexivity).
    replace (device_found _ _ _) with true in H1 by (vm_compute; reflexivity).
    assert (is_ok (nm_delete_tap nm_new "tap1" vm_ip (nm_create_tap nm_new "tap1" vm_ip bridge_host).2).1 = true) as Hx
      by (vm_compute; reflexivity).
    destruct (nm_delete_tap nm_new "tap1" vm_ip _) as [x w2]. simpl in Hx. rewrite Hx in H1. by destruct H1 as (? & ? & _).
  - destruct (Hrt stuck (nm_create_tap nm_new "tap1" vm_ip stuck).2 eq_refl ltac:(discriminate)
      (not_elem_of_nil _) ltac:(vm_compute; reflexivity)) as (Hin & _ & H1).
    replace (rule_deleted _ _ _) with false in H1 by (vm_compute; reflexivity).
    replace (device_found _ _ _) with true in H1 by (vm_compute; reflexivity).
    assert ((nm_delete_tap nm_new "tap1" vm_ip (nm_create_tap nm_new "tap1" vm_ip stuck).2).1 = Ok tt) as Hx
      by (vm_compute; reflexivity).
    destruct (nm_delete_tap nm_new "tap1" vm_ip _) as [x w2]. simpl in Hx. subst x. destruct H1 as (Hr & Hl & _).
    split; [reflexivity|]. split; [exact Hl|]. rewrite Hr. exact Hin.
Defined.
