(* ===== verification/Events.v ===== *)
(** clawpot-server/src/events/store.rs: the event store (ids, persistence modes
    and the channel to the writer) and the background writer that batches the
    events into SQLite transactions.

    The channel is the queue of messages sent and not yet received.  SQLite is a
    parameter: the class [Sqlite] has the statements the writer executes, and
    [SqliteLaws] says what a transaction is. *)

From S2P Require Import Prelude RustStr World Json SimWorld.
From Stdlib Require Import ZArith Lia Ascii String.
From stdpp Require Import base gmap strings list.

Open Scope Z_scope.

Inductive PersistMode : Type := PersistAll | PersistStructured | PersistNone.

(** [PersistMode::from_env()], on the value of CLAWPOT_EVENTS_PERSIST if it is set *)
Definition from_env (var : option string) : PersistMode :=
  let v := default ""%string var in
  if String.eqb v "structured" then PersistStructured
  else if String.eqb v "none" then PersistNone
  else PersistAll.

Record EventRecord : Type := mkEventRecord {
  ev_timestamp : string;
  ev_category : string;
  ev_event_type : string;
  ev_vm_id : option string;
  ev_correlation_id : option string;
  ev_duration_ms : option Z;   (* i64 *)
  ev_success : option bool;
  ev_data : string;            (* JSON text *)
}.

Inductive WriterMsg : Type :=
| MsgEvent (record : EventRecord)
| MsgClose.

(** [EventStore]: the handles share the counter and the channel; [tx] is the
    queue of the channel and [rx_open] whether the writer still receives. *)
Record EventStore : Type := mkEventStore {
  tx : list WriterMsg;
  rx_open : bool;
  session_id : string;
  persist_mode : PersistMode;
  next_id : Z;                 (* AtomicI64 *)
}.

(** The store [EventStore::new] returns. *)
Definition new_store (sid : string) (mode : PersistMode) : EventStore := mkEventStore [] true sid mode 1.

(** [i64] addition of [fetch_add], which wraps around. *)
Definition wrap_i64 (z : Z) : Z := (z + 2 ^ 63) mod 2 ^ 64 - 2 ^ 63.

(** [self.tx.send(msg)] *)
Definition send (msg : WriterMsg) (st : EventStore) : EventStore :=
  if rx_open st
  then mkEventStore (tx st ++ [msg]) (rx_open st) (session_id st) (persist_mode st) (next_id st)
  else st.

Definition should_persist (mode : PersistMode) (event_type : string) : bool :=
  match mode with
  | PersistAll => true
  | PersistStructured => negb (String.eqb event_type "log")
  | PersistNone => false
  end.

Section store.
Context {W : Type} `{Timestamps W} `{SerdeJson}.

(** [emit_inner(&self, ...) -> i64]; the text printed to stdout is not modelled *)
Definition emit_inner (event_type category : string) (vm_id correlation_id : option string)
    (duration_ms : option Z) (success : option bool) (data : json) : ST (EventStore * W) Z :=
  fun '(st, w) =>
    let local_id := next_id st in
    let st1 := mkEventStore (tx st) (rx_open st) (session_id st) (persist_mode st) (wrap_i64 (next_id st + 1)) in
    let data_json := match json_to_string data with Ok t => t | Err _ => "{}"%string end in
    if should_persist (persist_mode st1) event_type
    then
      let '(ts, w1) := rfc3339_now w in
      let record := mkEventRecord ts category event_type vm_id correlation_id duration_ms success data_json in
      (local_id, (send (MsgEvent record) st1, w1))
    else (local_id, (st1, w)).

(** [emit], [emit_with_duration], [log] *)
Definition emit (event_type category : string) (vm_id correlation_id : option string) (data : json)
  : ST (EventStore * W) Z :=
  emit_inner event_type category vm_id correlation_id None None data.

Definition emit_with_duration (event_type category : string) (vm_id correlation_id : option string)
    (duration_ms : Z) (success : option bool) (data : json) : ST (EventStore * W) Z :=
  emit_inner event_type category vm_id correlation_id (Some duration_ms) success data.

Definition log (category : string) (vm_id : option string) (message : string) : ST (EventStore * W) Z :=
  emit_inner "log" category vm_id None None None (JObject [("message"%string, JString message)]).

(** The send of [close_session]; the wait for the answer is a timeout of 5 s. *)
Definition close_session : ST (EventStore * W) unit := fun '(st, w) => (tt, (send MsgClose st, w)).

End store.

(** * The background writer *)

(** One row of the [events] table (without its autoincremented id). *)
Record event_row : Type := mkEventRow {
  row_session : string;
  row_record : EventRecord;
  row_success : option Z;   (* record.success.map(i32::from) *)
}.

Definition row_of (sid : string) (r : EventRecord) : event_row :=
  mkEventRow sid r ((fun b : bool => if b then 1 else 0) <$> ev_success r).

(** The statements executed on the connection.  A transaction that is dropped
    before [commit] is rolled back. *)
Class Sqlite (D : Type) := {
  sql_begin : ST D (result unit string);
  sql_prepare_insert : ST D (result unit string);
  sql_insert : event_row -> ST D (result unit string);
  sql_commit : ST D (result unit string);
  sql_rollback : ST D unit;
  sql_close_session : string -> ST D (result unit string);
  sql_checkpoint : ST D (result unit string);
}.

Section writer.
Context {D : Type} `{Sqlite D}.

(** [flush_batch_inner(conn, session_id, batch) -> Result<()>] *)
Definition flush_batch_inner (sid : string) (batch : list EventRecord) : ST D (result unit string) :=
  do? sql_begin in
  let! r := (do? sql_prepare_insert in
             do? for_ok (fun record => sql_insert (row_of sid record)) batch in
             sql_commit) in
  match r with
  | Ok _ => ret (Ok tt)
  | Err e => do! sql_rollback in ret (Err e)
  end.

(** [flush_batch]: errors are printed, and the batch is empty afterwards in any case. *)
Definition flush_batch (sid : string) (batch : list EventRecord) : ST D unit :=
  match batch with
  | [] => ret tt
  | _ => do! flush_batch_inner sid batch in ret tt
  end.

Definition close_session_row (sid : string) : ST D unit := do! sql_close_session sid in ret tt.
Definition checkpoint_wal : ST D unit := do! sql_checkpoint in ret tt.

(** The end of the writer: flush, close the session, checkpoint. *)
Definition finish (sid : string) (batch : list EventRecord) : ST D unit :=
  do! flush_batch sid batch in
  do! close_session_row sid in
  checkpoint_wal.

(** The events of the messages drained after a [Close]. *)
Definition drained (msgs : list WriterMsg) : list EventRecord :=
  omap (fun m => match m with MsgEvent r => Some r | MsgClose => None end) msgs.

(** The inner loop on the messages already waiting: the batch, and whether a
    [Close] was met. *)
Fixpoint drain (waiting : list WriterMsg) (batch : list EventRecord) : list EventRecord * bool :=
  match waiting with
  | [] => (batch, false)
  | MsgEvent r :: rest => drain rest (batch ++ [r])
  | MsgClose :: _ => (batch, true)
  end.

(** One iteration of the outer loop, on the messages it finds: the one [recv]
    returns and those [try_recv] then returns.  The result says whether the
    writer has returned. *)
Definition writer_turn (sid : string) (burst : list WriterMsg) : ST D bool :=
  match burst with
  | [] => ret false
  | MsgClose :: waiting => do! finish sid (drained waiting) in ret true
  | MsgEvent r :: waiting =>
      match drain waiting [r] with
      | (batch, true) => do! finish sid batch in ret true
      | (batch, false) => do! flush_batch sid batch in ret false
      end
  end.

(** [background_writer(conn, session_id, rx)]: the messages come in bursts, the
    ones each iteration finds in the channel; when they are exhausted the channel
    is closed ([None]). *)
Fixpoint background_writer (sid : string) (bursts : list (list WriterMsg)) : ST D unit :=
  match bursts with
  | [] => finish sid []
  | burst :: rest =>
      let! returned := writer_turn sid burst in
      if (returned : bool) then ret tt else background_writer sid rest
  end.

End writer.

(** * Properties *)

(** What the writer relies on: committed rows and the rows of the open transaction. *)
Class SqliteLaws (D : Type) `{Sqlite D} := {
  committed : D -> list event_row;
  in_transaction : D -> list event_row;
  sql_begin_law : forall d, committed (sql_begin d).2 = committed d /\
    (is_ok (sql_begin d).1 = true -> in_transaction (sql_begin d).2 = []);
  sql_prepare_law : forall d, committed (sql_prepare_insert d).2 = committed d /\
    in_transaction (sql_prepare_insert d).2 = in_transaction d;
  sql_insert_law : forall r d, committed (sql_insert r d).2 = committed d /\
    (is_ok (sql_insert r d).1 = true -> in_transaction (sql_insert r d).2 = in_transaction d ++ [r]);
  sql_commit_law : forall d, committed (sql_commit d).2 =
    if is_ok (sql_commit d).1 then committed d ++ in_transaction d else committed d;
  sql_rollback_law : forall d, committed (sql_rollback d).2 = committed d;
  sql_close_session_law : forall s d, committed (sql_close_session s d).2 = committed d;
  sql_checkpoint_law : forall d, committed (sql_checkpoint d).2 = committed d;
}.

(** The batches the writer flushes, in order. *)
Fixpoint batches (bursts : list (list WriterMsg)) : list (list EventRecord) :=
  match bursts with
  | [] => []
  | [] :: rest => batches rest
  | (MsgClose :: waiting) :: _ => [drained waiting]
  | (MsgEvent r :: waiting) :: rest =>
      match drain waiting [r] with
      | (batch, true) => [batch]
      | (batch, false) => batch :: batches rest
      end
  end.

(** The events sent before the first [Close]. *)
Fixpoint before_close (msgs : list WriterMsg) : list EventRecord :=
  match msgs with
  | [] => []
  | MsgEvent r :: rest => r :: before_close rest
  | MsgClose :: _ => []
  end.

(** The batches that a flag says were stored. *)
Definition stored (oks : list bool) (bs : list (list EventRecord)) : list EventRecord :=
  concat (zip_with (fun (ok : bool) b => if ok then b else []) oks bs).

Lemma before_close_prefix msgs : before_close msgs `prefix_of` drained msgs.
Proof.
  induction msgs as [|[r|] msgs IH]; simpl; [done|by apply prefix_cons|apply prefix_nil].
Qed.

Lemma drained_app a b : drained (a ++ b) = drained a ++ drained b.
Proof. apply omap_app. Qed.

Lemma drain_spec waiting : forall batch,
  (drain waiting batch).1 = batch ++ before_close waiting /\
  ((drain waiting batch).2 = false -> before_close waiting = drained waiting /\
     forall more, before_close (waiting ++ more) = before_close waiting ++ before_close more).
Proof.
  induction waiting as [|[r|] waiting IH]; intros batch; simpl.
  - by rewrite app_nil_r.
  - destruct (IH (batch ++ [r])) as [-> Hf]. rewrite <- app_assoc. split; [done|].
    intros Hd. destruct (Hf Hd) as [-> Hm]. split; [done|]. intros more. by rewrite Hm.
  - by rewrite app_nil_r.
Qed.

Lemma drain_closed waiting : forall batch more,
  (drain waiting batch).2 = true -> before_close (waiting ++ more) = before_close waiting.
Proof.
  induction waiting as [|[r|] waiting IH]; intros batch more; simpl; [done| |done].
  intros Hd. by rewrite (IH (batch ++ [r])).
Qed.

(** Whatever the bursts, the batches together are the events up to the first
    [Close], perhaps with some that were sent just after it. *)
Lemma batches_complete bursts :
  before_close (concat bursts) `prefix_of` concat (batches bursts) /\
  concat (batches bursts) `prefix_of` drained (concat bursts).
Proof.
  induction bursts as [|[|[r|] waiting] rest [IH1 IH2]]; simpl; [done|done| |].
  - destruct (drain_spec waiting [r]) as [Hb Hf]. pose proof (drain_closed waiting [r]) as Hc.
    destruct (drain waiting [r]) as [batch [|]]; simpl in *; subst batch; simpl.
    + rewrite app_nil_r, Hc by done. split; [done|]. apply prefix_cons.
      rewrite drained_app. apply prefix_app_r, before_close_prefix.
    + destruct (Hf eq_refl) as [Hd Hm]. rewrite Hm, Hd, drained_app.
      split; apply prefix_cons, prefix_app; done.
  - split; [apply prefix_nil|]. rewrite app_nil_r, drained_app. by apply prefix_app_r.
Qed.

Section writer_laws.
Context {D : Type} `{SqliteLaws D}.

(** Every statement of a transaction succeeds. *)
Definition reliable : Prop :=
  forall d, is_ok (sql_begin d).1 = true /\ is_ok (sql_prepare_insert d).1 = true /\
    (forall r, is_ok (sql_insert r d).1 = true) /\ is_ok (sql_commit d).1 = true.

Lemma insert_all_reliable sid batch d :
  reliable -> is_ok (for_ok (fun record => sql_insert (row_of sid record)) batch d).1 = true.
Proof.
  intros Hr. revert d. induction batch as [|r batch IH]; intros d; simpl; [done|].
  unfold bind_ok, bind. destruct (Hr d) as (_ & _ & Hi & _). specialize (Hi (row_of sid r)).
  destruct (sql_insert (row_of sid r) d) as [[u|e] d1]; [apply IH|done].
Qed.

Lemma flush_reliable sid batch d : reliable -> is_ok (flush_batch_inner sid batch d).1 = true.
Proof.
  intros Hr. unfold flush_batch_inner, bind_ok at 1, bind at 1. destruct (Hr d) as (Hb & _).
  destruct (sql_begin d) as [[u|e] d1]; [|done]. unfold bind at 1, bind_ok at 1, bind at 1.
  destruct (Hr d1) as (_ & Hp & _). destruct (sql_prepare_insert d1) as [[v|e] d2]; [|done].
  unfold bind_ok, bind. pose proof (insert_all_reliable sid batch d2 Hr) as Hi.
  destruct (for_ok _ batch d2) as [[v'|e] d3]; [|done]. destruct (Hr d3) as (_ & _ & _ & Hc).
  by destruct (sql_commit d3) as [[z|e] d4].
Qed.

Lemma insert_all_run sid batch : forall d,
  let '(x, d') := for_ok (fun record => sql_insert (row_of sid record)) batch d in
  committed d' = committed d /\
  (is_ok x = true -> in_transaction d' = in_transaction d ++ map (row_of sid) batch).
Proof.
  induction batch as [|r batch IH]; intros d; simpl.
  - split; [done|]. intros _. by rewrite app_nil_r.
  - unfold bind_ok, bind. destruct (sql_insert_law (row_of sid r) d) as [Hc Ht].
    destruct (sql_insert (row_of sid r) d) as [[u|e] d1]; simpl in *; [|done].
    specialize (IH d1). destruct (for_ok _ batch d1) as [x d2]. destruct IH as [Hc2 Ht2].
    split; [congruence|]. intros Hx. by rewrite (Ht2 Hx), (Ht eq_refl), <- app_assoc.
Qed.

(** A flush is all or nothing. *)
Lemma flush_batch_inner_run sid batch d :
  let '(x, d') := flush_batch_inner sid batch d in
  committed d' = committed d ++ (if is_ok x then map (row_of sid) batch else []).
Proof.
  unfold flush_batch_inner. unfold bind_ok at 1, bind at 1. destruct (sql_begin_law d) as [Hc Ht].
  destruct (sql_begin d) as [[u|e] d1]; simpl in *; [|by rewrite app_nil_r].
  assert (Hin : let '(x, d') := (do? sql_prepare_insert in
             do? for_ok (fun record => sql_insert (row_of sid record)) batch in sql_commit) d1 in
             committed d' = committed d ++ (if is_ok x then map (row_of sid) batch else [])).
  { unfold bind_ok at 1, bind at 1. destruct (sql_prepare_law d1) as [Hc2 Ht2].
    destruct (sql_prepare_insert d1) as [[v|e] d2]; simpl in *; [|rewrite app_nil_r; congruence].
    unfold bind_ok, bind. pose proof (insert_all_run sid batch d2) as Hi.
    destruct (for_ok _ batch d2) as [[v'|e] d3]; destruct Hi as [Hc3 Ht3]; simpl;
      [|rewrite app_nil_r; congruence].
    pose proof (sql_commit_law d3) as Hc4. destruct (sql_commit d3) as [[z|e] d4]; simpl in *.
    - rewrite Hc4, (Ht3 eq_refl), Ht2, (Ht eq_refl). simpl. congruence.
    - rewrite app_nil_r. congruence. }
  unfold bind at 1. destruct ((do? sql_prepare_insert in _) d1) as [[v|e] d5]; [done|].
  unfold bind, ret. pose proof (sql_rollback_law d5) as Hr. destruct (sql_rollback d5) as [z d6].
  simpl in *. congruence.
Qed.

Lemma flush_batch_run sid batch d :
  exists ok : bool, (reliable -> ok = true) /\ committed (flush_batch sid batch d).2 = committed d ++ map (row_of sid) (if ok then batch else []).
Proof.
  destruct batch as [|r batch]; [exists true; split; [done|]; by rewrite app_nil_r|].
  unfold flush_batch, bind, ret. pose proof (flush_batch_inner_run sid (r :: batch) d) as Hf.
  pose proof (flush_reliable sid (r :: batch) d) as Hrel.
  destruct (flush_batch_inner sid (r :: batch) d) as [x d']. simpl in *. exists (is_ok x).
  split; [done|]. by destruct (is_ok x).
Qed.

Lemma finish_run sid batch d :
  exists ok : bool, (reliable -> ok = true) /\ committed (finish sid batch d).2 = committed d ++ map (row_of sid) (if ok then batch else []).
Proof.
  destruct (flush_batch_run sid batch d) as (ok & Hrel & Hf). exists ok. split; [done|]. rewrite <- Hf. clear Hf.
  unfold finish, close_session_row, checkpoint_wal, bind, ret. destruct (flush_batch sid batch d) as [u d1].
  pose proof (sql_close_session_law sid d1) as Hc. destruct (sql_close_session sid d1) as [x d2].
  pose proof (sql_checkpoint_law d2) as Hk. destruct (sql_checkpoint d2) as [y d3]. simpl in *. congruence.
Qed.

Lemma stored_one sid (batch : list EventRecord) (ok : bool) (rows rows' : list event_row) :
  (reliable -> ok = true) -> rows' = rows ++ map (row_of sid) (if ok then batch else []) ->
  length [ok] = length [batch] /\ (reliable -> stored [ok] [batch] = concat [batch]) /\
  rows' = rows ++ map (row_of sid) (stored [ok] [batch]).
Proof.
  intros Hr ->. unfold stored. simpl. rewrite !app_nil_r. split; [done|]. split; [|done].
  intros Hrel. by rewrite (Hr Hrel).
Qed.

(** However the messages arrive in bursts and whatever SQLite
    answers, the writer stores the events in the order they were sent and none
    twice, each batch whole or not at all; the batches together hold every event
    sent before the session was closed, and nothing that was not sent; and when
    the statements succeed every batch is stored. *)
Lemma writer_stores_batches_in_order sid bursts d :
  before_close (concat bursts) `prefix_of` concat (batches bursts) /\
  concat (batches bursts) `prefix_of` drained (concat bursts) /\
  exists oks, length oks = length (batches bursts) /\
    (reliable -> stored oks (batches bursts) = concat (batches bursts)) /\
    committed (background_writer sid bursts d).2 = committed d ++ map (row_of sid) (stored oks (batches bursts)).
Proof.
  destruct (batches_complete bursts) as [Hp1 Hp2]. split; [done|]. split; [done|]. clear Hp1 Hp2.
  revert d. induction bursts as [|[|[r|] waiting] rest IH]; intros d; simpl.
  - exists []. destruct (finish_run sid [] d) as (ok & _ & ->). by destruct ok.
  - exact (IH d).
  - unfold bind. destruct (drain waiting [r]) as [batch [|]]; unfold bind, ret.
    + destruct (finish_run sid batch d) as (ok & Hrel & Hf). destruct (finish sid batch d) as [u d1].
      exists [ok]. by apply (stored_one sid batch ok).
    + destruct (flush_batch_run sid batch d) as (ok & Hrel & Hf). destruct (flush_batch sid batch d) as [u d1].
      destruct (IH d1) as (oks & Hlen & Hall & Hc). exists (ok :: oks). split; [simpl; congruence|].
      simpl in *. unfold stored in *. simpl. split; [intros Hr; by rewrite (Hrel Hr), (Hall Hr)|].
      by rewrite Hc, Hf, map_app, app_assoc.
  - unfold bind, ret. destruct (finish_run sid (drained waiting) d) as (ok & Hrel & Hf).
    destruct (finish sid (drained waiting) d) as [u d1]. exists [ok]. by apply (stored_one sid _ ok).
Qed.

End writer_laws.

(** ** Emission *)

(** The arguments of one [emit_inner]. *)
Record emission : Type := mkEmission {
  em_type : string; em_category : string; em_vm_id : option string; em_correlation : option string;
  em_duration : option Z; em_success : option bool; em_data : json }.

Section emission.
Context {W : Type} `{Timestamps W} `{SerdeJson}.

Definition emit_one (e : emission) : ST (EventStore * W) Z :=
  emit_inner (em_type e) (em_category e) (em_vm_id e) (em_correlation e) (em_duration e) (em_success e) (em_data e).

Fixpoint emit_all (es : list emission) : ST (EventStore * W) (list Z) :=
  match es with
  | [] => ret []
  | e :: rest => let! i := emit_one e in let! ids := emit_all rest in ret (i :: ids)
  end.

(** The record carries what was emitted. *)
Definition records (e : emission) (r : EventRecord) : Prop :=
  ev_category r = em_category e /\ ev_event_type r = em_type e /\ ev_vm_id r = em_vm_id e /\
  ev_correlation_id r = em_correlation e /\ ev_duration_ms r = em_duration e /\ ev_success r = em_success e /\
  (forall t, json_to_string (em_data e) = Ok t -> ev_data r = t).

Lemma wrap_i64_id z : - 2 ^ 63 <= z < 2 ^ 63 -> wrap_i64 z = z.
Proof. intros Hz. unfold wrap_i64. rewrite Z.mod_small; lia. Qed.

Lemma emit_one_run e st (w : W) :
  rx_open st = true -> - 2 ^ 63 <= next_id st < 2 ^ 63 - 1 ->
  let '(i, (st', w')) := emit_one e (st, w) in
  i = next_id st /\ next_id st' = next_id st + 1 /\ rx_open st' = true /\ persist_mode st' = persist_mode st /\
  if should_persist (persist_mode st) (em_type e)
  then exists r, tx st' = tx st ++ [MsgEvent r] /\ records e r
  else tx st' = tx st.
Proof.
  intros Hrx Hid. unfold emit_one, emit_inner. simpl.
  destruct (should_persist (persist_mode st) (em_type e)).
  - destruct (rfc3339_now w) as [ts w1]. unfold send. simpl. rewrite Hrx. simpl.
    rewrite wrap_i64_id by lia. repeat (split; [done|]). eexists. split; [done|].
    repeat (split; [done|]). simpl. by intros t ->.
  - simpl. rewrite wrap_i64_id by lia. done.
Qed.

(** Emission: while the writer is alive, a sequence of events gets consecutive
    ids, and exactly the events the persistence mode keeps are sent to the
    writer, in order and with the emitted fields (the id counter wraps only
    after 2^63 events). *)
Theorem emit_all_in_order es st (w : W) :
  rx_open st = true -> - 2 ^ 63 <= next_id st -> next_id st + Z.of_nat (length es) < 2 ^ 63 ->
  let '(ids, (st', _)) := emit_all es (st, w) in
  ids = seqZ (next_id st) (Z.of_nat (length es)) /\
  exists rs, tx st' = tx st ++ map MsgEvent rs /\
    Forall2 records (filter (fun e => should_persist (persist_mode st) (em_type e) = true) es) rs.
Proof.
  intros Hrx Hlo. revert st w Hrx Hlo. induction es as [|e es IH]; intros st w Hrx Hlo Hhi.
  - simpl. split; [done|]. exists []. by rewrite app_nil_r.
  - cbn [length] in Hhi. rewrite Nat2Z.inj_succ in Hhi. cbn [emit_all length]. rewrite Nat2Z.inj_succ. unfold bind.
    pose proof (emit_one_run e st w Hrx ltac:(lia)) as He.
    destruct (emit_one e (st, w)) as [i [st1 w1]]. destruct He as (-> & Hid & Hrx1 & Hpm & Htx).
    specialize (IH st1 w1 Hrx1 ltac:(lia) ltac:(lia)). rewrite Hid, Hpm in IH.
    destruct (emit_all es (st1, w1)) as [ids [st2 w2]]. destruct IH as (-> & rs & Htx2 & HF). unfold ret.
    split; [rewrite (seqZ_cons (next_id st)) by lia; repeat f_equal; lia|].
    rewrite filter_cons. destruct (should_persist (persist_mode st) (em_type e)).
    + rewrite decide_True by done. destruct Htx as (r & Hr1 & Hr2). exists (r :: rs).
      split; [by rewrite Htx2, Hr1, <- app_assoc|by constructor].
    + rewrite decide_False by done. exists rs. by rewrite Htx2, Htx.
Qed.

End emission.

(** * A database in memory, and runs on it *)

Record memdb : Type := mkMemdb { db_rows : list event_row; db_tx : list event_row; db_closed : list string }.

#[export] Instance memdb_sqlite : Sqlite memdb := {|
  sql_begin := fun d => (Ok tt, mkMemdb (db_rows d) [] (db_closed d));
  sql_prepare_insert := fun d => (Ok tt, d);
  sql_insert r := fun d => (Ok tt, mkMemdb (db_rows d) (db_tx d ++ [r]) (db_closed d));
  sql_commit := fun d => (Ok tt, mkMemdb (db_rows d ++ db_tx d) [] (db_closed d));
  sql_rollback := fun d => (tt, mkMemdb (db_rows d) [] (db_closed d));
  sql_close_session s := fun d => (Ok tt, mkMemdb (db_rows d) (db_tx d) (s :: db_closed d));
  sql_checkpoint := fun d => (Ok tt, d);
|}.

#[export] Instance memdb_laws : SqliteLaws memdb.
Proof. by refine {| committed := db_rows; in_transaction := db_tx |}. Defined.

Definition example_record (data : string) : EventRecord :=
  mkEventRecord "t" "vm" "vm.create.started" None None None (Some true) data.

(** Three events and a close, in two bursts: all three are stored. *)
Lemma writer_run :
  let bursts := [[MsgEvent (example_record "a"); MsgEvent (example_record "b")];
                 [MsgEvent (example_record "c"); MsgClose]]%string in
  map row_record (committed (background_writer "s" bursts (mkMemdb [] [] [])).2) =
    map example_record ["a"; "b"; "c"]%string.
Proof.
  intros bursts. destruct (writer_stores_batches_in_order "s" bursts (mkMemdb [] [] [])) as (_ & _ & oks & _ & Hall & ->).
  rewrite Hall; [reflexivity|]. by intros d.
Defined.

Lemma emit_all_in_order_witness :
  let st := new_store "s" PersistStructured in
  let es := [mkEmission "log" "server" None None None None JNull;
             mkEmission "vm.exec" "vm" None None (Some 5) (Some true) JNull] in
  (emit_all es (st, empty_sim)).1 = seqZ 1 2.
Proof.
  intros st es. pose proof (emit_all_in_order es st empty_sim eq_refl) as Hs.
  destruct (emit_all es (st, empty_sim)) as [ids [st' w']]. apply Hs; vm_compute; congruence.
Defined.
