(* ===== verification/AgentClient.v ===== *)
(** clawpot-server/src/agent/client.rs: the client of the guest agent, which
    connects through Firecracker's vsock socket, waits for the agent to become
    ready, and runs commands.

    The retry loop of [wait_ready] is bounded by a fuel; under the clock's laws
    ([ClockLaws]) [ready_fuel] iterations are enough, unless an attempt to reach the
    agent never completes. *)

From S2P Require Import Prelude RustStr World Json SimWorld.
From Stdlib Require Import ZArith Lia Ascii String.
From stdpp Require Import base gmap strings list.

Open Scope Z_scope.

Definition AGENT_VSOCK_PORT : Z := 10051.

Definition newline : string := String "010" EmptyString.

(** [{timeout:?}] of a whole number of seconds, in milliseconds. *)
Definition debug_secs (ms : Z) : string := show_Z (ms / 1000) +:+ "s".

Section client.
Context {W : Type} `{AgentTransport W} `{Clock W}.

(** The connector: the [CONNECT] handshake on the Unix socket. *)
Definition connector (path : string) : ST W (option (result Z io_error)) :=
  let* stream := uds_connect path in
  do* uds_write_all stream ("CONNECT " +:+ show_Z AGENT_VSOCK_PORT +:+ newline) in
  let* response := uds_read_line stream in
  if starts_with "OK" response then ret (Some (Ok stream))
  else ret (Some (Err (mkIoError ConnectionRefused ("vsock CONNECT failed: " +:+ trim response)))).

(** [AgentClient::connect(vsock_uds_path)].  The error is the crate's transport
    error, which carries the connector's. *)
Definition connect (vsock_uds_path : string) : ST W (option (result Z error)) :=
  st_map (fmap (map_err (fun e => ["Failed to connect to agent via vsock"%string; io_error_msg e])))
    (connector vsock_uds_path).

(** The iterations of the loop of [wait_ready], [fuel] at most.  An attempt has no
    time limit of its own: the elapsed time is looked at between attempts only. *)
Fixpoint wait_ready_loop (fuel : nat) (start : Z) (vsock_uds_path : string) (timeout : Z)
  : ST W (outcome (result Z error)) :=
  match fuel with
  | O => ret NoFuel
  | S fuel' =>
      let again :=
        let! now := instant_now in
        if timeout <=? now - start
        then ret (Done (Err (anyhow ("Agent did not become ready within " +:+ debug_secs timeout))))
        else do! sleep_ms 500 in wait_ready_loop fuel' start vsock_uds_path timeout in
      let! client := connect vsock_uds_path in
      match client with
      | Some (Ok client) =>
          let! health := rpc_health client in
          match health with
          | Some (Ok _) => ret (Done (Ok client))
          | Some (Err _) => again
          | None => ret NoFuel
          end
      | Some (Err _) => again
      | None => ret NoFuel
      end
  end.

(** Iterations that suffice: one every 500 ms until the timeout, and one more. *)
Definition ready_fuel (timeout : Z) : nat := Z.to_nat (timeout / 500 + 2).

(** [AgentClient::wait_ready(vsock_uds_path, timeout)] *)
Definition wait_ready (vsock_uds_path : string) (timeout : Z) : ST W (outcome (result Z error)) :=
  let! start := instant_now in
  wait_ready_loop (ready_fuel timeout) start vsock_uds_path timeout.

(** [exec(&mut self, req)] *)
Definition exec (client : Z) (req : ExecRequest) : ST W (option (result ExecResponse error)) :=
  st_map (fmap (map_err (fun e => anyhow ("Agent exec failed: " +:+ e)))) (rpc_exec client req).

End client.

(** * Properties *)

(** The clock never goes back, and sleeping takes at least as long as asked. *)
Class ClockLaws (W : Type) `{AgentTransport W, Clock W} := {
  time : W -> Z;
  instant_now_law : forall w, time w <= (instant_now w).1 <= time (instant_now w).2;
  sleep_law : forall ms w, 0 <= ms -> time w + ms <= time (sleep_ms ms w).2;
  uds_connect_time : forall p w, time w <= time (uds_connect p w).2;
  uds_write_time : forall h s w, time w <= time (uds_write_all h s w).2;
  uds_read_time : forall h w, time w <= time (uds_read_line h w).2;
  rpc_health_time : forall h w, time w <= time (rpc_health h w).2;
}.

(** One attempt of the loop: [connect] and the health check. *)
Definition attempt {W : Type} `{AgentTransport W} (path : string) : ST W (option (result Z error)) :=
  let* client := connect path in
  do* st_map (fmap (map_err anyhow)) (rpc_health client) in
  ret (Some (Ok client)).

(** The loop, an attempt at a time. *)
Lemma wait_ready_loop_attempt {W : Type} `{AgentTransport W} `{Clock W} fuel start path timeout (w : W) :
  wait_ready_loop (S fuel) start path timeout w =
  (let '(r, w1) := attempt path w in
   match r with
   | Some (Ok client) => (Done (Ok client), w1)
   | Some (Err _) =>
       let '(now, w2) := instant_now w1 in
       if timeout <=? now - start
       then (Done (Err (anyhow ("Agent did not become ready within " +:+ debug_secs timeout))), w2)
       else wait_ready_loop fuel start path timeout (sleep_ms 500 w2).2
   | None => (NoFuel, w1)
   end).
Proof.
  cbn [wait_ready_loop]. unfold attempt, bind_awaited, st_map, bind, ret.
  destruct (connect path w) as [[[c|e]|] w1]; [|..]; try done.
  - destruct (rpc_health c w1) as [[[v|e]|] w2]; simpl; try done. destruct (instant_now w2) as [now w3].
    destruct (timeout <=? now - start); [done|]. by destruct (sleep_ms 500 w3).
  - destruct (instant_now w1) as [now w3]. destruct (timeout <=? now - start); [done|]. by destruct (sleep_ms 500 w3).
Qed.

Lemma wait_ready_no_panic {W : Type} `{AgentTransport W} `{Clock W} path timeout (w : W) :
  (wait_ready path timeout w).1 <> Panic.
Proof.
  unfold wait_ready, bind. destruct (instant_now w) as [start w0]. revert w0.
  induction (ready_fuel timeout) as [|n IH]; intros w0; [done|]. rewrite wait_ready_loop_attempt.
  destruct (attempt path w0) as [[[c|e]|] w1]; try done. destruct (instant_now w1) as [now w2].
  by destruct (timeout <=? now - start).
Qed.

Section laws.
Context {W : Type} `{ClockLaws W}.

(** Time does not go back in a sequence of calls. *)
Lemma awaited_time {A B E} (m : ST W (option (result A E))) (k : A -> ST W (option (result B E))) :
  (forall w, time w <= time (m w).2) -> (forall a w, time w <= time (k a w).2) ->
  forall w, time w <= time (bind_awaited m k w).2.
Proof.
  intros Hm Hk w. unfold bind_awaited, bind. specialize (Hm w). destruct (m w) as [[[a|e]|] w1]; simpl in *; try lia.
  specialize (Hk a w1). lia.
Qed.

Lemma map_time {A B} (f : A -> B) (m : ST W A) :
  (forall w, time w <= time (m w).2) -> forall w, time w <= time (st_map f m w).2.
Proof. intros Hm w. unfold st_map, bind, ret. specialize (Hm w). by destruct (m w). Qed.

Lemma attempt_time path w : time w <= time (attempt path w).2.
Proof.
  revert w. apply awaited_time.
  - apply map_time, awaited_time; [apply uds_connect_time|]. intros s. apply awaited_time; [apply uds_write_time|].
    intros _. apply awaited_time; [apply uds_read_time|]. intros r w. by case_match.
  - intros c. apply awaited_time; [apply map_time, rpc_health_time|]. intros _ w. simpl. lia.
Qed.

(** One run of the loop with enough fuel for the time that is left: it ends, or is in
    an attempt that never completes. *)
Lemma wait_ready_loop_run fuel start path timeout : forall w,
  timeout <= time w - start + 500 * (Z.of_nat fuel - 1) -> (0 < fuel)%nat ->
  let '(o, w') := wait_ready_loop fuel start path timeout w in
  match o with
  | Done r => is_ok r = false -> timeout <= time w' - start
  | NoFuel => exists w0, attempt path w0 = (None, w')
  | Panic => False
  end.
Proof.
  induction fuel as [|fuel IH]; intros w Hfuel Hpos; [lia|]. rewrite wait_ready_loop_attempt.
  pose proof (attempt_time path w) as Ha. destruct (attempt path w) as [[[c|e]|] w1] eqn:E; simpl in Ha; [done| |by exists w].
  pose proof (instant_now_law w1) as Hn. destruct (instant_now w1) as [now w2]. simpl in Hn.
  destruct (Z.leb_spec timeout (now - start)) as [Hto|Hto]; [intros _; lia|].
  pose proof (sleep_law 500 w2 ltac:(lia)) as Hs. apply IH; [lia|]. destruct fuel; lia.
Qed.

Lemma wait_ready_run path timeout (w : W) :
  0 <= timeout ->
  let '(o, w') := wait_ready path timeout w in
  match o with
  | Done r => is_ok r = false -> time w + timeout <= time w'
  | NoFuel => exists w0, attempt path w0 = (None, w')
  | Panic => False
  end.
Proof.
  intros Ht. unfold wait_ready, bind. pose proof (instant_now_law w) as Hn.
  destruct (instant_now w) as [start w1]. simpl in Hn. unfold ready_fuel.
  pose proof (Z.div_mod timeout 500 ltac:(lia)) as Hd. pose proof (Z.mod_pos_bound timeout 500 ltac:(lia)) as Hm.
  assert (0 <= timeout / 500) by (apply Z.div_pos; lia).
  pose proof (wait_ready_loop_run (Z.to_nat (timeout / 500 + 2)) start path timeout w1 ltac:(lia) ltac:(lia)) as Hr.
  destruct (wait_ready_loop _ _ _ _ w1) as [[r| |] w']; [|done..]. intros He. specialize (Hr He). lia.
Qed.

(** C40. Waiting for the agent: on a clock that advances, [wait_ready] returns, and
    gives up only when the timeout has really passed, unless an attempt to reach the
    agent never completes; then it waits in that attempt.  The timeout does not help
    there: when the first attempt never completes, [wait_ready] does not return
    whatever the timeout is and however long it runs. *)
Theorem wait_ready_terminates path timeout (w : W) :
  0 <= timeout ->
  (let '(o, w') := wait_ready path timeout w in
   match o with
   | Done r => is_ok r = false -> time w + timeout <= time w'
   | NoFuel => exists w0, attempt path w0 = (None, w')
   | Panic => False
   end) /\
  (forall fuel start limit w1, (attempt path w1).1 = None -> (wait_ready_loop fuel start path limit w1).1 = NoFuel).
Proof.
  intros Ht. split; [by apply wait_ready_run|]. intros fuel start limit w1 Ha.
  destruct fuel as [|fuel]; [done|]. rewrite wait_ready_loop_attempt. by destruct (attempt path w1) as [r w2]; simpl in Ha; subst r.
Qed.

End laws.

#[export] Instance sim_clock_laws : ClockLaws sim.
Proof.
  refine {| time := sim_clock |}; intros; simpl; try lia.
  unfold st_map, bind, ret, scripted. simpl. by destruct (default false (head (sim_script w))).
Defined.

(** A guest whose vsock port accepts the connection and then says nothing; the world
    is its clock. *)
Definition silent : Type := Z.

#[export] Instance silent_clock : Clock silent := {|
  instant_now := fun t => (t, t); system_now := fun t => (t, t); sleep_ms ms := fun t => (tt, t + Z.max 0 ms) |}.

#[export] Instance silent_agent : AgentTransport silent := {|
  uds_connect _ := ret (Some (Ok 7));
  uds_write_all _ _ := ret (Some (Ok tt));
  uds_read_line _ := ret None;
  rpc_health _ := ret None;
  rpc_exec _ _ := ret None;
|}.

#[export] Instance silent_clock_laws : ClockLaws silent.
Proof. refine {| time := id |}; intros; simpl; lia. Defined.

(** An agent that refuses every connection: the wait ends with an error after 30 s.
    A silent one: the wait of 30 s does not end. *)
Lemma wait_ready_terminates_witness :
  (let '(o, w') := wait_ready "/v" 30000 (set_script (replicate 100 true) empty_sim) in
   exists e, o = Done (Err e) /\ 30000 <= time w') /\
  forall fuel, (wait_ready_loop fuel 0 "/v" 30000 (0 : silent)).1 = NoFuel.
Proof.
  split.
  - pose proof (proj1 (wait_ready_terminates "/v" 30000 (set_script (replicate 100 true) empty_sim) ltac:(lia))) as Hw.
    assert (exists e, (wait_ready "/v" 30000 (set_script (replicate 100 true) empty_sim)).1 = Done (Err e)) as [e He]
      by (eexists; vm_compute; reflexivity).
    destruct (wait_ready "/v" 30000 (set_script (replicate 100 true) empty_sim)) as [o w']. simpl in He. subst o.
    exists e. split; [reflexivity|]. exact (Hw eq_refl).
  - intros fuel. exact (proj2 (wait_ready_terminates "/v" 30000 (0 : silent) ltac:(lia)) fuel 0 30000 0 eq_refl).
Defined.
