(* ===== verification/Registry.v ===== *)
(** clawpot-server/src/vm/registry.rs: the registry of running VMs, a hash map
    from ids to entries.  Every method takes the lock for its whole body, so each
    is one step on the map.  The order in which a [HashMap] is iterated is not
    specified: it is a parameter, of which only that it visits each entry once is
    known. *)

From S2P Require Import Prelude RustStr Addr World Json SimWorld Lifecycle FcConfig VmManager.
From Stdlib Require Import ZArith Lia Ascii String.
From stdpp Require Import base gmap strings list.

Open Scope Z_scope.

Record VmEntry : Type := mkVmEntry {
  entry_id : Uuid;
  manager : VmManager;
  ip_address : IpAddr;
  tap_name : string;
  created_at : Z;          (* SystemTime, in seconds from the epoch *)
  vcpu_count : Z;          (* u8 *)
  mem_size_mib : Z;        (* u32 *)
  vsock_uds_path : string;
}.

(** [VmRegistry] *)
Abbreviation VmRegistry := (gmap Uuid VmEntry).

(** The iteration order of the map. *)
Class HashOrder := {
  iter : VmRegistry -> list (Uuid * VmEntry);
  iter_perm : forall m, iter m ≡ₚ map_to_list m;
}.

Section registry.
Context `{UuidText} `{HashOrder}.

(** [VmRegistry::new()] *)
Definition new : VmRegistry := ∅.

Definition not_found (id : Uuid) : error := anyhow ("VM with ID " +:+ uuid_string id +:+ " not found").

(** [insert(&self, id, entry) -> Result<()>] *)
Definition insert (id : Uuid) (entry : VmEntry) (vms : VmRegistry) : result unit error * VmRegistry :=
  match vms !! id with
  | Some _ => (Err (anyhow ("VM with ID " +:+ uuid_string id +:+ " already exists")), vms)
  | None => (Ok tt, <[id := entry]> vms)
  end.

(** [remove(&self, id) -> Result<VmEntry>] *)
Definition remove (id : Uuid) (vms : VmRegistry) : result VmEntry error * VmRegistry :=
  (ok_or (vms !! id) (not_found id), delete id vms).

(** [get(&self, id) -> Result<VmId>] *)
Definition get (id : Uuid) (vms : VmRegistry) : result Uuid error :=
  match vms !! id with
  | Some _ => Ok id
  | None => Err (not_found id)
  end.

(** [list(&self)] *)
Definition list_info : Type := Uuid * IpAddr * string * Z * Z * Z.

Definition info_of (kv : Uuid * VmEntry) : list_info :=
  (kv.1, ip_address kv.2, tap_name kv.2, vcpu_count kv.2, mem_size_mib kv.2, created_at kv.2).

Definition vm_list (vms : VmRegistry) : list list_info := map info_of (iter vms).

(** [count(&self)] *)
Definition count (vms : VmRegistry) : nat := size vms.

(** [get_vm_info(&self, id)] *)
Definition get_vm_info (id : Uuid) (vms : VmRegistry) : result (IpAddr * string * Z * Z * Z) error :=
  match vms !! id with
  | Some e => Ok (ip_address e, tap_name e, vcpu_count e, mem_size_mib e, created_at e)
  | None => Err (not_found id)
  end.

(** [find_by_ip(&self, ip) -> Option<VmId>] *)
Definition find_by_ip (ip : IpAddr) (vms : VmRegistry) : option Uuid :=
  fst <$> list_find (fun kv : Uuid * VmEntry => ip_address kv.2 = ip) (iter vms) ≫= (fun '(_, kv) => Some kv).

(** [get_vsock_path(&self, id) -> Result<String>] *)
Definition get_vsock_path (id : Uuid) (vms : VmRegistry) : result string error :=
  match vms !! id with
  | Some e => Ok (vsock_uds_path e)
  | None => Err (not_found id)
  end.

(** * Properties *)

(** No two VMs have the same address. *)
Definition distinct_ips (vms : VmRegistry) : Prop :=
  forall i j a b, vms !! i = Some a -> vms !! j = Some b -> ip_address a = ip_address b -> i = j.

Lemma iter_elem vms i e : (i, e) ∈ iter vms <-> vms !! i = Some e.
Proof. rewrite iter_perm. apply elem_of_map_to_list. Qed.

Lemma find_by_ip_some ip vms i : find_by_ip ip vms = Some i -> exists e, vms !! i = Some e /\ ip_address e = ip.
Proof.
  unfold find_by_ip. destruct (list_find _ (iter vms)) as [[n [j e]]|] eqn:E; simpl; [|done].
  intros [= <-]. apply list_find_Some in E as (Hn & Hip & _). apply list_elem_of_lookup_2, iter_elem in Hn.
  by exists e.
Qed.

Lemma find_by_ip_none ip vms : find_by_ip ip vms = None <-> forall i e, vms !! i = Some e -> ip_address e <> ip.
Proof.
  unfold find_by_ip. destruct (list_find _ (iter vms)) as [[n [j e]]|] eqn:E; simpl.
  - split; [done|]. intros Hno. apply list_find_Some in E as (Hn & Hip & _).
    apply list_elem_of_lookup_2, iter_elem in Hn. by destruct (Hno _ _ Hn).
  - split; [|done]. intros _ i e Hi Hip. apply list_find_None in E. rewrite Forall_forall in E.
    apply iter_elem in Hi. by apply (E _ Hi).
Qed.

(** With distinct addresses the reverse lookup is exact, whatever the iteration order. *)
Lemma find_by_ip_exact ip vms i :
  distinct_ips vms -> find_by_ip ip vms = Some i <-> exists e, vms !! i = Some e /\ ip_address e = ip.
Proof.
  intros Hd. split; [apply find_by_ip_some|]. intros (e & Hi & Hip).
  destruct (find_by_ip ip vms) as [j|] eqn:E.
  - apply find_by_ip_some in E as (e' & Hj & Hip'). f_equal. eapply Hd; [exact Hj|exact Hi|congruence].
  - rewrite find_by_ip_none in E. by destruct (E _ _ Hi).
Qed.

End registry.

(** The order of the entries of a [gmap], one order among others. *)
#[export] Instance map_order : HashOrder.
Proof. by refine {| iter := map_to_list |}. Defined.
