(* ===== verification/Service.v ===== *)
(** clawpot-server/src/grpc/service.rs and the shutdown handler of main.rs: the
    operations of the server on its shared memory (registry, address allocator,
    event store) and the world.

    The handlers are async.  They share memory only through locks taken for one
    call, so each handler is written as the sequence of its segments, a segment
    touching the shared registry or allocator at most once; the whole handler is
    their composition, and [Concurrency] interleaves the segments of different
    requests. *)

From S2P Require Import Prelude RustStr Addr World Json SimWorld IpAllocator Lifecycle FcConfig.
From S2P Require Import VmManager Network Events Registry AgentClient Grpc.
From Stdlib Require Import ZArith Lia Ascii String.
From Stdlib Require Import Strings.Byte.
From stdpp Require Import base gmap strings list.

Open Scope Z_scope.

(** * The shared memory *)

Record Server : Type := mkServer {
  vm_registry : VmRegistry;
  ip_allocator : IpAllocator;
  event_store : EventStore;
  cancelled : bool;   (* the value of the [watch] channel the proxies listen to *)
}.

(** The fields of [ClawpotServiceImpl] that do not change. *)
Record ServerConfig : Type := mkServerConfig {
  network_manager : NetworkManager;
  cfg_kernel_path : string;
  cfg_rootfs_path : string;
}.

Record CreateVmRequest : Type := mkCreateVmRequest { req_vcpu_count : option Z; req_mem_size_mib : option Z }.  (* u32 *)
Record CreateVmResponse : Type := mkCreateVmResponse {
  resp_vm_id : string; resp_ip_address : string; resp_socket_path : string }.
Record VmInfo : Type := mkVmInfo {
  vi_vm_id : string; vi_state : Z; vi_ip_address : string; vi_vcpu_count : Z; vi_mem_size_mib : Z;
  vi_created_at : Z; vi_socket_path : string }.
Record ExecVmRequest : Type := mkExecVmRequest {
  ex_vm_id : string; ex_command : string; ex_args : list string; ex_env : list (string * string);
  ex_working_dir : string }.

Definition GUEST_CID : Z := 3.

(** [ProtoVmState::Running as i32] *)
Definition VM_STATE_RUNNING : Z := 2.

(** The names derived from a VM's id. *)
Section names.
Context `{UuidText}.

Definition tap_name_of (vm_id : Uuid) : string := "tap-" +:+ String.substring 0 11 (uuid_simple vm_id).
Definition vsock_path_of (vm_id : Uuid) : string := "/tmp/fc-" +:+ uuid_simple vm_id +:+ "-vsock.sock".
Definition socket_path_of (vm_id : Uuid) : string := "/tmp/fc-" +:+ uuid_simple vm_id +:+ ".sock".

End names.

Section lift.
Context {W : Type}.

(** Work on the world, the event store, the allocator, or the registry alone. *)
Definition on_w {A} (m : ST W A) : ST (Server * W) A := fun '(s, w) => let '(a, w') := m w in (a, (s, w')).

Definition on_events {A} (m : ST (EventStore * W) A) : ST (Server * W) A :=
  fun '(s, w) => let '(a, (ev, w')) := m (event_store s, w) in
                 (a, (mkServer (vm_registry s) (ip_allocator s) ev (cancelled s), w')).

Definition on_alloc {A} (f : IpAllocator -> A * IpAllocator) : ST (Server * W) A :=
  fun '(s, w) => let '(a, al) := f (ip_allocator s) in (a, (mkServer (vm_registry s) al (event_store s) (cancelled s), w)).

Definition on_registry {A} (f : VmRegistry -> A * VmRegistry) : ST (Server * W) A :=
  fun '(s, w) => let '(a, r) := f (vm_registry s) in (a, (mkServer r (ip_allocator s) (event_store s) (cancelled s), w)).

(** [cancel_tx.send(true)] *)
Definition send_cancel : ST (Server * W) unit :=
  fun '(s, w) => (tt, (mkServer (vm_registry s) (ip_allocator s) (event_store s) true, w)).

Definition read_registry {A} (f : VmRegistry -> A) : ST (Server * W) A := fun s => (f (vm_registry s.1), s).

(** Run an operation of a VM manager that this task owns. *)
Definition on_manager {A} (mgr : VmManager) (m : ST (VmManager * W) A) : ST (Server * W) (A * VmManager) :=
  fun '(s, w) => let '(a, (mgr', w')) := m (mgr, w) in ((a, mgr'), (s, w')).

End lift.

Section service.
Context {W : Type} `{FirecrackerApi W} `{FileSystem W} `{Processes W} `{Clock W} `{Timestamps W} `{Iptables W}
  `{Netlink W} `{TunDevice W} `{AgentTransport W} `{UuidGen W} `{UuidText} `{SerdeJson} `{HttpText} `{HashOrder}.
Context (cfg : ServerConfig).

(** [clawpot_event!(store, type, "vm", vm_id = id, data)] *)
Definition vm_event (event_type : string) (vm_id_str : string) (data : list (string * json)) : ST (Server * W) unit :=
  do! on_events (emit event_type "vm" (Some vm_id_str) None (JObject data)) in ret tt.

(** [clawpot_log!] *)
Definition server_log (vm_id : option string) (msg : string) : ST (Server * W) unit :=
  do! on_events (log "server" vm_id msg) in ret tt.

(** What a [create_vm] in progress carries from one segment to the next. *)
Record Creating : Type := mkCreating {
  cr_start : Z;
  cr_req : CreateVmRequest;
  cr_vm_id : Uuid;
  cr_ip : IpAddr;
}.

(** [create_vm], to the allocation of the address. *)
Definition create_vm_allocate (req : CreateVmRequest) : ST (Server * W) (result Creating Status) :=
  let! start := on_w instant_now in
  let vcpu_count_val := default 1 (req_vcpu_count req) in
  let mem_size_mib_val := default 256 (req_mem_size_mib req) in
  let! vm_id := on_w new_v4 in
  let vm_id_str := uuid_string vm_id in
  do! vm_event "vm.create.started" vm_id_str
        [("vcpu_count", jint vcpu_count_val); ("mem_size_mib", jint mem_size_mib_val)]%string in
  let! allocated := on_alloc allocate in
  match allocated with
  | Err e =>
      do! vm_event "vm.create.failed" vm_id_str
            [("error", JString (err_string e)); ("step", JString "ip_allocation")]%string in
      ret (Err (mkStatus ResourceExhausted ("No available IP addresses: " +:+ err_string e)))
  | Ok ip =>
      do! vm_event "vm.create.ip_allocated" vm_id_str [("ip_address"%string, JString (show_ip ip))] in
      ret (Ok (mkCreating start req vm_id ip))
  end.

(** [create_vm], the TAP device. *)
Definition create_vm_tap (c : Creating) : ST (Server * W) (result unit Status) :=
  let vm_id_str := uuid_string (cr_vm_id c) in
  let tap := tap_name_of (cr_vm_id c) in
  let! created := on_w (nm_create_tap (network_manager cfg) tap (cr_ip c)) in
  match created with
  | Err e =>
      do! on_alloc (release (cr_ip c)) in
      do! vm_event "vm.create.failed" vm_id_str
            [("error", JString (err_string e)); ("step", JString "tap_creation")]%string in
      ret (Err (mkStatus Internal ("Failed to create TAP device: " +:+ err_string e)))
  | Ok _ =>
      do! vm_event "vm.create.tap_created" vm_id_str [("tap_name"%string, JString tap)] in
      ret (Ok tt)
  end.

(** [req.vcpu_count.unwrap_or(1) as u8] and [req.mem_size_mib.unwrap_or(256)] *)
Definition vcpus_of (req : CreateVmRequest) : Z := u8 (to_u8 (default 1 (req_vcpu_count req))).
Definition memory_of (req : CreateVmRequest) : Z := default 256 (req_mem_size_mib req).

Definition vm_config (c : Creating) : VmConfig :=
  with_vsock GUEST_CID (vsock_path_of (cr_vm_id c))
    (with_network (tap_name_of (cr_vm_id c)) (show_ip (cr_ip c))
       (with_memory (memory_of (cr_req c))
          (with_vcpus (vcpus_of (cr_req c)) (FcConfig.new (cfg_kernel_path cfg) (cfg_rootfs_path cfg))))).

(** [create_vm], the start of the VM.  On failure the manager is dropped at the
    end of the handler. *)
Definition create_vm_start (c : Creating) : ST (Server * W) (result VmManager Status) :=
  let vm_id_str := uuid_string (cr_vm_id c) in
  let socket_path := socket_path_of (cr_vm_id c) in
  let! started := on_manager (VmManager.new socket_path) (start (vm_config c)) in
  match started with
  | (Err e, manager) =>
      do! on_w (nm_delete_tap (network_manager cfg) (tap_name_of (cr_vm_id c)) (cr_ip c)) in
      do! on_alloc (release (cr_ip c)) in
      do! vm_event "vm.create.failed" vm_id_str
            [("error", JString (err_string e)); ("step", JString "firecracker_start")]%string in
      do! on_manager manager drop_manager in
      ret (Err (mkStatus Internal ("Failed to start VM: " +:+ err_string e)))
  | (Ok _, manager) =>
      do! vm_event "vm.create.firecracker_started" vm_id_str
            [("socket_path", JString socket_path); ("vsock_uds_path", JString (vsock_path_of (cr_vm_id c)))]%string in
      ret (Ok manager)
  end.

(** [create_vm], the wait for the guest agent (non-fatal). *)
Definition create_vm_wait (c : Creating) : ST (Server * W) (outcome unit) :=
  let vm_id_str := uuid_string (cr_vm_id c) in
  let! agent_start := on_w instant_now in
  let! ready := on_w (wait_ready (vsock_path_of (cr_vm_id c)) 30000) in
  match ready with
  | Done (Ok _) =>
      let! now := on_w instant_now in
      do! vm_event "vm.create.agent_ready" vm_id_str [("wait_ms"%string, jint (now - agent_start))] in
      ret (Done tt)
  | Done (Err e) =>
      do! vm_event "vm.create.agent_timeout" vm_id_str [("error"%string, JString (err_string e))] in
      ret (Done tt)
  | Panic => ret Panic
  | NoFuel => ret NoFuel
  end.

(** [create_vm], the registration.  When [insert] refuses, it drops the entry. *)
Definition create_vm_register (c : Creating) (mgr : VmManager) : ST (Server * W) (result CreateVmResponse Status) :=
  let vm_id_str := uuid_string (cr_vm_id c) in
  let socket_path := socket_path_of (cr_vm_id c) in
  let! created := on_w system_now in
  let entry := mkVmEntry (cr_vm_id c) mgr (cr_ip c) (tap_name_of (cr_vm_id c)) created
                 (vcpus_of (cr_req c)) (memory_of (cr_req c)) (vsock_path_of (cr_vm_id c)) in
  let! inserted := on_registry (Registry.insert (cr_vm_id c) entry) in
  match inserted with
  | Err e =>
      do! on_manager mgr drop_manager in
      do! vm_event "vm.create.failed" vm_id_str
            [("error", JString (err_string e)); ("step", JString "registry_insert")]%string in
      ret (Err (mkStatus Internal ("Failed to register VM: " +:+ err_string e)))
  | Ok _ =>
      let! now := on_w instant_now in
      do! on_events (emit_with_duration "vm.create.completed" "vm" (Some vm_id_str) None (now - cr_start c) (Some true)
            (JObject [("ip_address", JString (show_ip (cr_ip c))); ("socket_path", JString socket_path)]%string)) in
      ret (Ok (mkCreateVmResponse vm_id_str (show_ip (cr_ip c)) socket_path))
  end.

(** [create_vm(&self, request)] *)
Definition create_vm (req : CreateVmRequest) : ST (Server * W) (outcome (result CreateVmResponse Status)) :=
  let! allocated := create_vm_allocate req in
  match allocated with
  | Err s => ret (Done (Err s))
  | Ok c =>
      let! tapped := create_vm_tap c in
      match tapped with
      | Err s => ret (Done (Err s))
      | Ok _ =>
          let! started := create_vm_start c in
          match started with
          | Err s => ret (Done (Err s))
          | Ok mgr =>
              let! waited := create_vm_wait c in
              match waited with
              | Done _ => st_map Done (create_vm_register c mgr)
              | Panic => ret Panic
              | NoFuel => ret NoFuel
              end
          end
      end
  end.

(** [delete_vm], to the removal from the registry. *)
Definition delete_vm_remove (vm_id : Uuid) : ST (Server * W) (result VmEntry Status) :=
  do! vm_event "vm.delete.started" (uuid_string vm_id) [] in
  st_map (map_err (fun e => mkStatus NotFound ("VM not found: " +:+ err_string e))) (on_registry (Registry.remove vm_id)).

(** [delete_vm], the release of what the VM holds.  The entry is dropped at the end. *)
Definition delete_vm_cleanup (start : Z) (vm_id : Uuid) (entry : VmEntry) : ST (Server * W) bool :=
  let! stopped := on_manager (manager entry) stop in
  do! on_w (nm_delete_tap (network_manager cfg) (tap_name entry) (ip_address entry)) in
  do! on_alloc (release (ip_address entry)) in
  do! on_w (remove_file (vsock_uds_path entry)) in
  let! now := on_w instant_now in
  do! on_events (emit_with_duration "vm.delete.completed" "vm" (Some (uuid_string vm_id)) None (now - start) (Some true)
        (JObject [])) in
  do! on_manager stopped.2 drop_manager in
  ret true.

(** [delete_vm(&self, request)]: the [success] field of the response *)
Definition delete_vm (req_vm_id : string) : ST (Server * W) (result bool Status) :=
  let! start := on_w instant_now in
  match uuid_parse_str req_vm_id with
  | Err e => ret (Err (mkStatus InvalidArgument ("Invalid VM ID: " +:+ e)))
  | Ok vm_id =>
      let? entry := delete_vm_remove vm_id in
      st_map Ok (delete_vm_cleanup start vm_id entry)
  end.

Definition vm_info (i : list_info) : VmInfo :=
  let '(id, ip, _, vcpus, mem, created) := i in
  mkVmInfo (uuid_string id) VM_STATE_RUNNING (show_ip ip) vcpus mem (Z.max 0 created) (socket_path_of id).

(** [list_v_ms(&self, _request)] *)
Definition list_v_ms : ST (Server * W) (result (list VmInfo) Status) :=
  let! vms_list := read_registry vm_list in ret (Ok (map vm_info vms_list)).

(** [exec_vm(&self, request)]; [None] when the agent never answers *)
Definition exec_vm (req : ExecVmRequest) : ST (Server * W) (option (result ExecResponse Status)) :=
  let! start := on_w instant_now in
  match uuid_parse_str (ex_vm_id req) with
  | Err e => ret (Some (Err (mkStatus InvalidArgument ("Invalid VM ID: " +:+ e))))
  | Ok vm_id =>
      let* vsock_path := st_map (fun r => Some (map_err (fun e => mkStatus NotFound ("VM not found: " +:+ err_string e)) r))
                           (read_registry (get_vsock_path vm_id)) in
      let* agent_client := st_map (fmap (map_err (fun e => mkStatus Unavailable ("Failed to connect to agent: " +:+ err_string e))))
                             (on_w (connect vsock_path)) in
      let* agent_resp := st_map (fmap (map_err (fun e => mkStatus Internal ("Agent exec failed: " +:+ err_string e))))
                           (on_w (exec agent_client (mkExecRequest (ex_command req) (ex_args req) (ex_env req)
                                                       (ex_working_dir req)))) in
      let! now := on_w instant_now in
      do! on_events (emit_with_duration "vm.exec" "vm" (Some (uuid_string vm_id)) None (now - start)
            (Some (rs_exit_code agent_resp =? 0))
            (JObject [("command", JString (ex_command req)); ("args", JArray (map JString (ex_args req)));
                      ("exit_code", jint (rs_exit_code agent_resp));
                      ("stdout_len", jint (Z.of_nat (length (rs_stdout agent_resp))));
                      ("stderr_len", jint (Z.of_nat (length (rs_stderr agent_resp))))]%string)) in
      ret (Some (Ok agent_resp))
  end.

(** [exec_vm_stream] *)
Definition exec_vm_stream : ST (Server * W) (result unit Status) :=
  ret (Err (mkStatus Unimplemented "ExecVMStream not yet implemented. Use ExecVM for now.")).

(** * Shutdown (main.rs) *)

(** One turn of the loop of [shutdown_signal], in two segments. *)
Definition shutdown_remove (vm_id : Uuid) : ST (Server * W) (result VmEntry error) :=
  do! server_log (Some (uuid_string vm_id)) "Cleaning up VM" in
  on_registry (Registry.remove vm_id).

Definition shutdown_cleanup (i : list_info) (entry : VmEntry) : ST (Server * W) unit :=
  let '(vm_id, ip, tap, _, _, _) := i in
  let! stopped := on_manager (manager entry) stop in
  do! on_w (nm_delete_tap (network_manager cfg) tap ip) in
  do! on_alloc (release ip) in
  do! server_log (Some (uuid_string vm_id)) "VM cleaned up successfully" in
  do! on_manager stopped.2 drop_manager in
  ret tt.

Definition shutdown_one (i : list_info) : ST (Server * W) unit :=
  let! removed := shutdown_remove i.1.1.1.1.1 in
  match removed with
  | Ok entry => shutdown_cleanup i entry
  | Err _ => ret tt
  end.

(** What the [select!] on the signals returns. *)
Inductive signal : Type := SigInt | SigIntError | SigTerm.

(** [shutdown_signal(...)], once the signal of that name has come *)
Definition shutdown_graceful (name : string) : ST (Server * W) unit :=
  do! server_log None ("Received " +:+ name +:+ ", initiating graceful shutdown...") in
  do! server_log None "Cleaning up all VMs..." in
  let! vms_list := read_registry vm_list in
  do! server_log None ("Found " +:+ show_Z (Z.of_nat (length vms_list)) +:+ " VMs to clean up") in
  do! for_each shutdown_one vms_list in
  do! server_log None "Stopping proxy infrastructure..." in
  do! send_cancel in
  do! on_w (remove_proxy_rules (bridge_name (network_manager cfg))) in
  server_log None "All VMs cleaned up. Server shutting down.".

Definition shutdown_signal (sig : signal) : ST (Server * W) unit :=
  match sig with
  | SigInt => shutdown_graceful "SIGINT"
  | SigIntError => ret tt
  | SigTerm => shutdown_graceful "SIGTERM"
  end.

End service.

(** * The segments on the shared memory *)

Section memory.
Context {W : Type}.

(** The registry and the allocator of a state. *)
Definition mem (s : Server * W) : VmRegistry * IpAllocator := (vm_registry s.1, ip_allocator s.1).

(** From memory [M], [m] ends in a result and a memory that satisfy [Q]. *)
Definition seg {A} (M : VmRegistry * IpAllocator) (m : ST (Server * W) A) (Q : A -> VmRegistry * IpAllocator -> Prop) : Prop :=
  hoare (fun s => mem s = M) m (fun a s => Q a (mem s)).

Lemma seg_ret {A} M (a : A) (Q : A -> VmRegistry * IpAllocator -> Prop) : Q a M -> seg M (ret a) Q.
Proof. by intros HQ s <-. Qed.

Lemma seg_bind {A B} M (m : ST (Server * W) A) (k : A -> ST (Server * W) B) R Q :
  seg M m R -> (forall a M', R a M' -> seg M' (k a) Q) -> seg M (bind m k) Q.
Proof.
  intros Hm Hk. eapply hoare_bind; [exact Hm|]. intros a s HR. by apply (Hk a (mem s)).
Qed.

Lemma seg_keep {A B} M (m : ST (Server * W) A) (k : A -> ST (Server * W) B) Q :
  keeps mem m -> (forall a, seg M (k a) Q) -> seg M (bind m k) Q.
Proof. intros Hm Hk. eapply hoare_bind; [by apply keeps_hoare|]. exact Hk. Qed.

Lemma seg_alloc {A B} M (f : IpAllocator -> A * IpAllocator) (k : A -> ST (Server * W) B) Q :
  seg (M.1, (f M.2).2) (k (f M.2).1) Q -> seg M (bind (on_alloc f) k) Q.
Proof.
  intros Hk [s w] <-. unfold bind, on_alloc. simpl in *. destruct (f (ip_allocator s)) as [a al].
  by apply (Hk (mkServer (vm_registry s) al (event_store s) (cancelled s), w)).
Qed.

Lemma seg_registry {A B} M (f : VmRegistry -> A * VmRegistry) (k : A -> ST (Server * W) B) Q :
  seg ((f M.1).2, M.2) (k (f M.1).1) Q -> seg M (bind (on_registry f) k) Q.
Proof.
  intros Hk [s w] <-. unfold bind, on_registry. simpl in *. destruct (f (vm_registry s)) as [a r].
  by apply (Hk (mkServer r (ip_allocator s) (event_store s) (cancelled s), w)).
Qed.

Lemma seg_manager {A B} M mgr (m : ST (VmManager * W) A) (k : A * VmManager -> ST (Server * W) B) Q :
  (forall w a mgr' w', m (mgr, w) = (a, (mgr', w')) -> seg M (k (a, mgr')) Q) -> seg M (bind (on_manager mgr m) k) Q.
Proof.
  intros Hk [s w] <-. unfold bind, on_manager. destruct (m (mgr, w)) as [a [mgr' w']] eqn:E.
  by apply (Hk w a mgr' w' E (s, w')).
Qed.

Lemma keeps_on_w {A} (m : ST W A) : keeps mem (on_w m).
Proof. intros [s w]. unfold on_w. by destruct (m w). Qed.
Lemma keeps_on_events {A} (m : ST (EventStore * W) A) : keeps mem (on_events m).
Proof. intros [s w]. unfold on_events. by destruct (m (event_store s, w)) as [a [ev w']]. Qed.
Lemma keeps_on_manager {A} mgr (m : ST (VmManager * W) A) : keeps mem (on_manager mgr m).
Proof. intros [s w]. unfold on_manager. by destruct (m (mgr, w)) as [a [mgr' w']]. Qed.
Lemma keeps_read {A} (f : VmRegistry -> A) : keeps (S := Server * W) mem (read_registry f).
Proof. by intros s. Qed.

End memory.

#[export] Hint Resolve keeps_on_w keeps_on_events keeps_on_manager keeps_read : rs.

Section segments.
Context {W : Type} `{FirecrackerApi W} `{FileSystem W} `{Processes W} `{Clock W} `{Timestamps W} `{Iptables W}
  `{Netlink W} `{TunDevice W} `{AgentTransport W} `{UuidGen W} `{UuidText} `{SerdeJson} `{HttpText} `{HashOrder}.
Context (cfg : ServerConfig).

Lemma keeps_vm_event t i d : keeps (S := Server * W) mem (vm_event t i d).
Proof. unfold vm_event. auto with rs. Qed.
Lemma keeps_server_log i msg : keeps (S := Server * W) mem (server_log i msg).
Proof. unfold server_log. auto with rs. Qed.
Hint Resolve keeps_vm_event keeps_server_log : rs.

Lemma allocate_seg req M :
  seg (W := W) M (create_vm_allocate req) (fun r M' =>
    M' = (M.1, (allocate M.2).2) /\
    match r with
    | Ok c => (allocate M.2).1 = Ok (cr_ip c) /\ cr_req c = req
    | Err s => is_ok (allocate M.2).1 = false /\ code s = ResourceExhausted
    end).
Proof.
  unfold create_vm_allocate. apply seg_keep; [auto with rs|intros start]. apply seg_keep; [auto with rs|intros vm_id].
  apply seg_keep; [auto with rs|intros _]. apply seg_alloc.
  destruct (allocate M.2) as [[ip|e] al] eqn:E; simpl;
    (apply seg_keep; [auto with rs|intros _]); apply seg_ret; done.
Qed.

Lemma tap_seg c M :
  seg (W := W) M (create_vm_tap cfg c) (fun r M' =>
    match r with
    | Ok _ => M' = M
    | Err s => M' = (M.1, (release (cr_ip c) M.2).2) /\ code s = Internal
    end).
Proof.
  unfold create_vm_tap. apply seg_keep; [auto with rs|intros [u|e]].
  - apply seg_keep; [auto with rs|intros _]. by apply seg_ret.
  - apply seg_alloc. apply seg_keep; [auto with rs|intros _]. by apply seg_ret.
Qed.

Lemma start_seg c M :
  seg (W := W) M (create_vm_start cfg c) (fun r M' =>
    match r with
    | Ok mgr => M' = M /\ state mgr = Running /\ firecracker_process mgr <> None /\
                socket_path mgr = socket_path_of (cr_vm_id c) /\
                vcpus_of (cr_req c) <> 0 /\ 128 <= memory_of (cr_req c)
    | Err s => M' = (M.1, (release (cr_ip c) M.2).2) /\ code s = Internal
    end).
Proof.
  unfold create_vm_start. apply seg_manager. intros w r mgr' w' Hst. destruct r as [[]|e]; simpl.
  - apply start_ok in Hst as (Hv & Hm & Hs & Hp & Hsock & _). simpl in *.
    apply seg_keep; [auto with rs|intros _]. by apply seg_ret.
  - apply seg_keep; [auto with rs|intros _]. apply seg_alloc. apply seg_keep; [auto with rs|intros _].
    apply seg_keep; [auto with rs|intros _]. by apply seg_ret.
Qed.

Lemma wait_seg c M : seg (W := W) M (create_vm_wait c) (fun o M' => M' = M /\ o <> Panic).
Proof.
  unfold create_vm_wait. apply seg_keep; [auto with rs|intros t0].
  apply (seg_bind _ _ _ (fun o M' => M' = M /\ o <> Panic)).
  { intros [s w] <-. unfold on_w. pose proof (wait_ready_no_panic (vsock_path_of (cr_vm_id c)) 30000 w) as Hp.
    by destruct (wait_ready _ 30000 w). }
  intros [[x|e]| |] M' [-> Hp]; [|apply seg_keep; [auto with rs|intros _]; by apply seg_ret|done|by apply seg_ret].
  apply seg_keep; [auto with rs|intros now]. apply seg_keep; [auto with rs|intros _]. by apply seg_ret.
Qed.

(** The response of a [create_vm] and the entry it registers. *)
Definition response_of (c : Creating) : CreateVmResponse :=
  mkCreateVmResponse (uuid_string (cr_vm_id c)) (show_ip (cr_ip c)) (socket_path_of (cr_vm_id c)).

Definition entry_of (c : Creating) (mgr : VmManager) (created : Z) : VmEntry :=
  mkVmEntry (cr_vm_id c) mgr (cr_ip c) (tap_name_of (cr_vm_id c)) created
    (vcpus_of (cr_req c)) (memory_of (cr_req c)) (vsock_path_of (cr_vm_id c)).

(** The status of a [create_vm] whose id is registered already. *)
Definition refused_insert (id : Uuid) : Status :=
  mkStatus Internal ("Failed to register VM: VM with ID " +:+ uuid_string id +:+ " already exists").

Lemma register_seg c mgr M :
  seg (W := W) M (create_vm_register c mgr) (fun r M' =>
    match r with
    | Ok resp => M.1 !! cr_vm_id c = None /\ resp = response_of c /\
                 exists created, M' = (<[cr_vm_id c := entry_of c mgr created]> M.1, M.2)
    | Err s => M' = M /\ M.1 !! cr_vm_id c <> None /\ s = refused_insert (cr_vm_id c)
    end).
Proof.
  unfold create_vm_register. apply seg_keep; [auto with rs|intros created].
  apply seg_registry. unfold Registry.insert. destruct M as [reg al]. simpl.
  destruct (reg !! cr_vm_id c) as [e|] eqn:E; simpl.
  - apply seg_keep; [auto with rs|intros _]. apply seg_keep; [auto with rs|intros _]. by apply seg_ret.
  - apply seg_keep; [auto with rs|intros now]. apply seg_keep; [auto with rs|intros _]. apply seg_ret. by eauto.
Qed.

Lemma delete_remove_seg vm_id M :
  seg (W := W) M (delete_vm_remove vm_id) (fun r M' =>
    M' = (delete vm_id M.1, M.2) /\
    match r with
    | Ok entry => M.1 !! vm_id = Some entry
    | Err s => M.1 !! vm_id = None /\ code s = NotFound
    end).
Proof.
  unfold delete_vm_remove. apply seg_keep; [auto with rs|intros _]. unfold st_map. apply seg_registry.
  apply seg_ret. simpl. split; [done|]. by destruct (M.1 !! vm_id).
Qed.

Lemma delete_cleanup_seg start vm_id entry M :
  seg (W := W) M (delete_vm_cleanup cfg start vm_id entry) (fun r M' =>
    r = true /\ M' = (M.1, (release (ip_address entry) M.2).2)).
Proof.
  unfold delete_vm_cleanup. apply seg_keep; [auto with rs|intros stopped].
  apply seg_keep; [auto with rs|intros _]. apply seg_alloc.
  do 4 (apply seg_keep; [auto with rs|intros ?]). by apply seg_ret.
Qed.

(** What [create_vm] does to the memory, on every path. *)
Definition create_post (req : CreateVmRequest) (M : VmRegistry * IpAllocator)
    (o : outcome (result CreateVmResponse Status)) (M' : VmRegistry * IpAllocator) : Prop :=
  match o with
  | Done (Ok resp) => exists c mgr created,
      resp = response_of c /\ cr_req c = req /\ M.1 !! cr_vm_id c = None /\
      allocate M.2 = (Ok (cr_ip c), M'.2) /\ M'.1 = <[cr_vm_id c := entry_of c mgr created]> M.1 /\
      state mgr = Running /\ firecracker_process mgr <> None /\ vcpus_of req <> 0 /\ 128 <= memory_of req
  | Done (Err st) =>
      M'.1 = M.1 /\
      ((code st = ResourceExhausted /\ is_ok (allocate M.2).1 = false /\ M'.2 = (allocate M.2).2) \/
       (code st = Internal /\ exists ip al, allocate M.2 = (Ok ip, al) /\ M'.2 = (release ip al).2) \/
       (exists c, st = refused_insert (cr_vm_id c) /\ cr_req c = req /\ M.1 !! cr_vm_id c <> None /\
          allocate M.2 = (Ok (cr_ip c), M'.2)))
  | Panic => False
  | NoFuel => M'.1 = M.1 /\ exists ip, allocate M.2 = (Ok ip, M'.2)
  end.

Lemma create_vm_seg req M : seg (W := W) M (create_vm cfg req) (create_post req M).
Proof.
  destruct M as [reg al]. unfold create_vm. eapply seg_bind; [apply allocate_seg|]. simpl.
  intros [c|st] M1 [-> Hc].
  2: { apply seg_ret. simpl. destruct Hc as [? ?]. auto 10. }
  destruct Hc as [Hal Hreq]. destruct (allocate al) as [r al1] eqn:Ea. simpl in *. subst r.
  eapply seg_bind; [apply tap_seg|]. intros [u|st] M2.
  2: { intros [-> Hst]. apply seg_ret. simpl. rewrite Ea. split; [done|]. right; left. eauto. }
  intros ->. eapply seg_bind; [apply start_seg|]. intros [mgr|st] M3.
  2: { intros [-> Hst]. apply seg_ret. simpl. rewrite Ea. split; [done|]. right; left. eauto. }
  intros (-> & Hrun & Hproc & _ & Hv & Hm). eapply seg_bind; [apply wait_seg|]. intros o M4 [-> Hp].
  destruct o as [[]| |]; [|done|apply seg_ret; simpl; rewrite Ea; by eauto].
  unfold st_map. eapply seg_bind; [apply register_seg|]. simpl. intros [resp|st] M5.
  - intros (Hfresh & -> & created & ->). apply seg_ret. simpl. exists c, mgr, created. by subst.
  - intros (-> & Hdup & Hst). apply seg_ret. simpl. rewrite Ea. split; [done|]. right; right. eauto.
Qed.

(** [delete_vm] on every path. *)
Definition delete_post (req_vm_id : string) (M : VmRegistry * IpAllocator)
    (r : result bool Status) (M' : VmRegistry * IpAllocator) : Prop :=
  match uuid_parse_str req_vm_id with
  | Err _ => M' = M /\ exists st, r = Err st /\ code st = InvalidArgument
  | Ok vm_id =>
      match M.1 !! vm_id with
      | None => M' = M /\ exists st, r = Err st /\ code st = NotFound
      | Some entry => r = Ok true /\ M' = (delete vm_id M.1, (release (ip_address entry) M.2).2)
      end
  end.

Lemma delete_vm_seg req_vm_id M : seg (W := W) M (delete_vm cfg req_vm_id) (delete_post req_vm_id M).
Proof.
  destruct M as [reg al]. unfold delete_vm, delete_post. apply seg_keep; [auto with rs|intros start].
  destruct (uuid_parse_str req_vm_id) as [vm_id|e]; [|apply seg_ret; eauto].
  unfold bind_ok. eapply seg_bind; [apply delete_remove_seg|]. simpl.
  intros [entry|st] M1 [-> Hr].
  - rewrite Hr. unfold st_map. eapply seg_bind; [apply delete_cleanup_seg|].
    intros b M2 [-> ->]. by apply seg_ret.
  - destruct Hr as [Hr Hst]. rewrite Hr. apply seg_ret. rewrite (delete_id reg vm_id Hr). eauto.
Qed.

(** Allocating and giving back leaves the pool as it was. *)
Lemma allocate_release_held al ip al' :
  wf al -> allocate al = (Ok ip, al') -> forall x, held (release ip al').2 x <-> held al x.
Proof.
  intros Hwf Ha x. pose proof (wf_allocate al Hwf) as Hwf'. rewrite Ha in Hwf'. simpl in Hwf'.
  destruct (allocate_held al ip al' Hwf Ha) as (Hp & Hn & Hh). rewrite (release_held ip al' Hwf' Hp), Hh.
  split; [intros [[?| ->] ?]; done|]. intros Hx. split; [by left|]. by intros ->.
Qed.

Lemma release_any_held ip al : wf al -> forall x, held (release ip al).2 x <-> held al x /\ x <> ip.
Proof.
  intros Hwf x. destruct (in_pool_dec ip) as [Hip|Hip]; [by apply release_held|].
  destruct (release_not_in_pool ip al Hwf Hip) as [e ->]. simpl.
  split; [|by intros [? ?]]. intros Hx. split; [done|]. intros ->. by apply (held_in_pool _ _ Hwf) in Hx.
Qed.

(** With a clock that advances, the wait for the agent and so the handler return,
    unless an attempt to reach the agent never completes. *)
Lemma create_vm_wait_returns `{!ClockLaws W} c (s s' : Server * W) :
  create_vm_wait c s = (NoFuel, s') -> exists w0, attempt (vsock_path_of (cr_vm_id c)) w0 = (None, s'.2).
Proof.
  destruct s as [sv w]. unfold create_vm_wait, bind at 1, on_w at 1. destruct (instant_now w) as [t w1].
  unfold bind at 1, on_w at 1. pose proof (wait_ready_run (vsock_path_of (cr_vm_id c)) 30000 w1 ltac:(lia)) as Hr.
  destruct (wait_ready _ 30000 w1) as [[[x|e]| |] w2]; [..|by intros [= <-]]; unfold bind, ret; by repeat case_match.
Qed.

Lemma create_vm_returns `{!ClockLaws W} req (s s' : Server * W) :
  create_vm cfg req s = (NoFuel, s') -> exists path w0, attempt path w0 = (None, s'.2).
Proof.
  unfold create_vm, bind at 1. destruct (create_vm_allocate req s) as [[c|st] s1]; [|done].
  unfold bind at 1. destruct (create_vm_tap cfg c s1) as [[u|st] s2]; [|done].
  unfold bind at 1. destruct (create_vm_start cfg c s2) as [[mgr|st] s3]; [|done].
  unfold bind at 1. destruct (create_vm_wait c s3) as [[[]| |] s4] eqn:Ew; [|done|].
  - unfold st_map, bind, ret. by destruct (create_vm_register c mgr s4).
  - intros [= <-]. eexists. by eapply create_vm_wait_returns.
Qed.

(** C7. Creating a VM returns (on a clock that advances, and when the other calls it
    makes to the outside complete), unless an attempt to reach the agent never
    completes.  On success exactly one VM is added to the registry, under an
    id that was free, running, with an address of the pool that no one held and
    that is now held; the response names that id and address.  On failure the
    registry is unchanged, and no address is kept, except when the registry
    refuses the id, where the address (and TAP device) of the new VM stay taken.
    While it waits in an attempt that never completes, the registry is unchanged and
    one more address of the pool is held. *)
Theorem create_vm_allocates_or_restores `{!ClockLaws W} req (s : Server) (w : W) :
  wf (ip_allocator s) ->
  let '(o, (s', w')) := create_vm cfg req (s, w) in
  match o with
  | Done (Ok resp) => exists c mgr created,
      resp = response_of c /\ vm_registry s !! cr_vm_id c = None /\
      vm_registry s' = <[cr_vm_id c := entry_of c mgr created]> (vm_registry s) /\ state mgr = Running /\
      in_pool (cr_ip c) /\ ~ held (ip_allocator s) (cr_ip c) /\
      forall x, held (ip_allocator s') x <-> held (ip_allocator s) x \/ x = cr_ip c
  | Done (Err st) =>
      vm_registry s' = vm_registry s /\
      ((forall x, held (ip_allocator s') x <-> held (ip_allocator s) x) \/
       exists c, st = refused_insert (cr_vm_id c) /\ vm_registry s !! cr_vm_id c <> None /\
         in_pool (cr_ip c) /\ ~ held (ip_allocator s) (cr_ip c) /\
         forall x, held (ip_allocator s') x <-> held (ip_allocator s) x \/ x = cr_ip c)
  | NoFuel =>
      (exists path w0, attempt path w0 = (None, w')) /\ vm_registry s' = vm_registry s /\
      exists ip, in_pool ip /\ ~ held (ip_allocator s) ip /\
        forall x, held (ip_allocator s') x <-> held (ip_allocator s) x \/ x = ip
  | Panic => False
  end.
Proof.
  intros Hwf. pose proof (create_vm_seg req (mem (s, w)) (s, w) eq_refl) as Hp. pose proof (create_vm_returns req (s, w)) as Hret.
  destruct (create_vm cfg req (s, w)) as [o [s' w']]. unfold mem in Hp. simpl in Hp.
  destruct o as [[resp|st]| |]; simpl in Hp; [| |done|].
  - destruct Hp as (c & mgr & created & -> & _ & Hfree & Ha & Hreg & Hrun & _).
    exists c, mgr, created. destruct (allocate_held _ _ _ Hwf Ha) as (Hpool & Hn & Hh). by repeat (split; [done|]).
  - destruct Hp as [Hreg Hp]. split; [done|]. destruct Hp as [(_ & Hf & ->)|[(_ & ip & al & Ha & ->)|(c & -> & _ & Hdup & Ha)]].
    + left. destruct (allocate (ip_allocator s)) as [[ip|e] al] eqn:Ea; [done|]. simpl.
      by destruct (allocate_err _ _ _ Hwf Ea) as (_ & -> & _).
    + left. by apply allocate_release_held.
    + right. exists c. split; [done|]. split; [done|]. by apply allocate_held.
  - destruct Hp as [Hreg [ip Ha]]. split; [exact (Hret _ eq_refl)|]. split; [done|]. exists ip. by apply allocate_held.
Qed.

(** C8. Round trip: deleting the VM that [create_vm] just returned succeeds and
    leaves the registry and the set of held addresses as they were before the
    creation. *)
Theorem create_delete_vm_round_trip `{!UuidLaws} req (s s1 s2 : Server) (w w1 w1' w2 : W) resp r :
  wf (ip_allocator s) ->
  create_vm cfg req (s, w) = (Done (Ok resp), (s1, w1)) ->
  delete_vm cfg (resp_vm_id resp) (s1, w1') = (r, (s2, w2)) ->
  r = Ok true /\ vm_registry s2 = vm_registry s /\
  forall x, held (ip_allocator s2) x <-> held (ip_allocator s) x.
Proof.
  intros Hwf Hc Hd. pose proof (create_vm_seg req (mem (s, w)) (s, w) eq_refl) as Hp. rewrite Hc in Hp.
  destruct Hp as (c & mgr & created & -> & _ & Hfree & Ha & Hreg & _). unfold mem in *. simpl in *.
  pose proof (delete_vm_seg (uuid_string (cr_vm_id c)) (mem (s1, w1')) (s1, w1') eq_refl) as Hq.
  simpl in Hd. rewrite Hd in Hq. unfold delete_post, mem in Hq. simpl in Hq.
  rewrite uuid_parse_string, Hreg, lookup_insert_eq in Hq. destruct Hq as [-> Hq].
  injection Hq as -> ->. split; [done|]. split; [by apply delete_insert_id|]. simpl.
  by apply allocate_release_held.
Qed.

(** C26. Deleting a VM: an id that does not parse is an invalid argument, an id that
    is not registered is not found, and in both cases nothing changes; otherwise
    the VM leaves the registry, its address is given back (and no other), and
    the answer is success, whatever the stopping of the VM and the removal of
    its device report. *)
Theorem delete_vm_outcome req_vm_id (s : Server) (w : W) :
  wf (ip_allocator s) ->
  let '(r, (s', _)) := delete_vm cfg req_vm_id (s, w) in
  match uuid_parse_str req_vm_id with
  | Err _ => mem (s', w) = mem (s, w) /\ exists st, r = Err st /\ code st = InvalidArgument
  | Ok vm_id =>
      match vm_registry s !! vm_id with
      | None => mem (s', w) = mem (s, w) /\ exists st, r = Err st /\ code st = NotFound
      | Some entry =>
          r = Ok true /\ vm_registry s' = delete vm_id (vm_registry s) /\
          forall x, held (ip_allocator s') x <-> held (ip_allocator s) x /\ x <> ip_address entry
      end
  end.
Proof.
  intros Hwf. pose proof (delete_vm_seg req_vm_id (mem (s, w)) (s, w) eq_refl) as Hq.
  destruct (delete_vm cfg req_vm_id (s, w)) as [r [s' w']]. unfold delete_post, mem in *. simpl in *.
  destruct (uuid_parse_str req_vm_id) as [vm_id|e]; [|done].
  destruct (vm_registry s !! vm_id) as [entry|]; [|done]. destruct Hq as [-> Hq]. injection Hq as -> ->.
  split; [done|]. split; [done|]. by apply release_any_held.
Qed.

(** The vCPU count of a request is cut to eight bits: a VM created for [n] vCPUs
    is registered with [n mod 256] of them, and a request for a multiple of 256
    never succeeds. *)
Theorem create_vm_truncates_vcpus n mem_req (s : Server) (w : W) :
  0 <= n ->
  let '(o, (s', _)) := create_vm cfg (mkCreateVmRequest (Some n) mem_req) (s, w) in
  forall resp, o = Done (Ok resp) -> n mod 256 <> 0 /\
    exists id e, resp_vm_id resp = uuid_string id /\ vm_registry s' !! id = Some e /\ vcpu_count e = n mod 256.
Proof.
  intros Hn. pose proof (create_vm_seg (mkCreateVmRequest (Some n) mem_req) (mem (s, w)) (s, w) eq_refl) as Hp.
  destruct (create_vm cfg (mkCreateVmRequest (Some n) mem_req) (s, w)) as [o [s' w']]. intros resp ->.
  destruct Hp as (c & mgr & created & -> & Hreq & _ & _ & Hreg & _ & _ & Hv & _). unfold mem in *. simpl in *.
  assert (vcpus_of (mkCreateVmRequest (Some n) mem_req) = n mod 256) as Ev
    by (unfold vcpus_of; simpl; apply u8_to_u8).
  split; [congruence|]. exists (cr_vm_id c), (entry_of c mgr created). split; [done|].
  rewrite Hreg, lookup_insert_eq. split; [done|]. simpl. by rewrite Hreq.
Qed.

Lemma substring_length n m s : (n + m <= String.length s)%nat -> String.length (substring n m s) = m.
Proof.
  revert n m. induction s as [|c s IH]; intros [|n] [|m] Hl; simpl in *; try done; try lia.
  - f_equal. apply (IH 0%nat m). lia.
  - apply (IH n 0%nat). lia.
  - apply (IH n (S m)). lia.
Qed.

(** Interface names: the slice of the id that a TAP name takes is in range, and
    the name it gives is of exactly the 15 characters the kernel allows, so the
    length check of [create_tap] never refuses it. *)
Theorem tap_name_fits `{!UuidLaws} vm_id :
  (11 <= String.length (uuid_simple vm_id))%nat /\ String.length (tap_name_of vm_id) = 15%nat /\
  (String.length (tap_name_of vm_id) < IFNAMSIZ)%nat.
Proof.
  pose proof (uuid_simple_length vm_id) as Hl.
  assert (String.length (tap_name_of vm_id) = 15%nat) as E.
  { unfold tap_name_of. rewrite slength_app, substring_length by lia. done. }
  split; [lia|]. split; [done|]. unfold IFNAMSIZ. lia.
Qed.

(** ** Shutdown *)

Definition info_id (i : list_info) : Uuid := i.1.1.1.1.1.
Definition info_ip (i : list_info) : IpAddr := i.1.1.1.1.2.

Lemma shutdown_one_seg i M :
  seg (W := W) M (shutdown_one cfg i) (fun _ M' =>
    match M.1 !! info_id i with
    | Some _ => M' = (delete (info_id i) M.1, (release (info_ip i) M.2).2)
    | None => M' = M
    end).
Proof.
  destruct i as [[[[[id ip] tap] v] m] t]. destruct M as [reg al]. unfold shutdown_one, info_id, info_ip. simpl.
  apply (seg_bind _ _ _ (fun r M' => M' = (delete id reg, al) /\ r = ok_or (reg !! id) (not_found id))).
  { unfold shutdown_remove. apply seg_keep; [auto with rs|intros _].
    intros [s w] Hs. unfold on_registry, mem in *. simpl in *. injection Hs as <- <-. done. }
  intros r M' [-> ->]. destruct (reg !! id) as [entry|] eqn:E; simpl.
  - unfold shutdown_cleanup. do 2 (apply seg_keep; [auto with rs|intros ?]). apply seg_alloc.
    do 2 (apply seg_keep; [auto with rs|intros ?]). by apply seg_ret.
  - apply seg_ret. by rewrite delete_id.
Qed.

(** The loop over a list of registered VMs. *)
Lemma shutdown_all_seg l : forall M,
  wf M.2 -> NoDup (map info_id l) -> (forall i, i ∈ l -> M.1 !! info_id i <> None) ->
  seg (W := W) M (for_each (shutdown_one cfg) l) (fun _ M' =>
    (forall id, M'.1 !! id = if bool_decide (id ∈ map info_id l) then None else M.1 !! id) /\
    forall x, held M'.2 x <-> held M.2 x /\ x ∉ map info_ip l).
Proof.
  induction l as [|i l IH]; intros M Hwf Hnd Hin; cbn [for_each map].
  { apply seg_ret. split; [intros id; by rewrite bool_decide_eq_false_2 by set_solver|].
    intros x. split; [intros Hx; split; [done|apply not_elem_of_nil]|by intros [? _]]. }
  apply NoDup_cons in Hnd as [Hni Hnd]. eapply seg_bind; [apply shutdown_one_seg|]. intros [] M1 HM1.
  destruct (M.1 !! info_id i) as [e|] eqn:Ei; [|by destruct (Hin i ltac:(set_solver))]. subst M1.
  eapply hoare_conseq; [apply (IH (delete (info_id i) M.1, (release (info_ip i) M.2).2))| |].
  - by apply wf_release.
  - done.
  - intros j Hj. simpl. rewrite lookup_delete_ne; [apply Hin; set_solver|].
    intros Heq. apply Hni. rewrite Heq. by apply list_elem_of_fmap_2.
  - done.
  - intros [] s' [Hr Hh]. simpl in *. split.
    + intros id. rewrite Hr. destruct (decide (id = info_id i)) as [-> |Hne].
      * rewrite lookup_delete_eq. rewrite (bool_decide_eq_true_2 (info_id i ∈ info_id i :: _)) by set_solver.
        by case_bool_decide.
      * rewrite lookup_delete_ne by done. do 2 case_bool_decide; set_solver.
    + intros x. rewrite Hh, release_any_held by done. set_solver.
Qed.

Lemma keeps_send_cancel : keeps (S := Server * W) mem send_cancel.
Proof. by intros [s w]. Qed.
Hint Resolve keeps_send_cancel : rs.

Lemma bind_post {A B} (P : Server * W -> Prop) (m : ST (Server * W) A) (k : A -> ST (Server * W) B) :
  (forall a s, P (k a s).2) -> forall s, P (bind m k s).2.
Proof. intros Hk s. unfold bind. destruct (m s) as [a s']. apply Hk. Qed.

Lemma shutdown_cancels name s : cancelled (shutdown_graceful (W := W) cfg name s).2.1 = true.
Proof.
  unfold shutdown_graceful. revert s.
  do 6 (apply (bind_post (fun s => cancelled s.1 = true)); intros ?).
  intros [s w]. unfold bind at 1, send_cancel. unfold on_w, server_log, on_events, bind, ret.
  repeat case_match; simplify_eq; simpl; congruence.
Qed.

Lemma shutdown_mem (name : string) (s : Server) (w : W) :
  wf (ip_allocator s) ->
  let s' := (shutdown_graceful cfg name (s, w)).2.1 in
  vm_registry s' = ∅ /\
  forall x, held (ip_allocator s') x <->
    held (ip_allocator s) x /\ forall id e, vm_registry s !! id = Some e -> ip_address e <> x.
Proof.
  intros Hwf. set (M := mem (s, w)). change (ip_allocator s) with M.2 in *. change (vm_registry s) with M.1.
  assert (Hseg : seg (W := W) M (shutdown_graceful cfg name) (fun _ M' => M'.1 = ∅ /\
    forall x, held M'.2 x <-> held M.2 x /\ forall id e, M.1 !! id = Some e -> ip_address e <> x)).
  2: { by apply (Hseg (s, w)). }
  clearbody M. unfold shutdown_graceful. do 2 (apply seg_keep; [auto with rs|intros _]).
  apply (seg_bind _ _ _ (fun l M' => M' = M /\ l = vm_list M.1)).
  { intros s1 <-. by split. }
  intros l M' [-> ->]. apply seg_keep; [auto with rs|intros _].
  eapply seg_bind.
  { apply shutdown_all_seg; [done| |].
    - unfold vm_list. rewrite map_map. change (map _ (Registry.iter M.1)) with (map fst (Registry.iter M.1)).
      rewrite iter_perm. apply NoDup_fst_map_to_list.
    - intros i Hi. apply list_elem_of_fmap in Hi as ([id e] & -> & Hi). apply iter_elem in Hi.
      unfold info_id. simpl. by rewrite Hi. }
  intros [] M1 [Hr Hh]. do 3 (apply seg_keep; [auto with rs|intros _]).
  intros s2 Hs2. rewrite (keeps_server_log _ _ s2), Hs2. split.
  - apply map_eq. intros id. rewrite Hr, lookup_empty. case_bool_decide as Hid; [done|].
    destruct (M.1 !! id) as [e|] eqn:E; [|done]. exfalso. apply Hid. apply iter_elem in E.
    unfold vm_list. rewrite map_map. apply (list_elem_of_fmap_2 (fun kv => info_id (info_of kv))) in E. exact E.
  - intros x. rewrite Hh. split; intros [Hx Hno]; (split; [done|]).
    + intros id e E <-. apply Hno. apply iter_elem in E. unfold vm_list. rewrite map_map.
      apply (list_elem_of_fmap_2 (fun kv => info_ip (info_of kv))) in E. exact E.
    + unfold vm_list. rewrite map_map. intros Hin. apply list_elem_of_fmap in Hin as ([id e] & -> & Hi).
      apply iter_elem in Hi. by apply (Hno _ _ Hi).
Qed.

(** C25. Shutdown: when the server shuts down on a signal with no request in
    progress, the proxies are cancelled, every VM is removed from the registry, and
    the addresses that are given back are exactly those of the VMs that were
    running.  When listening for the signal fails, the handler returns at once and
    cleans up nothing. *)
Theorem shutdown_empties_registry (sig : signal) (s : Server) (w : W) :
  wf (ip_allocator s) ->
  let s' := (shutdown_signal cfg sig (s, w)).2.1 in
  match sig with
  | SigIntError => s' = s
  | _ =>
      cancelled s' = true /\ vm_registry s' = ∅ /\
      forall x, held (ip_allocator s') x <->
        held (ip_allocator s) x /\ forall id e, vm_registry s !! id = Some e -> ip_address e <> x
  end.
Proof.
  intros Hwf. destruct sig; [|done|]; (split; [apply shutdown_cancels|by apply shutdown_mem]).
Qed.

End segments.

(** * Runs on the example host *)

Definition example_cfg : ServerConfig := mkServerConfig nm_new "/k" "/r".
Definition example_server : Server := mkServer ∅ IpAllocator.new (new_store "session" PersistAll) false.
Definition example_req : CreateVmRequest := mkCreateVmRequest (Some 2) (Some 512).

(** The result and the server after creating a VM on it. *)
Definition example_create : outcome (result CreateVmResponse Status) * (Server * sim) :=
  create_vm example_cfg example_req (example_server, bridge_host).

Definition is_created (o : outcome (result CreateVmResponse Status)) : bool :=
  match o with Done (Ok _) => true | _ => false end.

Lemma create_vm_allocates_or_restores_witness :
  exists c mgr created,
    example_create.1 = Done (Ok (response_of c)) /\
    vm_registry example_create.2.1 = <[cr_vm_id c := entry_of c mgr created]> ∅ /\ in_pool (cr_ip c).
Proof.
  pose proof (create_vm_allocates_or_restores example_cfg example_req example_server bridge_host wf_new) as Hc.
  assert (is_created example_create.1 = true) as Hok by (vm_compute; reflexivity).
  unfold example_create in *. destruct (create_vm example_cfg example_req (example_server, bridge_host)) as [o [s' w']].
  destruct o as [[resp|st]| |]; try discriminate Hok.
  destruct Hc as (c & mgr & created & -> & _ & Hreg & _ & Hp & _). by exists c, mgr, created.
Defined.

Lemma create_delete_vm_round_trip_witness :
  exists resp s2 w2,
    example_create.1 = Done (Ok resp) /\
    delete_vm example_cfg (resp_vm_id resp) example_create.2 = (Ok true, (s2, w2)) /\ vm_registry s2 = ∅.
Proof.
  assert (is_created example_create.1 = true) as Hok by (vm_compute; reflexivity).
  pose proof (fun s1 s2 w1 w1' w2 resp r =>
    create_delete_vm_round_trip example_cfg example_req example_server s1 s2 bridge_host w1 w1' w2 resp r wf_new) as Hrt.
  unfold example_create in *. destruct (create_vm example_cfg example_req (example_server, bridge_host)) as [o [s1 w1]].
  destruct o as [[resp|st]| |]; try discriminate Hok. exists resp. simpl.
  destruct (delete_vm example_cfg (resp_vm_id resp) (s1, w1)) as [r [s2 w2]] eqn:Hd.
  destruct (Hrt _ _ _ _ _ _ _ eq_refl Hd) as (-> & Hreg & _). by exists s2, w2.
Defined.

Lemma delete_vm_outcome_witness :
  exists st, (delete_vm example_cfg "101e" (example_server, bridge_host)).1 = Err st /\ code st = NotFound.
Proof.
  pose proof (delete_vm_outcome example_cfg "101e" example_server bridge_host wf_new) as Hd.
  destruct (delete_vm example_cfg "101e" (example_server, bridge_host)) as [r [s' w']].
  simpl in *. by destruct Hd.
Defined.

Lemma shutdown_empties_registry_witness :
  vm_registry (shutdown_signal example_cfg SigTerm example_create.2).2.1 = ∅.
Proof.
  assert (wf (ip_allocator example_create.2.1)) as Hwf
    by (repeat split; vm_compute; first [reflexivity|lia]).
  pose proof (fun s w => shutdown_empties_registry example_cfg SigTerm s w) as Hs. destruct example_create.2 as [s w].
  by apply (Hs s w).
Defined.

Lemma create_vm_truncates_vcpus_witness :
  let '(o, (s', _)) := create_vm example_cfg (mkCreateVmRequest (Some 258) None) (example_server, bridge_host) in
  exists id e, vm_registry s' !! id = Some e /\ vcpu_count e = 2.
Proof.
  pose proof (create_vm_truncates_vcpus example_cfg 258 None example_server bridge_host ltac:(lia)) as Hc.
  assert (is_created (create_vm example_cfg (mkCreateVmRequest (Some 258) None) (example_server, bridge_host)).1 = true)
    as Hok by (vm_compute; reflexivity).
  destruct (create_vm example_cfg (mkCreateVmRequest (Some 258) None) (example_server, bridge_host)) as [o [s' w']].
  destruct o as [[resp|st]| |]; try discriminate Hok.
  destruct (Hc resp eq_refl) as (_ & id & e & _ & Hreg & Hv). by exists id, e.
Defined.

Lemma tap_name_fits_witness : String.length (tap_name_of 5%N) = 15%nat.
Proof. apply tap_name_fits. Defined.
