(* ===== verification/Concurrency.v ===== *)
(** The server under concurrent requests.  The gRPC handlers and the shutdown
    handler run as tasks that interleave at their await points and share the
    registry and the address allocator behind locks.  A configuration is the
    shared memory and the tasks in progress; a step starts a request or runs one
    segment (see [Service]) of one task.  Between two segments anything may
    happen to the outside world, so each segment runs in an arbitrary one.

    tonic drops the future of a handler whose client has cancelled the call or gone
    away, at whatever await it is suspended in: nothing of the handler runs after
    that, and what its segment had not yet done to the shared memory is not done.
    No segment awaits anything after it has changed the registry or the allocator,
    so a dropped request is one that stops between two segments.

    The ids that [Uuid::new_v4] returns are assumed never to repeat: a
    configuration keeps the ids drawn so far. *)

From S2P Require Import Prelude RustStr Addr World Json SimWorld IpAllocator Lifecycle FcConfig.
From S2P Require Import VmManager Network Events Registry AgentClient Grpc Service.
From Stdlib Require Import ZArith Lia Ascii String.
From stdpp Require Import base gmap strings list.

Open Scope Z_scope.

(** A request in progress: the segment it will run next.  [Cancelled ip] is no request
    any more: it records the address that a dropped [create_vm] or [delete_vm] had in
    its hands. *)
Inductive task : Type :=
| CreateTap (c : Creating)
| CreateStart (c : Creating)
| CreateWait (c : Creating) (mgr : VmManager)
| CreateRegister (c : Creating) (mgr : VmManager)
| DeleteCleanup (start : Z) (vm_id : Uuid) (entry : VmEntry)
| ShutdownLoop (todo : list list_info)
| ShutdownCleanup (i : list_info) (entry : VmEntry) (todo : list list_info)
| Cancelled (ip : IpAddr).

(** The address, the id in creation, and the VMs still to clean up, of a task. *)
Definition task_ips (t : task) : list IpAddr :=
  match t with
  | CreateTap c | CreateStart c | CreateWait c _ | CreateRegister c _ => [cr_ip c]
  | DeleteCleanup _ _ e | ShutdownCleanup _ e _ => [ip_address e]
  | ShutdownLoop _ => []
  | Cancelled ip => [ip]
  end.

(** The tasks that serve a client's call; the shutdown handler serves none. *)
Definition serves_call (t : task) : bool :=
  match t with
  | CreateTap _ | CreateStart _ | CreateWait _ _ | CreateRegister _ _ | DeleteCleanup _ _ _ => true
  | ShutdownLoop _ | ShutdownCleanup _ _ _ | Cancelled _ => false
  end.

Record conf : Type := mkConf {
  server : Server;
  tasks : list task;
  issued : gset Uuid;
}.

Section steps.
Context {W : Type} `{FirecrackerApi W} `{FileSystem W} `{Processes W} `{Clock W} `{Timestamps W} `{Iptables W}
  `{Netlink W} `{TunDevice W} `{AgentTransport W} `{UuidGen W} `{UuidText} `{SerdeJson} `{HttpText} `{HashOrder}.
Context (cfg : ServerConfig).

(** The next segment of a task, and the task it leaves. *)
Definition task_step (t : task) : ST (Server * W) (list task) :=
  match t with
  | CreateTap c => st_map (fun r => match r with Ok _ => [CreateStart c] | Err _ => [] end) (create_vm_tap cfg c)
  | CreateStart c => st_map (fun r => match r with Ok mgr => [CreateWait c mgr] | Err _ => [] end) (create_vm_start cfg c)
  | CreateWait c mgr =>
      st_map (fun o => match o with Done _ => [CreateRegister c mgr] | NoFuel => [CreateWait c mgr] | Panic => [] end)
        (create_vm_wait c)
  | CreateRegister c mgr => st_map (fun _ => []) (create_vm_register c mgr)
  | DeleteCleanup start vm_id entry => st_map (fun _ => []) (delete_vm_cleanup cfg start vm_id entry)
  | ShutdownLoop [] => ret []
  | ShutdownLoop (i :: todo) =>
      st_map (fun r => match r with Ok e => [ShutdownCleanup i e todo] | Err _ => [ShutdownLoop todo] end)
        (shutdown_remove (info_id i))
  | ShutdownCleanup i entry todo => st_map (fun _ => [ShutdownLoop todo]) (shutdown_cleanup cfg i entry)
  | Cancelled ip => ret [Cancelled ip]
  end.

(** A call arrives and runs its first segment, or a task runs its next one. *)
Inductive run_step : conf -> conf -> Prop :=
| step_create k req (w w' : W) c s' :
    create_vm_allocate req (server k, w) = (Ok c, (s', w')) -> cr_vm_id c ∉ issued k ->
    run_step k (mkConf s' (CreateTap c :: tasks k) ({[cr_vm_id c]} ∪ issued k))
| step_create_refused k req (w w' : W) st s' :
    create_vm_allocate req (server k, w) = (Err st, (s', w')) -> run_step k (mkConf s' (tasks k) (issued k))
| step_delete k vm_id start (w w' : W) entry s' :
    delete_vm_remove vm_id (server k, w) = (Ok entry, (s', w')) ->
    run_step k (mkConf s' (DeleteCleanup start vm_id entry :: tasks k) (issued k))
| step_delete_refused k vm_id (w w' : W) st s' :
    delete_vm_remove vm_id (server k, w) = (Err st, (s', w')) -> run_step k (mkConf s' (tasks k) (issued k))
| step_exec k req (w w' : W) r s' :
    exec_vm req (server k, w) = (r, (s', w')) -> run_step k (mkConf s' (tasks k) (issued k))
| step_list k (w w' : W) r s' :
    list_v_ms (server k, w) = (r, (s', w')) -> run_step k (mkConf s' (tasks k) (issued k))
| step_shutdown k :
    run_step k (mkConf (server k) (ShutdownLoop (vm_list (vm_registry (server k))) :: tasks k) (issued k))
| step_task k t rest ts (w w' : W) s' :
    tasks k ≡ₚ t :: rest -> task_step t (server k, w) = (ts, (s', w')) ->
    run_step k (mkConf s' (ts ++ rest) (issued k)).

(** A call that serves a client is dropped: at an await of its task, or while it waits
    for the lock of its first segment, when all it has done is to record its start. *)
Inductive cancel_step : conf -> conf -> Prop :=
| cancel_task k t rest :
    tasks k ≡ₚ t :: rest -> serves_call t = true ->
    cancel_step k (mkConf (server k) (map Cancelled (task_ips t) ++ rest) (issued k))
| cancel_started k event_type vm_id data (w w' : W) s' :
    event_type ∈ ["vm.create.started"; "vm.delete.started"]%string ->
    vm_event event_type (uuid_string vm_id) data (server k, w) = (tt, (s', w')) ->
    cancel_step k (mkConf s' (tasks k) (issued k)).

Inductive step (k k' : conf) : Prop :=
| step_run : run_step k k' -> step k k'
| step_cancel : cancel_step k k' -> step k k'.

(** A server that has just started. *)
Definition initial (k : conf) : Prop :=
  vm_registry (server k) = ∅ /\ ip_allocator (server k) = IpAllocator.new /\ tasks k = [] /\ issued k = ∅.

Definition reachable (k : conf) : Prop := exists k0, initial k0 /\ rtc step k0 k.

(** Reached without a client having given up a call. *)
Definition undisturbed (k : conf) : Prop := exists k0, initial k0 /\ rtc run_step k0 k.

End steps.

(** * The invariant *)

Definition task_creating (t : task) : list Uuid :=
  match t with
  | CreateTap c | CreateStart c | CreateWait c _ | CreateRegister c _ => [cr_vm_id c]
  | _ => []
  end.

Definition task_todo (t : task) : list list_info :=
  match t with
  | ShutdownLoop todo | ShutdownCleanup _ _ todo => todo
  | _ => []
  end.

(** A task that cleans up at shutdown releases the address its VM has. *)
Definition task_ok (t : task) : Prop :=
  match t with
  | ShutdownCleanup i e _ => ip_address e = info_ip i
  | _ => True
  end.

Definition reg_ips (reg : VmRegistry) : list IpAddr := map (fun kv => ip_address kv.2) (map_to_list reg).

(** The addresses of the requests in progress, and those of the dropped ones. *)
Definition in_progress (ts : list task) : list IpAddr :=
  ts ≫= (fun t => match t with Cancelled _ => [] | _ => task_ips t end).
Definition abandoned (ts : list task) : list IpAddr :=
  ts ≫= (fun t => match t with Cancelled ip => [ip] | _ => [] end).

(** Everyone who has an address: the registered VMs and the tasks. *)
Definition owners (reg : VmRegistry) (ts : list task) : list IpAddr := reg_ips reg ++ (ts ≫= task_ips).

Lemma task_ips_split ts : ts ≫= task_ips ≡ₚ in_progress ts ++ abandoned ts.
Proof.
  induction ts as [|t ts IH]; [done|]. unfold in_progress, abandoned in *. csimpl. rewrite IH.
  destruct t; simpl; solve [done | by rewrite Permutation_middle].
Qed.

Lemma owners_split reg ts : owners reg ts ≡ₚ reg_ips reg ++ in_progress ts ++ abandoned ts.
Proof. unfold owners. by rewrite task_ips_split. Qed.

Record inv (M : VmRegistry * IpAllocator) (ts : list task) (iss : gset Uuid) : Prop := mkInv {
  inv_wf : wf M.2;
  inv_held : forall x, held M.2 x <-> x ∈ owners M.1 ts;
  inv_nodup : NoDup (owners M.1 ts);
  inv_issued : forall id, is_Some (M.1 !! id) -> id ∈ iss;
  inv_creating : NoDup (ts ≫= task_creating) /\
    forall id, id ∈ (ts ≫= task_creating) -> id ∈ iss /\ M.1 !! id = None;
  inv_todo : forall i, i ∈ (ts ≫= task_todo) -> info_id i ∈ iss /\ (info_id i ∉ (ts ≫= task_creating)) /\
    forall e, M.1 !! info_id i = Some e -> ip_address e = info_ip i;
  inv_tasks : Forall task_ok ts;
}.

Lemma bind_perm {A B} (f : A -> list B) l l' : l ≡ₚ l' -> l ≫= f ≡ₚ l' ≫= f.
Proof. intros Hp. by rewrite Hp. Qed.

(** The order of the tasks does not matter. *)
Lemma inv_perm M ts ts' iss : ts ≡ₚ ts' -> inv M ts iss -> inv M ts' iss.
Proof.
  intros Hp [Hwf Hh Hn Hi [Hc1 Hc2] Ht Hk].
  assert (Hi' := bind_perm task_ips _ _ Hp). assert (Hc' := bind_perm task_creating _ _ Hp).
  assert (Ht' := bind_perm task_todo _ _ Hp).
  split; try done.
  - intros x. rewrite Hh. unfold owners. by rewrite Hi'.
  - unfold owners in *. by rewrite <- Hi'.
  - split; [by rewrite <- Hc'|]. intros id Hid. apply Hc2. by rewrite Hc'.
  - intros i Hin. rewrite <- Ht' in Hin. rewrite <- Hc'. by apply Ht.
  - by rewrite <- Hp.
Qed.

Lemma reg_ips_elem reg x : x ∈ reg_ips reg <-> exists id e, reg !! id = Some e /\ ip_address e = x.
Proof.
  unfold reg_ips. rewrite list_elem_of_fmap. split.
  - intros ([id e] & -> & Hin). apply elem_of_map_to_list in Hin. by eauto.
  - intros (id & e & Hr & <-). exists (id, e). split; [done|]. by apply elem_of_map_to_list.
Qed.

Lemma reg_ips_insert reg id e : reg !! id = None -> reg_ips (<[id := e]> reg) ≡ₚ ip_address e :: reg_ips reg.
Proof. intros Hn. unfold reg_ips. by rewrite map_to_list_insert. Qed.

Lemma reg_ips_delete reg id e : reg !! id = Some e -> reg_ips reg ≡ₚ ip_address e :: reg_ips (delete id reg).
Proof. intros Hs. unfold reg_ips. by rewrite <- (map_to_list_delete reg id e Hs). Qed.

(** Distinct owners have distinct addresses; in particular distinct VMs do. *)
Lemma nodup_distinct reg : NoDup (reg_ips reg) -> distinct_ips reg.
Proof.
  intros Hn i j a b Ha Hb Hab. destruct (decide (i = j)) as [|Hne]; [done|]. exfalso.
  rewrite (reg_ips_delete reg i a Ha) in Hn. apply NoDup_cons in Hn as [Hni _]. apply Hni.
  apply reg_ips_elem. exists j, b. by rewrite lookup_delete_ne.
Qed.

(** ** The abstract system *)

Section abstract.
Context `{UuidText} `{HashOrder}.

(** A manager that [start] handed to a creation in progress. *)
Definition started_for (c : Creating) (mgr : VmManager) : Prop :=
  state mgr = Running /\ firecracker_process mgr <> None /\ socket_path mgr = socket_path_of (cr_vm_id c) /\
  vcpus_of (cr_req c) <> 0 /\ 128 <= memory_of (cr_req c).

(** Waiting for the agent ends, or goes on. *)
Inductive waited (c : Creating) (mgr : VmManager) : list task -> Prop :=
| waited_done : waited c mgr [CreateRegister c mgr]
| waited_more : waited c mgr [CreateWait c mgr].

(** The effect of one segment of a task on the registry and the allocator, and the
    tasks it leaves. *)
Inductive effect : VmRegistry * IpAllocator -> task -> list task -> VmRegistry * IpAllocator -> Prop :=
| ef_tap M c : effect M (CreateTap c) [CreateStart c] M
| ef_tap_failed reg al c : effect (reg, al) (CreateTap c) [] (reg, (release (cr_ip c) al).2)
| ef_start M c mgr : started_for c mgr -> effect M (CreateStart c) [CreateWait c mgr] M
| ef_start_failed reg al c : effect (reg, al) (CreateStart c) [] (reg, (release (cr_ip c) al).2)
| ef_wait M c mgr ts : waited c mgr ts -> effect M (CreateWait c mgr) ts M
| ef_register reg al c mgr created :
    reg !! cr_vm_id c = None -> effect (reg, al) (CreateRegister c mgr) [] (<[cr_vm_id c := entry_of c mgr created]> reg, al)
| ef_register_refused M c mgr : M.1 !! cr_vm_id c <> None -> effect M (CreateRegister c mgr) [] M
| ef_cleanup reg al start id e : effect (reg, al) (DeleteCleanup start id e) [] (reg, (release (ip_address e) al).2)
| ef_shutdown_done M : effect M (ShutdownLoop []) [] M
| ef_shutdown_remove reg al i todo e :
    reg !! info_id i = Some e -> effect (reg, al) (ShutdownLoop (i :: todo)) [ShutdownCleanup i e todo] (delete (info_id i) reg, al)
| ef_shutdown_gone M i todo : M.1 !! info_id i = None -> effect M (ShutdownLoop (i :: todo)) [ShutdownLoop todo] M
| ef_shutdown_cleanup reg al i e todo :
    effect (reg, al) (ShutdownCleanup i e todo) [ShutdownLoop todo] (reg, (release (info_ip i) al).2)
| ef_cancelled M ip : effect M (Cancelled ip) [Cancelled ip] M.

Inductive mem_step : VmRegistry * IpAllocator -> list task -> gset Uuid ->
    VmRegistry * IpAllocator -> list task -> gset Uuid -> Prop :=
| ms_allocate reg al ip al' c ts iss :
    allocate al = (Ok ip, al') -> cr_ip c = ip -> cr_vm_id c ∉ iss ->
    mem_step (reg, al) ts iss (reg, al') (CreateTap c :: ts) ({[cr_vm_id c]} ∪ iss)
| ms_refused reg al e al' ts iss : allocate al = (Err e, al') -> mem_step (reg, al) ts iss (reg, al') ts iss
| ms_remove reg al id start e ts iss :
    reg !! id = Some e -> mem_step (reg, al) ts iss (delete id reg, al) (DeleteCleanup start id e :: ts) iss
| ms_keep M ts iss : mem_step M ts iss M ts iss
| ms_shutdown M ts iss : mem_step M ts iss M (ShutdownLoop (vm_list M.1) :: ts) iss
| ms_task M t rest ts ts' M' iss : ts ≡ₚ t :: rest -> effect M t ts' M' -> mem_step M ts iss M' (ts' ++ rest) iss
| ms_cancel M t rest ts iss :
    ts ≡ₚ t :: rest -> serves_call t = true -> mem_step M ts iss M (map Cancelled (task_ips t) ++ rest) iss.

End abstract.

(** ** Preservation *)

(** A new address for a new task. *)
Lemma inv_allocate reg al ip al' c ts iss :
  inv (reg, al) ts iss -> allocate al = (Ok ip, al') -> cr_ip c = ip -> cr_vm_id c ∉ iss ->
  inv (reg, al') (CreateTap c :: ts) ({[cr_vm_id c]} ∪ iss).
Proof.
  intros [Hwf Hh Hn Hi [Hc1 Hc2] Ht Hk] Ha <- Hnew. simpl in *.
  destruct (allocate_held al _ _ Hwf Ha) as (Hp & Hnh & Hh'). pose proof (wf_allocate al Hwf) as Hwf'.
  rewrite Ha in Hwf'. split; simpl; try done.
  - intros x. rewrite Hh', Hh. unfold owners. simpl. rewrite !elem_of_app, elem_of_cons. clear. tauto.
  - unfold owners in *. simpl. rewrite <- Permutation_middle. apply NoDup_cons. split; [|done]. by rewrite <- Hh.
  - intros id Hid. apply elem_of_union_r. by apply Hi.
  - split.
    + apply NoDup_cons. split; [|done]. intros Hin. by destruct (Hc2 _ Hin).
    + intros id Hid. apply elem_of_cons in Hid as [-> |Hid].
      * split; [by apply elem_of_union_l, elem_of_singleton|].
        destruct (reg !! cr_vm_id c) eqn:E; [|done]. destruct Hnew. apply Hi. by rewrite E.
      * destruct (Hc2 id Hid). split; [by apply elem_of_union_r|done].
  - intros i Hin. destruct (Ht i Hin) as (H1 & H2 & H3). split; [by apply elem_of_union_r|]. split; [|done].
    apply not_elem_of_cons. split; [|done]. intros Heq. by rewrite Heq in H1.
  - by constructor.
Qed.

(** A task becomes others that own the same address. *)
Lemma inv_swap M t ts' ts iss :
  inv M (t :: ts) iss -> ts' ≫= task_ips = task_ips t -> ts' ≫= task_creating = task_creating t ->
  (forall i, i ∈ (ts' ≫= task_todo) -> i ∈ task_todo t) -> Forall task_ok ts' -> inv M (ts' ++ ts) iss.
Proof.
  intros [Hwf Hh Hn Hi [Hc1 Hc2] Ht Hk] Hips Hcr Htd Hok. simpl in *. unfold owners in *. simpl in *.
  split; rewrite ?bind_app, ?Hips, ?Hcr; try done.
  - unfold owners. by rewrite bind_app, Hips.
  - unfold owners. by rewrite bind_app, Hips.
  - intros i Hin. rewrite ?bind_app in Hin. apply Ht. apply elem_of_app.
    apply elem_of_app in Hin as [Hin|Hin]; [left; by apply Htd|by right].
  - apply Forall_app. split; [done|]. by inversion Hk.
Qed.

(** A request is dropped: its address stays with nobody else. *)
Lemma inv_cancel M t ts iss : inv M (t :: ts) iss -> serves_call t = true -> inv M (map Cancelled (task_ips t) ++ ts) iss.
Proof.
  intros [Hwf Hh Hn Hi [Hc1 Hc2] Ht Hk] Hcall. unfold owners in *. csimpl in *.
  assert (Hips : map Cancelled (task_ips t) ≫= task_ips = task_ips t) by by destruct t.
  assert (Hcr : map Cancelled (task_ips t) ≫= task_creating = []) by by destruct t.
  assert (Htd : map Cancelled (task_ips t) ≫= task_todo = []) by by destruct t.
  apply NoDup_app in Hc1 as (_ & _ & Hc1).
  split; unfold owners; rewrite ?bind_app, ?Hips, ?Hcr, ?Htd; try done.
  - split; [done|]. intros id Hid. apply Hc2, elem_of_app. by right.
  - intros i Hin. destruct (Ht i) as (H1 & H2 & H3); [apply elem_of_app; by right|].
    split; [done|]. split; [|done]. rewrite elem_of_app in H2. tauto.
  - apply Forall_app. split; [by destruct t; repeat constructor|]. by inversion Hk.
Qed.

(** A task gives its address back and ends, or goes on without one. *)
Lemma inv_release reg al t ip ts' ts iss :
  inv (reg, al) (t :: ts) iss -> task_ips t = [ip] -> ts' ≫= task_ips = [] -> ts' ≫= task_creating = [] ->
  (forall i, i ∈ (ts' ≫= task_todo) -> i ∈ task_todo t) -> Forall task_ok ts' ->
  inv (reg, (release ip al).2) (ts' ++ ts) iss.
Proof.
  intros [Hwf Hh Hn Hi [Hc1 Hc2] Ht Hk] Hip Hips Hcr Htd Hok. simpl in *. unfold owners in *. simpl in *.
  rewrite Hip in *. simpl in *. rewrite <- Permutation_middle in Hn. apply NoDup_cons in Hn as [Hni Hn].
  apply NoDup_app in Hc1 as (_ & _ & Hc1).
  split; simpl; unfold owners; rewrite ?bind_app, ?Hips, ?Hcr; try done.
  - by apply wf_release.
  - intros x. rewrite release_any_held by done. rewrite Hh. simpl. rewrite !elem_of_app, elem_of_cons. rewrite elem_of_app in Hni.
    clear -Hni. split; [tauto|]. intros Hx. split; [tauto|]. intros ->. tauto.
  - split; [done|]. intros id Hid. apply Hc2, elem_of_app. by right.
  - intros i Hin. rewrite ?bind_app in Hin. destruct (Ht i) as (H1 & H2 & H3).
    { apply elem_of_app. apply elem_of_app in Hin as [Hin|Hin]; [left; by apply Htd|by right]. }
    split; [done|]. split; [|done]. rewrite elem_of_app in H2. tauto.
  - apply Forall_app. split; [done|]. by inversion Hk.
Qed.

(** The VM of a task is registered. *)
Lemma inv_register reg al c mgr e ts iss :
  inv (reg, al) (CreateRegister c mgr :: ts) iss -> ip_address e = cr_ip c ->
  inv (<[cr_vm_id c := e]> reg, al) ts iss.
Proof.
  intros [Hwf Hh Hn Hi [Hc1 Hc2] Ht Hk] He. simpl in *. unfold owners in *. simpl in *.
  destruct (Hc2 (cr_vm_id c)) as [Hiss Hnone]; [apply list_elem_of_here|]. apply NoDup_cons in Hc1 as [Hc1 Hc3].
  assert (Hp : reg_ips (<[cr_vm_id c := e]> reg) ++ (ts ≫= task_ips) ≡ₚ reg_ips reg ++ cr_ip c :: (ts ≫= task_ips)).
  { rewrite reg_ips_insert, He by done. by rewrite <- Permutation_middle. }
  split; simpl; unfold owners; try done.
  - intros x. rewrite Hh. by rewrite Hp.
  - by rewrite Hp.
  - intros id. rewrite lookup_insert_is_Some. intros [<-|[_ Hs]]; [done|by apply Hi].
  - split; [done|]. intros id Hid. destruct (Hc2 id) as [H1 H2]; [by apply list_elem_of_further|]. split; [done|].
    rewrite lookup_insert_ne; [done|]. intros <-. done.
  - intros i Hin. destruct (Ht i Hin) as (H1 & [H2 H2']%not_elem_of_cons & H3). split; [done|]. split; [done|].
    intros e'. rewrite lookup_insert_ne by congruence. apply H3.
  - by inversion Hk.
Qed.

(** A VM leaves the registry for a task that will release its address. *)
Lemma inv_remove reg al id e t ts0 ts iss :
  inv (reg, al) (ts0 ++ ts) iss -> reg !! id = Some e -> ts0 ≫= task_ips = [] -> ts0 ≫= task_creating = [] ->
  task_ips t = [ip_address e] -> task_creating t = [] ->
  (forall i, i ∈ task_todo t -> i ∈ (ts0 ≫= task_todo)) -> task_ok t ->
  inv (delete id reg, al) (t :: ts) iss.
Proof.
  intros [Hwf Hh Hn Hi [Hc1 Hc2] Ht Hk] He Hip0 Hcr0 Hip Hcr Htd Hok. simpl in *. unfold owners in *.
  assert (Ei : (ts0 ++ ts) ≫= task_ips = ts ≫= task_ips) by by rewrite bind_app, Hip0.
  assert (Ec : (ts0 ++ ts) ≫= task_creating = ts ≫= task_creating) by by rewrite bind_app, Hcr0.
  rewrite Ei in Hh, Hn. rewrite Ec in Hc1, Hc2, Ht.
  assert (Hp : reg_ips reg ++ (ts ≫= task_ips) ≡ₚ reg_ips (delete id reg) ++ ip_address e :: (ts ≫= task_ips)).
  { rewrite (reg_ips_delete reg id e) by done. by rewrite <- Permutation_middle. }
  split; simpl; unfold owners; simpl; rewrite ?Hip, ?Hcr; try done.
  - intros x. rewrite Hh. by rewrite Hp.
  - by rewrite <- Hp.
  - intros j Hj. apply Hi. rewrite lookup_delete_is_Some in Hj. by destruct Hj.
  - split; [done|]. intros j Hj. destruct (Hc2 j Hj) as [H1 H2]. split; [done|].
    apply lookup_delete_None. by right.
  - intros i Hin. destruct (Ht i) as (H1 & H2 & H3).
    { rewrite bind_app. apply elem_of_app. apply elem_of_app in Hin as [Hin|Hin]; [left; by apply Htd|by right]. }
    split; [done|]. split; [done|]. intros e' He'. apply lookup_delete_Some in He' as [_ He']. by apply H3.
  - constructor; [done|]. by apply Forall_app in Hk as [_ ?].
Qed.

Section preservation.
Context {W : Type} `{FirecrackerApi W} `{FileSystem W} `{Processes W} `{Clock W} `{Timestamps W} `{Iptables W}
  `{Netlink W} `{TunDevice W} `{AgentTransport W} `{UuidGen W} `{UuidText} `{SerdeJson} `{HttpText} `{HashOrder}.
Context (cfg : ServerConfig).

(** The post-condition of a segment, on one run. *)
Lemma seg_run {A} M (m : ST (Server * W) A) Q s w a s' w' :
  seg M m Q -> (vm_registry s, ip_allocator s) = M -> m (s, w) = (a, (s', w')) ->
  Q a (vm_registry s', ip_allocator s').
Proof. intros Hm HM Hr. specialize (Hm (s, w) HM). by rewrite Hr in Hm. Qed.

(** The configuration's memory satisfies the invariant. *)
Definition good (s : Server) (ts : list task) (iss : gset Uuid) : Prop :=
  inv (vm_registry s, ip_allocator s) ts iss.

Lemma shutdown_remove_seg id M :
  seg (W := W) M (shutdown_remove id) (fun r M' => M' = (delete id M.1, M.2) /\ r = ok_or (M.1 !! id) (not_found id)).
Proof.
  unfold shutdown_remove. apply seg_keep; [apply keeps_server_log|intros _].
  intros [s w] <-. by unfold on_registry.
Qed.

Lemma shutdown_cleanup_seg i entry M :
  seg (W := W) M (shutdown_cleanup cfg i entry) (fun _ M' => M' = (M.1, (release (info_ip i) M.2).2)).
Proof.
  destruct i as [[[[[id ip] tap] v] m] t]. unfold shutdown_cleanup, info_ip. simpl.
  do 2 (apply seg_keep; [auto with rs|intros ?]). apply seg_alloc.
  apply seg_keep; [apply keeps_server_log|intros _]. apply seg_keep; [auto with rs|intros _]. by apply seg_ret.
Qed.

Lemma exec_seg req M : seg (W := W) M (exec_vm req) (fun _ M' => M' = M).
Proof.
  unfold exec_vm. apply seg_keep; [auto with rs|intros start].
  destruct (uuid_parse_str (ex_vm_id req)) as [vm_id|e]; [|by apply seg_ret].
  do 3 (unfold bind_awaited at 1; apply seg_keep; [auto with rs|intros [[?|?]|]; [|by apply seg_ret..]]).
  apply seg_keep; [auto with rs|intros now]. apply seg_keep; [auto with rs|intros _]. by apply seg_ret.
Qed.

Lemma st_map_inv {S A B} (f : A -> B) (m : ST S A) s b s' :
  st_map f m s = (b, s') -> exists a, m s = (a, s') /\ b = f a.
Proof. unfold st_map, bind, ret. destruct (m s) as [a s1]. intros [= <- <-]. by eauto. Qed.

(** ** What a step does to the shared memory *)

(** Whatever the world answers, a segment of a task has one of these effects on the
    registry and the allocator, and leaves one of these tasks. *)
Lemma task_step_effect t ts s (w w' : W) s' :
  task_step cfg t (s, w) = (ts, (s', w')) -> effect (vm_registry s, ip_allocator s) t ts (vm_registry s', ip_allocator s').
Proof.
  intros Hst. set (M := (vm_registry s, ip_allocator s)).
  destruct t as [c|c|c mgr|c mgr|start vm_id e|[|i todo]|i e todo|ip]; simpl in Hst.
  - apply st_map_inv in Hst as (r & Hr & ->). pose proof (seg_run M _ _ _ _ _ _ _ (tap_seg cfg c M) eq_refl Hr) as HQ.
    destruct r; [|destruct HQ as [HQ _]]; rewrite HQ; constructor.
  - apply st_map_inv in Hst as (r & Hr & ->). pose proof (seg_run M _ _ _ _ _ _ _ (start_seg cfg c M) eq_refl Hr) as HQ.
    destruct r; destruct HQ as [HQ HQ']; rewrite HQ; by constructor.
  - apply st_map_inv in Hst as (r & Hr & ->). destruct (seg_run M _ _ _ _ _ _ _ (wait_seg c M) eq_refl Hr) as [HQ Hp].
    rewrite HQ. destruct r; [|done|]; apply ef_wait; constructor.
  - apply st_map_inv in Hst as (r & Hr & ->). pose proof (seg_run M _ _ _ _ _ _ _ (register_seg c mgr M) eq_refl Hr) as HQ.
    destruct r; simpl in HQ; [destruct HQ as (Hn & _ & created & HQ)|destruct HQ as (HQ & Hdup & _)]; rewrite HQ; by constructor.
  - apply st_map_inv in Hst as (r & Hr & ->).
    destruct (seg_run M _ _ _ _ _ _ _ (delete_cleanup_seg cfg start vm_id e M) eq_refl Hr) as [_ HQ]. rewrite HQ. constructor.
  - injection Hst as <- <- _. constructor.
  - apply st_map_inv in Hst as (r & Hr & ->).
    destruct (seg_run M _ _ _ _ _ _ _ (shutdown_remove_seg (info_id i) M) eq_refl Hr) as [HQ ->]. rewrite HQ.
    destruct (M.1 !! info_id i) as [e|] eqn:E; simpl; [by constructor|]. rewrite delete_id by done. by constructor.
  - apply st_map_inv in Hst as (r & Hr & ->).
    pose proof (seg_run M _ _ _ _ _ _ _ (shutdown_cleanup_seg i e M) eq_refl Hr) as HQ. simpl in HQ. rewrite HQ. constructor.
  - injection Hst as <- <- _. constructor.
Qed.

(** The server refines this abstract system. *)
Lemma run_step_mem k k' : run_step (W := W) cfg k k' ->
  mem_step (vm_registry (server k), ip_allocator (server k)) (tasks k) (issued k)
           (vm_registry (server k'), ip_allocator (server k')) (tasks k') (issued k').
Proof.
  destruct 1 as [k req w w' c s' Hr Hnew|k req w w' st s' Hr|k vm_id start w w' e s' Hr|k vm_id w w' st s' Hr
                |k req w w' r s' Hr|k w w' r s' Hr|k|k t rest ts w w' s' Hp Hr]; simpl;
    set (M := (vm_registry (server k), ip_allocator (server k))).
  - destruct (seg_run M _ _ _ _ _ _ _ (allocate_seg req M) eq_refl Hr) as (HQ & Ha & _). rewrite HQ.
    destruct (allocate M.2) as [r al] eqn:Ea. simpl in *. subst r. by eapply ms_allocate.
  - destruct (seg_run M _ _ _ _ _ _ _ (allocate_seg req M) eq_refl Hr) as (HQ & Ha & _). rewrite HQ.
    destruct (allocate M.2) as [[ip|e] al] eqn:Ea; [done|]. by eapply ms_refused.
  - destruct (seg_run M _ _ _ _ _ _ _ (delete_remove_seg vm_id M) eq_refl Hr) as [HQ He]. rewrite HQ. by constructor.
  - destruct (seg_run M _ _ _ _ _ _ _ (delete_remove_seg vm_id M) eq_refl Hr) as [HQ [He _]]. rewrite HQ.
    rewrite delete_id by done. constructor.
  - pose proof (seg_run M _ _ _ _ _ _ _ (exec_seg req M) eq_refl Hr) as HQ. rewrite HQ. constructor.
  - unfold list_v_ms, bind, read_registry, ret in Hr. injection Hr as _ <- _. constructor.
  - apply (ms_shutdown M).
  - eapply ms_task; [exact Hp|]. by eapply task_step_effect.
Qed.

Lemma step_mem k k' : step (W := W) cfg k k' ->
  mem_step (vm_registry (server k), ip_allocator (server k)) (tasks k) (issued k)
           (vm_registry (server k'), ip_allocator (server k')) (tasks k') (issued k').
Proof.
  intros [Hrun|Hc]; [by apply run_step_mem|].
  destruct Hc as [k t rest Hp Hcall|k ty vm_id data w w' s' _ Hr]; [by apply ms_cancel|].
  pose proof (keeps_vm_event ty (uuid_string vm_id) data (server k, w)) as Hm. rewrite Hr in Hm. injection Hm as Hreg Hal.
  simpl in *. rewrite Hreg, Hal. constructor.
Qed.

(** ** Addresses *)

(** One segment of a task keeps the invariant. *)
Lemma effect_inv M t ts M' rest iss : effect M t ts M' -> inv M (t :: rest) iss -> inv M' (ts ++ rest) iss.
Proof.
  intros Heff Hinv. destruct Heff as [M c|reg al c|M c mgr Hs|reg al c|M c mgr ts Hts|reg al c mgr created Hn|M c mgr Hdup
                                     |reg al start id e|M|reg al i todo e He|M i todo Hn|reg al i e todo|M ip].
  - by eapply (inv_swap M _ [_]); [exact Hinv|..|constructor].
  - by eapply (inv_release _ _ _ _ []); [exact Hinv|..|constructor].
  - by eapply (inv_swap M _ [_]); [exact Hinv|..|constructor].
  - by eapply (inv_release _ _ _ _ []); [exact Hinv|..|constructor].
  - destruct Hts; by eapply (inv_swap M _ [_]); [exact Hinv|..|constructor].
  - by eapply inv_register.
  - exfalso. apply Hdup. destruct Hinv as [_ _ _ _ [_ Hc] _ _]. apply Hc. apply list_elem_of_here.
  - by eapply (inv_release _ _ _ _ []); [exact Hinv|..|constructor].
  - by eapply (inv_swap M _ []); [exact Hinv|..|constructor].
  - assert (ip_address e = info_ip i) as Hip.
    { destruct Hinv as [_ _ _ _ _ Ht _]. apply (Ht i); [apply list_elem_of_here|done]. }
    eapply (inv_remove _ _ _ e _ [ShutdownLoop (i :: todo)]); [exact Hinv|done..| |done].
    intros j Hj. simpl. rewrite app_nil_r. by apply list_elem_of_further.
  - eapply (inv_swap M _ [_]); [exact Hinv|done|done| |by constructor].
    intros j Hj. simpl in *. rewrite app_nil_r in Hj. by apply list_elem_of_further.
  - assert (ip_address e = info_ip i) as Hip by by destruct Hinv as [_ _ _ _ _ _ Hk]; inversion Hk.
    eapply (inv_release _ _ _ _ [_]); [exact Hinv|simpl; by rewrite Hip|done|done| |by constructor].
    intros j Hj. simpl in *. by rewrite app_nil_r in Hj.
  - done.
Qed.

Lemma inv_shutdown M ts iss : inv M ts iss -> inv M (ShutdownLoop (vm_list M.1) :: ts) iss.
Proof.
  intros [Hwf Hh Hn Hi [Hc1 Hc2] Ht Hk]. split; try done; [|by constructor].
  intros i Hin. simpl in Hin. apply elem_of_app in Hin as [Hin|Hin]; [|by apply Ht].
  apply list_elem_of_fmap in Hin as ([id e] & -> & Hin). apply iter_elem in Hin. unfold info_id, info_ip. simpl.
  split; [apply Hi; by rewrite Hin|]. split; [|intros e'; congruence].
  intros Hcr. destruct (Hc2 id Hcr). congruence.
Qed.

Lemma mem_step_inv M ts iss M' ts' iss' : mem_step M ts iss M' ts' iss' -> inv M ts iss -> inv M' ts' iss'.
Proof.
  intros Hst Hinv. destruct Hst as [reg al ip al' c ts iss Ha Hip Hnew|reg al e al' ts iss Ha|reg al id start e ts iss He|M ts iss|M ts iss
                                   |M t rest ts ts' M' iss Hp Heff|M t rest ts iss Hp Hcall].
  - by eapply inv_allocate.
  - by destruct (allocate_err _ _ _ (inv_wf _ _ _ Hinv) Ha) as (_ & -> & _).
  - by eapply (inv_remove _ _ _ e _ []).
  - done.
  - by apply inv_shutdown.
  - eapply effect_inv; [exact Heff|]. by eapply inv_perm.
  - apply inv_cancel; [|done]. by eapply inv_perm.
Qed.

Lemma step_good k k' : step (W := W) cfg k k' ->
  good (server k) (tasks k) (issued k) -> good (server k') (tasks k') (issued k').
Proof. intros Hst. by apply mem_step_inv, step_mem. Qed.

Lemma initial_good k : initial k -> good (server k) (tasks k) (issued k).
Proof.
  intros (Hr & Ha & -> & ->). unfold good. rewrite Hr, Ha. split; simpl.
  - apply wf_new.
  - intros x. unfold owners, reg_ips. rewrite map_to_list_empty. simpl. rewrite <- is_held_spec.
    split; [|intros Hx; by apply not_elem_of_nil in Hx]. unfold is_held.
    rewrite existsb_exists. intros (i & Hi & Hb%bool_decide_eq_true_1). destruct Hb as [Hb _].
    apply lookup_replicate in Hb as [? _]. done.
  - unfold owners, reg_ips. rewrite map_to_list_empty. constructor.
  - intros id Hid. by rewrite lookup_empty in Hid; destruct Hid.
  - split; [constructor|]. intros id Hid. by apply not_elem_of_nil in Hid.
  - intros i Hin. by apply not_elem_of_nil in Hin.
  - constructor.
Qed.

Lemma reachable_good k : reachable (W := W) cfg k -> good (server k) (tasks k) (issued k).
Proof.
  intros (k0 & Hi & Hs). apply initial_good in Hi. induction Hs as [|k0 k1 k2 Hst _ IH]; [done|].
  apply IH. by eapply step_good.
Qed.

(** *** What is left of dropped requests *)

Lemma abandoned_app ts ts' : abandoned (ts ++ ts') = abandoned ts ++ abandoned ts'.
Proof. apply bind_app. Qed.

Lemma abandoned_perm ts ts' : ts ≡ₚ ts' -> abandoned ts ≡ₚ abandoned ts'.
Proof. apply bind_perm. Qed.

(** A segment of a task abandons nothing, and takes nothing back. *)
Lemma effect_abandoned M t ts M' : effect M t ts M' -> abandoned ts = abandoned [t].
Proof. destruct 1 as [| | | |M c mgr ts Hts| | | | | | | |]; try done. by destruct Hts. Qed.

Lemma run_step_abandoned k k' : run_step (W := W) cfg k k' -> abandoned (tasks k') ≡ₚ abandoned (tasks k).
Proof.
  destruct 1 as [| | | | | | |k t rest ts w w' s' Hp Hr]; try done. simpl. rewrite (abandoned_perm _ _ Hp), abandoned_app.
  by rewrite (effect_abandoned _ _ _ _ (task_step_effect _ _ _ _ _ _ Hr)), <- abandoned_app.
Qed.

Lemma undisturbed_abandoned k : undisturbed (W := W) cfg k -> abandoned (tasks k) = [].
Proof.
  intros (k0 & (_ & _ & Ht & _) & Hs). assert (abandoned (tasks k0) = []) as H0' by by rewrite Ht. clear Ht.
  induction Hs as [|k0 k1 k2 Hst _ IH]; [done|]. apply IH, Permutation_nil_r. by rewrite <- H0', (run_step_abandoned _ _ Hst).
Qed.

(** Nothing gives an abandoned address back. *)
Lemma step_abandoned k k' x : step (W := W) cfg k k' -> x ∈ abandoned (tasks k) -> x ∈ abandoned (tasks k').
Proof.
  intros [Hrun|Hc]; [by rewrite (run_step_abandoned _ _ Hrun)|].
  destruct Hc as [k t rest Hp Hcall|]; [|done]. simpl.
  rewrite (abandoned_perm _ _ Hp), abandoned_app. change (t :: rest) with ([t] ++ rest). rewrite abandoned_app, !elem_of_app.
  intros [Hx|Hx]; [|by right]. destruct t; try done; by apply not_elem_of_nil in Hx.
Qed.

Lemma steps_abandoned k k' x : rtc (step (W := W) cfg) k k' -> x ∈ abandoned (tasks k) -> x ∈ abandoned (tasks k').
Proof. induction 1 as [|k k1 k2 Hst _ IH]; [done|]. intros Hx. by eapply IH, step_abandoned. Qed.

Lemma reachable_steps k k' : reachable (W := W) cfg k -> rtc (step (W := W) cfg) k k' -> reachable (W := W) cfg k'.
Proof. intros (k0 & Hi & Hs) Hst. exists k0. split; [done|]. by etrans. Qed.

(** C1. Addresses under concurrency: in every state the server can reach, however
    creations, deletions, commands and the shutdown handler interleave, whichever
    calls their clients give up on the way and whatever the outside world answers,
    the addresses that are given out are exactly those of the registered VMs, of the
    requests in progress and of the creations and deletions that were dropped in
    their course; no two of these have the same address.  While no client has given
    up a call the last kind does not exist, so no address is leaked; an address that
    a dropped call had stays given out for as long as the server runs. *)
Theorem reachable_addresses_owned k :
  reachable (W := W) cfg k ->
  (forall x, held (ip_allocator (server k)) x <->
     x ∈ reg_ips (vm_registry (server k)) \/ x ∈ in_progress (tasks k) \/ x ∈ abandoned (tasks k)) /\
  NoDup (reg_ips (vm_registry (server k)) ++ in_progress (tasks k) ++ abandoned (tasks k)) /\
  (undisturbed (W := W) cfg k -> abandoned (tasks k) = []) /\
  (forall k' x, rtc (step (W := W) cfg) k k' -> x ∈ abandoned (tasks k) -> held (ip_allocator (server k')) x).
Proof.
  intros Hk. pose proof (owners_split (vm_registry (server k)) (tasks k)) as Hp.
  destruct (reachable_good k Hk) as [_ Hh Hn _ _ _ _]. simpl in *. split; [|split; [|split]].
  - intros x. by rewrite Hh, Hp, !elem_of_app.
  - by rewrite <- Hp.
  - apply undisturbed_abandoned.
  - intros k' x Hs Hx. destruct (reachable_good k') as [_ Hh' _ _ _ _ _]; [by eapply reachable_steps|].
    apply Hh'. rewrite owners_split, !elem_of_app. right. right. by eapply steps_abandoned.
Qed.

(** C2. Attribution of traffic: in every state the server can reach, the reverse
    lookup that the proxies use finds for a source address the registered VM
    that has it, and no other, in whatever order the hash map is iterated. *)
Theorem reachable_find_by_ip k ip id :
  reachable (W := W) cfg k ->
  find_by_ip ip (vm_registry (server k)) = Some id <->
  exists e, vm_registry (server k) !! id = Some e /\ ip_address e = ip.
Proof.
  intros Hk. apply find_by_ip_exact, nodup_distinct. destruct (reachable_good k Hk) as [_ _ Hn _ _ _ _].
  unfold owners in Hn. by apply NoDup_app in Hn as (Hn & _ & _).
Qed.

(** ** What an entry holds *)

(** The fields of a [VmEntry] registered under [id], at the width and in the
    range the rest of the server relies on. *)
Record entry_typed (id : Uuid) (e : VmEntry) : Prop := mkEntryTyped {
  et_id : entry_id e = id;
  et_tap : tap_name e = tap_name_of id;
  et_vsock : vsock_uds_path e = vsock_path_of id;
  et_vcpus : 1 <= vcpu_count e <= 255;
  et_mem : 128 <= mem_size_mib e;
  et_state : state (manager e) = Running;
  et_process : is_Some (firecracker_process (manager e));
  et_socket : socket_path (manager e) = socket_path_of id;
}.

Definition task_typed (t : task) : Prop :=
  match t with
  | CreateWait c mgr | CreateRegister c mgr => started_for c mgr
  | _ => True
  end.

Definition typed (reg : VmRegistry) (ts : list task) : Prop := map_Forall entry_typed reg /\ Forall task_typed ts.

Lemma entry_of_typed c mgr created : started_for c mgr -> entry_typed (cr_vm_id c) (entry_of c mgr created).
Proof.
  intros (Hs & Hp & Hk & Hv & Hm). split; simpl; try done.
  - pose proof (u8_range (to_u8 (default 1 (req_vcpu_count (cr_req c))))). unfold vcpus_of in *. lia.
  - destruct (firecracker_process mgr); [by eexists|done].
Qed.

Lemma effect_typed M t ts M' rest : effect M t ts M' -> typed M.1 (t :: rest) -> typed M'.1 (ts ++ rest).
Proof.
  intros Heff [Hreg [Ht Hrest]%Forall_cons]. split.
  - destruct Heff; try done; [|by apply map_Forall_delete]. apply map_Forall_insert_2; [by apply entry_of_typed|done].
  - apply Forall_app. split; [|done].
    destruct Heff as [| | | |M c mgr ts Hts| | | | | | | |]; try (by apply Forall_nil_2); try (by apply Forall_singleton).
    destruct Hts; by apply Forall_singleton.
Qed.

Lemma step_typed k k' : step (W := W) cfg k k' ->
  typed (vm_registry (server k)) (tasks k) -> typed (vm_registry (server k')) (tasks k').
Proof.
  intros Hst Hty. change (typed (vm_registry (server k'), ip_allocator (server k')).1 (tasks k')).
  change (typed (vm_registry (server k), ip_allocator (server k)).1 (tasks k)) in Hty. revert Hty.
  destruct (step_mem k k' Hst) as [| |reg al id start e ts iss He| | |M t rest ts ts' M' iss Hp Heff|M t rest ts iss Hp Hcall];
    simpl; try done.
  - intros [Hreg Hts]. split; [done|by constructor].
  - intros [Hreg Hts]. split; [by apply map_Forall_delete|by constructor].
  - intros [Hreg Hts]. split; [done|by constructor].
  - intros [Hreg Hts]. eapply effect_typed; [exact Heff|]. split; [done|]. by rewrite <- Hp.
  - intros [Hreg Hts]. split; [done|]. rewrite Hp in Hts. apply Forall_cons in Hts as [_ Hts].
    apply Forall_app. split; [|done]. by apply Forall_map, Forall_true.
Qed.

Lemma reachable_typed k : reachable (W := W) cfg k -> typed (vm_registry (server k)) (tasks k).
Proof.
  intros (k0 & (Hr & _ & Ht & _) & Hs).
  assert (typed (vm_registry (server k0)) (tasks k0)) as H0'.
  { rewrite Hr, Ht. split; [apply map_Forall_empty|constructor]. }
  clear Hr Ht. induction Hs as [|k0 k1 k2 Hst _ IH]; [done|]. apply IH. by eapply step_typed.
Qed.

(** C15. Entries keep their type: in every state the server can reach, a VM
    registered under an id is a running one whose Firecracker process the server
    holds and whose device, socket and vsock names are the ones derived from that
    id; it has between 1 and 255 vCPUs and at least 128 MiB, and its TAP name has
    15 characters, fewer than [IFNAMSIZ]. *)
Theorem reachable_entries_typed `{!UuidLaws} k id e :
  reachable (W := W) cfg k -> vm_registry (server k) !! id = Some e ->
  entry_typed id e /\ (String.length (tap_name e) < IFNAMSIZ)%nat.
Proof.
  intros Hk He. pose proof (reachable_typed k Hk) as [Hreg _]. specialize (Hreg id e He). split; [exact Hreg|].
  rewrite (et_tap _ _ Hreg). apply tap_name_fits.
Qed.

End preservation.

(** * A run on the example host *)

Section schedule.
Context {W : Type} `{FirecrackerApi W} `{FileSystem W} `{Processes W} `{Clock W} `{Timestamps W} `{Iptables W}
  `{Netlink W} `{TunDevice W} `{AgentTransport W} `{UuidGen W} `{UuidText} `{SerdeJson} `{HttpText} `{HashOrder}.
Context (cfg : ServerConfig).

(** Start a creation; run the next segment of the first task. *)
Definition start_create (req : CreateVmRequest) (kw : conf * W) : conf * W :=
  let '(k, w) := kw in
  match create_vm_allocate req (server k, w) with
  | (Ok c, (s', w')) => (mkConf s' (CreateTap c :: tasks k) ({[cr_vm_id c]} ∪ issued k), w')
  | (Err _, (s', w')) => (mkConf s' (tasks k) (issued k), w')
  end.

Definition run_first (kw : conf * W) : conf * W :=
  let '(k, w) := kw in
  match tasks k with
  | [] => (k, w)
  | t :: rest => let '(ts, (s', w')) := task_step cfg t (server k, w) in (mkConf s' (ts ++ rest) (issued k), w')
  end.

(** The client of the first task gives up. *)
Definition cancel_first (k : conf) : conf :=
  match tasks k with
  | [] => k
  | t :: rest => mkConf (server k) (map Cancelled (task_ips t) ++ rest) (issued k)
  end.

Lemma start_create_run req kw : issued kw.1 = ∅ -> run_step (W := W) cfg kw.1 (start_create req kw).1.
Proof.
  destruct kw as [k w]. simpl. intros Hiss. destruct (create_vm_allocate req (server k, w)) as [[c|st] [s' w']] eqn:E.
  - eapply step_create; [exact E|]. rewrite Hiss. set_solver.
  - by eapply step_create_refused.
Qed.

Lemma start_create_step req kw : issued kw.1 = ∅ -> step (W := W) cfg kw.1 (start_create req kw).1.
Proof. intros Hiss. by apply step_run, start_create_run. Qed.

Lemma run_first_run kw : tasks kw.1 <> [] -> run_step (W := W) cfg kw.1 (run_first kw).1.
Proof.
  destruct kw as [k w]. simpl. destruct (tasks k) as [|t rest] eqn:E; [done|]. intros _.
  destruct (task_step cfg t (server k, w)) as [ts [s' w']] eqn:Et. eapply step_task; [by rewrite E|exact Et].
Qed.

Lemma run_first_step kw : tasks kw.1 <> [] -> step (W := W) cfg kw.1 (run_first kw).1.
Proof. intros Ht. by apply step_run, run_first_run. Qed.

Lemma run_first_runs kw : rtc (run_step (W := W) cfg) kw.1 (run_first kw).1.
Proof.
  destruct (decide (tasks kw.1 = [])) as [E|E]; [|by apply rtc_once, run_first_run].
  destruct kw as [k w]. simpl in *. by rewrite E.
Qed.

Lemma undisturbed_reachable k : undisturbed (W := W) cfg k -> reachable (W := W) cfg k.
Proof. intros (k0 & Hi & Hs). exists k0. split; [done|]. eapply rtc_subrel; [|exact Hs]. intros ? ?. apply step_run. Qed.

Lemma undisturbed_runs k k' : undisturbed (W := W) cfg k -> rtc (run_step (W := W) cfg) k k' -> undisturbed (W := W) cfg k'.
Proof. intros (k0 & Hi & Hs) Hst. exists k0. split; [done|]. by etrans. Qed.

Lemma cancel_first_reachable k :
  forallb serves_call (tasks k) = true -> reachable (W := W) cfg k -> reachable (W := W) cfg (cancel_first k).
Proof.
  unfold cancel_first. destruct (tasks k) as [|t rest] eqn:E; [done|]. simpl. intros [Ht _]%andb_prop (k0 & Hi & Hs).
  exists k0. split; [done|]. eapply rtc_r; [exact Hs|]. apply step_cancel, cancel_task; [by rewrite E|done].
Qed.

End schedule.

Definition example_conf : conf := mkConf example_server [] ∅.

Lemma undisturbed_example : undisturbed (W := sim) example_cfg example_conf.
Proof. exists example_conf. split; [by repeat split|apply rtc_refl]. Qed.

(** A creation that waits for its agent. *)
Definition waiting_conf : conf * sim :=
  let run := run_first example_cfg in run (run (start_create example_req (example_conf, bridge_host))).

Lemma undisturbed_waiting : undisturbed (W := sim) example_cfg waiting_conf.1.
Proof.
  do 2 (eapply undisturbed_runs; [|apply run_first_runs]).
  by eapply undisturbed_runs; [apply undisturbed_example|apply rtc_once, (start_create_run _ _ (example_conf, bridge_host))].
Qed.

(** One VM created to the end: its address is the one given out. *)
Definition created_conf : conf * sim :=
  let run := run_first example_cfg in run (run waiting_conf).

Lemma undisturbed_created : undisturbed (W := sim) example_cfg created_conf.1.
Proof. do 2 (eapply undisturbed_runs; [|apply run_first_runs]). apply undisturbed_waiting. Qed.

Lemma reachable_created : reachable (W := sim) example_cfg created_conf.1.
Proof. apply undisturbed_reachable, undisturbed_created. Qed.

(** The client gives up while its VM waits for the agent: there is no VM and no
    request, and the address is still given out. *)
Definition cancelled_conf : conf := cancel_first waiting_conf.1.

Lemma reachable_cancelled : reachable (W := sim) example_cfg cancelled_conf.
Proof. apply cancel_first_reachable; [vm_compute; reflexivity|]. apply undisturbed_reachable, undisturbed_waiting. Qed.

Lemma reachable_addresses_owned_witness :
  (held (ip_allocator (server created_conf.1)) vm_ip /\ reg_ips (vm_registry (server created_conf.1)) = [vm_ip] /\
   in_progress (tasks created_conf.1) = [] /\ abandoned (tasks created_conf.1) = []) /\
  (held (ip_allocator (server cancelled_conf)) vm_ip /\ reg_ips (vm_registry (server cancelled_conf)) = [] /\
   in_progress (tasks cancelled_conf) = [] /\
   forall k', rtc (step (W := sim) example_cfg) cancelled_conf k' -> held (ip_allocator (server k')) vm_ip).
Proof.
  destruct (reachable_addresses_owned example_cfg created_conf.1 reachable_created) as (Hh & _ & Hu & _).
  destruct (reachable_addresses_owned example_cfg cancelled_conf reachable_cancelled) as (Hh' & _ & _ & Hl).
  assert (reg_ips (vm_registry (server created_conf.1)) = [vm_ip]) as Hr by (vm_compute; reflexivity).
  assert (abandoned (tasks cancelled_conf) = [vm_ip]) as Ha by (vm_compute; reflexivity).
  split; split.
  - apply Hh. left. rewrite Hr. apply list_elem_of_here.
  - split; [exact Hr|]. split; [vm_compute; reflexivity|]. exact (Hu undisturbed_created).
  - apply Hh'. right. right. rewrite Ha. apply list_elem_of_here.
  - do 2 (split; [vm_compute; reflexivity|]). intros k' Hs. apply (Hl k' vm_ip Hs). rewrite Ha. apply list_elem_of_here.
Defined.

Lemma reachable_find_by_ip_witness :
  exists id, find_by_ip vm_ip (vm_registry (server created_conf.1)) = Some id /\
    exists e, vm_registry (server created_conf.1) !! id = Some e /\ ip_address e = vm_ip.
Proof.
  pose proof (fun id => reachable_find_by_ip example_cfg created_conf.1 vm_ip id reachable_created) as Hf.
  exists 100%N. assert (find_by_ip vm_ip (vm_registry (server created_conf.1)) = Some 100%N) as Hs
    by (vm_compute; reflexivity).
  split; [exact Hs|]. by apply Hf.
Defined.

Lemma reachable_entries_typed_witness :
  exists e, vm_registry (server created_conf.1) !! 100%N = Some e /\ entry_typed 100%N e.
Proof.
  destruct (vm_registry (server created_conf.1) !! 100%N) as [e|] eqn:E; [|vm_compute in E; discriminate E].
  exists e. split; [done|]. exact (proj1 (reachable_entries_typed example_cfg created_conf.1 100%N e reachable_created E)).
Defined.
