(* ===== verification/ProxyProtocol.v ===== *)
(** clawpot-server/src/proxy/proxy_protocol.rs: the PROXY protocol v1 line by which
    the TLS proxy tells the HTTP proxy the address of its client. *)

From S2P Require Import Prelude RustStr Addr World.
From Stdlib Require Import ZArith Lia Ascii String.
From Stdlib Require Import Strings.Byte.
From stdpp Require Import base gmap strings list.

Open Scope Z_scope.

Definition crlf : string := String "013" (String "010" EmptyString).

(** The line [write_proxy_header] formats. *)
Definition proxy_line (client_addr server_addr : SocketAddr) : string :=
  "PROXY TCP4 " +:+ show_ip (sa_ip client_addr) +:+ " " +:+ show_ip (sa_ip server_addr) +:+ " "
    +:+ show_Z (sa_port client_addr) +:+ " " +:+ show_Z (sa_port server_addr) +:+ crlf.

(** [write_proxy_header(writer, client_addr, server_addr)] *)
Definition write_proxy_header {K} `{ByteSink K} (client_addr server_addr : SocketAddr) : ST K (result unit error) :=
  do? st_map (map_err (fun e => ["Failed to write PROXY protocol header"%string; io_error_msg e]))
        (write_all (bytes_of_str (proxy_line client_addr server_addr))) in
  ret (Ok tt).

(** [parse_proxy_line(line)].  The cause under the first error, the position of the
    bad byte, is left out. *)
Definition parse_proxy_line (line : list byte) : result IpAddr error :=
  match from_utf8 line with
  | None => Err (anyhow "PROXY header is not valid UTF-8")
  | Some text =>
      match split_whitespace text with
      | [p0; _; p2; _; _; _] =>
          if bool_decide (p0 = "PROXY"%string)
          then match parse_ip p2 with
               | Some a => Ok a
               | None => Err ["Invalid source IP in PROXY header"; "invalid IP address syntax"]%string
               end
          else Err (anyhow ("Invalid PROXY protocol header: " +:+ trim text))
      | _ => Err (anyhow ("Invalid PROXY protocol header: " +:+ trim text))
      end
  end.

Section read.
Context {R : Type} `{ByteSource R}.

(** The loop of [read_proxy_header]: [line] so far, [fuel] iterations at most. *)
Fixpoint read_line_loop (fuel : nat) (line : list byte) : ST R (outcome (result (list byte) error)) :=
  match fuel with
  | O => ret NoFuel
  | S fuel' =>
      let! r := read_exact 1 in
      match r with
      | Err e => ret (Done (Err ["Failed to read PROXY protocol header"%string; io_error_msg e]))
      | Ok bs =>
          let b := default x00 (head bs) in
          let line' := line ++ [b] in
          if bool_decide (b = x0a) then ret (Done (Ok line'))
          else if (256 <? length line')%nat then ret (Done (Err (anyhow "PROXY protocol header too long")))
          else read_line_loop fuel' line'
      end
  end.

(** [read_proxy_header(reader)]: the loop pushes a byte each time and stops past
    256, so 257 iterations are enough. *)
Definition read_proxy_header : ST R (outcome (result IpAddr error)) :=
  let! line := read_line_loop 257 [] in
  ret (match line with
       | Done (Ok l) => Done (parse_proxy_line l)
       | Done (Err e) => Done (Err e)
       | Panic => Panic
       | NoFuel => NoFuel
       end).

Lemma read_line_total fuel line r :
  (257 <= fuel + length line)%nat -> (length line <= 256)%nat -> exists x, (read_line_loop fuel line r).1 = Done x.
Proof.
  revert line r. induction fuel as [|fuel IH]; intros line r Hf Hl; [lia|]. cbn [read_line_loop]. unfold bind.
  destruct (read_exact 1 r) as [[bs|e] r1]; [|by eexists].
  case_bool_decide; [by eexists|]. rewrite length_app. simpl.
  destruct (Nat.ltb_spec 256 (length line + 1)); [by eexists|]. apply IH; rewrite length_app; simpl; lia.
Qed.

End read.

(** Reading a line that ends in the newline. *)
Lemma read_line_run fuel line : forall acc rest,
  x0a ∉ line -> (length acc + length line <= 256)%nat -> (length line < fuel)%nat ->
  read_line_loop fuel acc (line ++ x0a :: rest) = (Done (Ok (acc ++ line ++ [x0a])), rest).
Proof.
  revert line. induction fuel as [|fuel IH]; intros line acc rest Hn Hl Hf; [lia|].
  cbn [read_line_loop]. unfold bind. destruct line as [|b line].
  - simpl. by rewrite drop_0.
  - apply not_elem_of_cons in Hn as [Hb Hn]. simpl in *. rewrite bool_decide_eq_false_2 by done.
    rewrite length_app. simpl. destruct (Nat.ltb_spec 256 (length acc + 1)); [lia|].
    rewrite drop_0, IH; [by rewrite <- app_assoc|done|rewrite length_app; simpl; lia|lia].
Qed.

(** * The round trip *)

(** A character of the line other than its end: space or graphic. *)
Definition printable (c : ascii) : bool := Ascii.eqb c " " || graphic c.
Definition all_printable (s : string) : bool := forallb printable (list_ascii_of_string s).

Lemma all_printable_app s t : all_printable (s +:+ t) = all_printable s && all_printable t.
Proof.
  unfold all_printable. induction s as [|c s IH]; [done|]. rewrite sapp_cons. simpl.
  by rewrite IH, andb_assoc.
Qed.

Lemma graphic_printable s : all_graphic s = true -> all_printable s = true.
Proof.
  unfold all_graphic, all_printable. induction s as [|c s IH]; [done|]. simpl. intros [Hc Hs]%andb_prop.
  rewrite (IH Hs). unfold printable. by rewrite Hc, orb_true_r.
Qed.

Lemma bytes_of_str_app s t : bytes_of_str (s +:+ t) = bytes_of_str s ++ bytes_of_str t.
Proof. induction s as [|c s IH]; [done|]. rewrite sapp_cons. unfold bytes_of_str, list_byte_of_string in *. simpl. by rewrite IH. Qed.

Lemma printable_bytes s : all_printable s = true -> (x0a ∉ bytes_of_str s) /\ forallb is_ascii (bytes_of_str s) = true.
Proof.
  unfold all_printable, bytes_of_str, list_byte_of_string. induction s as [|c s IH].
  - intros _. split; [apply not_elem_of_nil|done].
  - simpl. intros [Hc Hs]%andb_prop. destruct (IH Hs) as [IH1 IH2].
    assert (byte_of_ascii c <> x0a /\ is_ascii (byte_of_ascii c) = true) as [H1 H2].
    { clear -Hc. destruct c as [[] [] [] [] [] [] [] []]; vm_compute in Hc; try discriminate Hc; by vm_compute. }
    rewrite H2. split; [|done]. by apply not_elem_of_cons.
Qed.

(** The decimal text of a port. *)
Definition port_text_ok (p : Z) : bool :=
  (String.length (show_Z p) <=? 5)%nat && negb (String.eqb (show_Z p) EmptyString).

Lemma port_text p : 0 <= p < 65536 -> (String.length (show_Z p) <= 5)%nat /\ show_Z p <> EmptyString.
Proof.
  intros Hp.
  assert (forallb (fun h => forallb (fun l => port_text_ok (h * 256 + l)) (seqZ 0 256)) (seqZ 0 256) = true) as Hall
    by (vm_compute; reflexivity).
  rewrite forallb_forall in Hall. specialize (Hall (p / 256)). rewrite forallb_forall in Hall.
  specialize (fun h => Hall h (p mod 256)).
  replace (p / 256 * 256 + p mod 256) with p in Hall by (pose proof (Z.div_mod p 256 ltac:(lia)); lia).
  unfold port_text_ok in Hall. rewrite andb_true_iff, Nat.leb_le, negb_true_iff, String.eqb_neq in Hall.
  apply Hall; apply list_elem_of_In, elem_of_seqZ.
  - pose proof (Z.div_pos p 256 ltac:(lia) ltac:(lia)). pose proof (Z.div_lt_upper_bound p 256 256 ltac:(lia) ltac:(lia)). lia.
  - pose proof (Z.mod_pos_bound p 256 ltac:(lia)). lia.
Qed.

Lemma octet_text b : (String.length (show_Z (u8 b)) <= 3)%nat /\ show_Z (u8 b) <> EmptyString.
Proof. destruct b; (split; [vm_compute; lia|discriminate]). Qed.

Lemma ipv4_text a : (String.length (show_ipv4 a) <= 15)%nat /\ show_ipv4 a <> EmptyString.
Proof.
  unfold show_ipv4. destruct (octet_text (oct_a a)) as [Ha Hn], (octet_text (oct_b a)) as [Hb _],
    (octet_text (oct_c a)) as [Hc _], (octet_text (oct_d a)) as [Hd _]. rewrite !slength_app.
  simpl. split; [lia|]. destruct (show_Z (u8 (oct_a a))); [done|]. by rewrite sapp_cons.
Qed.

(** The line without its end, as a sequence of tokens. *)
Definition proxy_body (a b : Ipv4Addr) (p q : Z) : string :=
  "PROXY" +:+ String " " ("TCP4" +:+ String " " (show_ipv4 a +:+ String " " (show_ipv4 b +:+ String " "
    (show_Z p +:+ String " " (show_Z q))))).

Lemma proxy_line_body a b p q :
  proxy_line (mkSocketAddr (V4 a) p) (mkSocketAddr (V4 b) q) = proxy_body a b p q +:+ crlf.
Proof.
  unfold proxy_line, proxy_body, show_ip. simpl sa_ip. simpl sa_port.
  repeat rewrite ?sapp_assoc, ?sapp_cons, ?sapp_nil. done.
Qed.

Lemma split_whitespace_last t : all_graphic t = true -> t <> EmptyString -> split_whitespace (t +:+ crlf) = [t].
Proof.
  intros Ht Hn. unfold split_whitespace. rewrite split_ws_graphic by done. simpl. rewrite sapp_nil_r. by destruct t.
Qed.

Lemma proxy_body_tokens a b p q :
  0 <= p < 65536 -> 0 <= q < 65536 ->
  split_whitespace (proxy_body a b p q +:+ crlf) =
    ["PROXY"; "TCP4"; show_ipv4 a; show_ipv4 b; show_Z p; show_Z q]%string.
Proof.
  intros Hp Hq. unfold proxy_body.
  pose proof (ipv4_text a) as [_ Ha]. pose proof (ipv4_text b) as [_ Hb].
  pose proof (port_text p Hp) as [_ Hpn]. pose proof (port_text q Hq) as [_ Hqn].
  rewrite sapp_assoc, (sapp_cons " "), split_whitespace_token by done. f_equal.
  rewrite sapp_assoc, (sapp_cons " "), split_whitespace_token by done. f_equal.
  rewrite sapp_assoc, (sapp_cons " "), split_whitespace_token by (apply show_ipv4_graphic || done). f_equal.
  rewrite sapp_assoc, (sapp_cons " "), split_whitespace_token by (apply show_ipv4_graphic || done). f_equal.
  rewrite sapp_assoc, (sapp_cons " "), split_whitespace_token by (apply show_Z_graphic || done). f_equal.
  by rewrite split_whitespace_last by (apply show_Z_graphic || done).
Qed.

Lemma proxy_body_printable a b p q : all_printable (proxy_body a b p q) = true.
Proof.
  unfold proxy_body. repeat rewrite ?all_printable_app.
  assert (forall s, all_printable (String " " s) = all_printable s) as Hs by done.
  repeat rewrite ?Hs, ?all_printable_app.
  by rewrite !(graphic_printable (show_ipv4 _)), !(graphic_printable (show_Z _))
    by (apply show_ipv4_graphic || apply show_Z_graphic).
Qed.

Lemma proxy_body_length a b p q :
  0 <= p < 65536 -> 0 <= q < 65536 -> (String.length (proxy_body a b p q) <= 54)%nat.
Proof.
  intros Hp Hq. unfold proxy_body. repeat (rewrite ?slength_app; simpl String.length).
  pose proof (ipv4_text a) as [? _]. pose proof (ipv4_text b) as [? _].
  pose proof (port_text p Hp) as [? _]. pose proof (port_text q Hq) as [? _]. lia.
Qed.

Lemma write_proxy_header_vec c d (out : list byte) :
  write_proxy_header c d out = (Ok tt, out ++ bytes_of_str (proxy_line c d)).
Proof. reflexivity. Qed.

(** Reading the line that was written returns the client's address and leaves what
    follows. *)
Lemma read_proxy_line a b p q rest :
  0 <= p < 65536 -> 0 <= q < 65536 ->
  read_proxy_header (bytes_of_str (proxy_line (mkSocketAddr (V4 a) p) (mkSocketAddr (V4 b) q)) ++ rest) =
  (Done (Ok (V4 a)), rest).
Proof.
  intros Hp Hq. rewrite proxy_line_body, bytes_of_str_app.
  destruct (printable_bytes _ (proxy_body_printable a b p q)) as [Hnl Hasc].
  change (bytes_of_str crlf) with ([x0d] ++ [x0a]). rewrite app_assoc, <- app_assoc.
  unfold read_proxy_header, bind. simpl ([x0a] ++ rest).
  rewrite (read_line_run 257 (bytes_of_str (proxy_body a b p q) ++ [x0d])).
  - replace ([] ++ (bytes_of_str (proxy_body a b p q) ++ [x0d]) ++ [x0a])
      with (bytes_of_str (proxy_body a b p q +:+ crlf)) by by rewrite bytes_of_str_app, <- app_assoc.
    unfold ret, parse_proxy_line.
    unfold from_utf8. rewrite utf8_valid_ascii by by rewrite bytes_of_str_app, forallb_app, Hasc.
    rewrite str_of_bytes_of_str, proxy_body_tokens by done.
    rewrite bool_decide_eq_true_2 by done. change (show_ipv4 a) with (show_ip (V4 a)).
    by rewrite parse_ip_show_v4.
  - intros [Hin|Hin]%elem_of_app; [done|]. by apply list_elem_of_singleton in Hin.
  - pose proof (proxy_body_length a b p q Hp Hq). rewrite length_app, length_bytes_of_str. cbn [length]. lia.
  - pose proof (proxy_body_length a b p q Hp Hq). rewrite length_app, length_bytes_of_str. cbn [length]. lia.
Qed.

(** C33. PROXY protocol round trip: for every IPv4 client and any listening address,
    the HTTP proxy reads from the header that the TLS proxy writes exactly the
    client's address, and leaves the bytes after the header unread; on any input
    the reader stops after at most 257 bytes. *)
Theorem proxy_header_round_trip a b p q rest out :
  0 <= p < 65536 -> 0 <= q < 65536 ->
  let '(r, wire) := write_proxy_header (mkSocketAddr (V4 a) p) (mkSocketAddr (V4 b) q) ([] : list byte) in
  r = Ok tt /\
  read_proxy_header (wire ++ rest) = (Done (Ok (V4 a)), rest) /\
  exists x, (read_proxy_header (R := list byte) out).1 = Done x.
Proof.
  intros Hp Hq. rewrite write_proxy_header_vec. split; [done|]. split.
  - rewrite app_nil_l. by apply read_proxy_line.
  - unfold read_proxy_header, bind. destruct (read_line_total 257 [] out) as [x Hx]; [simpl; lia|simpl; lia|].
    destruct (read_line_loop 257 [] out) as [o r]. simpl in Hx. subst o. destruct x; by eexists.
Qed.

Lemma proxy_header_round_trip_witness :
  let '(r, wire) := write_proxy_header (mkSocketAddr (V4 (ipv4 192 168 100 2)) 45678)
                      (mkSocketAddr (V4 (ipv4 0 0 0 0)) 10443) ([] : list byte) in
  read_proxy_header (wire ++ [x16]) = (Done (Ok (V4 (ipv4 192 168 100 2))), [x16]).
Proof.
  apply (proxy_header_round_trip (ipv4 192 168 100 2) (ipv4 0 0 0 0) 45678 10443 [x16] []); lia.
Defined.
