(* ===== verification/Sni.v ===== *)
(** clawpot-server/src/proxy/tls_mitm.rs, [extract_sni]: the host name in the SNI
    extension of a TLS ClientHello, which decides for which name the proxy makes
    a certificate.  Indexing and slicing panic out of range as in Rust. *)

From S2P Require Import Prelude RustStr.
From Stdlib Require Import ZArith Lia Ascii String.
From Stdlib Require Import Strings.Byte.
From stdpp Require Import base gmap strings list.

Open Scope nat_scope.

(** [u16::from_be_bytes([buf[i], buf[i + 1]])] as an unsigned number *)
Definition be16_at (buf : list byte) (i : nat) : outcome nat :=
  let$ a := idx buf i in let$ b := idx buf (i + 1) in Done (Z.to_nat (u16_be a b)).

(** [buf[i] as usize] *)
Definition byte_at (buf : list byte) (i : nat) : outcome nat :=
  let$ a := idx buf i in Done (Z.to_nat (u8 a)).

(** [u32::from_be_bytes([0, buf[i], buf[i + 1], buf[i + 2]]) as usize] *)
Definition be24_at (buf : list byte) (i : nat) : outcome nat :=
  let$ a := idx buf i in let$ b := idx buf (i + 1) in let$ c := idx buf (i + 2) in
  Done (Z.to_nat (u8 a * 65536 + u8 b * 256 + u8 c)).

(** The SNI extension at [pos], [ext_len] bytes long. *)
Definition sni_extension (client_hello : list byte) (pos ext_len extensions_end : nat) : outcome (option string) :=
  if (5 <=? ext_len) && (pos + ext_len <=? extensions_end) then
    let$ name_type := idx client_hello (pos + 2) in
    if bool_decide (name_type = x00) then
      let$ name_len := be16_at client_hello (pos + 3) in
      if pos + 5 + name_len <=? extensions_end then
        let$ name := slice client_hello (pos + 5) (pos + 5 + name_len) in
        Done (from_utf8 name)
      else Done None
    else Done None
  else Done None.

(** The walk over the extensions.  Each turn advances by four bytes or more, so
    as many turns as there are bytes are enough. *)
Fixpoint walk_extensions (fuel : nat) (client_hello : list byte) (pos extensions_end : nat) : outcome (option string) :=
  match fuel with
  | O => NoFuel
  | S fuel' =>
      if pos + 4 <=? extensions_end then
        let$ ext_type := be16_at client_hello pos in
        let$ ext_len := be16_at client_hello (pos + 2) in
        if ext_type =? 0 then sni_extension client_hello (pos + 4) ext_len extensions_end
        else walk_extensions fuel' client_hello (pos + 4 + ext_len) extensions_end
      else Done None
  end.

(** The part of [extract_sni] on the ClientHello. *)
Definition client_hello_sni (client_hello : list byte) : outcome (option string) :=
  let len := length client_hello in
  if len <? 34 then Done None
  else
    let pos := 34 in
    if len <=? pos then Done None
    else
      let$ session_id_len := byte_at client_hello pos in
      let pos := pos + (1 + session_id_len) in
      if len <? pos + 2 then Done None
      else
        let$ cipher_suites_len := be16_at client_hello pos in
        let pos := pos + (2 + cipher_suites_len) in
        if len <=? pos then Done None
        else
          let$ compression_len := byte_at client_hello pos in
          let pos := pos + (1 + compression_len) in
          if len <? pos + 2 then Done None
          else
            let$ extensions_len := be16_at client_hello pos in
            let pos := pos + 2 in
            let extensions_end := pos + Nat.min extensions_len (len - pos) in
            walk_extensions (S len) client_hello pos extensions_end.

(** [extract_sni(buf) -> Option<String>] *)
Definition extract_sni (buf : list byte) : outcome (option string) :=
  if length buf <? 5 then Done None
  else
    let$ b0 := idx buf 0 in
    if bool_decide (b0 <> x16) then Done None
    else
      let$ record_len := be16_at buf 3 in
      let$ handshake := slice buf 5 (Nat.min (length buf) (5 + record_len)) in
      if bool_decide (handshake = []) then Done None
      else
        let$ h0 := idx handshake 0 in
        if bool_decide (h0 <> x01) then Done None
        else
          let$ hs_len := be24_at handshake 1 in
          let$ client_hello := slice handshake 4 (Nat.min (length handshake) (4 + hs_len)) in
          client_hello_sni client_hello.

(** * Properties *)

Lemma byte_at_ok buf i : i < length buf -> exists n, byte_at buf i = Done n.
Proof. intros Hi. unfold byte_at. destruct (idx_lt buf i Hi) as (x & -> & _). simpl. eauto. Qed.

Lemma be16_at_ok buf i : i + 1 < length buf -> exists n, be16_at buf i = Done n.
Proof.
  intros Hi. unfold be16_at. destruct (idx_lt buf i) as (x & -> & _); [lia|].
  destruct (idx_lt buf (i + 1)) as (y & -> & _); [lia|]. simpl. eauto.
Qed.

Lemma sni_extension_total hello pos n e : e <= length hello -> exists o, sni_extension hello pos n e = Done o.
Proof.
  intros He. unfold sni_extension. destruct (Nat.leb_spec 5 n); [|by eauto]. simpl.
  destruct (Nat.leb_spec (pos + n) e); [|by eauto].
  destruct (idx_lt hello (pos + 2)) as (x & -> & _); [lia|]. simpl. case_bool_decide; [|by eauto].
  destruct (be16_at_ok hello (pos + 3)) as [m ->]; [lia|]. simpl.
  destruct (Nat.leb_spec (pos + 5 + m) e); [|by eauto]. rewrite slice_ok by lia. simpl. eauto.
Qed.

Lemma walk_total fuel hello pos e :
  e <= length hello -> 0 < fuel -> length hello < fuel + pos -> exists o, walk_extensions fuel hello pos e = Done o.
Proof.
  intros He. revert pos. induction fuel as [|fuel IH]; intros pos Hp Hf; [lia|]. simpl.
  destruct (Nat.leb_spec (pos + 4) e); [|by eauto].
  destruct (be16_at_ok hello pos) as [t ->]; [lia|]. destruct (be16_at_ok hello (pos + 2)) as [n ->]; [lia|]. simpl.
  destruct (t =? 0); [by apply sni_extension_total|]. apply IH; lia.
Qed.

(** On a ClientHello of any length and content the walk returns. *)
Lemma client_hello_total hello : exists o, client_hello_sni hello = Done o.
Proof.
  unfold client_hello_sni. destruct (Nat.ltb_spec (length hello) 34); [by eauto|].
  destruct (Nat.leb_spec (length hello) 34); [by eauto|]. destruct (byte_at_ok hello 34) as [a ->]; [lia|]. cbn [obind].
  destruct (Nat.ltb_spec (length hello) (34 + (1 + a) + 2)); [by eauto|].
  destruct (be16_at_ok hello (34 + (1 + a))) as [b ->]; [lia|]. cbn [obind].
  destruct (Nat.leb_spec (length hello) (34 + (1 + a) + (2 + b))); [by eauto|].
  destruct (byte_at_ok hello (34 + (1 + a) + (2 + b))) as [c ->]; [lia|]. cbn [obind].
  destruct (Nat.ltb_spec (length hello) (34 + (1 + a) + (2 + b) + (1 + c) + 2)); [by eauto|].
  destruct (be16_at_ok hello (34 + (1 + a) + (2 + b) + (1 + c))) as [d ->]; [lia|]. cbn [obind].
  apply walk_total; lia.
Qed.

(** The handshake message in a TLS record: the bytes after the record header, up
    to the length it announces. *)
Definition handshake_of (buf : list byte) : option (list byte) :=
  match buf with
  | t :: _ :: _ :: b3 :: b4 :: rest =>
      if bool_decide (t = x16) then Some (take (Z.to_nat (u16_be b3 b4)) rest) else None
  | _ => None
  end.

(** The handshake message says it is a ClientHello but ends within its header. *)
Definition truncated_hello (buf : list byte) : Prop :=
  exists hs, handshake_of buf = Some hs /\ head hs = Some x01 /\ length hs < 4.

(** [extract_sni] through the handshake message. *)
Definition handshake_sni (hs : list byte) : outcome (option string) :=
  match hs with
  | [] => Done None
  | h0 :: _ =>
      if bool_decide (h0 <> x01) then Done None
      else let$ hs_len := be24_at hs 1 in
           let$ client_hello := slice hs 4 (Nat.min (length hs) (4 + hs_len)) in
           client_hello_sni client_hello
  end.

Lemma extract_sni_handshake buf :
  extract_sni buf = match handshake_of buf with Some hs => handshake_sni hs | None => Done None end.
Proof.
  unfold extract_sni. destruct buf as [|t [|b1 [|b2 [|b3 [|b4 rest]]]]]; try done.
  set (buf := t :: b1 :: b2 :: b3 :: b4 :: rest).
  replace (length buf <? 5) with false by done. change (idx buf 0) with (Done t).
  change (be16_at buf 3) with (Done (Z.to_nat (u16_be b3 b4))). cbn [obind handshake_of buf].
  destruct (decide (t = x16)) as [-> |Ht]; [|by rewrite !(bool_decide_eq_true_2 (t <> x16)), (bool_decide_eq_false_2 (t = x16))].
  rewrite bool_decide_eq_false_2 by naive_solver. rewrite bool_decide_eq_true_2 by done.
  set (n := Z.to_nat (u16_be b3 b4)). rewrite slice_min by (simpl; lia). cbn [obind].
  change (drop 5 _) with (drop 0 rest). rewrite drop_0.
  unfold handshake_sni. destruct (take n rest) as [|h0 hs]; [by rewrite bool_decide_eq_true_2|].
  by rewrite bool_decide_eq_false_2.
Qed.

Lemma handshake_sni_total hs :
  (exists o, handshake_sni hs = Done o) \/ (handshake_sni hs = Panic /\ head hs = Some x01 /\ length hs < 4).
Proof.
  unfold handshake_sni. destruct hs as [|h0 hs]; [by eauto|].
  destruct (decide (h0 = x01)) as [-> |Hne]; [|rewrite bool_decide_eq_true_2 by done; by eauto].
  rewrite bool_decide_eq_false_2 by naive_solver.
  destruct (decide (4 <= length (x01 :: hs))) as [Hlen|Hlen].
  - left. destruct hs as [|a [|b [|c hs]]]; simpl in Hlen; try lia.
    change (be24_at (x01 :: a :: b :: c :: hs) 1) with (Done (Z.to_nat (u8 a * 65536 + u8 b * 256 + u8 c))). cbn [obind].
    rewrite slice_ok by (simpl; lia). apply client_hello_total.
  - right. split; [|split; [done|lia]]. destruct hs as [|a [|b [|c hs]]]; simpl in Hlen; try done. lia.
Qed.

(** C32. SNI extraction on arbitrary bytes: it reads out of range, and so panics, for
    exactly the packets that stop within the four-byte header of the ClientHello
    (a client can send them); on every other input it returns. *)
Theorem extract_sni_panics_iff buf :
  (extract_sni buf = Panic <-> truncated_hello buf) /\
  (~ truncated_hello buf -> exists o, extract_sni buf = Done o).
Proof.
  rewrite extract_sni_handshake. unfold truncated_hello. destruct (handshake_of buf) as [hs|].
  - destruct (handshake_sni_total hs) as [[o Ho]|(Hp & Hh & Hl)].
    + rewrite Ho. split; [|by eauto]. split; [done|]. intros (hs' & [= <-] & Hh & Hl).
      destruct hs as [|h0 [|a [|b [|c hs]]]]; simpl in *; try done; try lia; by injection Hh as ->.
    + split; [split; [|done]; by eauto|]. intros Hn. destruct Hn. by eauto.
  - split; [|by eauto]. split; [done|]. by intros (hs & ? & _).
Qed.

Lemma extract_sni_panics_iff_witness :
  extract_sni [x16; x03; x01; x00; x01; x01] = Panic.
Proof. apply extract_sni_panics_iff. exists [x01]. split; [reflexivity|]. split; [reflexivity|]. simpl. lia. Defined.

(** ** The round trip *)

Definition be16 (n : nat) : list byte := be_u16 (Z.of_nat n).

(** An extension, the body of an SNI extension with one host name, a ClientHello
    and the TLS record of some version that carries it. *)
Definition extension (t : nat) (body : list byte) : list byte := be16 t ++ be16 (length body) ++ body.
Definition sni_body (host : list byte) : list byte := be16 (length host + 3) ++ [x00] ++ be16 (length host) ++ host.
Definition hello_bytes (head34 sid ciphers comps exts : list byte) : list byte :=
  head34 ++ [to_u8 (Z.of_nat (length sid))] ++ sid ++ be16 (length ciphers) ++ ciphers
    ++ [to_u8 (Z.of_nat (length comps))] ++ comps ++ be16 (length exts) ++ exts.
Definition record_bytes (major minor : byte) (hello : list byte) : list byte :=
  let n := Z.of_nat (length hello) in
  [x16; major; minor] ++ be16 (4 + length hello) ++ [x01; to_u8 (n / 65536); to_u8 (n / 256); to_u8 n] ++ hello.

(** A length that fits in 16 bits. *)
Definition fits16 (n : nat) : Prop := (Z.of_nat n < 65536)%Z.

Lemma be16_length n : length (be16 n) = 2.
Proof. done. Qed.

Lemma idx_app (l r : list byte) b : idx (l ++ b :: r) (length l) = Done b.
Proof. unfold idx. rewrite lookup_app_r by lia. by rewrite Nat.sub_diag. Qed.

Lemma be16_at_app l n r : fits16 n -> be16_at (l ++ be16 n ++ r) (length l) = Done n.
Proof.
  unfold fits16. intros Hn. unfold be16_at, be16.
  destruct (u16_be_be_u16 (Z.of_nat n)) as (a & b & -> & E); [lia|].
  change (l ++ [a; b] ++ r) with (l ++ a :: b :: r). rewrite (idx_app l (b :: r) a). cbn [obind].
  change (l ++ a :: b :: r) with (l ++ [a] ++ b :: r). rewrite app_assoc.
  replace (length l + 1) with (length (l ++ [a])) by (rewrite length_app; simpl; lia).
  rewrite (idx_app (l ++ [a]) r b). cbn [obind]. f_equal. rewrite E. lia.
Qed.

Lemma byte_at_app l n r : n < 256 -> byte_at (l ++ [to_u8 (Z.of_nat n)] ++ r) (length l) = Done n.
Proof.
  intros Hn. unfold byte_at. cbn [app]. rewrite (idx_app l r). cbn [obind]. rewrite u8_to_u8, Z.mod_small by lia. f_equal. lia.
Qed.

(** The SNI extension with its body after [l]. *)
Lemma sni_extension_run l host r e :
  fits16 (length host + 5) -> utf8_valid host = true -> e = length l + length (sni_body host) + length r ->
  sni_extension (l ++ sni_body host ++ r) (length l) (length (sni_body host)) e = Done (Some (str_of_bytes host)).
Proof.
  unfold fits16. intros Hh Hu ->. unfold sni_extension.
  assert (length (sni_body host) = 5 + length host) as Hlen
    by (unfold sni_body; rewrite !length_app, !be16_length; simpl; lia).
  rewrite Hlen. replace (5 <=? 5 + length host) with true by done. cbn [andb].
  rewrite (proj2 (Nat.leb_le _ _)) by lia.
  unfold sni_body. rewrite <- !app_assoc.
  assert (idx (l ++ be16 (length host + 3) ++ [x00] ++ be16 (length host) ++ host ++ r) (length l + 2) = Done x00) as ->.
  { rewrite app_assoc. replace (length l + 2) with (length (l ++ be16 (length host + 3))) by (rewrite length_app; simpl; lia).
    apply idx_app. }
  cbn [obind]. rewrite bool_decide_eq_true_2 by done.
  rewrite (app_assoc l), (app_assoc (l ++ _) [x00]).
  assert (length l + 3 = length ((l ++ be16 (length host + 3)) ++ [x00])) as -> by (rewrite !length_app; simpl; lia).
  rewrite be16_at_app by (unfold fits16 in *; lia). cbn [obind].
  rewrite (proj2 (Nat.leb_le _ _)) by lia. rewrite slice_ok by (rewrite ?length_app, ?be16_length; simpl; lia). cbn [obind].
  unfold from_utf8.
  assert (take (length l + 5 + length host - (length l + 5))
    (drop (length l + 5) (((l ++ be16 (length host + 3)) ++ [x00]) ++ be16 (length host) ++ host ++ r)) = host) as ->.
  { rewrite (app_assoc _ (be16 (length host))), drop_app_length' by (rewrite !length_app; simpl; lia).
    apply take_app_length'. lia. }
  by rewrite Hu.
Qed.

(** Extensions before the SNI one are skipped. *)
Lemma walk_run before : forall fuel l host r e,
  Forall (fun x => x.1 <> 0 /\ fits16 x.1 /\ fits16 (length x.2)) before ->
  fits16 (length host + 5) -> utf8_valid host = true -> length before < fuel ->
  let exts := concat (map (fun x => extension x.1 x.2) before) ++ extension 0 (sni_body host) ++ r in
  e = length l + length exts ->
  walk_extensions fuel (l ++ exts) (length l) e = Done (Some (str_of_bytes host)).
Proof.
  induction before as [|[t body] before IH]; intros fuel l host r e HF Hh Hu Hf exts ->.
  - destruct fuel as [|fuel]; [simpl in Hf; lia|]. cbn [walk_extensions]. subst exts. simpl concat. unfold extension.
    assert (length (sni_body host) = 5 + length host) as Hlen
      by (unfold sni_body; rewrite !length_app, !be16_length; simpl; lia).
    rewrite !app_nil_l, !length_app, !be16_length. rewrite (proj2 (Nat.leb_le _ _)) by lia.
    rewrite <- !app_assoc. rewrite (be16_at_app l 0) by (unfold fits16; lia). cbn [obind].
    rewrite (app_assoc l). replace (length l + 2) with (length (l ++ be16 0)) by (rewrite length_app; simpl; lia).
    rewrite be16_at_app by (unfold fits16 in *; lia). cbn [obind Nat.eqb]. rewrite (app_assoc (l ++ be16 0)).
    replace (length l + 4) with (length ((l ++ be16 0) ++ be16 (length (sni_body host))))
      by (rewrite !length_app; simpl; lia).
    apply sni_extension_run; [done|done|]. rewrite !length_app, !be16_length. lia.
  - destruct fuel as [|fuel]; [simpl in Hf; lia|]. cbn [walk_extensions]. inversion HF as [|? ? (Ht0 & Ht & Hb) HF']; subst.
    simpl in Ht0, Ht, Hb.
    set (tl := concat (map (fun x => extension x.1 x.2) before) ++ extension 0 (sni_body host) ++ r).
    assert (exts = be16 t ++ be16 (length body) ++ body ++ tl) as ->.
    { subst exts tl. cbn [map concat fst snd]. unfold extension at 1. by rewrite <- !app_assoc. }
    rewrite !length_app, !be16_length. rewrite (proj2 (Nat.leb_le _ _)) by lia.
    rewrite (be16_at_app l t) by done. cbn [obind]. rewrite (app_assoc l).
    replace (length l + 2) with (length (l ++ be16 t)) by (rewrite length_app; simpl; lia).
    rewrite be16_at_app by (unfold fits16 in *; lia). cbn [obind]. rewrite (proj2 (Nat.eqb_neq t 0)) by done.
    rewrite (app_assoc (l ++ be16 t)), (app_assoc ((l ++ be16 t) ++ _)).
    replace (length l + 4 + length body) with (length (((l ++ be16 t) ++ be16 (length body)) ++ body))
      by (rewrite !length_app; simpl; lia).
    apply IH; try done; [simpl in Hf; lia|]. fold tl. rewrite !length_app, !be16_length. lia.
Qed.

(** The fields before the extensions are skipped. *)
Lemma client_hello_run h34 sid ciphers comps before host r :
  length h34 = 34 -> (Z.of_nat (length sid) < 256)%Z -> fits16 (length ciphers) -> (Z.of_nat (length comps) < 256)%Z ->
  Forall (fun x => x.1 <> 0 /\ fits16 x.1 /\ fits16 (length x.2)) before ->
  fits16 (length host + 5) -> utf8_valid host = true ->
  let exts := concat (map (fun x => extension x.1 x.2) before) ++ extension 0 (sni_body host) ++ r in
  fits16 (length exts) ->
  client_hello_sni (hello_bytes h34 sid ciphers comps exts) = Done (Some (str_of_bytes host)).
Proof.
  intros H34 Hsid Hci Hco HF Hh Hu exts Hex. unfold client_hello_sni.
  set (hello := hello_bytes h34 sid ciphers comps exts).
  assert (Hlen : length hello = 34 + (1 + length sid) + (2 + length ciphers) + (1 + length comps) + 2 + length exts).
  { unfold hello, hello_bytes. rewrite !length_app, !be16_length. cbn [length]. lia. }
  rewrite (proj2 (Nat.ltb_ge _ _)) by lia. rewrite (proj2 (Nat.leb_gt _ _)) by lia.
  set (p1 := h34 ++ [to_u8 (Z.of_nat (length sid))] ++ sid).
  set (p2 := p1 ++ be16 (length ciphers) ++ ciphers).
  set (p3 := p2 ++ [to_u8 (Z.of_nat (length comps))] ++ comps).
  assert (E1 : byte_at hello 34 = Done (length sid)).
  { rewrite <- H34. unfold hello, hello_bytes. apply byte_at_app. lia. }
  rewrite E1. cbn [obind].
  assert (L1 : 34 + (1 + length sid) = length p1) by (unfold p1; rewrite !length_app; simpl; lia).
  rewrite L1. rewrite (proj2 (Nat.ltb_ge _ _)) by lia.
  assert (E2 : be16_at hello (length p1) = Done (length ciphers)).
  { unfold hello, hello_bytes, p1. rewrite (app_assoc [_] sid), (app_assoc h34). by apply be16_at_app. }
  rewrite E2. cbn [obind].
  assert (L2 : length p1 + (2 + length ciphers) = length p2)
    by (unfold p2; rewrite !length_app, be16_length; lia).
  rewrite L2. rewrite (proj2 (Nat.leb_gt _ _)) by lia.
  assert (E3 : byte_at hello (length p2) = Done (length comps)).
  { replace hello with (p2 ++ [to_u8 (Z.of_nat (length comps))] ++ comps ++ be16 (length exts) ++ exts)
      by (unfold hello, hello_bytes, p2, p1; by rewrite <- !app_assoc). apply byte_at_app. lia. }
  rewrite E3. cbn [obind].
  assert (L3 : length p2 + (1 + length comps) = length p3)
    by (unfold p3; rewrite !length_app; simpl; lia).
  rewrite L3. rewrite (proj2 (Nat.ltb_ge _ _)) by lia.
  assert (Eh : hello = p3 ++ be16 (length exts) ++ exts)
    by (unfold hello, hello_bytes, p3, p2, p1; by rewrite <- !app_assoc).
  assert (E4 : be16_at hello (length p3) = Done (length exts)) by (rewrite Eh; by apply be16_at_app).
  rewrite E4. cbn [obind]. replace (Nat.min (length exts) (length hello - (length p3 + 2))) with (length exts) by lia.
  assert (L4 : length p3 + 2 = length (p3 ++ be16 (length exts))) by (rewrite length_app, be16_length; lia).
  rewrite L4. replace hello with ((p3 ++ be16 (length exts)) ++ exts) by (rewrite Eh; by rewrite <- app_assoc).
  apply walk_run; try done. rewrite length_app. enough (length before <= length exts) by lia.
  unfold exts. rewrite length_app. enough (length before <= length (concat (map (fun x => extension x.1 x.2) before))) by lia.
  clear. induction before as [|[t b] before IH]; [simpl; lia|]. cbn [map concat fst snd length]. rewrite length_app.
  assert (4 <= length (extension t b)) by (unfold extension; rewrite !length_app, !be16_length; lia). lia.
Qed.

(** C31. SNI round trip: from the TLS record of a ClientHello that has, after any
    other extensions, an SNI extension for a host, [extract_sni] returns that
    host, whatever the versions, random, session id, cipher suites, compression
    methods, later extensions and following bytes are. *)
Theorem extract_sni_round_trip major minor h34 sid ciphers comps before host r rest :
  length h34 = 34 -> (Z.of_nat (length sid) < 256)%Z -> fits16 (length ciphers) -> (Z.of_nat (length comps) < 256)%Z ->
  Forall (fun x => x.1 <> 0 /\ fits16 x.1 /\ fits16 (length x.2)) before ->
  fits16 (length host + 5) -> utf8_valid host = true ->
  let exts := concat (map (fun x => extension x.1 x.2) before) ++ extension 0 (sni_body host) ++ r in
  let hello := hello_bytes h34 sid ciphers comps exts in
  fits16 (length exts) -> fits16 (4 + length hello) ->
  extract_sni (record_bytes major minor hello ++ rest) = Done (Some (str_of_bytes host)).
Proof.
  intros H34 Hsid Hci Hco HF Hh Hu exts hello Hex Hhe. rewrite extract_sni_handshake.
  set (n := Z.of_nat (length hello)). set (hdr := [x01; to_u8 (n / 65536); to_u8 (n / 256); to_u8 n]).
  assert (handshake_of (record_bytes major minor hello ++ rest) = Some (hdr ++ hello)) as ->.
  { unfold record_bytes, be16. destruct (u16_be_be_u16 (Z.of_nat (4 + length hello))) as (a & b & -> & E);
      [unfold fits16 in Hhe; lia|]. cbn [app handshake_of]. rewrite bool_decide_eq_true_2 by done. rewrite E, Nat2Z.id.
    f_equal. apply (take_app_length' (hdr ++ hello) rest). unfold hdr. simpl. lia. }
  unfold handshake_sni, hdr. cbn [app]. rewrite bool_decide_eq_false_2 by naive_solver.
  change (be24_at _ 1) with (Done (Z.to_nat (u8 (to_u8 (n / 65536)) * 65536 + u8 (to_u8 (n / 256)) * 256 + u8 (to_u8 n)))).
  assert (Z.to_nat (u8 (to_u8 (n / 65536)) * 65536 + u8 (to_u8 (n / 256)) * 256 + u8 (to_u8 n)) = length hello) as ->.
  { rewrite !u8_to_u8. unfold fits16 in Hhe. assert (0 <= n < 65536)%Z as Hn by (unfold n; lia).
    rewrite (Z.div_small n 65536) by lia.
    rewrite (Z.mod_small (n / 256)) by (split; [apply Z.div_pos; lia|apply Z.div_lt_upper_bound; lia]).
    pose proof (Z.div_mod n 256 ltac:(lia)). rewrite (Z.mod_small 0) by lia. unfold n in *. lia. }
  cbn [obind]. rewrite slice_min by (simpl; lia). cbn [obind drop]. rewrite drop_0, take_ge by lia.
  by apply client_hello_run.
Qed.

Lemma extract_sni_round_trip_witness :
  let exts := concat (map (fun x => extension x.1 x.2) [(10, [x00; x1d])]) ++ extension 0 (sni_body [x61; x2e; x62]) ++ [] in
  extract_sni (record_bytes x03 x03 (hello_bytes (replicate 34 x00) [] [x13; x01] [x00] exts) ++ []) = Done (Some "a.b"%string).
Proof.
  apply (extract_sni_round_trip x03 x03 (replicate 34 x00) [] [x13; x01] [x00] [(10, [x00; x1d])] [x61; x2e; x62] [] []);
    try (unfold fits16; simpl; lia); try reflexivity.
  constructor; [|constructor]. unfold fits16. simpl. lia.
Defined.
