(* ===== verification/AuthClient.v ===== *)
(** clawpot-server/src/proxy/auth_client.rs: the client of the external
    authorization service that the proxies ask before they let traffic out.  The
    service (a Python program reached over gRPC) is a parameter. *)

From S2P Require Import Prelude RustStr World Json SimWorld.
From Stdlib Require Import ZArith Lia Ascii String.
From Stdlib Require Import Strings.Byte.
From stdpp Require Import base gmap strings list.

Open Scope Z_scope.

Record HttpAuthRequest : Type := mkHttpAuthRequest {
  ha_method : string; ha_url : string; ha_headers : list (string * string); ha_body : list byte;
  ha_body_truncated : bool }.

Inductive auth_payload : Type :=
| AuthHttp (r : HttpAuthRequest)
| AuthDns (query_name query_type : string).

Record NetworkAuthorizationRequest : Type := mkAuthRequest {
  ar_request_id : string; ar_vm_id : string; ar_timestamp : string; ar_request : auth_payload }.

(** [client.authorize(request)]: the [allow] and [reason] of the answer, or the error. *)
Class AuthService (W : Type) := {
  auth_connect : string -> ST W (result unit string);
  auth_call : NetworkAuthorizationRequest -> ST W (result (bool * string) string);
}.

Definition MAX_BODY_FOR_GRPC : Z := 1024 * 1024.

Inductive AuthClient : Type := Connected | Disabled.

Section auth.
Context {W : Type} `{AuthService W} `{Timestamps W}.

(** [AuthClient::new(addr)] *)
Definition new (addr : option string) : ST W (result AuthClient error) :=
  match addr with
  | Some addr =>
      do? st_map (map_err (fun e => [("Failed to connect to auth service at " +:+ addr)%string; e])) (auth_connect addr) in
      ret (Ok Connected)
  | None => ret (Ok Disabled)
  end.

(** The end the two methods share: the answer, or a denial when the call fails. *)
Definition ask (request : NetworkAuthorizationRequest) : ST W (result (bool * string) error) :=
  let! resp := auth_call request in
  match resp with
  | Ok (allow, reason) => ret (Ok (allow, reason))
  | Err e => ret (Ok (false, ("auth service unreachable: " +:+ e)%string))
  end.

(** [authorize_http(&self, request_id, vm_id, method, url, headers, body)] *)
Definition authorize_http (client : AuthClient) (request_id : Z) (vm_id method url : string)
    (headers : list (string * string)) (body : list byte) : ST W (result (bool * string) error) :=
  match client with
  | Disabled => ret (Ok (true, "authorization disabled"%string))
  | Connected =>
      let truncated := MAX_BODY_FOR_GRPC <? Z.of_nat (length body) in
      let body_bytes := if truncated then take (Z.to_nat MAX_BODY_FOR_GRPC) body else body in
      let! ts := rfc3339_long in
      ask (mkAuthRequest (show_Z request_id) vm_id ts (AuthHttp (mkHttpAuthRequest method url headers body_bytes truncated)))
  end.

(** [authorize_dns(&self, request_id, vm_id, query_name, query_type)] *)
Definition authorize_dns (client : AuthClient) (request_id : Z) (vm_id query_name query_type : string)
  : ST W (result (bool * string) error) :=
  match client with
  | Disabled => ret (Ok (true, "authorization disabled"%string))
  | Connected =>
      let! ts := rfc3339_long in
      ask (mkAuthRequest (show_Z request_id) vm_id ts (AuthDns query_name query_type))
  end.

(** The service, asked in world [w] about this VM with such a payload, answers [allow]. *)
Definition service_allowed (w : W) (vm_id : string) (p : auth_payload -> Prop) : Prop :=
  exists req reason, ar_vm_id req = vm_id /\ p (ar_request req) /\ (auth_call req w).1 = Ok (true, reason).

Lemma ask_run req (w : W) :
  exists b reason, (ask req w).1 = Ok (b, reason) /\ (b = true -> (auth_call req w).1 = Ok (true, reason)).
Proof.
  unfold ask, bind, ret. destruct (auth_call req w) as [[[b reason]|e] w1]; simpl.
  - exists b, reason. split; [done|]. by intros ->.
  - by eexists false, _.
Qed.

Lemma cut_body (body : list byte) :
  let truncated := MAX_BODY_FOR_GRPC <? Z.of_nat (length body) in
  let sent := if truncated then take (Z.to_nat MAX_BODY_FOR_GRPC) body else body in
  sent `prefix_of` body /\ (truncated = false -> sent = body) /\ Z.of_nat (length sent) <= MAX_BODY_FOR_GRPC.
Proof.
  destruct (Z.ltb_spec MAX_BODY_FOR_GRPC (Z.of_nat (length body))) as [Hlt|Hge]; cbn zeta.
  - split; [apply prefix_take|]. split; [done|]. rewrite length_take. unfold MAX_BODY_FOR_GRPC in *. lia.
  - split; [done|]. split; [done|]. done.
Qed.

(** C19. Authorization fails closed: with a service configured, a request is allowed
    only if the service answered that very request (this VM, this name and type,
    or this method, URL, headers and body, the body cut at 1 MiB and marked as
    cut) with [allow]; an unreachable service denies.  Without a configured
    service everything is allowed. *)
Theorem authorize_fails_closed (client : AuthClient) rid vm_id (w : W) :
  (forall name ty, exists b reason,
     (authorize_dns client rid vm_id name ty w).1 = Ok (b, reason) /\
     (client = Disabled -> b = true) /\
     (client = Connected -> b = true -> service_allowed (rfc3339_long w).2 vm_id (fun p => p = AuthDns name ty))) /\
  (forall method url headers body, exists b reason,
     (authorize_http client rid vm_id method url headers body w).1 = Ok (b, reason) /\
     (client = Disabled -> b = true) /\
     (client = Connected -> b = true -> service_allowed (rfc3339_long w).2 vm_id (fun p => exists sent cut,
        p = AuthHttp (mkHttpAuthRequest method url headers sent cut) /\ sent `prefix_of` body /\
        (cut = false -> sent = body) /\ Z.of_nat (length sent) <= MAX_BODY_FOR_GRPC))).
Proof.
  split.
  - intros name ty. destruct client; [|by eexists true, _].
    unfold authorize_dns, bind. destruct (rfc3339_long w) as [ts w1]. set (req := mkAuthRequest _ _ _ _).
    destruct (ask_run req w1) as (b & reason & Hr & Hb). exists b, reason. split; [done|]. split; [done|].
    intros _ Htrue. exists req, reason. auto.
  - intros method url headers body. destruct client; [|by eexists true, _].
    unfold authorize_http, bind. destruct (rfc3339_long w) as [ts w1]. set (req := mkAuthRequest _ _ _ _).
    destruct (ask_run req w1) as (b & reason & Hr & Hb). exists b, reason. split; [done|]. split; [done|].
    intros _ Htrue. exists req, reason. split; [done|]. split; [|auto]. eexists _, _. split; [done|]. apply cut_body.
Qed.

End auth.

(** * What a proxy does, in order *)

(** The requests to the authorization service with their answers, and what is
    forwarded to the network. *)
Inductive net_event (X : Type) : Type :=
| Asked (req : NetworkAuthorizationRequest) (answer : result (bool * string) string)
| Forwarded (x : X).
Arguments Asked {X} req answer.
Arguments Forwarded {X} x.

(** A world that keeps the log of these events. *)
Class NetTrace (W X : Type) `{Clock W, Timestamps W, UuidGen W, AuthService W} := {
  net_log : W -> list (net_event X);
  log_auth : forall r w, net_log (auth_call r w).2 = net_log w ++ [Asked r (auth_call r w).1];
  log_now : keeps net_log instant_now;
  log_ts : keeps net_log rfc3339_now;
  log_tsl : keeps net_log rfc3339_long;
  log_v4 : keeps net_log new_v4;
}.

(** The service was asked once, about this VM and such a payload, and allowed it;
    or there is no service. *)
Definition allowed_by {X} (client : AuthClient) (vm_id : string) (p : auth_payload -> Prop)
    (evs : list (net_event X)) : Prop :=
  match client with
  | Disabled => evs = []
  | Connected => exists req reason, evs = [Asked req (Ok (true, reason))] /\ ar_vm_id req = vm_id /\ p (ar_request req)
  end.

Definition nothing_forwarded {X} (evs : list (net_event X)) : Prop := forall x, Forwarded x ∉ evs.

(** The outcome of an authorization in world [w]: an answer, after events [evs] in
    which nothing is forwarded, and which show the permission if there is one. *)
Definition authorized {W X} `{NetTrace W X} (client : AuthClient) (vm_id : string) (p : auth_payload -> Prop)
    (w : W) (r : result (bool * string) error * W) : Prop :=
  exists b reason evs, r.1 = Ok (b, reason) /\ net_log r.2 = net_log w ++ evs /\ nothing_forwarded evs /\
    (b = true -> allowed_by client vm_id p evs).

Section trace.
Context {W X : Type} `{NetTrace W X}.

Lemma ask_authorized client vm_id (p : auth_payload -> Prop) req w w1 :
  client = Connected -> net_log w1 = net_log w -> ar_vm_id req = vm_id -> p (ar_request req) ->
  authorized client vm_id p w (ask req w1).
Proof.
  intros -> Hw Hv Hp. pose proof (log_auth req w1) as Hl. unfold ask, bind, ret, authorized.
  destruct (auth_call req w1) as [[[b reason]|e] w2] eqn:E; cbn [fst snd] in *; rewrite Hl, Hw.
  - eexists b, reason, _. split; [done|]. split; [done|]. split; [intros x; set_solver|].
    intros ->. by eexists req, reason.
  - eexists false, _, _. split; [done|]. split; [done|]. split; [intros x; set_solver|]. done.
Qed.

Lemma disabled_authorized vm_id p (w : W) reason : authorized Disabled vm_id p w (Ok (true, reason), w).
Proof.
  exists true, reason, []. split; [done|]. split; [by rewrite app_nil_r|]. split; [intros x; set_solver|]. done.
Qed.

Lemma authorize_dns_trace client rid vm_id name ty (w : W) :
  authorized client vm_id (fun p => p = AuthDns name ty) w (authorize_dns client rid vm_id name ty w).
Proof.
  unfold authorize_dns. destruct client; [|apply disabled_authorized].
  unfold bind. pose proof (log_tsl w) as Ht. destruct (rfc3339_long w) as [ts w1]. simpl in Ht.
  by apply ask_authorized.
Qed.

(** The payload that [authorize_http] sends for a request. *)
Definition http_payload method url headers body (p : auth_payload) : Prop :=
  exists sent cut, p = AuthHttp (mkHttpAuthRequest method url headers sent cut) /\ sent `prefix_of` body /\
    (cut = false -> sent = body) /\ Z.of_nat (length sent) <= MAX_BODY_FOR_GRPC.

Lemma authorize_http_trace client rid vm_id method url headers body (w : W) :
  authorized client vm_id (http_payload method url headers body) w
    (authorize_http client rid vm_id method url headers body w).
Proof.
  unfold authorize_http. destruct client; [|apply disabled_authorized].
  unfold bind. pose proof (log_tsl w) as Ht. destruct (rfc3339_long w) as [ts w1]. simpl in Ht.
  apply ask_authorized; [done|done|done|]. eexists _, _. split; [done|]. apply cut_body.
Qed.

End trace.

(** The example service allows every request it can be reached for. *)
#[export] Instance sim_auth : AuthService sim := {|
  auth_connect _ := fun s => (Ok tt, s);
  auth_call _ := scripted "unavailable"%string (fun s => (Ok (true, "ok"%string), s));
|}.

(** The service is down: the request is denied. *)
Lemma authorize_fails_closed_witness :
  let w := set_script [true] empty_sim in
  exists b reason, (authorize_dns Connected 0 "vm" "example.com" "A" w).1 = Ok (b, reason) /\ b = false.
Proof.
  intros w. destruct (authorize_fails_closed Connected 0 "vm" w) as [Hd _].
  destruct (Hd "example.com"%string "A"%string) as (b & reason & Hr & _ & Hc). exists b, reason. split; [exact Hr|].
  destruct b; [|reflexivity]. destruct (Hc eq_refl eq_refl) as (req & reason' & _ & _ & Hcall). discriminate Hcall.
Defined.
