(* ===== verification/Llm.v ===== *)
(** clawpot-server/src/proxy/llm.rs: the calls to language-model providers that the
    HTTP proxy recognises, the API keys it injects, and the reassembly of streamed
    answers (server-sent events) into one JSON value for the event log. *)

From S2P Require Import Prelude RustStr Json.
From Stdlib Require Import ZArith Lia ZifyBool Ascii String.
From Stdlib Require Import Strings.Byte.
From stdpp Require Import base gmap strings list.

Open Scope Z_scope.

#[local] Abbreviation get := Json.get.

(** * Providers and keys *)

Record LlmEndpoint : Type := mkLlmEndpoint { ep_name : string; path_prefix : string }.

Record LlmProvider : Type := mkLlmProvider {
  prov_name : string;
  prov_host : string;
  env_var : string;
  auth_header : string;
  bearer_format : bool;
  endpoints : list LlmEndpoint;
}.

Definition PROVIDERS : list LlmProvider :=
  [ mkLlmProvider "anthropic" "api.anthropic.com" "CLAWPOT_ANTHROPIC_API_KEY" "x-api-key" false
      [mkLlmEndpoint "messages" "/v1/messages"];
    mkLlmProvider "openai" "api.openai.com" "CLAWPOT_OPENAI_API_KEY" "authorization" true
      [mkLlmEndpoint "chat_completions" "/v1/chat/completions"; mkLlmEndpoint "responses" "/v1/responses"]
  ]%string.

(** [LlmKeyStore]: the keys by provider name. *)
Abbreviation LlmKeyStore := (gmap string string).

(** [LlmKeyStore::from_env()], on the environment [var] *)
Definition from_env (var : string -> option string) : LlmKeyStore :=
  fold_left (fun keys provider =>
    match var (env_var provider) with
    | Some raw_key =>
        let key := trim raw_key in
        if String.eqb key EmptyString then keys else <[prov_name provider := key]> keys
    | None => keys
    end) PROVIDERS ∅.

Record LlmDetection : Type := mkLlmDetection {
  provider : string;
  endpoint : string;
  strip_header : option string;
  inject_header : option (string * string);
}.

(** The key of a provider as its header carries it. *)
Definition header_value (p : LlmProvider) (key : string) : string :=
  if bearer_format p then "Bearer " +:+ key else key.

(** [host.split(':').next().unwrap_or(host)] *)
Definition host_bare (host : string) : string := default host (head (split_str ":" host)).

(** The detection for the provider whose host matched. *)
Definition detection (p : LlmProvider) (path : string) (key_store : LlmKeyStore) : LlmDetection :=
  let endpoint_name :=
    match list_find (fun ep => starts_with (path_prefix ep) path = true) (endpoints p) with
    | Some (_, ep) => ep_name ep
    | None => "unknown"%string
    end in
  match key_store !! prov_name p with
  | Some key =>
      mkLlmDetection (prov_name p) endpoint_name (Some (auth_header p)) (Some (auth_header p, header_value p key))
  | None => mkLlmDetection (prov_name p) endpoint_name None None
  end.

(** [detect_llm_request(host, path, _headers, key_store)] *)
Definition detect_llm_request (host path : string) (key_store : LlmKeyStore) : option LlmDetection :=
  match list_find (fun p => eq_ignore_ascii_case (host_bare host) (prov_host p) = true) PROVIDERS with
  | Some (_, p) => Some (detection p path key_store)
  | None => None
  end.

(** * Server-sent events *)

Record SseEvent : Type := mkSseEvent { event_type : option string; data : string }.

(** One line of a frame: the event type and the data lines so far. *)
Definition sse_line (acc : option string * list string) (line : string) : option string * list string :=
  let '(ty, parts) := acc in
  if starts_with ":" line then acc
  else match RustStr.strip_prefix "event:" line with
       | Some rest => (Some (trim rest), parts)
       | None =>
           match RustStr.strip_prefix "data:" line with
           | Some rest =>
               let d := trim rest in
               if String.eqb d "[DONE]" then acc else (ty, parts ++ [d])
           | None => acc
           end
       end.

Definition sse_frame (frame : string) : option SseEvent :=
  let frame := trim frame in
  if String.eqb frame EmptyString then None
  else
    let '(ty, parts) := fold_left sse_line (lines frame) (None, []) in
    match parts with
    | [] => None
    | _ => Some (mkSseEvent ty (str_join nl parts))
    end.

(** [parse_sse(body)] *)
Definition parse_sse (body : list byte) : list SseEvent :=
  omap sse_frame (split_str (nl +:+ nl) (from_utf8_lossy body)).

(** * Reassembly *)

Definition stream_summary : Type := json * option string * option Z * option Z.

(** [v.pointer("/a/b")] for two keys that are not array indices *)
Definition pointer2 (a b : string) (v : json) : option json := get a v ≫= get b.

Section reassemble.
Context `{SerdeJson}.

Definition from_str (s : string) : option json := res_ok (json_from_slice (bytes_of_str s)).

Record anthropic : Type := mkAnthropic {
  an_id : json; an_model : option string; an_input : option Z; an_output : option Z; an_stop : json; an_text : string }.

(** The body of the loop of [reassemble_anthropic_messages]. *)
Definition anthropic_event (a : anthropic) (event : SseEvent) : anthropic :=
  let event_name := default EmptyString (event_type event) in
  match from_str (data event) with
  | None => a
  | Some v =>
      if String.eqb event_name "message_start" then
        match get "message" v with
        | Some msg =>
            mkAnthropic (default JNull (get "id" msg)) (get "model" msg ≫= as_str)
              (pointer2 "usage" "input_tokens" msg ≫= as_u64) (an_output a) (an_stop a) (an_text a)
        | None => a
        end
      else if String.eqb event_name "content_block_delta" then
        match get "delta" v with
        | Some delta =>
            if bool_decide (get "type" delta ≫= as_str = Some "text_delta"%string) then
              match get "text" delta ≫= as_str with
              | Some text =>
                  mkAnthropic (an_id a) (an_model a) (an_input a) (an_output a) (an_stop a) (an_text a +:+ text)
              | None => a
              end
            else a
        | None => a
        end
      else if String.eqb event_name "message_delta" then
        let stop := default (an_stop a) (get "delta" v ≫= get "stop_reason") in
        mkAnthropic (an_id a) (an_model a) (an_input a) (pointer2 "usage" "output_tokens" v ≫= as_u64) stop (an_text a)
      else a
  end.

Definition anthropic_json (a : anthropic) : json :=
  JObject [ ("id", an_id a); ("model", jopt JString (an_model a)); ("stop_reason", an_stop a);
            ("content", JArray [JObject [("type", JString "text"); ("text", JString (an_text a))]]);
            ("usage", JObject [("input_tokens", jopt jint (an_input a)); ("output_tokens", jopt jint (an_output a))])
          ]%string.

Definition reassemble_anthropic_messages (events : list SseEvent) : stream_summary :=
  let a := fold_left anthropic_event events (mkAnthropic JNull None None None JNull EmptyString) in
  (anthropic_json a, an_model a, an_input a, an_output a).

Record openai_chat : Type := mkOpenaiChat {
  oc_id : json; oc_model : option string; oc_text : string; oc_finish : json; oc_input : option Z; oc_output : option Z }.

(** The body of the inner loop of [reassemble_openai_chat]. *)
Definition openai_choice (acc : string * json) (choice : json) : string * json :=
  let '(text, finish) := acc in
  (match (get "delta" choice ≫= get "content") ≫= as_str with Some t => text +:+ t | None => text end,
   match get "finish_reason" choice with
   | Some fr => if is_null fr then finish else fr
   | None => finish
   end).

(** The body of its outer loop. *)
Definition openai_event (o : openai_chat) (event : SseEvent) : openai_chat :=
  match from_str (data event) with
  | None => o
  | Some v =>
      let model := match get "model" v ≫= as_str with Some m => Some m | None => oc_model o end in
      let id := if is_null (oc_id o) then default (oc_id o) (get "id" v) else oc_id o in
      let '(text, finish) :=
        match get "choices" v ≫= as_array with
        | Some choices => fold_left openai_choice choices (oc_text o, oc_finish o)
        | None => (oc_text o, oc_finish o)
        end in
      let '(input, output) :=
        match get "usage" v with
        | Some usage => (get "prompt_tokens" usage ≫= as_u64, get "completion_tokens" usage ≫= as_u64)
        | None => (oc_input o, oc_output o)
        end in
      mkOpenaiChat id model text finish input output
  end.

Definition openai_json (o : openai_chat) : json :=
  JObject [ ("id", oc_id o); ("model", jopt JString (oc_model o));
            ("choices", JArray [JObject
               [("message", JObject [("role", JString "assistant"); ("content", JString (oc_text o))]);
                ("finish_reason", oc_finish o)]]);
            ("usage", JObject [("prompt_tokens", jopt jint (oc_input o)); ("completion_tokens", jopt jint (oc_output o))])
          ]%string.

Definition reassemble_openai_chat (events : list SseEvent) : stream_summary :=
  let o := fold_left openai_event events (mkOpenaiChat JNull None EmptyString JNull None None) in
  (openai_json o, oc_model o, oc_input o, oc_output o).

Fixpoint reassemble_openai_responses (events : list SseEvent) : stream_summary :=
  match events with
  | [] => (JNull, None, None, None)
  | event :: rest =>
      if bool_decide (event_type event = Some "response.completed"%string) then
        match from_str (data event) with
        | None => reassemble_openai_responses rest
        | Some v =>
            let response := default v (get "response" v) in
            (response, get "model" response ≫= as_str, pointer2 "usage" "input_tokens" response ≫= as_u64,
             pointer2 "usage" "output_tokens" response ≫= as_u64)
        end
      else reassemble_openai_responses rest
  end.

(** [reassemble_stream(endpoint, events)] *)
Definition reassemble_stream (endpoint : string) (events : list SseEvent) : stream_summary :=
  if String.eqb endpoint "messages" then reassemble_anthropic_messages events
  else if String.eqb endpoint "chat_completions" then reassemble_openai_chat events
  else if String.eqb endpoint "responses" then reassemble_openai_responses events
  else (JNull, None, None, None).

(** [o.or_else(|| o')] *)
Definition or_else {A} (o o' : option A) : option A := match o with Some a => Some a | None => o' end.

(** [process_response(endpoint, content_type, body)] *)
Definition process_response (endpoint : string) (content_type : option string) (body : list byte) : stream_summary :=
  if match content_type with Some ct => contains "text/event-stream" ct | None => false end
  then reassemble_stream endpoint (parse_sse body)
  else
    let v := default JNull (res_ok (json_from_slice body)) in
    (v, get "model" v ≫= as_str,
     or_else (pointer2 "usage" "input_tokens" v) (pointer2 "usage" "prompt_tokens" v) ≫= as_u64,
     or_else (pointer2 "usage" "output_tokens" v) (pointer2 "usage" "completion_tokens" v) ≫= as_u64).

(** [extract_request_summary(endpoint, body)] *)
Definition extract_request_summary (endpoint : string) (body : list byte) : option string * option nat * option bool :=
  match json_from_slice body with
  | Err _ => (None, None, None)
  | Ok v =>
      let model := get "model" v ≫= as_str in
      let streaming := get "stream" v ≫= as_bool in
      let message_count :=
        if (String.eqb endpoint "messages" || String.eqb endpoint "chat_completions")%bool then
          length <$> (get "messages" v ≫= as_array)
        else if String.eqb endpoint "responses" then
          match get "input" v with
          | Some (JArray arr) => Some (length arr)
          | Some (JString _) => Some 1%nat
          | _ => None
          end
        else None in
      (model, message_count, streaming)
  end.

End reassemble.

(** * Properties of the parser of server-sent events *)

Definition newline_char : ascii := "010"%char.

Fixpoint no_nl (s : string) : bool :=
  match s with EmptyString => true | String c s' => negb (Ascii.eqb c newline_char) && no_nl s' end.

(** A frame that a blank line can end: no blank line in it, no newline at its end. *)
Fixpoint unbroken (f : string) : bool :=
  match f with
  | EmptyString => true
  | String c f' =>
      (if Ascii.eqb c newline_char
       then match f' with String d _ => negb (Ascii.eqb d newline_char) | EmptyString => false end
       else true) && unbroken f'
  end.

Lemma no_nl_app s t : no_nl (s +:+ t) = no_nl s && no_nl t.
Proof. induction s as [|c s IH]; [done|]. rewrite sapp_cons. simpl. by rewrite IH, andb_assoc. Qed.

Lemma graphic_not_nl c : graphic c = true -> Ascii.eqb c newline_char = false.
Proof. intros Hg. apply Ascii.eqb_neq. by intros ->. Qed.

Lemma graphic_no_nl s : all_graphic s = true -> no_nl s = true.
Proof.
  unfold all_graphic. induction s as [|c s IH]; [done|]. simpl. intros [Hc Hs]%andb_prop.
  by rewrite (graphic_not_nl c Hc), IH.
Qed.

Lemma starts_with_nl c s : starts_with nl (String c s) = Ascii.eqb c newline_char.
Proof.
  unfold starts_with, nl, newline_char. cbn [RustStr.strip_prefix].
  by destruct (Ascii.eqb_spec "010" c), (Ascii.eqb_spec c "010"); subst.
Qed.

Lemma starts_with_nn c s :
  starts_with (nl +:+ nl) (String c s) = Ascii.eqb c newline_char && starts_with nl s.
Proof.
  change (nl +:+ nl) with (String "010" nl). unfold starts_with, nl, newline_char. cbn [RustStr.strip_prefix].
  by destruct (Ascii.eqb_spec "010" c), (Ascii.eqb_spec c "010"); subst.
Qed.

Lemma split_frame f s :
  unbroken f = true -> split_str (nl +:+ nl) (f +:+ nl +:+ nl +:+ s) = f :: split_str (nl +:+ nl) s.
Proof.
  intros Hf. unfold split_str.
  assert (split_aux (nl +:+ nl) 0 (f +:+ nl +:+ nl +:+ s)
          = (f, (split_aux (nl +:+ nl) 0 s).1 :: (split_aux (nl +:+ nl) 0 s).2)) as ->.
  2: by destruct (split_aux (nl +:+ nl) 0 s).
  revert Hf. induction f as [|c f IH].
  - intros _. change (EmptyString +:+ nl +:+ nl +:+ s) with (String newline_char (String newline_char s)).
    cbn [split_aux]. rewrite starts_with_nn, starts_with_nl. change (String.length (nl +:+ nl) - 1)%nat with 1%nat.
    cbn. by destruct (split_aux _ 0 s).
  - cbn [unbroken]. intros [Hc Hf]%andb_prop. rewrite sapp_cons. cbn [split_aux]. rewrite starts_with_nn, (IH Hf).
    destruct (Ascii.eqb c newline_char); [|done]. destruct f as [|d f]; [done|].
    rewrite sapp_cons, starts_with_nl. by destruct (Ascii.eqb d newline_char).
Qed.

Lemma split_line l s : no_nl l = true -> split_str nl (l +:+ nl +:+ s) = l :: split_str nl s.
Proof.
  intros Hl. unfold split_str.
  assert (split_aux nl 0 (l +:+ nl +:+ s) = (l, (split_aux nl 0 s).1 :: (split_aux nl 0 s).2)) as ->.
  2: by destruct (split_aux nl 0 s).
  revert Hl. induction l as [|c l IH].
  - intros _. change (EmptyString +:+ nl +:+ s) with (String newline_char s). cbn [split_aux].
    rewrite starts_with_nl. cbn. by destruct (split_aux _ 0 s).
  - cbn [no_nl]. intros [Hc Hl]%andb_prop. rewrite sapp_cons. cbn [split_aux].
    rewrite starts_with_nl, (IH Hl). by destruct (Ascii.eqb c newline_char).
Qed.

Lemma split_last_line l : no_nl l = true -> split_str nl l = [l].
Proof.
  intros Hl. unfold split_str. assert (split_aux nl 0 l = (l, [])) as ->; [|done].
  revert Hl. induction l as [|c l IH]; [done|]. cbn [no_nl]. intros [Hc Hl]%andb_prop. cbn [split_aux].
  rewrite starts_with_nl, (IH Hl). by destruct (Ascii.eqb c newline_char).
Qed.

Lemma strip_cr_graphic s b : graphic b = true -> strip_cr (s +:+ String b EmptyString) = s +:+ String b EmptyString.
Proof.
  intros Hb. induction s as [|c s IH].
  - rewrite sapp_nil. cbn. destruct (Ascii.eqb_spec b "013"%char) as [-> |]; done.
  - rewrite sapp_cons. cbn [strip_cr]. rewrite IH. by destruct s.
Qed.

(** Text that starts and ends with a visible ASCII character. *)
Definition tight (s : string) : Prop :=
  (exists a r, s = String a r /\ graphic a = true) /\ (exists l b, s = l +:+ String b EmptyString /\ graphic b = true).

Lemma ws_len_before x b y : graphic b = true -> (ws_len (x +:+ String b y) <= String.length x)%nat.
Proof.
  unfold graphic. intros [H1 H2]%andb_prop. rewrite Z.leb_le in H1, H2.
  destruct x as [|a1 [|a2 [|a3 x]]]; rewrite ?sapp_cons, ?sapp_nil; cbn -[Z.leb Z.eqb];
    repeat case_match; lia.
Qed.

Lemma trim_start_before skip x b y :
  graphic b = true -> (skip <= String.length x)%nat -> trim_start_aux skip (x +:+ String b y) <> EmptyString.
Proof.
  intros Hb. revert skip. induction x as [|c x IH]; intros skip Hs.
  - rewrite sapp_nil. simpl in Hs. assert (skip = 0)%nat as -> by lia. cbn [trim_start_aux].
    by rewrite (graphic_ws_len b y Hb).
  - pose proof (ws_len_before (String c x) b y Hb) as Hw. rewrite sapp_cons in *. simpl in Hs, Hw.
    cbn [trim_start_aux]. destruct skip as [|k]; [|apply IH; lia].
    destruct (ws_len (String c (x +:+ String b y))) as [|k] eqn:E; [done|].
    apply IH. simpl in Hw, E. rewrite E in Hw. lia.
Qed.

Lemma all_ws_before x b y : graphic b = true -> all_ws (x +:+ String b y) = false.
Proof. intros Hb. apply String.eqb_neq. by apply trim_start_before; [|lia]. Qed.

Lemma trim_end_tight l b : graphic b = true -> trim_end (l +:+ String b EmptyString) = l +:+ String b EmptyString.
Proof.
  intros Hb. induction l as [|c l IH].
  - pose proof (all_ws_before EmptyString b EmptyString Hb) as Hw. rewrite sapp_nil in *. cbn [trim_end].
    by rewrite Hw.
  - pose proof (all_ws_before (String c l) b EmptyString Hb) as Hw. rewrite sapp_cons in *. cbn [trim_end].
    by rewrite Hw, IH.
Qed.

Lemma trim_tight s : tight s -> trim s = s.
Proof.
  intros [(a & r & -> & Ha) (l & b & E & Hb)]. unfold trim, trim_start. cbn [trim_start_aux].
  rewrite (graphic_ws_len a r Ha), E. by apply trim_end_tight.
Qed.

Lemma trim_space s : trim (String " " s) = trim s.
Proof. done. Qed.

Lemma graphic_tight a r : all_graphic (String a r) = true -> tight (String a r).
Proof.
  intros Hs. split; [exists a, r; split; [done|]; by apply andb_prop in Hs as [? _]|].
  revert a Hs. induction r as [|c r IH]; intros a Hs.
  - exists EmptyString, a. split; [done|]. by apply andb_prop in Hs as [? _].
  - apply andb_prop in Hs as [_ Hs]. destruct (IH c Hs) as (l & b & -> & Hb).
    exists (String a l), b. by rewrite sapp_cons.
Qed.

Lemma trim_graphic s : all_graphic s = true -> trim s = s.
Proof. destruct s as [|a r]; [done|]. intros Hs. by apply trim_tight, graphic_tight. Qed.

(** * The stream a provider sends *)

(** An event as the provider writes it. *)
Definition render (e : SseEvent) : string :=
  (match event_type e with Some t => "event: " +:+ t +:+ nl | None => EmptyString end)
    +:+ "data: " +:+ data e +:+ nl +:+ nl.

Fixpoint render_all (es : list SseEvent) : string :=
  match es with [] => EmptyString | e :: rest => render e +:+ render_all rest end.

(** A one-word type, and one line of data that starts and ends with a visible
    character (a JSON object). *)
Definition wf_frame (e : SseEvent) : Prop :=
  match event_type e with Some t => all_graphic t = true | None => True end /\
  tight (data e) /\ no_nl (data e) = true.

(** The terminator of an OpenAI chat stream; it is a frame but carries no event. *)
Definition is_done (e : SseEvent) : Prop := data e = "[DONE]"%string.
#[export] Instance is_done_dec e : Decision (is_done e).
Proof. unfold is_done. apply _. Defined.

Definition wf_event (e : SseEvent) : Prop := wf_frame e /\ ~ is_done e.

(** The events of a stream. *)
Definition events_of (es : list SseEvent) : list SseEvent := filter (fun e => ~ is_done e) es.

(** The lines of an event, and its frame. *)
Definition data_line (e : SseEvent) : string := "data: " +:+ data e.
Definition frame_of (e : SseEvent) : string :=
  match event_type e with Some t => "event: " +:+ t +:+ nl +:+ data_line e | None => data_line e end.

Lemma render_frame e s : render e +:+ s = frame_of e +:+ nl +:+ nl +:+ s.
Proof. unfold render, frame_of, data_line. destruct (event_type e); by rewrite ?sapp_nil, !sapp_assoc. Qed.

Lemma no_nl_unbroken l : no_nl l = true -> unbroken l = true.
Proof. induction l as [|c l IH]; [done|]. simpl. intros [Hc Hl]%andb_prop. rewrite (IH Hl). by destruct (Ascii.eqb _ _). Qed.

Lemma unbroken_lines l m : no_nl l = true -> no_nl m = true -> m <> EmptyString -> unbroken (l +:+ nl +:+ m) = true.
Proof.
  intros Hl Hm Hne. induction l as [|c l IH].
  - change (EmptyString +:+ nl +:+ m) with (String newline_char m). cbn [unbroken].
    rewrite (no_nl_unbroken m Hm). destruct m as [|d m]; [done|]. simpl in Hm. apply andb_prop in Hm as [Hd _].
    simpl. by rewrite Hd.
  - rewrite sapp_cons. simpl in *. apply andb_prop in Hl as [Hc Hl]. rewrite (IH Hl). by destruct (Ascii.eqb _ _).
Qed.

Lemma tight_app p s a r : p = String a r -> graphic a = true -> tight s -> tight (p +:+ s).
Proof.
  intros -> Ha [_ (l & b & -> & Hb)]. split.
  - exists a, (r +:+ l +:+ String b EmptyString). by rewrite sapp_cons.
  - exists (String a r +:+ l), b. by rewrite sapp_assoc.
Qed.

Lemma tight_frame e : tight (data e) -> tight (frame_of e).
Proof.
  intros Hd. assert (tight (data_line e)) as Hl by (unfold data_line; by eapply tight_app).
  unfold frame_of. destruct (event_type e) as [t|]; [|done].
  rewrite <- (sapp_assoc t). rewrite <- (sapp_assoc "event: "). by eapply tight_app.
Qed.

Lemma strip_cr_event t : all_graphic t = true -> strip_cr ("event: " +:+ t) = "event: " +:+ t.
Proof.
  destruct t as [|a r]; [done|]. intros Ht. destruct (graphic_tight a r Ht) as [_ (l & b & -> & Hb)].
  rewrite <- sapp_assoc. by apply strip_cr_graphic.
Qed.

Lemma lines_frame e : wf_frame e ->
  lines (frame_of e) = match event_type e with Some t => ["event: " +:+ t; data_line e] | None => [data_line e] end.
Proof.
  intros (Ht & Hd & Hn). unfold lines, frame_of.
  assert (no_nl (data_line e) = true) as Hl by (unfold data_line; by rewrite no_nl_app, Hn).
  destruct (event_type e) as [t|]; [|by rewrite split_last_line].
  rewrite <- sapp_assoc, split_line by (by rewrite no_nl_app, (graphic_no_nl t Ht)).
  rewrite split_last_line by done. cbn [lines_of]. by rewrite (strip_cr_event t Ht).
Qed.

Lemma sse_event_line acc t : all_graphic t = true -> sse_line acc ("event: " +:+ t) = (Some t, acc.2).
Proof.
  intros Ht. destruct acc as [ty parts]. unfold sse_line. rewrite !sapp_cons, sapp_nil. cbn -[trim].
  by rewrite trim_space, (trim_graphic t Ht).
Qed.

Lemma sse_data_line acc e :
  tight (data e) -> sse_line acc (data_line e) = (acc.1, acc.2 ++ (if decide (is_done e) then [] else [data e])).
Proof.
  intros Hd. destruct acc as [ty parts]. unfold sse_line, data_line. rewrite !sapp_cons, sapp_nil. cbn -[trim].
  rewrite trim_space, (trim_tight _ Hd). destruct (decide (is_done e)) as [-> |Hne]; [by rewrite app_nil_r|].
  apply String.eqb_neq in Hne. by rewrite Hne.
Qed.

Lemma sse_frame_event e : wf_frame e -> sse_frame (frame_of e) = if decide (is_done e) then None else Some e.
Proof.
  intros He. pose proof He as (Ht & Hd & _). unfold sse_frame. pose proof (tight_frame e Hd) as Hf.
  rewrite (trim_tight _ Hf). destruct Hf as [(a & r & Hr & _) _].
  assert (String.eqb (frame_of e) EmptyString = false) as -> by (by rewrite Hr).
  rewrite (lines_frame e He). destruct e as [[t|] d]; simpl in Ht; cbn [event_type fold_left].
  - rewrite (sse_event_line _ t Ht), (sse_data_line _ _ Hd). by destruct (decide _).
  - rewrite (sse_data_line _ _ Hd). by destruct (decide _).
Qed.

Lemma split_rendered es :
  Forall wf_frame es -> split_str (nl +:+ nl) (render_all es) = map frame_of es ++ [EmptyString].
Proof.
  induction 1 as [|e es He Hes IH]; [done|]. cbn [render_all map]. rewrite render_frame, split_frame, IH; [done|].
  destruct He as (Ht & Hd & Hn).
  assert (no_nl (data_line e) = true) as Hl by (unfold data_line; by rewrite no_nl_app, Hn).
  unfold frame_of. destruct (event_type e) as [t|]; [|by apply no_nl_unbroken].
  rewrite <- sapp_assoc. apply unbroken_lines; [|done|done]. by rewrite no_nl_app, (graphic_no_nl t Ht).
Qed.

(** The parser reads back the events of a stream and drops its terminators. *)
Lemma parse_sse_frames es :
  Forall wf_frame es -> utf8_valid (bytes_of_str (render_all es)) = true ->
  parse_sse (bytes_of_str (render_all es)) = events_of es.
Proof.
  intros Hes Hv. unfold parse_sse. rewrite from_utf8_lossy_valid by done.
  rewrite str_of_bytes_of_str, split_rendered by done. clear Hv. unfold events_of.
  induction Hes as [|e es He Hes IH]; [done|]. simpl. rewrite (sse_frame_event e He), filter_cons.
  destruct (decide (is_done e)), (decide (~ is_done e)); try done. by f_equal.
Qed.

Lemma parse_sse_rendered es :
  Forall wf_event es -> utf8_valid (bytes_of_str (render_all es)) = true ->
  parse_sse (bytes_of_str (render_all es)) = es.
Proof.
  intros Hes Hv. rewrite parse_sse_frames; [|by eapply Forall_impl; [exact Hes|intros e []]|done].
  unfold events_of. clear Hv. induction Hes as [|e es [_ He] Hes IH]; [done|]. by rewrite filter_cons, decide_True, IH.
Qed.

(** * Properties of the reassembly *)

Section streams.
Context `{SerdeJson}.

(** The text an event of an Anthropic stream adds. *)
Definition text_delta (e : SseEvent) : option string :=
  if bool_decide (event_type e = Some "content_block_delta"%string) then
    delta ← from_str (data e) ≫= get "delta";
    if bool_decide (get "type" delta ≫= as_str = Some "text_delta"%string) then get "text" delta ≫= as_str else None
  else None.

Definition with_text (t : string) (a : anthropic) : anthropic :=
  mkAnthropic (an_id a) (an_model a) (an_input a) (an_output a) (an_stop a) (an_text a +:+ t).

Definition concat_all (ts : list string) : string := str_join EmptyString ts.

Lemma anthropic_between a e :
  event_type e <> Some "message_start"%string -> event_type e <> Some "message_delta"%string ->
  anthropic_event a e = match text_delta e with Some t => with_text t a | None => a end.
Proof.
  intros Hs Hd. unfold anthropic_event, text_delta. destruct e as [ty d]. simpl in *.
  destruct (String.eqb_spec (default EmptyString ty) "message_start"); [destruct ty; simpl in *; congruence|].
  destruct (String.eqb_spec (default EmptyString ty) "message_delta"); [destruct ty; simpl in *; congruence|].
  destruct (String.eqb_spec (default EmptyString ty) "content_block_delta") as [E|E].
  - rewrite bool_decide_eq_true_2 by (destruct ty; simpl in *; congruence).
    destruct (from_str d) as [v|]; [|done]. simpl. destruct (get "delta" v) as [delta|]; [|done]. simpl.
    case_bool_decide; [|done]. by destruct (get "text" delta ≫= as_str).
  - rewrite bool_decide_eq_false_2 by (destruct ty; simpl in *; congruence). by destruct (from_str d).
Qed.

Lemma concat_all_cons t ts : concat_all (t :: ts) = t +:+ concat_all ts.
Proof. unfold concat_all. destruct ts; simpl; [by rewrite sapp_nil_r|by rewrite sapp_nil]. Qed.

Lemma concat_all_app ts us : concat_all (ts ++ us) = concat_all ts +:+ concat_all us.
Proof.
  induction ts as [|t ts IH]; [by rewrite sapp_nil|]. rewrite <- app_comm_cons, !concat_all_cons, IH. by rewrite sapp_assoc.
Qed.

Lemma anthropic_texts es a :
  Forall (fun e => event_type e <> Some "message_start"%string /\ event_type e <> Some "message_delta"%string) es ->
  fold_left anthropic_event es a = with_text (concat_all (omap text_delta es)) a.
Proof.
  intros Hes. revert a. induction Hes as [|e es [Hs Hd] Hes IH]; intros a.
  - unfold with_text. simpl. rewrite sapp_nil_r. by destruct a.
  - simpl. rewrite (anthropic_between a e Hs Hd), IH. destruct (text_delta e) as [t|]; [|done].
    rewrite concat_all_cons. unfold with_text. simpl. by rewrite sapp_assoc.
Qed.

(** C37. Anthropic streams: for a stream that starts a message, sends any events
    that are not [message_start] or [message_delta], ends with one [message_delta]
    and possibly more such events, the log records the message's id and model, the
    text deltas of all events in order as one text, the stop reason, and the token
    counts of the two ends. *)
Theorem anthropic_stream_summary ct start mids fin rest vs msg vf :
  let between e := event_type e <> Some "message_start"%string /\ event_type e <> Some "message_delta"%string in
  let es := start :: mids ++ fin :: rest in
  contains "text/event-stream" ct = true ->
  Forall wf_event es -> utf8_valid (bytes_of_str (render_all es)) = true ->
  event_type start = Some "message_start"%string -> from_str (data start) = Some vs -> get "message" vs = Some msg ->
  Forall between mids -> Forall between rest ->
  event_type fin = Some "message_delta"%string -> from_str (data fin) = Some vf ->
  let model := get "model" msg ≫= as_str in
  let input := pointer2 "usage" "input_tokens" msg ≫= as_u64 in
  let output := pointer2 "usage" "output_tokens" vf ≫= as_u64 in
  let text := concat_all (omap text_delta (mids ++ rest)) in
  process_response "messages" (Some ct) (bytes_of_str (render_all es)) =
    (anthropic_json (mkAnthropic (default JNull (get "id" msg)) model input output
                       (default JNull (get "delta" vf ≫= get "stop_reason")) text),
     model, input, output).
Proof.
  intros between es Hct Hwf Hutf Hst Hvs Hmsg Hmids Hrest Hft Hvf model input output text.
  unfold process_response. rewrite Hct, parse_sse_rendered by done. cbn [reassemble_stream]. unfold reassemble_stream.
  cbn -[get]. unfold reassemble_anthropic_messages. subst es. cbn [fold_left].
  rewrite fold_left_app, (anthropic_texts mids) by done. cbn [fold_left]. rewrite (anthropic_texts rest) by done.
  unfold anthropic_event. rewrite Hst, Hvs, Hft, Hvf. cbn -[get pointer2 anthropic_json]. rewrite Hmsg.
  unfold with_text. cbn -[get pointer2 anthropic_json].
  subst text model input output. by rewrite omap_app, sapp_nil, concat_all_app.
Qed.

(** The texts, model, id and usage that a chunk of an OpenAI stream carries. *)
Definition chunk_choices (e : SseEvent) : list json :=
  default [] ((from_str (data e) ≫= get "choices") ≫= as_array).
Definition choice_text (c : json) : option string := (get "delta" c ≫= get "content") ≫= as_str.
Definition choice_finish (c : json) : option json :=
  fr ← get "finish_reason" c; if is_null fr then None else Some fr.
Definition chunk_model (e : SseEvent) : option string := (from_str (data e) ≫= get "model") ≫= as_str.
Definition chunk_id (e : SseEvent) : option json :=
  i ← from_str (data e) ≫= get "id"; if is_null i then None else Some i.
Definition chunk_usage (e : SseEvent) : option json := from_str (data e) ≫= get "usage".

Lemma choices_run cs text finish :
  fold_left openai_choice cs (text, finish) =
    (text +:+ concat_all (omap choice_text cs), default finish (last (omap choice_finish cs))).
Proof.
  revert text finish. induction cs as [|c cs IH]; intros text finish; simpl; [by rewrite sapp_nil_r|].
  rewrite IH. unfold choice_text, choice_finish. f_equal.
  - destruct ((get "delta" c ≫= get "content") ≫= as_str); [by rewrite concat_all_cons, sapp_assoc|done].
  - destruct (get "finish_reason" c) as [fr|]; simpl; [|done]. destruct (is_null fr); [done|].
    rewrite last_cons. by destruct (last _).
Qed.

(** What one chunk does to the accumulators. *)
Lemma openai_step o e :
  let o' := openai_event o e in
  oc_text o' = oc_text o +:+ concat_all (omap choice_text (chunk_choices e)) /\
  oc_finish o' = default (oc_finish o) (last (omap choice_finish (chunk_choices e))) /\
  oc_model o' = or_else (chunk_model e) (oc_model o) /\
  oc_id o' = (if is_null (oc_id o) then default JNull (chunk_id e) else oc_id o) /\
  (oc_input o', oc_output o') =
    match chunk_usage e with
    | Some u => (get "prompt_tokens" u ≫= as_u64, get "completion_tokens" u ≫= as_u64)
    | None => (oc_input o, oc_output o)
    end.
Proof.
  assert (forall v, is_null v = true -> v = JNull) as Hnull by (by intros []).
  unfold openai_event, chunk_choices, chunk_model, chunk_usage, chunk_id. destruct (from_str (data e)) as [v|]; simpl.
  2: { rewrite sapp_nil_r. repeat split. destruct (is_null (oc_id o)) eqn:E; [by apply Hnull|done]. }
  assert ((if is_null (oc_id o) then default (oc_id o) (get "id" v) else oc_id o) =
          (if is_null (oc_id o) then default JNull (i ← get "id" v; if is_null i then None else Some i) else oc_id o)) as Hid.
  { destruct (is_null (oc_id o)) eqn:E; [|done]. rewrite (Hnull _ E). destruct (get "id" v) as [i|]; [|done]. simpl.
    by destruct i. }
  destruct (get "choices" v ≫= as_array) as [cs|]; simpl; [rewrite choices_run|rewrite sapp_nil_r];
    destruct (get "usage" v); simpl; repeat split; try done; by destruct (get "model" v ≫= as_str).
Qed.

(** C38. OpenAI chat streams: for any sequence of frames of one data line each, with the
    [DONE] terminators among them, the log records the contents of all choices of all
    chunks in order as one text, the first id and the last finish reason that are not
    null, the last model named, and the token counts of the last chunk that reports
    usage; the chunks are the frames that are not [DONE]. *)
Theorem openai_stream_summary ct frames :
  contains "text/event-stream" ct = true ->
  Forall wf_frame frames -> utf8_valid (bytes_of_str (render_all frames)) = true ->
  let es := events_of frames in
  let choices := es ≫= chunk_choices in
  let model := last (omap chunk_model es) in
  let usage := default JNull (last (omap chunk_usage es)) in
  let input := get "prompt_tokens" usage ≫= as_u64 in
  let output := get "completion_tokens" usage ≫= as_u64 in
  let id := default JNull (head (omap chunk_id es)) in
  process_response "chat_completions" (Some ct) (bytes_of_str (render_all frames)) =
    (openai_json (mkOpenaiChat id model (concat_all (omap choice_text choices))
                    (default JNull (last (omap choice_finish choices))) input output),
     model, input, output).
Proof.
  intros Hct Hwf Hutf es choices model usage input output id.
  unfold process_response. rewrite Hct, parse_sse_frames by done. fold es. unfold reassemble_stream. cbn [String.eqb].
  change (reassemble_openai_chat es =
    (openai_json (mkOpenaiChat id model (concat_all (omap choice_text choices))
                    (default JNull (last (omap choice_finish choices))) input output), model, input, output)).
  unfold reassemble_openai_chat. set (o := fold_left _ es _).
  enough (oc_text o = concat_all (omap choice_text choices) /\ oc_finish o = default JNull (last (omap choice_finish choices))
    /\ oc_model o = model /\ oc_id o = id /\ (oc_input o, oc_output o) = (input, output)) as (Ht & Hf & Hm & Hid & Hu).
  { injection Hu as Hi Ho. rewrite <- Ht, <- Hf, <- Hm, <- Hid, <- Hi, <- Ho. by destruct o. }
  subst o choices model input output usage id. clearbody es. clear -es. induction es as [|e es IH] using rev_ind; [done|].
  destruct IH as (Ht & Hf & Hm & Hid & Hu). rewrite fold_left_app. cbn [fold_left].
  edestruct (openai_step (fold_left openai_event es (mkOpenaiChat JNull None EmptyString JNull None None)) e)
    as (Ht' & Hf' & Hm' & Hid' & Hu'). cbn zeta in *. rewrite Ht', Hf', Hm', Hid', Hu', Ht, Hf, Hm, Hid.
  clear Ht' Hf' Hm' Hid' Hu' Ht Hf Hm Hid.
  rewrite bind_app, !omap_app. simpl ([e] ≫= _). rewrite app_nil_r, concat_all_app. split; [done|]. split; [|split; [|split]].
  - rewrite last_app. by destruct (last (omap choice_finish (chunk_choices e))).
  - simpl. destruct (chunk_model e); simpl; [by rewrite last_snoc|by rewrite app_nil_r].
  - simpl. destruct (omap chunk_id es) as [|i ids] eqn:E; simpl.
    + by destruct (chunk_id e).
    + assert (is_null i = false) as ->; [|done]. assert (i ∈ omap chunk_id es) as Hi by (rewrite E; left).
      apply list_elem_of_omap in Hi as (e' & _ & Hi). unfold chunk_id in Hi.
      destruct (from_str (data e') ≫= get "id") as [i'|]; simpl in Hi; [|done]. destruct (is_null i') eqn:En; congruence.
  - simpl. destruct (chunk_usage e); simpl; [by rewrite last_snoc|by rewrite app_nil_r, Hu].
Qed.

End streams.

(** * Examples *)

(** A parser that knows the texts of a table. *)
Definition table_json (t : list (string * json)) : SerdeJson := {|
  json_to_string _ := Err "unsupported"%string;
  json_from_slice bs := match field (str_of_bytes bs) t with Some v => Ok v | None => Err "unknown"%string end;
  de_error_response _ := Err "unsupported"%string;
  de_instance_info _ := Err "unsupported"%string;
|}.

Definition example_msg : json :=
  JObject [("id", JString "m1"); ("model", JString "m"); ("usage", JObject [("input_tokens", jint 150)])]%string.
Definition example_end : json :=
  JObject [("delta", JObject [("stop_reason", JString "end_turn")]);
           ("usage", JObject [("output_tokens", jint 85)])]%string.

Definition example_json : SerdeJson := table_json
  [ ("{start}", JObject [("message", example_msg)]);
    ("{hello}", JObject [("delta", JObject [("type", JString "text_delta"); ("text", JString "Hello ")])]);
    ("{world}", JObject [("delta", JObject [("type", JString "text_delta"); ("text", JString "world")])]);
    ("{end}", example_end);
    ("{hi}", JObject [("id", JString "c1"); ("model", JString "m");
                      ("choices", JArray [JObject [("delta", JObject [("content", JString "Hi")])]])]);
    ("{stop}", JObject [("choices", JArray [JObject [("delta", JObject [("content", JString " there")]);
                                                     ("finish_reason", JString "stop")]]);
                        ("usage", JObject [("prompt_tokens", jint 10); ("completion_tokens", jint 5)])]) ]%string.

Definition braced (ty : option string) (s : string) : SseEvent := mkSseEvent ty ("{" +:+ s +:+ "}").

Lemma braced_wf ty s :
  match ty with Some t => all_graphic t = true | None => True end -> all_graphic s = true -> wf_event (braced ty s).
Proof.
  intros Ht Hs. unfold wf_event, wf_frame, is_done, braced. cbn [event_type data]. split; [split; [done|]; split|].
  - split; [by eexists "{"%char, _; rewrite sapp_cons, sapp_nil|].
    by eexists ("{" +:+ s)%string, "}"%char; rewrite sapp_assoc.
  - rewrite !no_nl_app. by rewrite (graphic_no_nl s Hs).
  - by rewrite sapp_cons.
Qed.

Lemma anthropic_stream_summary_witness :
  let ev ty s := braced (Some ty) s in
  let es := [ev "message_start" "start"; ev "content_block_delta" "hello"; ev "ping" "ping";
             ev "content_block_delta" "world"; ev "message_delta" "end"; ev "message_stop" "stop"]%string in
  exists v, process_response (H := example_json) "messages" (Some "text/event-stream; charset=utf-8"%string)
    (bytes_of_str (render_all es)) = (v, Some "m"%string, Some 150, Some 85) /\
  get "content" v = Some (JArray [JObject [("type", JString "text"); ("text", JString "Hello world")]%string]).
Proof.
  intros ev es.
  pose proof (anthropic_stream_summary (H := example_json) "text/event-stream; charset=utf-8"
    (ev "message_start" "start") [ev "content_block_delta" "hello"; ev "ping" "ping"; ev "content_block_delta" "world"]
    (ev "message_delta" "end") [ev "message_stop" "stop"] (JObject [("message", example_msg)]) example_msg example_end
    eq_refl)%string as Hs.
  eexists. split; [apply Hs; clear Hs|]; try (vm_compute; reflexivity).
  - repeat (apply Forall_cons_2; [by apply braced_wf|]). apply Forall_nil_2.
  - repeat constructor; intros E; discriminate E.
  - repeat constructor; intros E; discriminate E.
Defined.

(** A complete stream, with its terminator. *)
Lemma openai_stream_summary_witness :
  let frames := [braced None "hi"; braced None "stop"; mkSseEvent None "[DONE]"]%string in
  exists v, process_response (H := example_json) "chat_completions" (Some "text/event-stream"%string)
    (bytes_of_str (render_all frames)) = (v, Some "m"%string, Some 10, Some 5) /\ get "id" v = Some (JString "c1").
Proof.
  intros frames. pose proof (openai_stream_summary (H := example_json) "text/event-stream" frames eq_refl)%string as Hs.
  eexists. split; [apply Hs; clear Hs|]; try (vm_compute; reflexivity).
  do 2 (apply Forall_cons_2; [by apply braced_wf|]). apply Forall_cons_2; [|apply Forall_nil_2].
  split; [exact I|]. split; [|reflexivity]. split; [by eexists "["%char, _|]. by exists "[DONE"%string, "]"%char.
Defined.
