(* ===== verification/ProxyLog.v ===== *)
(** What the two proxies share: the lookup of the VM of a request, the observation of a server state by which their
    properties are stated (the network log and the registry), and the lemmas that
    step over the calls that leave it alone. *)

From S2P Require Import Prelude RustStr Addr World Json SimWorld Events.
From S2P Require Import Registry Service AuthClient.
From Stdlib Require Import ZArith Lia Ascii String.
From Stdlib Require Import Strings.Byte.
From stdpp Require Import base gmap strings list.

(** The first step of both proxies: the time, an id for the log, and the VM that has
    the source address. *)
Definition proxy_lookup {W : Type} `{Clock W} `{UuidGen W} `{UuidText} `{HashOrder} (peer_ip : IpAddr)
  : ST (Server * W) (Z * string * option Uuid) :=
  let! start := on_w instant_now in
  let! corr := on_w new_v4 in
  let! found := read_registry (find_by_ip peer_ip) in
  ret (start, uuid_string corr, found).

Section seen.
Context {W X : Type} `{Clock W} `{Timestamps W} `{UuidGen W} `{UuidText} `{SerdeJson} `{HashOrder} `{AuthService W} `{!NetTrace W X}.

Definition seen (s : Server * W) : list (net_event X) * VmRegistry := (net_log s.2, vm_registry s.1).

Lemma seen_on_w {A} (m : ST W A) : keeps net_log m -> keeps seen (on_w m).
Proof. intros Hm [s w]. specialize (Hm w). unfold on_w, seen in *. destruct (m w) as [a w']. simpl in *. by rewrite Hm. Qed.

Lemma seen_emit_inner t c v k d b j : keeps seen (on_events (emit_inner t c v k d b j)).
Proof.
  intros [s w]. unfold on_events, emit_inner, seen. simpl. destruct (should_persist _ _); [|done].
  pose proof (log_ts w) as Hts. destruct (rfc3339_now w) as [ts w1]. simpl in *. by rewrite Hts.
Qed.

(** The lookup finds in the registry of that moment, and changes nothing seen. *)
Lemma proxy_lookup_seen peer_ip (s : Server * W) :
  exists start corr s1, proxy_lookup peer_ip s = ((start, corr, find_by_ip peer_ip (vm_registry s.1)), s1) /\ seen s1 = seen s.
Proof.
  destruct s as [sv w]. unfold proxy_lookup, bind, on_w, read_registry, ret. pose proof (log_now w) as Hn.
  destruct (instant_now w) as [t w1]. pose proof (log_v4 w1) as Hv. destruct (new_v4 w1) as [c w2]. simpl in *.
  eexists t, _, _. split; [done|]. unfold seen. simpl. by rewrite Hv, Hn.
Qed.

(** A step that leaves the observation alone. *)
Lemma seen_step {A B} (m : ST (Server * W) A) (k : A -> ST (Server * W) B) s :
  keeps seen m -> exists a s1, seen s1 = seen s /\ bind m k s = k a s1.
Proof. intros Hm. specialize (Hm s). unfold bind. destruct (m s) as [a s1]. by exists a, s1. Qed.

(** A step that is an authorization. *)
Lemma authorize_step {B} (m : ST W (result (bool * string) error)) client vm_id p
    (k : result (bool * string) error -> ST (Server * W) B) s :
  (forall w, authorized client vm_id p w (m w)) ->
  exists b reason evs s1, bind (on_w m) k s = k (Ok (b, reason)) s1 /\
    seen s1 = ((seen s).1 ++ evs, (seen s).2) /\ nothing_forwarded evs /\ (b = true -> allowed_by client vm_id p evs).
Proof.
  intros Hm. destruct s as [sv w]. destruct (Hm w) as (b & reason & evs & Hr & Hl & Hn & Hb).
  exists b, reason, evs, (sv, (m w).2). unfold bind, on_w, seen. destruct (m w) as [r w1]. simpl in *. subst r.
  by rewrite Hl.
Qed.

Lemma keeps_seen_ret {A} (a : A) : keeps seen (ret a).
Proof. by intros s. Qed.

Lemma keeps_seen_bind {A B} (m : ST (Server * W) A) (k : A -> ST (Server * W) B) :
  keeps seen m -> (forall a, keeps seen (k a)) -> keeps seen (bind m k).
Proof. intros Hm Hk s. unfold bind. specialize (Hm s). destruct (m s) as [a s1]. simpl in *. by rewrite Hk. Qed.

End seen.

#[export] Hint Resolve seen_on_w seen_emit_inner keeps_seen_ret log_now log_ts log_v4 : rs.
#[export] Hint Extern 1 (keeps seen (on_events (emit _ _ _ _ _))) => apply seen_emit_inner : rs.
#[export] Hint Extern 1 (keeps seen (on_events (emit_with_duration _ _ _ _ _ _ _))) => apply seen_emit_inner : rs.

(** Run the next step, one that leaves the observation alone. *)
Ltac seen_next a s1 Hs :=
  match goal with
  | |- context [bind ?m ?k ?s] =>
      let Hk := fresh in
      assert (keeps seen m) as Hk by eauto with rs;
      destruct (seen_step m k s Hk) as (a & s1 & Hs & ->); clear Hk
  end.

(** Run the next step, an authorization for which [H] holds. *)
Ltac auth_next H b reason evs s1 Hs Hn Hb :=
  match goal with
  | |- context [bind (on_w ?m) ?k ?s] =>
      destruct (authorize_step m _ _ _ k s H) as (b & reason & evs & s1 & -> & Hs & Hn & Hb)
  end.

(** * An example host that keeps the log *)

Definition logged_host (X : Type) : Type := sim * list (net_event X).

Section host.
Context {X : Type}.

Definition on_sim {A} (m : ST sim A) : ST (logged_host X) A := fun '(s, l) => let '(a, s') := m s in (a, (s', l)).

#[export] Instance logged_clock : Clock (logged_host X) := {|
  instant_now := on_sim instant_now; system_now := on_sim system_now; sleep_ms ms := on_sim (sleep_ms ms) |}.
#[export] Instance logged_ts : Timestamps (logged_host X) := {|
  rfc3339_now := on_sim rfc3339_now; rfc3339_long := on_sim rfc3339_long |}.
#[export] Instance logged_uuid : UuidGen (logged_host X) := {| new_v4 := on_sim new_v4 |}.
#[export] Instance logged_fs : FileSystem (logged_host X) := {|
  path_exists p := on_sim (path_exists p); remove_file p := on_sim (remove_file p);
  write_file p c := on_sim (write_file p c); read_to_string p := on_sim (read_to_string p) |}.
#[export] Instance logged_auth : AuthService (logged_host X) := {|
  auth_connect a := on_sim (auth_connect a);
  auth_call r := fun '(s, l) => let '(a, s') := auth_call r s in (a, (s', l ++ [Asked r a])) |}.

Lemma on_sim_keeps {A} (m : ST sim A) : keeps (S := logged_host X) snd (on_sim m).
Proof. intros [s l]. unfold on_sim. by destruct (m s). Qed.

#[export] Instance logged_trace : NetTrace (logged_host X) X.
Proof.
  refine {| net_log := snd |}; try (intros; apply on_sim_keeps).
  intros r [s l]. simpl. by destruct (scripted _ _ s).
Defined.

End host.
