(* ===== verification/DnsProxy.v ===== *)
(** clawpot-server/src/proxy/dns_proxy.rs: the DNS proxy.  Queries from registered
    VMs that the authorization service allows are forwarded to the upstream
    server, all others are refused; TCP queries are framed by a length. *)

From S2P Require Import Prelude RustStr Addr World Json SimWorld IpAllocator Lifecycle FcConfig.
From S2P Require Import VmManager Network Events Registry AgentClient Service AuthClient ProxyLog.
From Stdlib Require Import ZArith Lia Ascii String.
From Stdlib Require Import Strings.Byte.
From stdpp Require Import base gmap strings list.

Open Scope nat_scope.

(** * Messages *)

(** [u16::from_be_bytes([packet[i], packet[i + 1]])] *)
Definition u16_at (packet : list byte) (i : nat) : outcome Z :=
  let$ a := idx packet i in let$ b := idx packet (i + 1) in Done (u16_be a b).

Definition qtype_str (qtype : Z) : string :=
  match qtype with
  | 1 => "A"
  | 2 => "NS"
  | 5 => "CNAME"
  | 6 => "SOA"
  | 15 => "MX"
  | 16 => "TXT"
  | 28 => "AAAA"
  | 33 => "SRV"
  | 255 => "ANY"
  | _ => "OTHER"
  end%Z%string.

(** The loop on the labels of the name: the labels and the position after it.
    Every turn advances, so the length of the packet bounds their number. *)
Fixpoint parse_labels (fuel : nat) (packet : list byte) (pos : nat) (labels : list string)
  : outcome (option (list string * nat)) :=
  match fuel with
  | O => NoFuel
  | S fuel' =>
      if length packet <=? pos then Done None
      else
        let$ b := idx packet pos in
        let label_len := Z.to_nat (u8 b) in
        if label_len =? 0 then Done (Some (labels, pos + 1))
        else
          let pos := pos + 1 in
          if length packet <? pos + label_len then Done None
          else
            let$ label := slice packet pos (pos + label_len) in
            parse_labels fuel' packet (pos + label_len) (labels ++ [from_utf8_lossy label])
  end.

(** [parse_dns_question(packet) -> Option<(String, String)>] *)
Definition parse_dns_question (packet : list byte) : outcome (option (string * string)) :=
  if length packet <? 12 then Done None
  else
    let$ qdcount := u16_at packet 4 in
    if (qdcount =? 0)%Z then Done None
    else
      let$ parsed := parse_labels (S (length packet)) packet 12 [] in
      match parsed with
      | None => Done None
      | Some (labels, pos) =>
          let name := str_join "." labels in
          if length packet <? pos + 2 then Done (Some (name, "unknown"%string))
          else
            let$ qtype := u16_at packet pos in
            Done (Some (name, qtype_str qtype))
      end.

(** [build_refused_response(query) -> Vec<u8>] *)
Definition build_refused_response (query : list byte) : list byte :=
  match query with
  | b0 :: b1 :: b2 :: b3 :: b4 :: b5 :: _ :: _ :: _ :: _ :: _ :: _ :: rest =>
      [b0; b1; to_u8 (Z.land (Z.lor (u8 b2) 0x80) 0xFD); to_u8 (Z.lor (Z.land (u8 b3) 0xF0) 0x05); b4; b5;
       x00; x00; x00; x00; x00; x00] ++ rest
  | _ => []
  end.

(** * TCP framing *)

Section framing.
Context {T : Type} `{ByteSource T} `{ByteSink T}.

(** [read_dns_length(reader)]; the context put on the error is added by the caller *)
Definition read_dns_length : ST T (result Z io_error) :=
  let? len_buf := read_exact 2 in
  ret (Ok (u16_be (default x00 (len_buf !! 0)) (default x00 (len_buf !! 1)))).

(** [write_dns_message(writer, message)] *)
Definition write_dns_message (message : list byte) : ST T (result unit error) :=
  let len := be_u16 (wrap16 (Z.of_nat (length message))) in
  do? st_map (map_err (fun e => ["Failed to write DNS TCP length prefix"%string; io_error_msg e])) (write_all len) in
  do? st_map (map_err (fun e => ["Failed to write DNS TCP message"%string; io_error_msg e])) (write_all message) in
  do? st_map (map_err (fun e => ["Failed to flush DNS TCP message"%string; io_error_msg e])) flush in
  ret (Ok tt).

End framing.

(** * Queries *)

(** The socket to the upstream server.  [udp_recv] is the [recv] under the five
    second timeout: the outer error is the timeout. *)
Class Upstream (W : Type) := {
  udp_bind : ST W (result unit string);
  udp_send : list byte -> ST W (result unit string);
  udp_recv : ST W (result (result (list byte) string) string);
}.

Section proxy.
Context {W : Type} `{Clock W} `{Timestamps W} `{UuidGen W} `{UuidText} `{SerdeJson} `{HashOrder} `{AuthService W}
  `{Upstream W}.
Context (auth : AuthClient).

(** [resp_buf[3] & 0x0F] when there are four bytes *)
Definition rcode_of (response : list byte) : option Z := (fun b => Z.land (u8 b) 0x0F) <$> response !! 3.

(** [process_dns_query], steps 6 and 7: send the packet upstream and log the answer. *)
Definition forward_upstream (packet : list byte) (vm_id corr_id : string) (start : Z)
  : ST (Server * W) (result (list byte) error) :=
  let! sent := on_w (udp_send packet) in
  match sent with
  | Err e => ret (Err ["Failed to send to upstream DNS"%string; e])
  | Ok _ =>
      let! received := on_w udp_recv in
      match received with
      | Err e => ret (Err ["DNS upstream timeout"%string; e])
      | Ok (Err e) => ret (Err ["Failed to receive DNS response"%string; e])
      | Ok (Ok response) =>
          let! now := on_w instant_now in
          let rcode := rcode_of response in
          do! on_events (emit_with_duration "network.dns.response" "network" (Some vm_id) (Some corr_id)
                (now - start)%Z (Some (bool_decide (rcode = Some 0%Z)))
                (JObject [("rcode", jopt jint rcode); ("resp_size", jint (Z.of_nat (length response)));
                          ("duration_ms", jint (now - start))]%string)) in
          ret (Ok response)
      end
  end.

(** Steps 2 to 4: parse, log, and ask the authorization service. *)
Definition dns_authorize (packet : list byte) (vm_id corr_id : string) : ST (Server * W) (outcome bool) :=
  match parse_dns_question packet with
  | Panic => ret Panic
  | NoFuel => ret NoFuel
  | Done question =>
      let '(query_name, query_type) := default ("unknown", "unknown")%string question in
      do! on_events (emit "network.dns.request" "network" (Some vm_id) (Some corr_id)
            (JObject [("query_name", JString query_name); ("query_type", JString query_type)]%string)) in
      let! auth_start := on_w instant_now in
      let! answer := on_w (authorize_dns auth 0 vm_id query_name query_type) in
      let '(allowed, reason) := match answer with Ok ar => ar | Err _ => (false, "auth error"%string) end in
      let! auth_now := on_w instant_now in
      do! on_events (emit "network.dns.authorized" "network" (Some vm_id) (Some corr_id)
            (JObject [("allowed", JBool allowed); ("reason", JString reason);
                      ("latency_ms", jint (auth_now - auth_start))]%string)) in
      ret (Done allowed)
  end.

(** Step 5: the refusal of a denied query. *)
Definition dns_deny (packet : list byte) (vm_id corr_id : string) (start : Z) : ST (Server * W) (result (list byte) error) :=
  let! now := on_w instant_now in
  do! on_events (emit_with_duration "network.dns.response" "network" (Some vm_id) (Some corr_id)
        (now - start)%Z (Some false)
        (JObject [("rcode", jint 5); ("answers", JString "REFUSED"); ("duration_ms", jint (now - start))]%string)) in
  ret (Ok (build_refused_response packet)).

(** [process_dns_query(packet, peer_addr, registry, events, auth, upstream_socket)] *)
Definition process_dns_query (packet : list byte) (peer_ip : IpAddr) : ST (Server * W) (outcome (result (list byte) error)) :=
  let! looked := proxy_lookup peer_ip in
  let '(start, corr_id, found) := looked in
  match found with
  | None => ret (Done (Ok (build_refused_response packet)))
  | Some id =>
      let vm_id := uuid_string id in
      let! decision := dns_authorize packet vm_id corr_id in
      match decision with
      | Panic => ret Panic
      | NoFuel => ret NoFuel
      | Done allowed =>
          if negb allowed then st_map Done (dns_deny packet vm_id corr_id start)
          else st_map Done (forward_upstream packet vm_id corr_id start)
      end
  end.

End proxy.

Section connection.
Context {W T : Type} `{Clock W} `{Timestamps W} `{UuidGen W} `{UuidText} `{SerdeJson} `{HashOrder} `{AuthService W}
  `{Upstream W} `{ByteSource T} `{ByteSink T}.
Context (auth : AuthClient).

(** The server and the world, or the stream, alone. *)
Definition on_server {A} (m : ST (Server * W) A) : ST (Server * W * T) A :=
  fun '(s, t) => let '(a, s') := m s in (a, (s', t)).
Definition on_stream {A} (m : ST T A) : ST (Server * W * T) A :=
  fun '(s, t) => let '(a, t') := m t in (a, (s, t')).

(** [handle_tcp_dns_connection(stream, peer_addr, ...)]: [fuel] messages at most *)
Fixpoint handle_tcp_dns_connection (fuel : nat) (peer_ip : IpAddr) : ST (Server * W * T) (outcome (result unit error)) :=
  match fuel with
  | O => ret NoFuel
  | S fuel' =>
      let! len := on_stream read_dns_length in
      match len with
      | Err e =>
          if bool_decide (io_error_kind e = UnexpectedEof) then ret (Done (Ok tt))
          else ret (Done (Err ["Failed to read DNS TCP length prefix"%string; io_error_msg e]))
      | Ok msg_len =>
          if (msg_len =? 0)%Z then handle_tcp_dns_connection fuel' peer_ip
          else
            let! msg := on_stream (read_exact (Z.to_nat msg_len)) in
            match msg with
            | Err e => ret (Done (Err ["Failed to read TCP DNS message"%string; io_error_msg e]))
            | Ok msg_buf =>
                let! bound := on_server (on_w udp_bind) in
                match bound with
                | Err e => ret (Done (Err ["Failed to bind upstream UDP socket for TCP DNS"%string; e]))
                | Ok _ =>
                    let! response := on_server (process_dns_query auth msg_buf peer_ip) in
                    match response with
                    | Done (Ok bytes) =>
                        let! written := on_stream (write_dns_message bytes) in
                        match written with
                        | Ok _ => handle_tcp_dns_connection fuel' peer_ip
                        | Err e => ret (Done (Err e))
                        end
                    | Done (Err e) => ret (Done (Err e))
                    | Panic => ret Panic
                    | NoFuel => ret NoFuel
                    end
                end
            end
      end
  end.

End connection.

(** * Properties of the messages *)

Lemma u16_at_ok packet i : i + 1 < length packet -> exists n, u16_at packet i = Done n.
Proof.
  intros Hi. unfold u16_at. destruct (idx_lt packet i) as (x & -> & _); [lia|].
  destruct (idx_lt packet (i + 1)) as (y & -> & _); [lia|]. simpl. eauto.
Qed.

Lemma parse_labels_total fuel packet pos labels :
  0 < fuel -> length packet < fuel + pos -> exists o, parse_labels fuel packet pos labels = Done o.
Proof.
  revert pos labels. induction fuel as [|fuel IH]; intros pos labels Hp Hf; [lia|]. cbn [parse_labels].
  destruct (Nat.leb_spec (length packet) pos); [by eauto|].
  destruct (idx_lt packet pos) as (b & -> & _); [lia|]. cbn [obind].
  destruct (Nat.eqb_spec (Z.to_nat (u8 b)) 0); [by eauto|].
  destruct (Nat.ltb_spec (length packet) (pos + 1 + Z.to_nat (u8 b))); [by eauto|].
  rewrite slice_ok by lia. cbn [obind]. apply IH; lia.
Qed.

(** DNS parsing is total: on every byte string a VM can send,
    [parse_dns_question] returns (it never indexes out of range, and its loop
    ends). *)
Lemma parse_dns_question_total packet : exists o, parse_dns_question packet = Done o.
Proof.
  unfold parse_dns_question. destruct (Nat.ltb_spec (length packet) 12); [by eauto|].
  destruct (u16_at_ok packet 4) as [n ->]; [lia|]. cbn [obind]. destruct (n =? 0)%Z; [by eauto|].
  destruct (parse_labels_total (S (length packet)) packet 12 []) as [o ->]; [lia|lia|]. cbn [obind].
  destruct o as [[labels pos]|]; [|by eauto]. destruct (Nat.ltb_spec (length packet) (pos + 2)); [by eauto|].
  destruct (u16_at_ok packet pos) as [t ->]; [lia|]. cbn [obind]. eauto.
Qed.

(** A query: header with question count, labels, root label, type and what follows. *)
Definition label_bytes (l : list byte) : list byte := to_u8 (Z.of_nat (length l)) :: l.
Definition query_bytes (head : list byte) (qdcount : Z) (counts : list byte) (labels : list (list byte)) (qtype : Z)
    (rest : list byte) : list byte :=
  head ++ be_u16 qdcount ++ counts ++ concat (map label_bytes labels) ++ [x00] ++ be_u16 qtype ++ rest.

Lemma idx_here (l r : list byte) b : idx (l ++ b :: r) (length l) = Done b.
Proof. unfold idx. rewrite lookup_app_r by lia. by rewrite Nat.sub_diag. Qed.

Lemma u16_at_app l n r : (0 <= n < 65536)%Z -> u16_at (l ++ be_u16 n ++ r) (length l) = Done n.
Proof.
  intros Hn. unfold u16_at. destruct (u16_be_be_u16 n Hn) as (a & b & -> & E).
  change (l ++ [a; b] ++ r) with (l ++ a :: b :: r). rewrite (idx_here l (b :: r) a). cbn [obind].
  change (l ++ a :: b :: r) with (l ++ [a] ++ b :: r). rewrite app_assoc.
  replace (length l + 1) with (length (l ++ [a])) by (rewrite length_app; simpl; lia).
  rewrite (idx_here (l ++ [a]) r b). cbn [obind]. by rewrite E.
Qed.

Lemma parse_labels_run labels : forall fuel l acc rest,
  Forall (fun x => 0 < length x /\ (Z.of_nat (length x) < 256)%Z /\ utf8_valid x = true) labels ->
  length labels < fuel ->
  parse_labels fuel (l ++ concat (map label_bytes labels) ++ x00 :: rest) (length l) acc =
    Done (Some (acc ++ map str_of_bytes labels, length l + length (concat (map label_bytes labels)) + 1)).
Proof.
  induction labels as [|x labels IH]; intros fuel l acc rest HF Hf; (destruct fuel as [|fuel]; [simpl in Hf; lia|]);
    cbn [parse_labels map concat].
  - rewrite app_nil_l, app_nil_r, Nat.add_0_r.
    rewrite (proj2 (Nat.leb_gt _ _)) by (rewrite length_app; simpl; lia). rewrite idx_here. done.
  - inversion HF as [|? ? (Hpos & H256 & Hu) HF']; subst. set (tl := concat (map label_bytes labels)) in *.
    set (n := to_u8 (Z.of_nat (length x))).
    assert (En : Z.to_nat (u8 n) = length x) by (unfold n; rewrite u8_to_u8, Z.mod_small; lia).
    assert (El : l ++ (label_bytes x ++ tl) ++ x00 :: rest = (l ++ [n]) ++ x ++ tl ++ x00 :: rest).
    { unfold label_bytes. fold n. cbn [app]. rewrite <- !app_assoc. done. }
    assert (Ei : idx (l ++ (label_bytes x ++ tl) ++ x00 :: rest) (length l) = Done n).
    { rewrite El, <- app_assoc. apply idx_here. }
    rewrite (proj2 (Nat.leb_gt _ _)) by (rewrite !length_app; simpl; lia).
    rewrite Ei. cbn [obind]. rewrite En. rewrite (proj2 (Nat.eqb_neq _ _)) by lia.
    rewrite El. assert (E1 : length l + 1 = length (l ++ [n])) by (rewrite length_app; simpl; lia). rewrite E1.
    rewrite (proj2 (Nat.ltb_ge _ _)) by (rewrite (length_app (l ++ [n])), (length_app x); lia).
    rewrite slice_ok by (rewrite ?(length_app (l ++ [n])), ?(length_app x); lia). cbn [obind].
    rewrite drop_app_length.
    replace (length (l ++ [n]) + length x - length (l ++ [n])) with (length x) by lia. rewrite take_app_length.
    rewrite from_utf8_lossy_valid by done.
    rewrite (app_assoc (l ++ [n])), <- (length_app (l ++ [n])). rewrite IH; [|done|simpl in Hf; lia].
    rewrite <- app_assoc. cbn [app map]. do 3 f_equal. rewrite !length_app. unfold label_bytes. simpl. lia.
Qed.

(** C34. DNS parsing reads back what a resolver asks: from a query whose labels are
    valid UTF-8 of 1 to 255 bytes it returns the labels joined by dots and the
    name of the query type, whatever the rest of the header and the bytes after
    the question are. *)
Theorem parse_dns_question_round_trip head qdcount counts labels qtype rest :
  length head = 4 -> (0 < qdcount < 65536)%Z -> length counts = 6 -> (0 <= qtype < 65536)%Z ->
  Forall (fun x => 0 < length x /\ (Z.of_nat (length x) < 256)%Z /\ utf8_valid x = true) labels ->
  parse_dns_question (query_bytes head qdcount counts labels qtype rest) =
    Done (Some (str_join "." (map str_of_bytes labels), qtype_str qtype)).
Proof.
  intros Hh Hq Hc Ht HF. set (p := query_bytes head qdcount counts labels qtype rest).
  assert (Hlen : length p = 12 + length (concat (map label_bytes labels)) + 3 + length rest).
  { unfold p, query_bytes. rewrite !length_app. simpl. lia. }
  unfold parse_dns_question. rewrite (proj2 (Nat.ltb_ge _ _)) by lia.
  assert (E1 : u16_at p 4 = Done qdcount) by (rewrite <- Hh; apply u16_at_app; lia).
  rewrite E1. cbn [obind]. rewrite (proj2 (Z.eqb_neq _ _)) by lia.
  set (hdr := head ++ be_u16 qdcount ++ counts).
  assert (Hhdr : 12 = length hdr) by (unfold hdr; rewrite !length_app; simpl; lia).
  assert (Ep : p = hdr ++ concat (map label_bytes labels) ++ x00 :: be_u16 qtype ++ rest).
  { unfold p, query_bytes, hdr. by rewrite <- !app_assoc. }
  assert (Hn : length labels <= length (concat (map label_bytes labels))).
  { clear. induction labels as [|x labels IH]; [done|]. cbn [map concat length]. rewrite length_app. simpl. lia. }
  assert (E2 : parse_labels (S (length p)) p 12 [] =
    Done (Some (map str_of_bytes labels, 12 + length (concat (map label_bytes labels)) + 1))).
  { rewrite Hhdr, Ep. rewrite parse_labels_run; [done|done|]. rewrite <- Ep. lia. }
  rewrite E2. cbn [obind]. rewrite (proj2 (Nat.ltb_ge _ _)) by lia.
  assert (E3 : u16_at p (12 + length (concat (map label_bytes labels)) + 1) = Done qtype).
  { replace (12 + length (concat (map label_bytes labels)) + 1) with (length (hdr ++ concat (map label_bytes labels) ++ [x00]))
      by (rewrite !length_app; simpl; lia).
    replace p with ((hdr ++ concat (map label_bytes labels) ++ [x00]) ++ be_u16 qtype ++ rest)
      by (rewrite Ep, <- !app_assoc; done). by apply u16_at_app. }
  by rewrite E3.
Qed.

Lemma refused_flags b : let r := to_u8 (Z.land (Z.lor (u8 b) 0x80) 0xFD) in
  (Z.land (u8 r) 0x80 = 0x80 /\ Z.land (u8 r) 0x02 = 0 /\ Z.land (u8 r) 0x7D = Z.land (u8 b) 0x7D)%Z.
Proof. destruct b; vm_compute; done. Qed.

Lemma refused_rcode b : let r := to_u8 (Z.lor (Z.land (u8 b) 0xF0) 0x05) in
  (Z.land (u8 r) 0x0F = 5 /\ Z.land (u8 r) 0xF0 = Z.land (u8 b) 0xF0)%Z.
Proof. destruct b; vm_compute; done. Qed.

(** C35. The refusal: to a query with a full header the answer has the same length, id,
    question count and question section; it is marked as a response with code
    REFUSED and has no records in its other sections.  Of the flags, only the
    response and truncation bits change: the authoritative bit is kept. *)
Theorem build_refused_response_shape query :
  if length query <? 12 then build_refused_response query = []
  else
    let resp := build_refused_response query in
    length resp = length query /\ take 2 resp = take 2 query /\
    drop 12 resp = drop 12 query /\ take 2 (drop 4 resp) = take 2 (drop 4 query) /\
    take 6 (drop 6 resp) = replicate 6 x00 /\
    exists q2 q3 r2 r3, query !! 2 = Some q2 /\ query !! 3 = Some q3 /\ resp !! 2 = Some r2 /\ resp !! 3 = Some r3 /\
      (Z.land (u8 r2) 0x80 = 0x80 /\ Z.land (u8 r2) 0x02 = 0 /\ Z.land (u8 r2) 0x7D = Z.land (u8 q2) 0x7D /\
       Z.land (u8 r3) 0x0F = 5 /\ Z.land (u8 r3) 0xF0 = Z.land (u8 q3) 0xF0)%Z.
Proof.
  do 12 (destruct query as [|? query]; [done|]). cbn [length Nat.ltb Nat.leb build_refused_response app].
  repeat (split; [done|]). do 4 eexists. repeat (split; [reflexivity|]).
  destruct (refused_flags b1) as (H1 & H2 & H3). destruct (refused_rcode b2) as (H4 & H5). done.
Qed.

(** TCP framing: what [write_dns_message] writes is the message after its length
    on 16 bits; the reader gets that length and, for a message of less than 64
    KiB, then reads exactly the message and leaves what follows. *)
Theorem dns_framing_round_trip (message rest : list byte) :
  exists wire, write_dns_message message ([] : list byte) = (Ok tt, wire) /\
    let n := (Z.of_nat (length message) mod 65536)%Z in
    read_dns_length (wire ++ rest) = (Ok n, message ++ rest) /\
    ((Z.of_nat (length message) < 65536)%Z -> read_exact (Z.to_nat n) (message ++ rest) = (Ok message, rest)).
Proof.
  set (n := (Z.of_nat (length message) mod 65536)%Z).
  assert (0 <= n < 65536)%Z as Hn by (apply Z.mod_pos_bound; lia).
  exists (be_u16 n ++ message). split; [done|]. cbn zeta. split.
  - destruct (u16_be_be_u16 n Hn) as (a & b & -> & E). rewrite <- E.
    unfold read_dns_length, bind_ok, bind, ret. cbn [read_exact slice_source].
    rewrite (proj2 (Nat.leb_le _ _)) by (simpl; lia). cbn. by rewrite ?take_0, ?drop_0.
  - intros Hl. subst n. rewrite Z.mod_small, Nat2Z.id by lia. cbn [read_exact slice_source].
    rewrite (proj2 (Nat.leb_le _ _)) by (rewrite length_app; lia). by rewrite take_app_length, drop_app_length.
Qed.

(** * Properties of the proxy *)

(** Packets handed to the upstream socket are in the log. *)
Class UpstreamTrace (W : Type) `{NetTrace W (list byte), Upstream W} := {
  log_send : forall p w, net_log (udp_send p w).2 = net_log w ++ [Forwarded p];
  log_recv : keeps net_log udp_recv;
  log_bind : keeps net_log udp_bind;
}.
#[export] Hint Resolve log_recv log_bind : rs.

Section firewall.
Context {W : Type} `{Clock W} `{Timestamps W} `{UuidGen W} `{UuidText} `{SerdeJson} `{HashOrder} `{AuthService W}
  `{!NetTrace W (list byte)} `{Upstream W} `{!UpstreamTrace W}.
Context (auth : AuthClient).

Lemma upstream_log packet vm_id corr_id start (s : Server * W) :
  (seen (forward_upstream packet vm_id corr_id start s).2).1 = (seen s).1 ++ [Forwarded packet].
Proof.
  destruct s as [sv w]. unfold forward_upstream, bind at 1, on_w at 1.
  pose proof (log_send packet w) as Hs. destruct (udp_send packet w) as [[u|e] w1]; [|exact Hs].
  change ((seen (sv, w1)).1 = (seen (sv, w)).1 ++ [Forwarded packet]) in Hs. rewrite <- Hs. clear Hs.
  seen_next rcv s2 H2'. destruct rcv as [[response|e]|e]; [|exact (f_equal fst H2')|exact (f_equal fst H2')].
  seen_next t s3 H3'. seen_next i s4 H4'. cbn [ret snd]. congruence.
Qed.

(** The decision: the events of an authorization, and the permission they show. *)
Lemma dns_authorize_seen packet vm_id corr_id (s : Server * W) :
  exists q b evs s1, parse_dns_question packet = Done q /\
    dns_authorize auth packet vm_id corr_id s = (Done b, s1) /\
    seen s1 = ((seen s).1 ++ evs, (seen s).2) /\ nothing_forwarded evs /\
    (b = true -> let '(name, ty) := default ("unknown", "unknown")%string q in
                 allowed_by auth vm_id (fun p => p = AuthDns name ty) evs).
Proof.
  destruct (parse_dns_question_total packet) as [q Hq]. exists q. unfold dns_authorize. rewrite Hq.
  destruct (default ("unknown", "unknown")%string q) as [name ty].
  seen_next i1 s1 H1'. seen_next ta s2 H2'.
  auth_next (authorize_dns_trace auth 0 vm_id name ty) b reason evs s3 H3' Hn Hb. rewrite H2', H1' in H3'.
  seen_next tb s4 H4'. seen_next i2 s5 H5'. exists b, evs, s5. split_and!; [done..| |done|done]. by rewrite H5', H4', H3'.
Qed.

Lemma dns_deny_seen packet vm_id corr_id start (s : Server * W) :
  exists s1, dns_deny packet vm_id corr_id start s = (Ok (build_refused_response packet), s1) /\ seen s1 = seen s.
Proof.
  unfold dns_deny. seen_next t s1 H1'. seen_next i s2 H2'. exists s2. split; [done|]. by rewrite H2', H1'.
Qed.

(** C4. The DNS firewall: a query is handed to the upstream resolver at most once and
    unchanged, and only if it comes from the address of a registered VM and, just
    before, the authorization service (when there is one) was asked about that VM
    and the name and type parsed from the query and allowed them; every other
    query is answered with the refusal and nothing is sent. *)
Theorem dns_forwards_only_authorized packet peer (s : Server) (w : W) :
  let '(o, s') := process_dns_query auth packet peer (s, w) in
  exists evs,
    (net_log s'.2 = net_log w ++ evs /\ nothing_forwarded evs /\ o = Done (Ok (build_refused_response packet))) \/
    (net_log s'.2 = net_log w ++ evs ++ [Forwarded packet] /\
     exists id q, find_by_ip peer (vm_registry s) = Some id /\ parse_dns_question packet = Done q /\
       let '(name, ty) := default ("unknown", "unknown")%string q in
       allowed_by auth (uuid_string id) (fun p => p = AuthDns name ty) evs).
Proof.
  set (s0 := (s, w)). change (net_log w) with (seen s0).1. change (vm_registry s) with (vm_registry s0.1).
  unfold process_dns_query, bind at 1. destruct (proxy_lookup_seen peer s0) as (t0 & c0 & s1 & -> & H1').
  destruct (find_by_ip peer (vm_registry s0.1)) as [id|] eqn:Ef.
  2: { exists []. left. split; [|split; [intros x; set_solver|done]]. rewrite app_nil_r. exact (f_equal fst H1'). }
  unfold bind at 1. destruct (dns_authorize_seen packet (uuid_string id) c0 s1) as (q & b & evs & s2 & Hq & -> & H2' & Hn & Hb).
  rewrite H1' in H2'. destruct b; cbn [negb].
  - pose proof (upstream_log packet (uuid_string id) c0 t0 s2) as Hup. unfold st_map, bind, ret.
    destruct (forward_upstream packet (uuid_string id) c0 t0 s2) as [r s3]. exists evs. right. split.
    + rewrite H2' in Hup. cbn [fst snd] in Hup. by rewrite <- app_assoc in Hup.
    + exists id, q. split; [done|]. split; [done|]. by apply Hb.
  - destruct (dns_deny_seen packet (uuid_string id) c0 t0 s2) as (s3 & Hd & H3'). unfold st_map, bind, ret. rewrite Hd.
    exists evs. left. split; [|done]. change ((seen s3).1 = (seen s0).1 ++ evs). by rewrite H3', H2'.
Qed.

End firewall.

(** * Runs on the example host *)

Definition dns_host : Type := logged_host (list byte).

#[export] Instance dns_upstream : Upstream dns_host := {|
  udp_bind := ret (Ok tt);
  udp_send p := fun '(s, ps) => (Ok tt, (s, ps ++ [Forwarded p]));
  udp_recv := ret (Ok (Ok [x00; x01; x81; x80]));
|}.

#[export] Instance dns_trace : UpstreamTrace dns_host.
Proof. constructor; [by intros p [s l]|by intros [s l]|by intros [s l]]. Qed.

(** A query for "a" from the VM of the example server is forwarded after the
    service allowed it. *)
Lemma dns_forwards_only_authorized_witness :
  let packet := query_bytes [x00; x01; x01; x00] 1 (replicate 6 x00) [[x61]] 1 [] in
  let '(_, s') := process_dns_query Connected packet vm_ip (example_create.2.1, (empty_sim, [])) in
  exists id req reason, find_by_ip vm_ip (vm_registry example_create.2.1) = Some id /\
    net_log s'.2 = [Asked req (Ok (true, reason)); Forwarded packet] /\
    ar_vm_id req = uuid_string id /\ ar_request req = AuthDns "a" "A".
Proof.
  intros packet.
  pose proof (dns_forwards_only_authorized Connected packet vm_ip example_create.2.1 (empty_sim, [])) as Hd.
  assert ((process_dns_query Connected packet vm_ip (example_create.2.1, (empty_sim, []))).1
          = Done (Ok [x00; x01; x81; x80])) as Ho by (vm_compute; reflexivity).
  destruct (process_dns_query Connected packet vm_ip (example_create.2.1, (empty_sim, []))) as [o s'].
  destruct Hd as (evs & [(_ & _ & Hr)|(Hl & id & q & Hf & Hq & Ha)]).
  { simpl in Ho. rewrite Hr in Ho. discriminate Ho. }
  assert (q = Some ("a", "A")%string) as -> by (vm_compute in Hq; congruence).
  destruct Ha as (req & reason & -> & Hv & Hp). exists id, req, reason. auto.
Defined.

Lemma parse_dns_question_round_trip_witness :
  parse_dns_question (query_bytes [x00; x01; x01; x00] 1 (replicate 6 x00) [[x61; x62]; [x63]] 28 [x00; x01]) =
    Done (Some ("ab.c", "AAAA")%string).
Proof.
  apply (parse_dns_question_round_trip [x00; x01; x01; x00] 1 (replicate 6 x00) [[x61; x62]; [x63]] 28 [x00; x01]);
    try lia; try reflexivity.
  repeat constructor; simpl; lia.
Defined.

Lemma dns_framing_round_trip_witness :
  exists wire, write_dns_message [x61; x62] ([] : list byte) = (Ok tt, wire) /\
    read_dns_length (wire ++ [x63]) = (Ok 2%Z, [x61; x62; x63]).
Proof.
  destruct (dns_framing_round_trip [x61; x62] [x63]) as (wire & Hw & Hr & _). exists wire. split; [exact Hw|exact Hr].
Defined.
