(* ===== verification/DnsTcp.v ===== *)
(** A TCP connection of the DNS proxy (handle_tcp_dns_connection of
    clawpot-server/src/proxy/dns_proxy.rs) against what a resolver expects of it:
    the queries of the stream are answered one after the other, each answer behind
    its length, and the connection comes to its end. *)

From S2P Require Import Prelude RustStr Addr World Json SimWorld Events Network Registry.
From S2P Require Import Service AuthClient ProxyLog DnsProxy.
From Stdlib Require Import ZArith Lia Ascii String.
From Stdlib Require Import Strings.Byte.
From stdpp Require Import base gmap strings list.

Open Scope nat_scope.

(** * A connection *)

(** What is still to be read, and what was written. *)
Record duplex : Type := mkDuplex { incoming : list byte; outgoing : list byte }.

#[export] Instance duplex_source : ByteSource duplex := {|
  read_exact n := fun t => let '(r, rest) := read_exact n (incoming t) in (r, mkDuplex rest (outgoing t));
|}.

#[export] Instance duplex_sink : ByteSink duplex := {|
  write_all bs := fun t => (Ok tt, mkDuplex (incoming t) (outgoing t ++ bs));
  flush := ret (Ok tt);
|}.

(** The length of a message fits its prefix. *)
Definition fits (m : list byte) : Prop := (Z.of_nat (length m) < 65536)%Z.

(** A message behind its length. *)
Definition frame (m : list byte) : list byte := be_u16 (wrap16 (Z.of_nat (length m))) ++ m.

Definition frames (ms : list (list byte)) : list byte := concat (map frame ms).

Lemma write_frame m t : write_dns_message m t = (Ok tt, mkDuplex (incoming t) (outgoing t ++ frame m)).
Proof. unfold write_dns_message, bind_ok, st_map, bind, ret. simpl. unfold frame. by rewrite <- app_assoc. Qed.

Lemma read_frame_length m rest out :
  fits m -> read_dns_length (mkDuplex (frame m ++ rest) out) = (Ok (Z.of_nat (length m)), mkDuplex (m ++ rest) out).
Proof.
  unfold fits. intros Hm. unfold frame, wrap16. rewrite Z.mod_small by lia.
  destruct (u16_be_be_u16 (Z.of_nat (length m)) ltac:(lia)) as (a & b & -> & E). rewrite <- E.
  unfold read_dns_length, bind_ok, bind, ret. simpl. by rewrite drop_0.
Qed.

Lemma read_message m rest out : read_exact (Z.to_nat (Z.of_nat (length m))) (mkDuplex (m ++ rest) out) = (Ok m, mkDuplex rest out).
Proof.
  rewrite Nat2Z.id. simpl. rewrite (proj2 (Nat.leb_le _ _)) by (rewrite length_app; lia).
  by rewrite take_app_length, drop_app_length.
Qed.

Lemma read_end t out :
  length t < 2 -> read_dns_length (mkDuplex t out) = (Err (mkIoError UnexpectedEof "early eof"), mkDuplex [] out).
Proof. intros Ht. destruct t as [|? [|? ?]]; [done..|]. simpl in Ht. lia. Qed.

(** * The queries of a stream *)

Section queries.
Context {W : Type} `{Clock W} `{Timestamps W} `{UuidGen W} `{UuidText} `{SerdeJson} `{HashOrder} `{AuthService W}
  `{Upstream W}.
Context (auth : AuthClient).

(** One query on a socket of its own. *)
Definition answer_one (peer : IpAddr) (q : list byte) : ST (Server * W) (outcome (result (list byte) error)) :=
  let! bound := on_w udp_bind in
  match bound with
  | Err e => ret (Done (Err ["Failed to bind upstream UDP socket for TCP DNS"%string; e]))
  | Ok _ => process_dns_query auth q peer
  end.

(** The queries in order, up to the first that fails: the answers, and how it ended.
    Empty messages are passed over. *)
Fixpoint answer_all (peer : IpAddr) (qs : list (list byte)) : ST (Server * W) (list (list byte) * outcome (result unit error)) :=
  match qs with
  | [] => ret ([], Done (Ok tt))
  | [] :: rest => answer_all peer rest
  | q :: rest =>
      let! r := answer_one peer q in
      match r with
      | Done (Ok bytes) => st_map (fun '(answers, o) => (bytes :: answers, o)) (answer_all peer rest)
      | Done (Err e) => ret ([], Done (Err e))
      | Panic => ret ([], Panic)
      | NoFuel => ret ([], NoFuel)
      end
  end.

(** A turn of the loop, by what it reads. *)
Lemma turn_empty fuel peer rest out (s : Server * W) :
  handle_tcp_dns_connection auth (S fuel) peer (s, mkDuplex (frame [] ++ rest) out) =
  handle_tcp_dns_connection auth fuel peer (s, mkDuplex rest out).
Proof. reflexivity. Qed.

Lemma turn_query fuel peer q rest out (s : Server * W) :
  fits q -> q <> [] ->
  handle_tcp_dns_connection auth (S fuel) peer (s, mkDuplex (frame q ++ rest) out) =
  let '(r, s') := answer_one peer q s in
  match r with
  | Done (Ok bytes) => handle_tcp_dns_connection auth fuel peer (s', mkDuplex rest (out ++ frame bytes))
  | Done (Err e) => (Done (Err e), (s', mkDuplex rest out))
  | Panic => (Panic, (s', mkDuplex rest out))
  | NoFuel => (NoFuel, (s', mkDuplex rest out))
  end.
Proof.
  intros Hq Hne. cbn [handle_tcp_dns_connection]. unfold bind at 1, on_stream at 1. rewrite read_frame_length by done.
  destruct (Z.eqb_spec (Z.of_nat (length q)) 0) as [E|_]; [by destruct q|].
  unfold bind at 1, on_stream at 1. rewrite read_message. unfold bind at 1, answer_one, on_server at 1, bind at 3.
  destruct (on_w udp_bind s) as [[u|e] s1]; [|done]. unfold bind at 1, on_server.
  destruct (process_dns_query auth q peer s1) as [[[bytes|e]| |] s2]; [|done..].
  unfold bind, on_stream. by rewrite write_frame.
Qed.

Lemma turn_end fuel peer t out (s : Server * W) :
  length t < 2 -> handle_tcp_dns_connection auth (S fuel) peer (s, mkDuplex t out) = (Done (Ok tt), (s, mkDuplex [] out)).
Proof. intros Ht. cbn [handle_tcp_dns_connection]. unfold bind at 1, on_stream at 1. by rewrite read_end. Qed.

(** ** Termination *)

Lemma authorize_done q vm corr (s : Server * W) : exists b, (dns_authorize auth q vm corr s).1 = Done b.
Proof.
  unfold dns_authorize. destruct (parse_dns_question_total q) as [p ->]. destruct (default _ p) as [n ty].
  unfold bind, ret. destruct (on_events _ s) as [u s1]. destruct (on_w _ s1) as [t1 s2]. destruct (on_w _ s2) as [a s3].
  destruct (match a with Ok ar => ar | Err _ => _ end) as [b reason]. destruct (on_w _ s3) as [t2 s4].
  destruct (on_events _ s4) as [u' s5]. by exists b.
Qed.

Lemma process_done q peer (s : Server * W) : exists r, (process_dns_query auth q peer s).1 = Done r.
Proof.
  unfold process_dns_query, bind at 1. destruct (proxy_lookup peer s) as [[[t c] [id|]] s1]; [|by eexists].
  unfold bind at 1. destruct (authorize_done q (uuid_string id) c s1) as [b Hb].
  destruct (dns_authorize auth q (uuid_string id) c s1) as [d s2]. simpl in Hb. subst d.
  unfold st_map, bind, ret. destruct b; cbn [negb].
  - destruct (forward_upstream q (uuid_string id) c t s2) as [r s3]. by exists r.
  - destruct (dns_deny q (uuid_string id) c t s2) as [r s3]. by exists r.
Qed.

Lemma answer_one_done q peer (s : Server * W) : exists r, (answer_one peer q s).1 = Done r.
Proof. unfold answer_one, bind. destruct (on_w udp_bind s) as [[u|e] s1]; [apply process_done|by eexists]. Qed.

(** A turn that goes on has read at least the two bytes of a length. *)
Lemma connection_done peer : forall fuel t (s : Server * W),
  length (incoming t) < fuel -> exists r, (handle_tcp_dns_connection auth fuel peer (s, t)).1 = Done r.
Proof.
  induction fuel as [|fuel IH]; intros [inc out] s Hf; [simpl in Hf; lia|]. simpl in Hf. cbn [handle_tcp_dns_connection].
  unfold bind at 1, on_stream at 1, read_dns_length, bind_ok at 1, bind at 1. cbn [read_exact duplex_source slice_source incoming outgoing].
  destruct (Nat.leb_spec 2 (length inc)) as [Hl|_]; [|by eexists]. unfold ret at 1.
  destruct inc as [|b1 [|b2 inc]]; [simpl in Hl; lia..|]. cbn [length] in Hf. cbn [take drop]. rewrite drop_0.
  set (n := u16_be _ _). destruct (n =? 0)%Z; [apply IH; simpl; lia|].
  unfold bind at 1, on_stream at 1. cbn [read_exact duplex_source slice_source incoming outgoing].
  destruct (Z.to_nat n <=? length inc)%nat; [|by eexists].
  unfold bind at 1, on_server at 1. destruct (on_w udp_bind s) as [[u|e] s1]; [|by eexists]. unfold bind at 1, on_server.
  match goal with |- context [process_dns_query auth ?q peer s1] => destruct (process_done q peer s1) as [r Hr]; destruct (process_dns_query auth q peer s1) as [o s2] end.
  simpl in Hr. subst o. destruct r as [bytes|e]; [|by eexists]. unfold bind, on_stream. rewrite write_frame.
  apply IH. simpl. rewrite length_drop. lia.
Qed.

(** * The whole connection *)

Lemma connection_answers peer qs : forall fuel t out (s : Server * W),
  Forall fits qs -> length t < 2 -> length qs < fuel ->
  let '((answers, o), s') := answer_all peer qs s in
  exists rest, handle_tcp_dns_connection auth fuel peer (s, mkDuplex (frames qs ++ t) out) = (o, (s', mkDuplex rest (out ++ frames answers))).
Proof.
  induction qs as [|q qs IH]; intros [|fuel] t out s Hfit Ht Hf; try (simpl in Hf; lia).
  - cbn [answer_all]. unfold ret at 1. change (frames [] ++ t) with t. rewrite turn_end by done. exists [].
    change (frames []) with ([] : list byte). by rewrite app_nil_r.
  - inversion Hfit as [|? ? Hq Hqs]; subst. simpl in Hf. unfold frames. cbn [map concat]. rewrite <- app_assoc. fold (frames qs).
    destruct q as [|b q]; [rewrite turn_empty; apply IH; [done..|lia]|]. rewrite turn_query by done.
    cbn [answer_all]. unfold bind at 1. destruct (answer_one_done (b :: q) peer s) as [r Hr].
    destruct (answer_one peer (b :: q) s) as [o1 s1]. simpl in Hr. subst o1.
    destruct r as [bytes|e]; [|exists (frames qs ++ t); unfold frames; simpl; by rewrite app_nil_r].
    unfold st_map, bind, ret. specialize (IH fuel t (out ++ frame bytes) s1 Hqs Ht ltac:(lia)).
    destruct (answer_all peer qs s1) as [[answers o] s2]. destruct IH as [rest ->]. exists rest.
    unfold frames. cbn [map concat]. by rewrite <- app_assoc.
Qed.

(** C6. DNS over TCP: a connection ends on every stream of bytes, since each turn of
    the loop reads at least two of them, and never panics.  On a stream of messages
    behind their lengths, cut off at most within a length, it does what answering
    the queries one by one does, each on a socket of its own, up to the first that
    fails: same effects on the server and the world, same result, and the client is
    sent the answers in order, each behind its length; empty messages are passed
    over. *)
Theorem tcp_dns_answers_in_order peer qs t bytes (s : Server * W) :
  Forall fits qs -> length t < 2 ->
  (exists r, (handle_tcp_dns_connection auth (S (length bytes)) peer (s, mkDuplex bytes [])).1 = Done r) /\
  let stream := frames qs ++ t in
  let '((answers, o), s') := answer_all peer qs s in
  exists rest, handle_tcp_dns_connection auth (S (length stream)) peer (s, mkDuplex stream []) = (o, (s', mkDuplex rest (frames answers))).
Proof.
  intros Hq Ht. split; [apply connection_done; simpl; lia|]. intros stream.
  pose proof (connection_answers peer qs (S (length stream)) t [] s Hq Ht) as Hc. apply Hc. unfold stream. rewrite length_app.
  assert (length qs <= length (frames qs)); [|lia]. clear. induction qs as [|q qs IH]; [done|].
  change (frames (q :: qs)) with (frame q ++ frames qs). unfold frame. rewrite !length_app. simpl. lia.
Qed.

End queries.

(** * A run *)

(** Two queries for "a" of the example VM with an empty message between them: both
    are forwarded and answered. *)
Lemma tcp_dns_answers_in_order_witness :
  let q := query_bytes [x00; x01; x01; x00] 1 (replicate 6 x00) [[x61]] 1 [] in
  let stream := frames [q; []; q] ++ [x00] in
  let s := (example_create.2.1, (empty_sim, []) : dns_host) in
  exists o s' rest, handle_tcp_dns_connection Connected (S (length stream)) vm_ip (s, mkDuplex stream []) =
      (o, (s', mkDuplex rest (frames [[x00; x01; x81; x80]; [x00; x01; x81; x80]]))) /\ o = Done (Ok tt).
Proof.
  intros q stream s.
  destruct (tcp_dns_answers_in_order Connected vm_ip [q; []; q] [x00] [] s) as [_ Hc];
    [repeat constructor|simpl; lia|]. cbn zeta in Hc. fold stream in Hc.
  assert ((answer_all Connected vm_ip [q; []; q] s).1 = ([[x00; x01; x81; x80]; [x00; x01; x81; x80]], Done (Ok tt))) as Ha
    by (vm_compute; reflexivity).
  destruct (answer_all Connected vm_ip [q; []; q] s) as [[answers o] s']. simpl in Ha. injection Ha as -> ->.
  destruct Hc as [rest Hc]. exists (Done (Ok tt)), s', rest. split; [exact Hc|reflexivity].
Defined.
