(* ===== verification/System.v ===== *)
(** The server as a whole: the requests to the gRPC service and the shutdown
    ([Concurrency]) and the traffic of the VMs through the DNS and HTTP proxies, all
    interleaved over one shared memory.

    A proxied request runs in three segments, of which only the first reads the
    registry: the lookup of the VM by the source address, the authorization, and the
    refusal or the forwarding ([DnsProxy], [HttpProxy]).  Between two segments VMs may
    come and go and the outside world may change in any way.

    A configuration keeps the history of what can be seen from outside: VMs coming
    up and going down, lookups, the questions to the authorization service with its
    answers, and what was sent to the network.  Requests are numbered, so that the
    events of one can be told from those of the others. *)

From S2P Require Import Prelude RustStr Addr World Json SimWorld IpAllocator Lifecycle FcConfig.
From S2P Require Import VmManager Network Events Registry AgentClient Grpc Service Concurrency.
From S2P Require Import AuthClient Llm ProxyLog DnsProxy HttpProxy.
From Stdlib Require Import ZArith Lia Ascii String.
From Stdlib Require Import Strings.Byte.
From stdpp Require Import base gmap strings list.

Open Scope nat_scope.

(** * Configurations *)

(** A proxied request in progress, after its lookup found a VM: it will ask for
    authorization, or act on the answer. *)
Inductive proxied : Type :=
| DnsAsk (packet : list byte)
| DnsAct (packet : list byte) (allowed : bool)
| HttpAsk (tls : bool) (req : IncomingRequest)
| HttpAct (tls : bool) (req : IncomingRequest) (allowed : bool) (reason : string).

Record proxy_task : Type := mkProxyTask {
  pt_number : nat;
  pt_start : Z;
  pt_corr : string;
  pt_vm : Uuid;
  pt_work : proxied;
}.

Inductive sys_event : Type :=
| VmUp (id : Uuid) (ip : IpAddr)
| VmDown (id : Uuid)
| Looked (n : nat) (peer : IpAddr) (found : option Uuid)
| SysAsked (n : nat) (req : NetworkAuthorizationRequest) (answer : result (bool * string) string)
| DnsSent (n : nat) (packet : list byte)
| HttpSent (n : nat) (req : UpstreamRequest).

Record system : Type := mkSystem {
  core : conf;
  proxied_tasks : list proxy_task;
  next_number : nat;
  history : list sys_event;
}.

(** The part of the log of the network that a segment added, as events of request [n]. *)
Definition added {X} (mk : nat -> X -> sys_event) (n : nat) (before after : list (net_event X)) : list sys_event :=
  map (fun e => match e with
                | Asked req answer => SysAsked n req answer
                | Forwarded x => mk n x
                end) (drop (length before) after).

(** The VMs that a step of the service registered and removed. *)
Definition changes (reg reg' : VmRegistry) : list sys_event :=
  map (fun kv => VmDown kv.1) (map_to_list (reg ∖ reg')) ++
  map (fun kv => VmUp kv.1 (ip_address kv.2)) (map_to_list (reg' ∖ reg)).

Definition set_server (k : conf) (s : Server) : conf := mkConf s (tasks k) (issued k).

Section steps.
Context {W : Type} `{FirecrackerApi W} `{FileSystem W} `{Processes W} `{Clock W} `{Timestamps W} `{Iptables W}
  `{Netlink W} `{TunDevice W} `{AgentTransport W} `{UuidGen W} `{UuidText} `{SerdeJson} `{HttpText} `{HashOrder}
  `{AuthService W} `{Upstream W} `{HttpCrate} `{HttpUpstream W} `{StringMapOrder}
  `{!NetTrace W (list byte)} `{!NetTrace W UpstreamRequest}.
Context (cfg : ServerConfig) (bodies : BodyStore) (client : AuthClient) (keys : LlmKeyStore).

(** The contexts that [run] of http_proxy.rs makes for its two listeners. *)
Definition proxy_ctx (tls : bool) : ProxyCtx := mkProxyCtx bodies client keys tls.

(** The next segment of a request: the work it leaves, if any, and the events. *)
Definition proxied_step (t : proxy_task) : ST (Server * W) (list proxied * list sys_event) :=
  let vm_id := uuid_string (pt_vm t) in
  match pt_work t with
  | DnsAsk packet => fun s =>
      let '(o, s') := dns_authorize client packet vm_id (pt_corr t) s in
      ((match o with Done allowed => [DnsAct packet allowed] | _ => [] end,
        added DnsSent (pt_number t) (net_log s.2) (net_log s'.2)), s')
  | DnsAct packet allowed => fun s =>
      let '(_, s') := (if negb allowed then dns_deny packet vm_id (pt_corr t) (pt_start t)
                       else forward_upstream packet vm_id (pt_corr t) (pt_start t)) s in
      (([], added DnsSent (pt_number t) (net_log s.2) (net_log s'.2)), s')
  | HttpAsk tls req => fun s =>
      let '(decision, s') := http_authorize (proxy_ctx tls) vm_id (pt_corr t) req s in
      (([HttpAct tls req decision.1 decision.2], added HttpSent (pt_number t) (net_log s.2) (net_log s'.2)), s')
  | HttpAct tls req allowed reason => fun s =>
      let '(_, s') := (if negb allowed
                       then st_map (fun r => Done (Ok r)) (deny (pt_start t) vm_id (pt_corr t) reason)
                       else forward (proxy_ctx tls) (pt_start t) vm_id (pt_corr t) req) s in
      (([], added HttpSent (pt_number t) (net_log s.2) (net_log s'.2)), s')
  end.

Definition next_task (t : proxy_task) (work : proxied) : proxy_task :=
  mkProxyTask (pt_number t) (pt_start t) (pt_corr t) (pt_vm t) work.

(** What a request that has just arrived will do once its VM is found. *)
Inductive arrival : proxied -> Prop :=
| arrival_dns packet : arrival (DnsAsk packet)
| arrival_http tls req : arrival (HttpAsk tls req).

Inductive sys_step : system -> system -> Prop :=
| sys_service y k' :
    Concurrency.step (W := W) cfg (core y) k' ->
    sys_step y (mkSystem k' (proxied_tasks y) (next_number y)
                  (history y ++ changes (vm_registry (server (core y))) (vm_registry (server k'))))
| sys_arrival y peer work (w w' : W) start corr found s' :
    arrival work -> proxy_lookup peer (server (core y), w) = ((start, corr, found), (s', w')) ->
    sys_step y (mkSystem (set_server (core y) s')
                  (map (fun id => mkProxyTask (next_number y) start corr id work) (option_list found) ++ proxied_tasks y)
                  (S (next_number y)) (history y ++ [Looked (next_number y) peer found]))
| sys_proxied y t rest (w w' : W) works evs s' :
    proxied_tasks y ≡ₚ t :: rest -> proxied_step t (server (core y), w) = ((works, evs), (s', w')) ->
    sys_step y (mkSystem (set_server (core y) s') (map (next_task t) works ++ rest) (next_number y) (history y ++ evs)).

Definition sys_initial (y : system) : Prop :=
  initial (core y) /\ proxied_tasks y = [] /\ next_number y = 0 /\ history y = [].

Definition sys_reachable (y : system) : Prop := exists y0, sys_initial y0 /\ rtc sys_step y0 y.

End steps.

(** * What a history shows *)

(** The VMs that are up after a history, with their addresses. *)
Definition up (h : list sys_event) : gmap Uuid IpAddr :=
  fold_left (fun m e => match e with
                        | VmUp id ip => <[id := ip]> m
                        | VmDown id => delete id m
                        | _ => m
                        end) h ∅.

(** The request that an event belongs to; the request that it sends. *)
Definition number_of (e : sys_event) : option nat :=
  match e with
  | Looked n _ _ | SysAsked n _ _ | DnsSent n _ | HttpSent n _ => Some n
  | VmUp _ _ | VmDown _ => None
  end.

Definition sends (e : sys_event) : option nat :=
  match e with
  | DnsSent n _ | HttpSent n _ => Some n
  | _ => None
  end.

(** Request [n] came from an address that, when it was looked up, one VM had and no
    other; [since] is what happened after that. *)
Definition attributed (h : list sys_event) (n : nat) (id : Uuid) (since : list sys_event) : Prop :=
  exists before peer, h = before ++ Looked n peer (Some id) :: since /\
    up before !! id = Some peer /\ forall id', up before !! id' = Some peer -> id' = id.

Lemma attributed_app h n id since evs : attributed h n id since -> attributed (h ++ evs) n id (since ++ evs).
Proof. intros (before & peer & -> & Hup). exists before, peer. by rewrite <- app_assoc. Qed.

Section shown.
Context `{UuidText} `{HttpCrate} `{StringMapOrder}.
Context (bodies : BodyStore) (client : AuthClient) (keys : LlmKeyStore).

(** The service, if there is one, was asked about this VM and such a payload, and
    allowed it. *)
Definition permitted (n : nat) (id : Uuid) (p : auth_payload -> Prop) (since : list sys_event) : Prop :=
  client = Connected ->
  exists req reason, SysAsked n req (Ok (true, reason)) ∈ since /\ ar_vm_id req = uuid_string id /\ p (ar_request req).

Definition dns_permitted (n : nat) (id : Uuid) (packet : list byte) (since : list sys_event) : Prop :=
  exists q, parse_dns_question packet = Done q /\
    permitted n id (fun p => p = let '(name, ty) := default ("unknown", "unknown")%string q in AuthDns name ty) since.

Definition http_permitted (n : nat) (id : Uuid) (tls : bool) (req : IncomingRequest) (since : list sys_event) : Prop :=
  permitted n id (http_payload (in_method req) (request_url (proxy_ctx bodies client keys tls) req)
                    (smap_iter (headers_map (in_headers req))) (request_body req)) since.

(** An event that may follow a history: something is sent only once for a request,
    for a VM that had the source address, and with the permission for it. *)
Definition justified (h : list sys_event) (e : sys_event) : Prop :=
  match e with
  | DnsSent n packet =>
      (forall e', e' ∈ h -> sends e' <> Some n) /\
      exists id since, attributed h n id since /\ dns_permitted n id packet since
  | HttpSent n sent =>
      (forall e', e' ∈ h -> sends e' <> Some n) /\
      exists id since tls req, attributed h n id since /\ http_permitted n id tls req since /\
        up_method sent = in_method req /\ up_uri sent = request_url (proxy_ctx bodies client keys tls) req /\
        up_body sent = request_body req
  | _ => True
  end.

Definition all_justified (h : list sys_event) : Prop := forall h1 e h2, h = h1 ++ e :: h2 -> justified h1 e.

Lemma all_justified_snoc h e : all_justified h -> justified h e -> all_justified (h ++ [e]).
Proof.
  intros Hh He h1 e' h2 Heq. destruct (decide (h2 = [])) as [->|Hne].
  - apply app_inj_tail in Heq as [<- <-]. done.
  - destruct (exists_last Hne) as (h2' & x & ->). rewrite app_comm_cons, app_assoc in Heq.
    apply app_inj_tail in Heq as [-> _]. by eapply Hh.
Qed.

(** Events that send nothing need no justification. *)
Lemma all_justified_quiet h evs : all_justified h -> Forall (fun e => sends e = None) evs -> all_justified (h ++ evs).
Proof.
  intros Hh Hq. revert h Hh. induction Hq as [|e evs He _ IH]; intros h Hh; [by rewrite app_nil_r|].
  change (e :: evs) with ([e] ++ evs). rewrite app_assoc. apply IH, all_justified_snoc; [done|]. by destruct e.
Qed.

Lemma permitted_app n id p since evs : permitted n id p since -> permitted n id p (since ++ evs).
Proof.
  intros Hp Hc. destruct (Hp Hc) as (req & reason & Hin & Hv). exists req, reason. split; [|done].
  apply elem_of_app. by left.
Qed.

(** The events of an authorization give the permission that it found. *)
Lemma permitted_asked {X} (mk : nat -> X -> sys_event) n id p since (evs : list (net_event X)) :
  allowed_by client (uuid_string id) p evs -> permitted n id p (since ++ added mk n [] evs).
Proof.
  intros Ha Hc. unfold allowed_by in Ha. rewrite Hc in Ha. destruct Ha as (req & reason & -> & Hv & Hp).
  exists req, reason. split; [|done]. apply elem_of_app. right. apply list_elem_of_here.
Qed.

End shown.

Lemma added_app {X} (mk : nat -> X -> sys_event) n before evs : added mk n before (before ++ evs) = added mk n [] evs.
Proof. unfold added. rewrite drop_app_length. by rewrite drop_0. Qed.

Lemma added_none {X} (mk : nat -> X -> sys_event) n before : added mk n before before = [].
Proof. unfold added. by rewrite drop_all. Qed.

Lemma added_quiet {X} (mk : nat -> X -> sys_event) n evs :
  nothing_forwarded evs -> Forall (fun e => sends e = None) (added mk n [] evs).
Proof.
  intros Hn. unfold added. rewrite drop_0. apply Forall_map, Forall_forall. intros [req answer|x] Hin; [done|].
  by destruct (Hn x).
Qed.

Lemma added_numbers {X} (mk : nat -> X -> sys_event) n before after :
  (forall x, number_of (mk n x) = Some n) -> Forall (fun e => number_of e = Some n) (added mk n before after).
Proof. intros Hmk. unfold added. apply Forall_map, Forall_forall. intros [req answer|x] _; simpl; auto. Qed.

(** ** The registry and the history *)

(** What one step of the service does to the registry. *)
Inductive reg_step (reg : VmRegistry) : VmRegistry -> Prop :=
| reg_same : reg_step reg reg
| reg_insert id e : reg !! id = None -> reg_step reg (<[id := e]> reg)
| reg_delete id : reg_step reg (delete id reg).

Lemma up_app h h' :
  up (h ++ h') = fold_left (fun m e => match e with VmUp id ip => <[id := ip]> m | VmDown id => delete id m | _ => m end) h' (up h).
Proof. apply fold_left_app. Qed.

(** Events that are about requests change no VM. *)
Lemma up_requests h evs : Forall (fun e => is_Some (number_of e)) evs -> up (h ++ evs) = up h.
Proof.
  intros Hf. rewrite up_app. generalize (up h). induction Hf as [|e evs He _ IH]; intros m; [done|]. simpl. rewrite IH.
  destruct e; simpl in He; try done; by destruct He.
Qed.

Lemma difference_empty (m1 m2 : VmRegistry) : (forall id, is_Some (m1 !! id) -> is_Some (m2 !! id)) -> m1 ∖ m2 = ∅.
Proof.
  intros Hs. apply map_eq. intros id. rewrite lookup_difference, lookup_empty. specialize (Hs id).
  destruct (m2 !! id); [done|]. destruct (m1 !! id); [|done]. by destruct Hs.
Qed.

Lemma up_changes h reg reg' :
  up h = ip_address <$> reg -> reg_step reg reg' -> up (h ++ changes reg reg') = ip_address <$> reg'.
Proof.
  intros Hup Hst. rewrite up_app, Hup. unfold changes. destruct Hst as [|id e Hn|id].
  - by rewrite map_difference_diag, map_to_list_empty.
  - rewrite difference_empty, map_to_list_empty by (intros j Hj; rewrite lookup_insert_is_Some'; by right).
    replace (<[id := e]> reg ∖ reg) with ({[id := e]} : VmRegistry).
    + rewrite map_to_list_singleton. simpl. by rewrite fmap_insert.
    + apply map_eq. intros j. rewrite lookup_difference. destruct (decide (id = j)) as [<-|Hne].
      * by rewrite lookup_singleton_eq, Hn, lookup_insert_eq.
      * rewrite lookup_singleton_ne, lookup_insert_ne by done. by destruct (reg !! j).
  - rewrite (difference_empty (delete id reg)) by (intros j [_ Hj]%lookup_delete_is_Some; done).
    destruct (reg !! id) as [e|] eqn:He.
    + rewrite (difference_delete _ _ _ _ He), map_difference_diag, insert_empty, map_to_list_singleton, map_to_list_empty.
      simpl. by rewrite fmap_delete.
    + by rewrite delete_id, map_difference_diag, map_to_list_empty by done.
Qed.

(** VMs in the history have distinct addresses, as those in the registry do. *)
Lemma up_unique h reg peer id :
  up h = ip_address <$> reg -> distinct_ips reg -> (exists e, reg !! id = Some e /\ ip_address e = peer) ->
  up h !! id = Some peer /\ forall id', up h !! id' = Some peer -> id' = id.
Proof.
  intros -> Hd (e & He & <-). rewrite lookup_fmap, He. split; [done|]. intros id'. rewrite lookup_fmap.
  intros (e' & He' & Hip)%fmap_Some. by eapply Hd.
Qed.

Section preserved.
Context {W : Type} `{FirecrackerApi W} `{FileSystem W} `{Processes W} `{Clock W} `{Timestamps W} `{Iptables W}
  `{Netlink W} `{TunDevice W} `{AgentTransport W} `{UuidGen W} `{UuidText} `{SerdeJson} `{HttpText} `{HashOrder}
  `{AuthService W} `{Upstream W} `{HttpCrate} `{HttpUpstream W} `{StringMapOrder}
  `{!NetTrace W (list byte)} `{!NetTrace W UpstreamRequest} `{!UpstreamTrace W} `{!HttpTrace W}.
Context (cfg : ServerConfig) (bodies : BodyStore) (client : AuthClient) (keys : LlmKeyStore).

(** ** Steps of the service *)

Lemma step_registry k k' :
  Concurrency.step (W := W) cfg k k' -> reg_step (vm_registry (server k)) (vm_registry (server k')).
Proof.
  intros Hst. change (reg_step (vm_registry (server k), ip_allocator (server k)).1 (vm_registry (server k'), ip_allocator (server k')).1).
  destruct (step_mem cfg k k' Hst) as [| | | | |M t rest ts ts' M' iss _ Heff|]; try constructor.
  destruct Heff; by constructor.
Qed.

(** ** Steps of the proxies *)

(** They leave the registry and the allocator alone. *)
Lemma proxy_lookup_mem peer : keeps (S := Server * W) mem (proxy_lookup peer).
Proof. unfold proxy_lookup. repeat (apply keeps_bind; [auto with rs|intros ?]). apply keeps_ret. Qed.

Ltac keep_mem := repeat first [solve [auto with rs] | apply keeps_ret | apply keeps_st_map | apply keeps_bind; [|intros ?] | case_match].

Lemma dns_authorize_mem packet vm corr : keeps (S := Server * W) mem (dns_authorize client packet vm corr).
Proof. unfold dns_authorize. keep_mem. Qed.
Lemma dns_deny_mem packet vm corr start : keeps (S := Server * W) mem (dns_deny packet vm corr start).
Proof. unfold dns_deny. keep_mem. Qed.
Lemma forward_upstream_mem packet vm corr start : keeps (S := Server * W) mem (forward_upstream packet vm corr start).
Proof. unfold forward_upstream. keep_mem. Qed.
Lemma http_authorize_mem ctx vm corr req : keeps (S := Server * W) mem (http_authorize ctx vm corr req).
Proof. unfold http_authorize, log_request, authorize. keep_mem. Qed.
Lemma http_deny_mem start vm corr reason : keeps (S := Server * W) mem (deny start vm corr reason).
Proof. unfold deny. keep_mem. Qed.
Lemma http_forward_mem ctx start vm corr req : keeps (S := Server * W) mem (forward ctx start vm corr req).
Proof. unfold forward, relay, log_llm_request, log_llm_response. keep_mem. Qed.

(** What a segment of a proxied request does. *)
Definition segment_spec (t : proxy_task) (works : list proxied) (evs : list sys_event) : Prop :=
  let n := pt_number t in
  match pt_work t with
  | DnsAsk packet =>
      Forall (fun e => sends e = None) evs /\ exists allowed, works = [DnsAct packet allowed] /\
        (allowed = true -> forall since, dns_permitted client n (pt_vm t) packet (since ++ evs))
  | DnsAct packet allowed => works = [] /\ evs = if allowed then [DnsSent n packet] else []
  | HttpAsk tls req =>
      Forall (fun e => sends e = None) evs /\ exists allowed reason, works = [HttpAct tls req allowed reason] /\
        (allowed = true -> forall since, http_permitted bodies client keys n (pt_vm t) tls req (since ++ evs))
  | HttpAct tls req allowed reason =>
      works = [] /\ (evs = [] \/ allowed = true /\ exists sent, evs = [HttpSent n sent] /\
        up_method sent = in_method req /\ up_uri sent = request_url (proxy_ctx bodies client keys tls) req /\
        up_body sent = request_body req)
  end.

Lemma proxied_step_numbers t (s : Server * W) works evs s' :
  proxied_step bodies client keys t s = ((works, evs), s') -> Forall (fun e => number_of e = Some (pt_number t)) evs.
Proof.
  unfold proxied_step. intros Hst.
  destruct (pt_work t); case_match; simplify_eq; by apply added_numbers.
Qed.

Lemma proxied_step_mem t : keeps (S := Server * W) mem (proxied_step bodies client keys t).
Proof.
  intros s. unfold proxied_step. destruct (pt_work t) as [packet|packet [|]|tls req|tls req [|] reason]; cbn [negb].
  - pose proof (dns_authorize_mem packet (uuid_string (pt_vm t)) (pt_corr t) s) as Hm. by destruct (dns_authorize _ _ _ _ s).
  - pose proof (forward_upstream_mem packet (uuid_string (pt_vm t)) (pt_corr t) (pt_start t) s) as Hm.
    by destruct (forward_upstream _ _ _ _ s).
  - pose proof (dns_deny_mem packet (uuid_string (pt_vm t)) (pt_corr t) (pt_start t) s) as Hm. by destruct (dns_deny _ _ _ _ s).
  - pose proof (http_authorize_mem (proxy_ctx bodies client keys tls) (uuid_string (pt_vm t)) (pt_corr t) req s) as Hm.
    by destruct (http_authorize _ _ _ _ s).
  - pose proof (http_forward_mem (proxy_ctx bodies client keys tls) (pt_start t) (uuid_string (pt_vm t)) (pt_corr t) req s) as Hm.
    by destruct (forward _ _ _ _ _ s).
  - pose proof (keeps_st_map mem (fun r => Done (Ok r : result HttpResponse error)) _
      (http_deny_mem (pt_start t) (uuid_string (pt_vm t)) (pt_corr t) reason) s) as Hm.
    by destruct (st_map _ _ s).
Qed.

Lemma proxied_step_spec t (s : Server * W) works evs s' :
  proxied_step bodies client keys t s = ((works, evs), s') -> segment_spec t works evs.
Proof.
  unfold proxied_step, segment_spec. destruct (pt_work t) as [packet|packet [|]|tls req|tls req [|] reason]; cbn [negb].
  - destruct (dns_authorize_seen client packet (uuid_string (pt_vm t)) (pt_corr t) s) as (q & b & nevs & s1 & Hq & -> & Hs & Hn & Hb).
    apply (f_equal fst) in Hs. cbn [fst seen] in Hs. intros [= <- <- <-]. rewrite Hs, added_app. split; [by apply added_quiet|].
    exists b. split; [done|]. intros -> since. exists q. split; [done|].
    destruct (default ("unknown", "unknown")%string q) as [name ty]. apply permitted_asked. by apply Hb.
  - pose proof (upstream_log packet (uuid_string (pt_vm t)) (pt_corr t) (pt_start t) s) as Hl.
    destruct (forward_upstream _ _ _ _ s) as [r s1]. cbn [fst snd seen] in Hl. intros [= <- <- <-]. by rewrite Hl, added_app.
  - destruct (dns_deny_seen packet (uuid_string (pt_vm t)) (pt_corr t) (pt_start t) s) as (s1 & -> & Hs).
    apply (f_equal fst) in Hs. cbn [fst seen] in Hs. intros [= <- <- <-]. by rewrite Hs, added_none.
  - set (ctx := proxy_ctx bodies client keys tls).
    destruct (http_authorize_seen ctx (uuid_string (pt_vm t)) (pt_corr t) req s) as (b & reason & nevs & s1 & -> & Hs & Hn & Hb).
    apply (f_equal fst) in Hs. cbn [fst seen] in Hs. intros [= <- <- <-]. rewrite Hs, added_app. split; [by apply added_quiet|].
    exists b, reason. split; [done|]. intros -> since. apply permitted_asked. by apply Hb.
  - set (ctx := proxy_ctx bodies client keys tls).
    pose proof (forward_seen ctx (pt_start t) (uuid_string (pt_vm t)) (pt_corr t) req s) as Hf. cbn zeta in Hf.
    destruct (forward ctx _ _ _ _ s) as [o s1]. intros [= <- <- <-]. split; [done|].
    destruct (build_upstream _ _ _) as [sent|e] eqn:Eb.
    + apply (f_equal fst) in Hf. cbn [fst seen] in Hf. rewrite Hf, added_app. right. split; [done|]. exists sent. split; [done|].
      by apply (build_upstream_as_authorized _ _ _ _ Eb).
    + destruct Hf as [_ Hf]. apply (f_equal fst) in Hf. cbn [fst seen] in Hf. rewrite Hf, added_none. by left.
  - pose proof (seen_deny (pt_start t) (uuid_string (pt_vm t)) (pt_corr t) reason s) as Hd. unfold st_map, bind, ret.
    destruct (deny _ _ _ _ s) as [r s1]. apply (f_equal fst) in Hd. cbn [fst snd seen] in Hd. intros [= <- <- <-].
    rewrite Hd, added_none. auto.
Qed.

(** ** The invariant *)

(** A request in progress was attributed, has sent nothing, and has the permission
    if it is about to forward. *)
Definition task_shown (h : list sys_event) (t : proxy_task) : Prop :=
  let n := pt_number t in
  (forall e, e ∈ h -> sends e <> Some n) /\
  exists since, attributed h n (pt_vm t) since /\
    match pt_work t with
    | DnsAct packet true => dns_permitted client n (pt_vm t) packet since
    | HttpAct tls req true _ => http_permitted bodies client keys n (pt_vm t) tls req since
    | _ => True
    end.

Record sys_inv (y : system) : Prop := mkSysInv {
  si_good : good (server (core y)) (tasks (core y)) (issued (core y));
  si_up : up (history y) = ip_address <$> vm_registry (server (core y));
  si_history : all_justified bodies client keys (history y);
  si_numbers : Forall (fun e => forall n, number_of e = Some n -> n < next_number y) (history y);
  si_distinct : NoDup (map pt_number (proxied_tasks y));
  si_tasks : Forall (fun t => pt_number t < next_number y /\ task_shown (history y) t) (proxied_tasks y);
}.

(** Later events of other requests do not matter to a request. *)
Lemma task_shown_app h evs t :
  task_shown h t -> (forall e, e ∈ evs -> sends e <> Some (pt_number t)) -> task_shown (h ++ evs) t.
Proof.
  intros [Hno (since & Ha & Hw)] Hev. split.
  - intros e [He|He]%elem_of_app; [by apply Hno|by apply Hev].
  - exists (since ++ evs). split; [by apply attributed_app|].
    destruct (pt_work t) as [|packet []| |tls req [] reason]; try done.
    + destruct Hw as (q & Hq & Hp). exists q. split; [done|]. by apply permitted_app.
    + by apply permitted_app.
Qed.

Lemma sends_number e n : sends e = Some n -> number_of e = Some n.
Proof. by destruct e. Qed.

Lemma good_set_server k s :
  mem (s, ()) = mem (server k, ()) -> good (server k) (tasks k) (issued k) ->
  good (server (set_server k s)) (tasks (set_server k s)) (issued (set_server k s)).
Proof. unfold good, mem, set_server. simpl. by intros ->. Qed.

Lemma sys_service_inv y k' :
  Concurrency.step (W := W) cfg (core y) k' -> sys_inv y ->
  sys_inv (mkSystem k' (proxied_tasks y) (next_number y)
             (history y ++ changes (vm_registry (server (core y))) (vm_registry (server k')))).
Proof.
  intros Hst [Hg Hu Hh Hn Hd Ht]. set (evs := changes _ _).
  assert (Forall (fun e => number_of e = None /\ sends e = None) evs) as Hq.
  { apply Forall_app. split; by apply Forall_map, Forall_true. }
  split; simpl.
  - by eapply step_good.
  - apply up_changes; [done|]. by apply step_registry.
  - apply all_justified_quiet; [done|]. eapply Forall_impl; [exact Hq|]. by intros e [_ He].
  - apply Forall_app. split; [done|]. eapply Forall_impl; [exact Hq|]. intros e [He _] n. congruence.
  - done.
  - eapply Forall_impl; [exact Ht|]. intros t [Hlt Hs]. split; [done|]. apply task_shown_app; [done|].
    intros e He. rewrite Forall_forall in Hq. destruct (Hq e He) as [_ ->]. done.
Qed.

Lemma sys_arrival_inv y peer work (w w' : W) start corr found s' :
  arrival work -> proxy_lookup peer (server (core y), w) = ((start, corr, found), (s', w')) -> sys_inv y ->
  sys_inv (mkSystem (set_server (core y) s')
             (map (fun id => mkProxyTask (next_number y) start corr id work) (option_list found) ++ proxied_tasks y)
             (S (next_number y)) (history y ++ [Looked (next_number y) peer found])).
Proof.
  intros Harr Hl [Hg Hu Hh Hn Hd Ht]. set (n := next_number y) in *.
  pose proof (proxy_lookup_mem peer (server (core y), w)) as Hm. rewrite Hl in Hm. cbn [snd] in Hm.
  destruct (proxy_lookup_seen (X := list byte) peer (server (core y), w)) as (t0 & c0 & s1 & Hl' & _).
  rewrite Hl in Hl'. injection Hl' as -> -> -> <-. cbn [fst] in *. injection Hm as Hreg Hal.
  assert (forall e, e ∈ history y -> sends e <> Some n) as Hfresh.
  { intros e He Hs%sends_number. rewrite Forall_forall in Hn. specialize (Hn e He n Hs). lia. }
  split; cbn [core proxied_tasks next_number history server set_server].
  - apply good_set_server; [unfold mem; simpl; congruence|done].
  - rewrite up_requests by (apply Forall_singleton; by eexists). by rewrite Hu, Hreg.
  - apply all_justified_quiet; [done|by repeat constructor].
  - apply Forall_app. split; [eapply Forall_impl; [exact Hn|]; intros e He m Hm; specialize (He m Hm); lia|].
    apply Forall_singleton. intros m [= <-]. unfold n. lia.
  - destruct (find_by_ip _ _); simpl; [|done]. apply NoDup_cons. split; [|done]. intros (t & Hnum & Hin)%list_elem_of_fmap.
    rewrite Forall_forall in Ht. destruct (Ht t Hin) as [Hlt _]. fold n in Hlt. lia.
  - apply Forall_app. split.
    + destruct (find_by_ip peer _) as [id|] eqn:Ef; simpl; [|done]. apply Forall_singleton. split; [simpl; lia|]. split.
      * intros e [He| ->%list_elem_of_singleton]%elem_of_app; [by apply Hfresh|done].
      * assert (distinct_ips (vm_registry (server (core y)))) as Hdi.
        { apply nodup_distinct. destruct Hg as [_ _ Hnd _ _ _ _]. by apply NoDup_app in Hnd as (Hnd & _ & _). }
        apply find_by_ip_exact in Ef; [|done]. exists []. split; [|by destruct Harr].
        exists (history y), peer. split; [done|]. by eapply up_unique.
    + eapply Forall_impl; [exact Ht|]. intros t [Hlt Hs]. split; [lia|]. apply task_shown_app; [done|].
      by intros e ->%list_elem_of_singleton.
Qed.

(** A segment of a request that is in order adds events that are justified, and
    leaves the request in order. *)
Lemma segment_shown h t works evs :
  all_justified bodies client keys h -> task_shown h t -> segment_spec t works evs ->
  all_justified bodies client keys (h ++ evs) /\
  (works = [] \/ exists work, works = [work] /\ task_shown (h ++ evs) (next_task t work)).
Proof.
  intros Hh [Hno (since & Ha & Hw)] Hspec. unfold segment_spec in Hspec.
  assert (Forall (fun e => sends e = None) evs -> forall e, e ∈ h ++ evs -> sends e <> Some (pt_number t)) as Hquiet.
  { intros Hq e [He|He]%elem_of_app; [by apply Hno|]. rewrite Forall_forall in Hq. by rewrite (Hq e He). }
  destruct (pt_work t) as [packet|packet allowed|tls req|tls req allowed reason].
  - destruct Hspec as (Hq & allowed & -> & Hp). split; [by apply all_justified_quiet|]. right. eexists. split; [done|].
    split; [by apply Hquiet|]. exists (since ++ evs). split; [by apply attributed_app|]. simpl. destruct allowed; [by apply Hp|done].
  - destruct Hspec as (-> & ->). split; [|by left]. destruct allowed; [|by rewrite app_nil_r].
    apply all_justified_snoc; [done|]. split; [done|]. by exists (pt_vm t), since.
  - destruct Hspec as (Hq & allowed & reason & -> & Hp). split; [by apply all_justified_quiet|]. right. eexists. split; [done|].
    split; [by apply Hquiet|]. exists (since ++ evs). split; [by apply attributed_app|]. simpl. destruct allowed; [by apply Hp|done].
  - destruct Hspec as (-> & [->|(-> & sent & -> & Hsent)]); (split; [|by left]); [by rewrite app_nil_r|].
    apply all_justified_snoc; [done|]. split; [done|]. by exists (pt_vm t), since, tls, req.
Qed.

Lemma sys_proxied_inv y t rest (w w' : W) works evs s' :
  proxied_tasks y ≡ₚ t :: rest -> proxied_step bodies client keys t (server (core y), w) = ((works, evs), (s', w')) ->
  sys_inv y ->
  sys_inv (mkSystem (set_server (core y) s') (map (next_task t) works ++ rest) (next_number y) (history y ++ evs)).
Proof.
  intros Hp Hst [Hg Hu Hh Hn Hd Ht].
  pose proof (proxied_step_mem t (server (core y), w)) as Hm. rewrite Hst in Hm. injection Hm as Hreg Hal.
  pose proof (proxied_step_numbers _ _ _ _ _ Hst) as Hnum. apply proxied_step_spec in Hst.
  rewrite Hp in Hd, Ht. apply Forall_cons in Ht as [[Hlt Hts] Ht]. apply NoDup_cons in Hd as [Hni Hd].
  destruct (segment_shown _ _ _ _ Hh Hts Hst) as [Hh' Hnext]. rewrite Forall_forall in Hnum.
  split; cbn [core proxied_tasks next_number history server set_server].
  - apply good_set_server; [unfold mem; simpl; congruence|done].
  - rewrite up_requests by (apply Forall_forall; intros e He; rewrite (Hnum e He); by eexists). by rewrite Hu, Hreg.
  - done.
  - apply Forall_app. split; [done|]. apply Forall_forall. intros e He m. rewrite (Hnum e He). by intros [= <-].
  - destruct Hnext as [->|(work & -> & _)]; simpl; [done|]. by apply NoDup_cons.
  - apply Forall_app. split; [destruct Hnext as [->|(work & -> & Hsh)]; simpl; [done|by apply Forall_singleton]|].
    apply Forall_forall. intros t' Hin. rewrite Forall_forall in Ht. destruct (Ht t' Hin) as [Hlt' Hsh']. split; [done|].
    apply task_shown_app; [done|]. intros e He Hs%sends_number. rewrite (Hnum e He) in Hs. injection Hs as Heq. apply Hni.
    apply list_elem_of_fmap. by exists t'.
Qed.

Lemma sys_reachable_inv y : sys_reachable (W := W) cfg bodies client keys y -> sys_inv y.
Proof.
  intros (y0 & (Hi & Ht & Hn & Hh) & Hs).
  assert (sys_inv y0) as H0'.
  { split; rewrite ?Ht, ?Hn, ?Hh.
    - by apply initial_good.
    - destruct Hi as (-> & _). by rewrite fmap_empty.
    - intros h1 e h2 Heq. by destruct h1.
    - constructor.
    - constructor.
    - constructor. }
  clear Hi Ht Hn Hh. induction Hs as [|y0 y1 y2 Hst _ IH]; [done|]. apply IH. destruct Hst.
  - by eapply sys_service_inv.
  - by eapply sys_arrival_inv.
  - by eapply sys_proxied_inv.
Qed.

(** C3. Everything that leaves the host is attributed and permitted, in every history
    of the whole server: however the service's requests, the shutdown and the VMs'
    traffic interleave and whatever the outside world answers, a DNS query or HTTP
    request is sent at most once, and before it was sent there was a moment when it
    was looked up and exactly one VM was up with its source address, after which the
    authorization service (if there is one) was asked about that VM and that very
    query or request and allowed it, even if the VM has gone or its address has
    another owner by now. *)
Theorem traffic_attributed y h1 e h2 :
  sys_reachable (W := W) cfg bodies client keys y -> history y = h1 ++ e :: h2 ->
  justified bodies client keys h1 e.
Proof. intros Hr Hh. destruct (sys_reachable_inv y Hr) as [_ _ Hj _ _ _]. by eapply Hj. Qed.

End preserved.

(** * A run on an example host

    The host of [SimWorld] with a log for each proxy. *)

Definition full_host : Type := sim * (list (net_event (list byte)) * list (net_event UpstreamRequest)).

Definition on_host {A} (m : ST sim A) : ST full_host A := fun '(s, l) => let '(a, s') := m s in (a, (s', l)).

#[export] Instance full_fs : FileSystem full_host := {|
  path_exists p := on_host (path_exists p); remove_file p := on_host (remove_file p);
  write_file p c := on_host (write_file p c); read_to_string p := on_host (read_to_string p) |}.
#[export] Instance full_proc : Processes full_host := {|
  spawn a := on_host (spawn a); kill p := on_host (kill p); wait p := on_host (wait p) |}.
#[export] Instance full_clock : Clock full_host := {|
  instant_now := on_host instant_now; system_now := on_host system_now; sleep_ms ms := on_host (sleep_ms ms) |}.
#[export] Instance full_ts : Timestamps full_host := {|
  rfc3339_now := on_host rfc3339_now; rfc3339_long := on_host rfc3339_long |}.
#[export] Instance full_ipt : Iptables full_host := {|
  ipt_open := on_host ipt_open; ipt_crate_append t c r := on_host (ipt_crate_append t c r);
  ipt_crate_exists t c r := on_host (ipt_crate_exists t c r); ipt_crate_delete t c r := on_host (ipt_crate_delete t c r) |}.
#[export] Instance full_nl : Netlink full_host := {|
  nl_link_get n := on_host (nl_link_get n); nl_add_bridge n := on_host (nl_add_bridge n);
  nl_address_add i a p := on_host (nl_address_add i a p); nl_link_up i := on_host (nl_link_up i);
  nl_link_controller i j := on_host (nl_link_controller i j); nl_link_del i := on_host (nl_link_del i) |}.
#[export] Instance full_tun : TunDevice full_host := {|
  tun_open := on_host tun_open; tun_setiff d n f := on_host (tun_setiff d n f);
  tun_setpersist d f := on_host (tun_setpersist d f); tun_close d := on_host (tun_close d) |}.
#[export] Instance full_fc : FirecrackerApi full_host := {| fc_send r := on_host (fc_send r) |}.
#[export] Instance full_uuid : UuidGen full_host := {| new_v4 := on_host new_v4 |}.
#[export] Instance full_agent : AgentTransport full_host := {|
  uds_connect p := on_host (uds_connect p); uds_write_all h t := on_host (uds_write_all h t);
  uds_read_line h := on_host (uds_read_line h); rpc_health h := on_host (rpc_health h);
  rpc_exec h r := on_host (rpc_exec h r) |}.
#[export] Instance full_auth : AuthService full_host := {|
  auth_connect a := on_host (auth_connect a);
  auth_call r := fun '(s, (d, h)) => let '(a, s') := auth_call r s in (a, (s', (d ++ [Asked r a], h ++ [Asked r a]))) |}.
#[export] Instance full_upstream : Upstream full_host := {|
  udp_bind := ret (Ok tt);
  udp_send p := fun '(s, (d, h)) => (Ok tt, (s, (d ++ [Forwarded p], h)));
  udp_recv := ret (Ok (Ok [x00; x01; x81; x80])) |}.
#[export] Instance full_http : HttpUpstream full_host := {|
  http_request r := fun '(s, (d, h)) => (Ok example_response, (s, (d, h ++ [Forwarded r]))) |}.

Lemma on_host_keeps {A} (m : ST sim A) : keeps (S := full_host) snd (on_host m).
Proof. intros [s l]. unfold on_host. by destruct (m s). Qed.

#[export] Instance full_dns_trace : NetTrace full_host (list byte).
Proof.
  refine {| net_log := fun w : full_host => w.2.1 |}; try (intros; intros w; exact (f_equal fst (on_host_keeps _ w))).
  intros r [s [d h]]. simpl. by destruct (scripted _ _ s).
Defined.

#[export] Instance full_http_trace : NetTrace full_host UpstreamRequest.
Proof.
  refine {| net_log := fun w : full_host => w.2.2 |}; try (intros; intros w; exact (f_equal snd (on_host_keeps _ w))).
  intros r [s [d h]]. simpl. by destruct (scripted _ _ s).
Defined.

#[export] Instance full_upstream_trace : UpstreamTrace full_host.
Proof. constructor; [by intros p [s [d h]]|by intros w|by intros w]. Qed.

#[export] Instance full_http_upstream_trace : HttpTrace full_host.
Proof. constructor; [by intros r [s [d h]]|]. intros p c w. exact (f_equal snd (on_host_keeps _ w)). Qed.

(** ** A schedule *)

Section run.
Context (cfg : ServerConfig) (bodies : BodyStore) (client : AuthClient) (keys : LlmKeyStore).

Abbreviation state := (system * full_host)%type.

(** The service moves as [f] says; a request arrives; the first request goes on. *)
Definition service_move (f : conf * full_host -> conf * full_host) (yw : state) : state :=
  let '(y, w) := yw in
  let '(k', w') := f (core y, w) in
  (mkSystem k' (proxied_tasks y) (next_number y)
     (history y ++ changes (vm_registry (server (core y))) (vm_registry (server k'))), w').

Definition arrive (peer : IpAddr) (work : proxied) (yw : state) : state :=
  let '(y, w) := yw in
  let '((start, corr, found), (s', w')) := proxy_lookup peer (server (core y), w) in
  (mkSystem (set_server (core y) s')
     (map (fun id => mkProxyTask (next_number y) start corr id work) (option_list found) ++ proxied_tasks y)
     (S (next_number y)) (history y ++ [Looked (next_number y) peer found]), w').

Definition proceed (yw : state) : state :=
  let '(y, w) := yw in
  match proxied_tasks y with
  | [] => (y, w)
  | t :: rest =>
      let '((works, evs), (s', w')) := proxied_step bodies client keys t (server (core y), w) in
      (mkSystem (set_server (core y) s') (map (next_task t) works ++ rest) (next_number y) (history y ++ evs), w')
  end.

Abbreviation runs := (sys_reachable (W := full_host) cfg bodies client keys).

Lemma sys_reachable_step y y' : runs y -> sys_step (W := full_host) cfg bodies client keys y y' -> runs y'.
Proof. intros (y0 & Hi & Hs) Hst. exists y0. split; [done|]. by eapply rtc_r. Qed.

Lemma service_move_reachable f yw :
  Concurrency.step (W := full_host) cfg (core yw.1) (f (core yw.1, yw.2)).1 -> runs yw.1 -> runs (service_move f yw).1.
Proof.
  destruct yw as [y w]. simpl. intros Hst Hr. destruct (f (core y, w)) as [k' w']. simpl in *.
  eapply sys_reachable_step; [exact Hr|]. by constructor.
Qed.

Lemma service_run_reachable yw : runs yw.1 -> runs (service_move (run_first cfg) yw).1.
Proof.
  intros Hr. destruct (decide (tasks (core yw.1) = [])) as [E|E]; [|by apply service_move_reachable; [apply (run_first_step cfg (core yw.1, yw.2))|]].
  destruct yw as [[k ps n h] w]. simpl in *. rewrite E. unfold changes.
  by rewrite map_difference_diag, map_to_list_empty, app_nil_r.
Qed.

Lemma arrive_reachable peer work yw : arrival work -> runs yw.1 -> runs (arrive peer work yw).1.
Proof.
  destruct yw as [y w]. simpl. intros Ha Hr. destruct (proxy_lookup peer (server (core y), w)) as [[[start corr] found] [s' w']] eqn:E.
  eapply sys_reachable_step; [exact Hr|]. by eapply sys_arrival.
Qed.

Lemma proceed_reachable yw : runs yw.1 -> runs (proceed yw).1.
Proof.
  destruct yw as [y w]. simpl. intros Hr. destruct (proxied_tasks y) as [|t rest] eqn:E; [done|].
  destruct (proxied_step bodies client keys t (server (core y), w)) as [[works evs] [s' w']] eqn:Es.
  eapply sys_reachable_step; [exact Hr|]. eapply sys_proxied; [by rewrite E|exact Es].
Qed.

End run.

(** A VM is created, asks for the address of "a" and is deleted while its query waits
    for authorization; the query is sent, on its behalf. *)
Definition example_query : list byte := query_bytes [x00; x01; x01; x00] 1 (replicate 6 x00) [[x61]] 1 [].

Definition begin_delete (kw : conf * full_host) : conf * full_host :=
  let '(k, w) := kw in
  match delete_vm_remove 100%N (server k, w) with
  | (Ok e, (s', w')) => (mkConf s' (DeleteCleanup 0 100%N e :: tasks k) (issued k), w')
  | (Err _, (s', w')) => (mkConf s' (tasks k) (issued k), w')
  end.

Lemma begin_delete_step kw : Concurrency.step (W := full_host) example_cfg kw.1 (begin_delete kw).1.
Proof.
  destruct kw as [k w]. simpl. destruct (delete_vm_remove 100%N (server k, w)) as [[e|st] [s' w']] eqn:E.
  - by eapply step_run, step_delete.
  - by eapply step_run, step_delete_refused.
Qed.

Definition empty_system : system * full_host := (mkSystem example_conf [] 0 [], (bridge_host, ([], []))).

Definition created_system : system * full_host :=
  let run := service_move (run_first example_cfg) in run (run (run (run (service_move (start_create example_req) empty_system)))).

Definition asked_system : system * full_host :=
  proceed (mkBodyStore "/b" 100) Connected ∅ (arrive vm_ip (DnsAsk example_query) created_system).

Definition gone_system : system * full_host := service_move begin_delete asked_system.

Definition queried_system : system * full_host := proceed (mkBodyStore "/b" 100) Connected ∅ gone_system.

Abbreviation example_runs := (sys_reachable (W := full_host) example_cfg (mkBodyStore "/b" 100) Connected ∅).

Lemma created_reachable : example_runs created_system.1.
Proof.
  unfold created_system. cbv zeta. do 4 apply service_run_reachable.
  apply (service_move_reachable _ _ _ _ _ empty_system); [by apply (start_create_step _ _ (example_conf, empty_system.2))|].
  eexists. split; [|apply rtc_refl]. by repeat split.
Qed.

Lemma gone_reachable : example_runs gone_system.1.
Proof.
  unfold gone_system. apply service_move_reachable.
  - apply (begin_delete_step (core asked_system.1, asked_system.2)).
  - unfold asked_system. apply proceed_reachable, arrive_reachable; [constructor|exact created_reachable].
Qed.

Lemma queried_reachable : example_runs queried_system.1.
Proof. unfold queried_system. apply proceed_reachable. exact gone_reachable. Qed.

Lemma traffic_attributed_witness :
  exists h1 h2, history queried_system.1 = h1 ++ DnsSent 0 example_query :: h2 /\
    up h1 = ∅ /\ exists id since, attributed h1 0 id since /\ dns_permitted Connected 0 id example_query since.
Proof.
  exists (take 4 (history queried_system.1)), []. assert (history queried_system.1 =
    take 4 (history queried_system.1) ++ DnsSent 0 example_query :: []) as Hh by (vm_compute; reflexivity).
  split; [exact Hh|]. split; [vm_compute; reflexivity|].
  exact (proj2 (traffic_attributed example_cfg (mkBodyStore "/b" 100) Connected ∅ queried_system.1 _ _ _ queried_reachable Hh)).
Defined.
