(* ===== verification/Agent.v ===== *)
(** clawpot-agent/src (exec.rs, service.rs, main.rs): the guest agent, which runs
    commands inside the VM for the server.  The streaming command is in
    [AgentStream]. *)

From S2P Require Import Prelude RustStr World Grpc SimWorld.
From Stdlib Require Import ZArith Lia Ascii String.
From Stdlib Require Import Strings.Byte.
From stdpp Require Import base gmap strings list.

Open Scope Z_scope.

(** * Commands *)

(** [tokio::process::Command], as far as it is configured: setting a variable of
    the environment again replaces its value. *)
Record Command : Type := mkCommand {
  cmd_program : string;
  cmd_args : list string;
  cmd_dir : option string;
  cmd_env : gmap string string;
}.

Definition new_command (program : string) (args : list string) : Command := mkCommand program args None ∅.

Definition current_dir (dir : string) (c : Command) : Command :=
  mkCommand (cmd_program c) (cmd_args c) (Some dir) (cmd_env c).

Definition env (c : Command) (kv : string * string) : Command :=
  mkCommand (cmd_program c) (cmd_args c) (cmd_dir c) (<[kv.1 := kv.2]> (cmd_env c)).

(** The command that a request describes. *)
Definition command_of (req : ExecRequest) : Command :=
  let cmd := new_command (er_command req) (er_args req) in
  let cmd := if negb (String.eqb (er_working_dir req) EmptyString) then current_dir (er_working_dir req) cmd else cmd in
  fold_left env (er_env req) cmd.

(** [std::process::Output]; [ExitStatus::code] is [None] for a process that a
    signal ended. *)
Record Output : Type := mkOutput {
  status_code : option Z;   (* i32 *)
  out_stdout : list byte;
  out_stderr : list byte;
}.

(** [tokio::time::timeout(d, cmd.output())], [d] in milliseconds: [None] when the
    time has elapsed. *)
Class Commands (W : Type) := {
  timeout_output : Z -> Command -> ST W (option (result Output io_error));
}.

(** [Duration::from_secs(300)] in milliseconds. *)
Definition EXEC_TIMEOUT : Z := 300 * 1000.

Section agent.
Context {W : Type} `{Commands W} `{Clock W}.

(** [run_command(req)] *)
Definition run_command (req : ExecRequest) : ST W (result ExecResponse error) :=
  let cmd := command_of req in
  let! output := timeout_output EXEC_TIMEOUT cmd in
  match output with
  | Some (Ok output) =>
      ret (Ok (mkExecResponse (default (-1) (status_code output)) (out_stdout output) (out_stderr output)))
  | Some (Err e) =>
      ret (Ok (mkExecResponse (-1) [] (bytes_of_str ("Failed to execute command: " +:+ io_error_msg e +:+ nl))))
  | None =>
      ret (Ok (mkExecResponse (-1) []
                 (bytes_of_str ("Command timed out after " +:+ show_Z (EXEC_TIMEOUT / 1000) +:+ " seconds" +:+ nl))))
  end.

(** [AgentServiceImpl]: when it was started. *)
Record AgentServiceImpl : Type := mkAgentServiceImpl { started_at : Z }.

(** [AgentServiceImpl::new()] *)
Definition new_agent : ST W AgentServiceImpl := st_map mkAgentServiceImpl instant_now.

(** The handler [exec]. *)
Definition agent_exec (request : ExecRequest) : ST W (result ExecResponse Status) :=
  st_map (map_err (fun e => mkStatus Internal ("Execution failed: " +:+ err_string e))) (run_command request).

Record HealthResponse : Type := mkHealthResponse { version : string; uptime_secs : Z }.

(** The handler [health]; the version is the package's, fixed when it is built. *)
Definition health (pkg_version : string) (self : AgentServiceImpl) : ST W (result HealthResponse Status) :=
  let! now := instant_now in
  ret (Ok (mkHealthResponse pkg_version ((now - started_at self) / 1000))).

End agent.

(** ** Serving *)

Definition VSOCK_PORT : Z := 10051.

(** [VMADDR_CID_ANY] of vsock(7): -1 as a [u32]. *)
Definition VMADDR_CID_ANY : Z := 2 ^ 32 - 1.

(** Binding the vsock listener; serving until the transport fails, on it or on a
    TCP address. *)
Class AgentListeners (W : Type) := {
  vsock_bind : Z -> Z -> ST W (result Z io_error);
  serve_with_incoming : AgentServiceImpl -> Z -> ST W (result unit error);
  serve_tcp : AgentServiceImpl -> string -> ST W (result unit error);
}.

Section serving.
Context {W : Type} `{Clock W} `{AgentListeners W}.

(** [main()]: vsock first, TCP when vsock is not available. *)
Definition agent_main : ST W (result unit error) :=
  let! service := new_agent in
  let! bound := vsock_bind VMADDR_CID_ANY VSOCK_PORT in
  match bound with
  | Ok listener => do? serve_with_incoming service listener in ret (Ok tt)
  | Err _ => do? serve_tcp service "0.0.0.0:10051" in ret (Ok tt)
  end.

End serving.

(** * Properties *)

(** The environment does not depend on the order in which the map of the request
    is iterated. *)
Lemma fold_env_lookup kvs : forall c k,
  cmd_env (fold_left env kvs c) !! k = (list_to_map (reverse kvs) ∪ cmd_env c) !! k.
Proof.
  induction kvs as [|[k0 v0] kvs IH]; intros c k; [simpl; by rewrite (left_id_L ∅ (∪))|].
  cbn [fold_left]. rewrite IH, reverse_cons, list_to_map_app. simpl. rewrite !lookup_union.
  destruct (decide (k0 = k)) as [->|Hne].
  - rewrite !lookup_insert_eq. by destruct ((list_to_map (reverse kvs) : gmap string string) !! k), (cmd_env c !! k).
  - rewrite !lookup_insert_ne by done. rewrite lookup_empty.
    by destruct ((list_to_map (reverse kvs) : gmap string string) !! k), (cmd_env c !! k).
Qed.

Lemma fold_env_rest kvs : forall c,
  cmd_program (fold_left env kvs c) = cmd_program c /\ cmd_args (fold_left env kvs c) = cmd_args c /\
  cmd_dir (fold_left env kvs c) = cmd_dir c.
Proof. induction kvs as [|kv kvs IH]; intros c; [done|]. simpl. apply (IH (env c kv)). Qed.

(** What a request's command is: the program and arguments as given, the
    directory only when one is given, every variable of the map and no other. *)
Lemma command_of_spec req :
  NoDup (er_env req).*1 ->
  cmd_program (command_of req) = er_command req /\ cmd_args (command_of req) = er_args req /\
  cmd_dir (command_of req) = (if decide (er_working_dir req = EmptyString) then None else Some (er_working_dir req)) /\
  (forall k v, cmd_env (command_of req) !! k = Some v <-> (k, v) ∈ er_env req).
Proof.
  intros Hnd. unfold command_of. set (c := if negb _ then _ else _).
  destruct (fold_env_rest (er_env req) c) as (-> & -> & ->).
  assert (cmd_env c = ∅) as Hc by (unfold c; by destruct (negb _)).
  split_and!; try (unfold c; by destruct (negb _)).
  - unfold c. destruct (String.eqb_spec (er_working_dir req) EmptyString), (decide _); by simpl.
  - intros k v. rewrite fold_env_lookup, Hc, (right_id_L ∅ (∪)). rewrite <- (elem_of_list_to_map (M:=gmap string)).
    + by rewrite elem_of_reverse.
    + rewrite fmap_reverse. by rewrite reverse_Permutation.
Qed.
