(* ===== verification/AgentStream.v ===== *)
(** clawpot-agent/src/stream.rs: a command with its standard streams piped over
    one bidirectional gRPC call.

    [run_stream] runs as a main task and three tasks it spawns (stdin forwarder,
    stdout reader, stderr reader), which meet at a bounded channel of output
    messages, next to the client and the process.  The state holds where each of
    them is; a label is one move of one of them with everything it does not
    determine itself (how much a read returns, whether it fails, what the process
    writes, when the client takes a message or hangs up), and [step] executes it.
    A move that has to wait is not enabled ([None]).  The theorems hold for every
    interleaving. *)

From S2P Require Import Prelude RustStr World Grpc SimWorld Agent.
From Stdlib Require Import ZArith Lia Ascii String.
From Stdlib Require Import Strings.Byte.
From stdpp Require Import base gmap strings list relations.

(** * Messages *)

(** The [oneof]s of clawpot_agent.proto; an unset one is [None]. *)
Inductive Input : Type :=
| Start (req : ExecRequest)
| StdinData (data : list byte)
| CloseStdin (b : bool).

Record ExecStreamInput : Type := mkStreamInput { input : option Input }.

Inductive StreamOutput : Type :=
| StdoutData (data : list byte)
| StderrData (data : list byte)
| ExitCode (code : Z).

Record ExecStreamOutput : Type := mkStreamOutput { output : option StreamOutput }.

(** What [input_stream.message().await] returns. *)
Abbreviation received := (result (option ExecStreamInput) Status).

(** What the channel carries. *)
Abbreviation out_msg := (result ExecStreamOutput Status).

Definition CHUNK_SIZE : nat := 4096.

(** [mpsc::channel(32)] in service.rs. *)
Definition CHANNEL_SIZE : nat := 32.

(** * State *)

(** Where a reader task is; an ended one remembers why it left its loop. *)
Inductive why : Type := AtEof | ReadFailed | HungUp.
Inductive reader : Type :=
| Reading
| Sending (chunk : list byte)
| Ended (w : why).

(** The process's end of an output stream: all it has written, what of that is
    still in the pipe, and whether anyone still holds the writing end. *)
Record pipe : Type := mkPipe { written : list byte; buffered : list byte; writers : bool }.

Record lane : Type := mkLane { task : reader; end_of : pipe }.

Inductive fd : Type := Stdout | Stderr.

#[export] Instance fd_eq_dec : EqDecision fd.
Proof. solve_decision. Defined.

(** The message a chunk of a stream is sent as. *)
Definition data_msg (f : fd) (chunk : list byte) : out_msg :=
  Ok (mkStreamOutput (Some (match f with Stdout => StdoutData chunk | Stderr => StderrData chunk end))).

Inductive stdin_task : Type :=
| StdinReading
| StdinWriting (data : list byte)
| StdinEnded.

(** The spawned process and the tasks that serve it. *)
Record process : Type := mkProcess {
  command : Command;
  stdin_at : stdin_task;
  stdin_bytes : list byte;      (* what its standard input has received *)
  out_lane : lane;
  err_lane : lane;
  exited : option (result (option Z) string);   (* what [wait] returns *)
}.

(** Where the main task is. *)
Inductive main_at : Type :=
| AwaitStart
| AwaitReader (f : fd)
| AwaitChild
| SendLast (m : out_msg)
| Finished.

Record stream : Type := mkStream {
  main : main_at;
  proc : option process;
  inputs : list received;       (* what the client will have sent, in order *)
  channel : list out_msg;
  receiving : bool;             (* the receiver has not been dropped *)
  sent : list out_msg;          (* everything that entered the channel *)
  delivered : list out_msg;     (* what the client took *)
}.

Definition set_main (m : main_at) (s : stream) : stream :=
  mkStream m (proc s) (inputs s) (channel s) (receiving s) (sent s) (delivered s).
Definition set_proc (p : process) (s : stream) : stream :=
  mkStream (main s) (Some p) (inputs s) (channel s) (receiving s) (sent s) (delivered s).
Definition set_inputs (i : list received) (s : stream) : stream :=
  mkStream (main s) (proc s) i (channel s) (receiving s) (sent s) (delivered s).

Definition lane_of (f : fd) (p : process) : lane := match f with Stdout => out_lane p | Stderr => err_lane p end.

Definition set_lane (f : fd) (l : lane) (p : process) : process :=
  match f with
  | Stdout => mkProcess (command p) (stdin_at p) (stdin_bytes p) l (err_lane p) (exited p)
  | Stderr => mkProcess (command p) (stdin_at p) (stdin_bytes p) (out_lane p) l (exited p)
  end.

Definition set_stdin (t : stdin_task) (bs : list byte) (p : process) : process :=
  mkProcess (command p) t bs (out_lane p) (err_lane p) (exited p).

(** * The tasks *)

(** [tx.send(m).await]: waits while the channel is full; [false] is the error of
    a dropped receiver. *)
Definition send (m : out_msg) (s : stream) : option (bool * stream) :=
  if negb (receiving s) then Some (false, s)
  else if (length (channel s) <? CHANNEL_SIZE)%nat
  then Some (true, mkStream (main s) (proc s) (inputs s) (channel s ++ [m]) true (sent s ++ [m]) (delivered s))
  else None.

(** The tasks just spawned, and the pipes just made. *)
Definition spawned (c : Command) : process :=
  let fresh := mkLane Reading (mkPipe [] [] true) in
  mkProcess c StdinReading [] fresh fresh None.

(** The first message: [sp] is what [cmd.spawn()] returns if it is called. *)
Definition stream_start (sp : result unit string) (s : stream) : option stream :=
  match main s, inputs s with
  | AwaitStart, item :: rest =>
      let s := set_inputs rest s in
      Some match item with
           | Ok (Some msg) =>
               match input msg with
               | Some (Start req) =>
                   match sp with
                   | Ok _ => set_main (AwaitReader Stdout) (set_proc (spawned (command_of req)) s)
                   | Err e => set_main (SendLast (Err (mkStatus Internal ("Failed to spawn process: " +:+ e)))) s
                   end
               | _ => set_main (SendLast (Err (mkStatus InvalidArgument "First message must be a start command"))) s
               end
           | Ok None => set_main Finished s
           | Err e => set_main (SendLast (Err e)) s
           end
  | _, _ => None
  end.

(** The exit code that is reported for what [child.wait()] returned. *)
Definition exit_code (w : result (option Z) string) : Z :=
  match w with
  | Ok status => default (-1)%Z status
  | Err _ => (-1)%Z
  end.

Definition ended (l : lane) : bool := match task l with Ended _ => true | _ => false end.

(** The main task after the process was spawned: join the readers, wait for the
    process, ask for the forwarder's abort (see [stdin_abort]), send the last
    message. *)
Definition stream_main (s : stream) : option stream :=
  match main s, proc s with
  | AwaitReader f, Some p =>
      if ended (lane_of f p)
      then Some (set_main (match f with Stdout => AwaitReader Stderr | Stderr => AwaitChild end) s)
      else None
  | AwaitChild, Some p =>
      match exited p with
      | Some w => Some (set_main (SendLast (Ok (mkStreamOutput (Some (ExitCode (exit_code w)))))) s)
      | None => None
      end
  | SendLast m, _ =>
      match send m s with
      | Some (_, s') => Some (set_main Finished s')
      | None => None
      end
  | _, _ => None
  end.

(** A reader's [read(&mut buf)]: [Some n] bytes, at most the buffer and what is in
    the pipe, 0 only at the end of the stream; [None] is an error. *)
Definition read_chunk (r : option nat) (l : lane) : option lane :=
  match task l, r with
  | Reading, None => Some (mkLane (Ended ReadFailed) (end_of l))
  | Reading, Some O =>
      if bool_decide (buffered (end_of l) = []) && negb (writers (end_of l))
      then Some (mkLane (Ended AtEof) (end_of l)) else None
  | Reading, Some n =>
      if (n <=? CHUNK_SIZE)%nat && (n <=? length (buffered (end_of l)))%nat
      then Some (mkLane (Sending (take n (buffered (end_of l))))
                   (mkPipe (written (end_of l)) (drop n (buffered (end_of l))) (writers (end_of l))))
      else None
  | _, _ => None
  end.

(** A reader's [send(Ok(msg))]. *)
Definition send_chunk (f : fd) (p : process) (s : stream) : option stream :=
  match task (lane_of f p) with
  | Sending chunk =>
      match send (data_msg f chunk) s with
      | Some (ok, s') =>
          let t := if ok then Reading else Ended HungUp in
          Some (set_proc (set_lane f (mkLane t (end_of (lane_of f p))) p) s')
      | None => None
      end
  | _ => None
  end.

(** The stdin forwarder's next message. *)
Definition stdin_next (p : process) (s : stream) : option stream :=
  match stdin_at p, inputs s with
  | StdinReading, item :: rest =>
      let t := match item with
               | Ok (Some msg) =>
                   match input msg with
                   | Some (StdinData data) => StdinWriting data
                   | Some (CloseStdin true) => StdinEnded
                   | _ => StdinEnded
                   end
               | _ => StdinEnded
               end in
      Some (set_proc (set_stdin t (stdin_bytes p) p) (set_inputs rest s))
  | _, _ => None
  end.

(** A [write] of the forwarder's [write_all]: [Some n] bytes went into the pipe,
    one at least unless there is nothing to write; [None] is an error. *)
Definition stdin_write (r : option nat) (p : process) (s : stream) : option stream :=
  match stdin_at p, r with
  | StdinWriting data, Some n =>
      if (n <=? length data)%nat && (bool_decide (data = []) || (0 <? n)%nat)
      then let t := if bool_decide (drop n data = []) then StdinReading else StdinWriting (drop n data) in
           Some (set_proc (set_stdin t (stdin_bytes p ++ take n data) p) s)
      else None
  | StdinWriting _, None => Some (set_proc (set_stdin StdinEnded (stdin_bytes p) p) s)
  | _, _ => None
  end.

(** [stdin_handle.abort()], which the main task has called before it sends the
    exit code, ends the forwarder when it next waits, not at once. *)
Definition stdin_abort (p : process) (s : stream) : option stream :=
  match main s, stdin_at p with
  | SendLast _, (StdinReading | StdinWriting _) | Finished, (StdinReading | StdinWriting _) =>
      Some (set_proc (set_stdin StdinEnded (stdin_bytes p) p) s)
  | _, _ => None
  end.

(** * The process and the client *)

(** The process writes to one of its streams, which someone must still read;
    everyone closes it; the process ends. *)
Definition child_write (f : fd) (bs : list byte) (p : process) : option process :=
  let l := lane_of f p in
  if writers (end_of l) && negb (ended l)
  then Some (set_lane f (mkLane (task l) (mkPipe (written (end_of l) ++ bs) (buffered (end_of l) ++ bs) true)) p)
  else None.

Definition child_close (f : fd) (p : process) : option process :=
  let l := lane_of f p in
  if writers (end_of l)
  then Some (set_lane f (mkLane (task l) (mkPipe (written (end_of l)) (buffered (end_of l)) false)) p)
  else None.

Definition child_exit (w : result (option Z) string) (p : process) : option process :=
  match exited p with
  | Some _ => None
  | None => Some (mkProcess (command p) (stdin_at p) (stdin_bytes p) (out_lane p) (err_lane p) (Some w))
  end.

(** The client takes a message; it hangs up, and what waits for it is lost. *)
Definition client_recv (s : stream) : option stream :=
  match receiving s, channel s with
  | true, m :: rest => Some (mkStream (main s) (proc s) (inputs s) rest true (sent s) (delivered s ++ [m]))
  | _, _ => None
  end.

Definition client_hangup (s : stream) : option stream :=
  if receiving s then Some (mkStream (main s) (proc s) (inputs s) [] false (sent s) (delivered s)) else None.

(** * Steps *)

Inductive label : Type :=
| LStart (sp : result unit string)
| LMain
| LRead (f : fd) (r : option nat)
| LSend (f : fd)
| LStdinNext
| LStdinWrite (r : option nat)
| LStdinAbort
| LChildWrite (f : fd) (bs : list byte)
| LChildClose (f : fd)
| LChildExit (w : result (option Z) string)
| LRecv
| LHangup.

Definition with_proc (k : process -> option stream) (s : stream) : option stream := proc s ≫= k.

Definition step (l : label) (s : stream) : option stream :=
  match l with
  | LStart sp => stream_start sp s
  | LMain => stream_main s
  | LRead f r => with_proc (fun p => (fun x => set_proc (set_lane f x p) s) <$> read_chunk r (lane_of f p)) s
  | LSend f => with_proc (fun p => send_chunk f p s) s
  | LStdinNext => with_proc (fun p => stdin_next p s) s
  | LStdinWrite r => with_proc (fun p => stdin_write r p s) s
  | LStdinAbort => with_proc (fun p => stdin_abort p s) s
  | LChildWrite f bs => with_proc (fun p => (fun q => set_proc q s) <$> child_write f bs p) s
  | LChildClose f => with_proc (fun p => (fun q => set_proc q s) <$> child_close f p) s
  | LChildExit w => with_proc (fun p => (fun q => set_proc q s) <$> child_exit w p) s
  | LRecv => client_recv s
  | LHangup => client_hangup s
  end.

Definition Step (s s' : stream) : Prop := exists l, step l s = Some s'.

(** The handler [exec_stream] makes the channel and spawns [run_stream]. *)
Definition exec_stream (ins : list received) : stream := mkStream AwaitStart None ins [] true [] [].

Definition reachable (ins : list received) (s : stream) : Prop := rtc Step (exec_stream ins) s.

(** Run a schedule. *)
Fixpoint run (ls : list label) (s : stream) : option stream :=
  match ls with
  | [] => Some s
  | l :: ls => step l s ≫= run ls
  end.

(** * The protocol *)

(** The bytes of a stream that a sequence of messages carries. *)
Definition bytes_in (f : fd) (m : out_msg) : list byte :=
  match f, m with
  | Stdout, Ok (mkStreamOutput (Some (StdoutData d))) => d
  | Stderr, Ok (mkStreamOutput (Some (StderrData d))) => d
  | _, _ => []
  end.

Definition stream_bytes (f : fd) (ms : list out_msg) : list byte := ms ≫= bytes_in f.

(** A message with a chunk of output: not empty, and at most a buffer. *)
Definition is_data (m : out_msg) : Prop :=
  exists f chunk, m = data_msg f chunk /\ chunk <> [] /\ (length chunk <= CHUNK_SIZE)%nat.

Definition exit_msg (c : Z) : out_msg := Ok (mkStreamOutput (Some (ExitCode c))).

(** What the client sends for the process's standard input: the data messages
    that come first. *)
Fixpoint stdin_of (ins : list received) : list byte :=
  match ins with
  | Ok (Some (mkStreamInput (Some (StdinData d)))) :: rest => d ++ stdin_of rest
  | _ => []
  end.

Definition start_msg (req : ExecRequest) : received := Ok (Some (mkStreamInput (Some (Start req)))).

(** The status that answers a call whose command is not run. *)
Inductive refusal : list received -> Status -> Prop :=
| refusal_transport e rest : refusal (Err e :: rest) e
| refusal_first msg rest :
    (forall req, input msg <> Some (Start req)) ->
    refusal (Ok (Some msg) :: rest) (mkStatus InvalidArgument "First message must be a start command")
| refusal_spawn req rest e :
    refusal (start_msg req :: rest) (mkStatus Internal ("Failed to spawn process: " +:+ e)).

Lemma stream_bytes_app f xs ys : stream_bytes f (xs ++ ys) = stream_bytes f xs ++ stream_bytes f ys.
Proof. apply bind_app. Qed.

Lemma stream_bytes_data f g c : stream_bytes f [data_msg g c] = if bool_decide (f = g) then c else [].
Proof. destruct f, g; unfold stream_bytes; simpl; by rewrite ?app_nil_r. Qed.

Lemma stream_bytes_exit f c : stream_bytes f [exit_msg c] = [].
Proof. by destruct f. Qed.

Lemma lane_of_set f g l p : lane_of f (set_lane g l p) = if bool_decide (f = g) then l else lane_of f p.
Proof. by destruct f, g. Qed.

Lemma set_lane_rest g l p :
  command (set_lane g l p) = command p /\ stdin_at (set_lane g l p) = stdin_at p /\
  stdin_bytes (set_lane g l p) = stdin_bytes p /\ exited (set_lane g l p) = exited p.
Proof. by destruct g. Qed.

(** ** The invariant *)

(** Nothing is lost between a stream of the process and the channel. *)
Definition lane_ok (f : fd) (out : list out_msg) (open : bool) (l : lane) : Prop :=
  match task l with
  | Reading => stream_bytes f out ++ buffered (end_of l) = written (end_of l)
  | Sending c =>
      stream_bytes f out ++ c ++ buffered (end_of l) = written (end_of l) /\ c <> [] /\ (length c <= CHUNK_SIZE)%nat
  | Ended AtEof => stream_bytes f out = written (end_of l) /\ writers (end_of l) = false
  | Ended ReadFailed => stream_bytes f out `prefix_of` written (end_of l)
  | Ended HungUp => stream_bytes f out `prefix_of` written (end_of l) /\ open = false
  end.

Definition stdin_ok (rest : list received) (p : process) (ins : list received) : Prop :=
  match stdin_at p with
  | StdinReading => stdin_bytes p ++ stdin_of ins = stdin_of rest
  | StdinWriting d => stdin_bytes p ++ d ++ stdin_of ins = stdin_of rest
  | StdinEnded => stdin_bytes p `prefix_of` stdin_of rest
  end.

(** What the channel has carried, by where the main task is. *)
Definition sent_ok (p : process) (m : main_at) (out : list out_msg) (open : bool) : Prop :=
  match m with
  | AwaitStart => False
  | AwaitReader Stdout => Forall is_data out
  | AwaitReader Stderr => Forall is_data out /\ ended (out_lane p) = true
  | AwaitChild => Forall is_data out /\ forall f, ended (lane_of f p) = true
  | SendLast m =>
      Forall is_data out /\ (forall f, ended (lane_of f p) = true) /\
      exists w, exited p = Some w /\ m = exit_msg (exit_code w)
  | Finished =>
      (forall f, ended (lane_of f p) = true) /\ exists w, exited p = Some w /\
      ((exists outs, out = outs ++ [exit_msg (exit_code w)] /\ Forall is_data outs) \/
       (open = false /\ Forall is_data out))
  end.

Definition unstarted_ok (ins : list received) (s : stream) : Prop :=
  match main s with
  | AwaitStart => sent s = [] /\ inputs s = ins
  | SendLast m => sent s = [] /\ exists st, m = Err st /\ refusal ins st
  | Finished => sent s = [] \/ exists st, sent s = [Err st] /\ refusal ins st
  | _ => False
  end.

Definition started_ok (ins : list received) (p : process) (m : main_at) (left : list received) (out : list out_msg)
  (open : bool) : Prop :=
  (exists req rest, ins = start_msg req :: rest /\ command p = command_of req /\ stdin_ok rest p left) /\
  (forall f, lane_ok f out open (lane_of f p)) /\
  sent_ok p m out open.

(** The client's end of the channel. *)
Definition delivery_ok (s : stream) : Prop :=
  if receiving s then delivered s ++ channel s = sent s
  else channel s = [] /\ delivered s `prefix_of` sent s.

Definition inv (ins : list received) (s : stream) : Prop :=
  delivery_ok s /\
  match proc s with
  | None => unstarted_ok ins s
  | Some p => started_ok ins p (main s) (inputs s) (sent s) (receiving s)
  end.

(** What sending does, when it does not wait. *)
Lemma send_inv m s ok s' :
  send m s = Some (ok, s') ->
  main s' = main s /\ proc s' = proc s /\ inputs s' = inputs s /\ receiving s' = receiving s /\ receiving s = ok /\
  sent s' = (if ok then sent s ++ [m] else sent s) /\ (delivery_ok s -> delivery_ok s').
Proof.
  unfold send. destruct (receiving s) eqn:Er; simpl; [destruct (_ <? _)%nat|]; intros [= <- <-]; simpl; try by rewrite Er.
  repeat split; try done. unfold delivery_ok. rewrite Er. simpl. intros <-. by rewrite app_assoc.
Qed.

(** A message that carries nothing for a stream leaves its lane as it was. *)
Lemma lane_ok_app f out m open l : bytes_in f m = [] -> lane_ok f out open l -> lane_ok f (out ++ [m]) open l.
Proof.
  intros Hm. assert (stream_bytes f (out ++ [m]) = stream_bytes f out) as He.
  { rewrite stream_bytes_app. unfold stream_bytes at 2. simpl. by rewrite Hm, !app_nil_r. }
  unfold lane_ok. by rewrite He.
Qed.

Lemma lane_ok_hangup f out open l : lane_ok f out open l -> lane_ok f out false l.
Proof. unfold lane_ok. destruct (task l) as [| |[]]; naive_solver. Qed.

(** ** Its preservation, task by task *)

Section preserved.
Context (ins : list received).

Lemma inv_refuse s rest st :
  delivery_ok s -> proc s = None -> sent s = [] -> refusal ins st -> inv ins (set_main (SendLast (Err st)) (set_inputs rest s)).
Proof. intros Hd Hp Hs Hr. split; [done|]. simpl. rewrite Hp. split; [done|]. by exists st. Qed.

Lemma inv_start sp s s' : inv ins s -> stream_start sp s = Some s' -> inv ins s'.
Proof.
  unfold stream_start. intros [Hd Hp]. destruct (main s) eqn:Em; try done.
  destruct (inputs s) as [|item rest] eqn:Ei; [done|]. destruct (proc s) as [p|] eqn:Ep.
  { by destruct Hp as (_ & _ & Hp). }
  unfold unstarted_ok in Hp. rewrite Em, Ei in Hp. destruct Hp as [Hs Hi].
  intros [= <-]. destruct item as [[[inp]|]|e].
  - destruct inp as [[req|d|b]|]; simpl; try (apply inv_refuse; [done..|]; rewrite <- Hi; by apply refusal_first).
    destruct sp as [u|e]; [|apply inv_refuse; [done..|]; rewrite <- Hi; constructor].
    split; [done|]. simpl. split; [|split; [|simpl; by rewrite Hs]].
    + by exists req, rest.
    + intros f. unfold lane_ok. by destruct f; simpl; rewrite Hs.
  - split; [done|]. simpl. rewrite Ep. by left.
  - apply inv_refuse; [done..|]. rewrite <- Hi. constructor.
Qed.

Lemma inv_send_last m s s' ok :
  inv ins s -> main s = SendLast m -> send m s = Some (ok, s') -> inv ins (set_main Finished s').
Proof.
  intros [Hd Hp] Hm Hs. destruct (send_inv _ _ _ _ Hs) as (Hm' & Hp' & Hi' & Hr' & <- & Hs' & Hd').
  split; [by apply Hd'|]. simpl. rewrite Hp'. destruct (proc s) as [p|].
  - destruct Hp as (Hc & Hl & Hsent). rewrite Hm in Hsent. destruct Hsent as (Hdata & He & w & Hw & ->).
    split; [|split].
    + destruct Hc as (req & rest & ? & ? & ?). exists req, rest. simpl. by rewrite Hi'.
    + intros f. simpl. rewrite Hr', Hs'. specialize (Hl f). destruct (receiving s); [|done].
      apply lane_ok_app; [by destruct f|done].
    + simpl. split; [done|]. exists w. split; [done|]. rewrite Hs', Hr'. destruct (receiving s); [left|by right].
      by exists (sent s).
  - unfold unstarted_ok in Hp. rewrite Hm in Hp. destruct Hp as (He & st & -> & Hr). unfold unstarted_ok. simpl.
    rewrite Hs', He. destruct (receiving s); [right; by exists st|by left].
Qed.

Lemma inv_main s s' : inv ins s -> stream_main s = Some s' -> inv ins s'.
Proof.
  intros Hi Hs. unfold stream_main in Hs. destruct (main s) as [|f| |m|] eqn:Em; try done; destruct (proc s) as [p|] eqn:Ep; try done.
  - destruct (ended (lane_of f p)) eqn:Ee; [|done]. injection Hs as <-. destruct Hi as [Hd Hp]. split; [done|].
    simpl. rewrite Ep in *. destruct Hp as (Hc & Hl & Hsent). rewrite Em in Hsent. split_and!; [done..|].
    destruct f; simpl in *; [done|]. destruct Hsent. split; [done|]. by intros [].
  - destruct (exited p) as [w|] eqn:Ew; [|done]. injection Hs as <-. destruct Hi as [Hd Hp]. split; [done|].
    simpl. rewrite Ep in *. destruct Hp as (Hc & Hl & Hsent). rewrite Em in Hsent. destruct Hsent as [Hdata He].
    split_and!; [done..|]. simpl. split_and!; [done..|]. by exists w.
  - destruct (send m s) as [[ok s1]|] eqn:Eq; [|done]. injection Hs as <-. by eapply inv_send_last.
  - destruct (send m s) as [[ok s1]|] eqn:Eq; [|done]. injection Hs as <-. by eapply inv_send_last.
Qed.

(** A change of one lane that keeps what the lane promises. *)
Lemma sent_ok_set_lane p f l m out open :
  sent_ok p m out open -> (ended (lane_of f p) = true -> ended l = true) -> sent_ok (set_lane f l p) m out open.
Proof.
  intros Hs He. assert (forall g, ended (lane_of g p) = true -> ended (lane_of g (set_lane f l p)) = true) as Hmono.
  { intros g. rewrite lane_of_set. case_bool_decide; [by subst|done]. }
  unfold sent_ok in *. destruct (set_lane_rest f l p) as (_ & _ & _ & ->). destruct m as [|[]| |m|]; try done.
  - destruct Hs as [? Ho]. split; [done|]. by apply (Hmono Stdout).
  - destruct Hs as [? Ho]. split; [done|]. auto.
  - destruct Hs as (? & Ho & ?). split_and!; auto.
  - destruct Hs as (Ho & ?). split_and!; auto.
Qed.

Lemma started_set_lane p f l m left out open :
  started_ok ins p m left out open -> lane_ok f out open l -> (ended (lane_of f p) = true -> ended l = true) ->
  started_ok ins (set_lane f l p) m left out open.
Proof.
  intros (Hc & Hl & Hs) Hlok He. split; [|split].
  - destruct Hc as (req & rest & ? & ? & Hstd). exists req, rest.
    destruct (set_lane_rest f l p) as (-> & H1 & H2 & _). split_and!; [done..|]. unfold stdin_ok. by rewrite H1, H2.
  - intros g. rewrite lane_of_set. case_bool_decide; [by subst|apply Hl].
  - by apply sent_ok_set_lane.
Qed.

Lemma inv_set_proc s p q :
  inv ins s -> proc s = Some p ->
  (forall m left out open, started_ok ins p m left out open -> started_ok ins q m left out open) -> inv ins (set_proc q s).
Proof. intros [Hd Hp] Hps Hq. rewrite Hps in Hp. split; [done|]. by apply Hq. Qed.

Lemma read_chunk_ok f out open r l l' :
  lane_ok f out open l -> read_chunk r l = Some l' -> lane_ok f out open l' /\ ended l = false.
Proof.
  unfold lane_ok, read_chunk, ended. destruct (task l); [|by destruct r as [[]|]..]. intros Hok.
  destruct r as [[|n]|].
  - case_bool_decide as Hb; [|done]. destruct (writers (end_of l)) eqn:Ew; [done|]. intros [= <-]. simpl.
    rewrite Hb, app_nil_r in Hok. done.
  - destruct (Nat.leb_spec (S n) CHUNK_SIZE) as [H1|]; [|done].
    destruct (Nat.leb_spec (S n) (length (buffered (end_of l)))) as [H2|]; [|done].
    intros [= <-]. cbn [task end_of buffered written]. pose proof (length_take (buffered (end_of l)) (S n)) as Hlen.
    split_and!; [by rewrite take_drop| |lia|done]. intros He. rewrite He in Hlen. cbn [length] in Hlen. lia.
  - intros [= <-]. simpl. split; [|done]. by eexists.
Qed.

(** Data can be sent only where the main task waits for a lane that has not ended. *)
Lemma sent_ok_data p m out open f c :
  sent_ok p m out open -> ended (lane_of f p) = false -> c <> [] -> (length c <= CHUNK_SIZE)%nat ->
  sent_ok p m (out ++ [data_msg f c]) open.
Proof.
  intros Hs He Hc Hl. assert (is_data (data_msg f c)) as Hd by by exists f, c.
  assert (Forall is_data out -> Forall is_data (out ++ [data_msg f c])) as Ha by (intros; apply Forall_app; by rewrite Forall_singleton).
  destruct m as [|[]| |m|]; unfold sent_ok in *; [done|by apply Ha| | | |].
  - destruct Hs as [? Ho]. by auto.
  - destruct Hs as [_ Ho]. by rewrite Ho in He.
  - destruct Hs as (_ & Ho & _). by rewrite Ho in He.
  - destruct Hs as (Ho & _). by rewrite Ho in He.
Qed.

(** A chunk that was sent, or that could not be. *)
Lemma started_chunk_sent p f c m left out (ok : bool) :
  started_ok ins p m left out ok -> task (lane_of f p) = Sending c ->
  started_ok ins (set_lane f (mkLane (if ok then Reading else Ended HungUp) (end_of (lane_of f p))) p) m left
    (if ok then out ++ [data_msg f c] else out) ok.
Proof.
  intros (Hc & Hl & Hs) Et. pose proof (Hl f) as Hf. unfold lane_ok in Hf. rewrite Et in Hf. destruct Hf as (Hw & Hne & Hlen).
  assert (ended (lane_of f p) = false) as He by (unfold ended; by rewrite Et).
  split; [|split].
  - destruct Hc as (req & rest & ? & ? & Hstd). exists req, rest.
    destruct (set_lane_rest f (mkLane (if ok then Reading else Ended HungUp) (end_of (lane_of f p))) p) as (-> & H1 & H2 & _).
    split_and!; [done..|]. unfold stdin_ok. by rewrite H1, H2.
  - intros g. rewrite lane_of_set. case_bool_decide as Hg.
    + subst g. destruct ok; unfold lane_ok; simpl.
      * rewrite stream_bytes_app, stream_bytes_data, bool_decide_true, <- app_assoc by done. done.
      * split; [by eexists|done].
    + specialize (Hl g). destruct ok; [|done]. apply lane_ok_app; [by destruct f, g|done].
  - apply sent_ok_set_lane; [|by rewrite He]. destruct ok; [|done]. by apply sent_ok_data.
Qed.

Lemma inv_send_chunk f p s s' : inv ins s -> proc s = Some p -> send_chunk f p s = Some s' -> inv ins s'.
Proof.
  intros [Hd Hp] Ep Hs. rewrite Ep in Hp. unfold send_chunk in Hs. destruct (task (lane_of f p)) as [|c|] eqn:Et; try done.
  destruct (send (data_msg f c) s) as [[ok s1]|] eqn:Eq; [|done]. injection Hs as <-.
  destruct (send_inv _ _ _ _ Eq) as (Hm' & Hp' & Hi' & Hr' & Hok & Hs' & Hd').
  split; [by apply Hd'|]. simpl. rewrite Hm', Hi', Hs', Hr', Hok. rewrite Hok in Hp. by apply started_chunk_sent.
Qed.

Lemma inv_stdin_next p s s' : inv ins s -> proc s = Some p -> stdin_next p s = Some s' -> inv ins s'.
Proof.
  intros [Hd Hp] Ep Hs. rewrite Ep in Hp. unfold stdin_next in Hs. destruct (stdin_at p) eqn:Et; try done.
  destruct (inputs s) as [|item left] eqn:Ei; [done|]. injection Hs as <-. split; [done|]. simpl.
  destruct Hp as ((req & rest & Hi & Hc & Hstd) & Hl & Hsent). unfold stdin_ok in Hstd. rewrite Et in Hstd.
  split; [|split].
  - exists req, rest. split_and!; [done..|]. unfold stdin_ok. simpl.
    destruct item as [[[[[?|d|[]]|]]|]|e]; simpl in *; rewrite ?app_nil_r in Hstd; by rewrite ?Hstd.
  - intros f. specialize (Hl f). by destruct f.
  - unfold sent_ok in *. destruct (main s) as [|[]| |m|]; done.
Qed.

(** A change of the forwarder that keeps what it promises. *)
Lemma inv_set_stdin s p t bs :
  inv ins s -> proc s = Some p ->
  (forall rest left, stdin_ok rest p left -> stdin_ok rest (set_stdin t bs p) left) -> inv ins (set_proc (set_stdin t bs p) s).
Proof.
  intros Hi Ep Hok. apply (inv_set_proc s p); [done..|]. intros m left out open ((req & rest & Hins & Hc & Hstd) & Hl & Hsent).
  split; [|split].
  - exists req, rest. split_and!; [done..|]. by apply Hok.
  - intros f. specialize (Hl f). by destruct f.
  - unfold sent_ok in *. by destruct m as [|[]| |m|].
Qed.

(** Whatever the forwarder has written is a prefix of what was sent. *)
Lemma stdin_ok_prefix rest p left : stdin_ok rest p left -> stdin_bytes p `prefix_of` stdin_of rest.
Proof. unfold stdin_ok. destruct (stdin_at p); [by eexists|by eexists|done]. Qed.

Lemma inv_stdin_write r p s s' : inv ins s -> proc s = Some p -> stdin_write r p s = Some s' -> inv ins s'.
Proof.
  intros Hi Ep Hs. unfold stdin_write in Hs. destruct (stdin_at p) as [|d|] eqn:Et; try done. destruct r as [n|].
  - destruct (_ && _); [|done]. injection Hs as <-. apply (inv_set_stdin s p); [done..|]. intros rest left.
    unfold stdin_ok. rewrite Et. simpl. intros <-. pose proof (take_drop n d) as Htd.
    case_bool_decide as Hd; rewrite <- !app_assoc; [|by rewrite (app_assoc (take n d)), Htd].
    rewrite Hd, app_nil_r in Htd. by rewrite Htd.
  - injection Hs as <-. apply (inv_set_stdin s p); [done..|]. intros rest left. apply stdin_ok_prefix.
Qed.

Lemma inv_stdin_abort p s s' : inv ins s -> proc s = Some p -> stdin_abort p s = Some s' -> inv ins s'.
Proof.
  intros Hi Ep Hs. unfold stdin_abort in Hs.
  destruct (main s), (stdin_at p); try done; injection Hs as <-; (apply (inv_set_stdin s p); [done..|]);
    intros rest left; apply stdin_ok_prefix.
Qed.

Lemma inv_child f (k : process -> option process) p q s :
  inv ins s -> proc s = Some p -> k p = Some q ->
  (exists bs, k = child_write f bs) \/ k = child_close f \/ (exists w, k = child_exit w) -> inv ins (set_proc q s).
Proof.
  intros Hi Ep Hk Hcase. apply (inv_set_proc s p); [done..|]. intros m left out open Hst.
  destruct Hcase as [[bs ->]|[->|[w ->]]].
  - unfold child_write in Hk. destruct (writers _) eqn:Ew; [|done]. destruct (ended (lane_of f p)) eqn:Ee; [done|].
    injection Hk as <-. pose proof Hst as (_ & Hl & _). apply started_set_lane; [done| |done].
    specialize (Hl f). unfold lane_ok, ended in *. simpl. destruct (task (lane_of f p)); [| |done].
    + by rewrite <- Hl, app_assoc.
    + destruct Hl as (Hl & ? & ?). split_and!; [|done..]. by rewrite <- Hl, <- !app_assoc.
  - unfold child_close in Hk. destruct (writers _) eqn:Ew; [|done]. injection Hk as <-. pose proof Hst as (_ & Hl & _).
    apply started_set_lane; [done| |done]. specialize (Hl f). unfold lane_ok in *. simpl.
    destruct (task (lane_of f p)) as [| |[]]; naive_solver.
  - unfold child_exit in Hk. destruct (exited p) eqn:Ew; [done|]. injection Hk as <-. destruct Hst as (Hc & Hl & Hsent).
    split; [done|]. split; [intros g; specialize (Hl g); by destruct g|].
    unfold sent_ok in *. destruct m as [|[]| |m|]; try done; simpl; naive_solver.
Qed.

Lemma inv_recv s s' : inv ins s -> client_recv s = Some s' -> inv ins s'.
Proof.
  intros [Hd Hp] Hs. unfold client_recv in Hs. destruct (receiving s) eqn:Er; [|done]. destruct (channel s) as [|m rest] eqn:Ec; [done|].
  injection Hs as <-. unfold inv, delivery_ok in *. rewrite Er, Ec in Hd. simpl. split; [by rewrite <- app_assoc|].
  by destruct (proc s).
Qed.

Lemma inv_hangup s s' : inv ins s -> client_hangup s = Some s' -> inv ins s'.
Proof.
  intros [Hd Hp] Hs. unfold client_hangup in Hs. destruct (receiving s) eqn:Er; [|done].
  injection Hs as <-. unfold inv, delivery_ok in *. rewrite Er in Hd. simpl. split; [split; [done|by eexists]|].
  destruct (proc s) as [p|]; [|done]. destruct Hp as (Hc & Hl & Hsent).
  split; [done|]. split; [intros f; eapply lane_ok_hangup, Hl|].
  unfold sent_ok in *. destruct (main s) as [|[]| |m|]; try done. naive_solver.
Qed.

Lemma inv_step s s' : inv ins s -> Step s s' -> inv ins s'.
Proof.
  intros Hi [l Hs]. destruct l; simpl in Hs; unfold with_proc in Hs.
  - by eapply inv_start.
  - by eapply inv_main.
  - destruct (proc s) as [p|] eqn:Ep; [|done]. simpl in Hs. destruct (read_chunk _ _) eqn:Er; [|done]. injection Hs as <-.
    apply (inv_set_proc s p); [done..|]. intros m left out open Hst. pose proof Hst as (_ & Hl & _).
    destruct (read_chunk_ok _ _ _ _ _ _ (Hl f) Er) as [Hok He]. apply started_set_lane; [done..|]. by rewrite He.
  - destruct (proc s) as [p|] eqn:Ep; [|done]. by eapply inv_send_chunk.
  - destruct (proc s) as [p|] eqn:Ep; [|done]. by eapply inv_stdin_next.
  - destruct (proc s) as [p|] eqn:Ep; [|done]. by eapply inv_stdin_write.
  - destruct (proc s) as [p|] eqn:Ep; [|done]. by eapply inv_stdin_abort.
  - destruct (proc s) as [p|] eqn:Ep; [|done]. simpl in Hs. destruct (child_write _ _ _) eqn:Er; [|done]. injection Hs as <-.
    eapply (inv_child f); eauto.
  - destruct (proc s) as [p|] eqn:Ep; [|done]. simpl in Hs. destruct (child_close _ _) eqn:Er; [|done]. injection Hs as <-.
    eapply (inv_child f); eauto.
  - destruct (proc s) as [p|] eqn:Ep; [|done]. simpl in Hs. destruct (child_exit _ _) eqn:Er; [|done]. injection Hs as <-.
    eapply (inv_child Stdout); eauto.
  - by eapply inv_recv.
  - by eapply inv_hangup.
Qed.

Lemma reachable_inv s : reachable ins s -> inv ins s.
Proof.
  intros Hr. assert (inv ins (exec_stream ins)) as H0 by done. revert H0.
  induction Hr as [|s1 s2 s3 Hs _ IH]; [done|]. intros H1. by apply IH, (inv_step s1).
Qed.

End preserved.

(** * It ends

    Once the process has ended and nobody holds its output streams open, every
    move left makes the following weight smaller, whoever moves. *)

Definition reader_weight (r : reader) : nat := match r with Reading => 1 | Sending _ => 3 | Ended _ => 0 end.
Definition stdin_weight (t : stdin_task) : nat := match t with StdinReading => 1 | StdinWriting d => 2 + length d | StdinEnded => 0 end.
Definition input_weight (m : received) : nat :=
  match m with Ok (Some (mkStreamInput (Some (StdinData d)))) => 2 + length d | _ => 1 end.
Definition main_weight (m : main_at) : nat :=
  match m with
  | AwaitStart => 6
  | AwaitReader Stdout => 5
  | AwaitReader Stderr => 4
  | AwaitChild => 3
  | SendLast _ => 2
  | Finished => 0
  end.

Definition lane_weight (l : lane) : nat := (4 * length (buffered (end_of l)) + reader_weight (task l))%nat.

Definition proc_weight (p : process) : nat := (stdin_weight (stdin_at p) + lane_weight (out_lane p) + lane_weight (err_lane p))%nat.

Definition weight (s : stream) : nat :=
  (sum_list_with input_weight (inputs s) + from_option proc_weight 0 (proc s) + main_weight (main s) + length (channel s) +
   (if receiving s then 1 else 0))%nat.

Definition process_ended (p : process) : Prop :=
  is_Some (exited p) /\ forall f, writers (end_of (lane_of f p)) = false.

Definition child_ended (s : stream) : Prop :=
  main s <> AwaitStart /\ exists p, proc s = Some p /\ process_ended p.

Lemma send_weight m s ok s' :
  send m s = Some (ok, s') -> (weight s' <= weight s + 1)%nat /\ (ok = false -> s' = s).
Proof.
  unfold send. destruct (receiving s) eqn:Er; simpl; [destruct (_ <? _)%nat|]; intros [= <- <-]; try done; [|split; [lia|done]].
  unfold weight. simpl. rewrite length_app, Er. simpl. split; [lia|done].
Qed.

Lemma set_lane_weight f l p : (proc_weight (set_lane f l p) + lane_weight (lane_of f p) = proc_weight p + lane_weight l)%nat.
Proof. unfold proc_weight. destruct f; simpl; lia. Qed.

Lemma set_proc_weight p q s :
  proc s = Some p -> (weight (set_proc q s) + proc_weight p = weight s + proc_weight q)%nat.
Proof. intros Hp. unfold weight. simpl. rewrite Hp. simpl. lia. Qed.

Lemma read_chunk_weight r l l' :
  read_chunk r l = Some l' -> (lane_weight l' < lane_weight l)%nat /\ writers (end_of l') = writers (end_of l).
Proof.
  unfold read_chunk, lane_weight. destruct (task l); [|by destruct r as [[]|]..]. destruct r as [[|n]|].
  - case_bool_decide; [|done]. destruct (writers (end_of l)) eqn:Ew; [done|]. intros [= <-]. simpl. split; [lia|done].
  - destruct (_ <=? CHUNK_SIZE)%nat; [|done]. destruct (Nat.leb_spec (S n) (length (buffered (end_of l)))); [|done].
    intros [= <-]. cbn [task end_of buffered reader_weight writers]. rewrite length_drop. split; [lia|done].
  - intros [= <-]. simpl. split; [lia|done].
Qed.

Lemma process_ended_set_lane p f l :
  process_ended p -> writers (end_of l) = false -> process_ended (set_lane f l p).
Proof.
  intros [He Hw] Hl. destruct (set_lane_rest f l p) as (_ & _ & _ & Hx). split; [by rewrite Hx|].
  intros g. rewrite lane_of_set. by case_bool_decide.
Qed.

Lemma main_step_weight s s' : child_ended s -> stream_main s = Some s' -> child_ended s' /\ (weight s' < weight s)%nat.
Proof.
  intros (Hm & p & Ep & Hpe) Hs. unfold stream_main in Hs. destruct (main s) as [|f| |m|] eqn:Em; try done; rewrite ?Ep in Hs; try done.
  - destruct (ended (lane_of f p)); [|done]. injection Hs as <-. split; [split; [by destruct f|by exists p]|].
    unfold weight. simpl. rewrite Em. destruct f; simpl; lia.
  - destruct (exited p) as [w|] eqn:Ex; [|done]. injection Hs as <-. split; [split; [done|by exists p]|].
    unfold weight. simpl. rewrite Em. simpl. lia.
  - destruct (send m s) as [[ok s1]|] eqn:Eq; [|done]. injection Hs as <-. destruct (send_weight _ _ _ _ Eq) as [Hw _].
    destruct (send_inv _ _ _ _ Eq) as (Hm1 & Hp1 & _). split.
    + split; [done|]. exists p. simpl. by rewrite Hp1.
    + unfold weight in *. simpl. rewrite Em. rewrite Hm1, Em in Hw. simpl in *. lia.
Qed.

Lemma proc_step_weight s s' p q :
  child_ended s -> proc s = Some p -> s' = set_proc q s -> process_ended q -> (proc_weight q < proc_weight p)%nat ->
  child_ended s' /\ (weight s' < weight s)%nat.
Proof.
  intros (Hm & _) Ep -> Hq Hw. split; [split; [done|by exists q]|]. pose proof (set_proc_weight p q s Ep). lia.
Qed.

Lemma send_chunk_weight f p s s' :
  child_ended s -> proc s = Some p -> send_chunk f p s = Some s' -> child_ended s' /\ (weight s' < weight s)%nat.
Proof.
  intros (Hm & p' & Ep' & Hpe) Ep Hs. rewrite Ep in Ep'. injection Ep' as <-. unfold send_chunk in Hs.
  destruct (task (lane_of f p)) as [|c|] eqn:Et; try done. destruct (send (data_msg f c) s) as [[ok s1]|] eqn:Eq; [|done]. injection Hs as <-.
  destruct (send_inv _ _ _ _ Eq) as (Hm1 & Hp1 & _). destruct (send_weight _ _ _ _ Eq) as [Hw Hno].
  set (l := mkLane _ _). pose proof (set_lane_weight f l p) as H1. rewrite Ep in Hp1.
  pose proof (set_proc_weight p (set_lane f l p) s1 Hp1) as H2. unfold lane_weight in H1. rewrite Et in H1. simpl in H1.
  split.
  - split; [simpl; by rewrite Hm1|]. eexists. split; [done|]. apply process_ended_set_lane; [done|apply Hpe].
  - destruct ok; simpl in H1; [lia|]. specialize (Hno eq_refl). subst s1. lia.
Qed.

Lemma process_ended_stdin p t bs : process_ended p -> process_ended (set_stdin t bs p).
Proof. intros [? Hw]. split; [done|]. intros f. specialize (Hw f). by destruct f. Qed.

Lemma stdin_write_weight r p s s' :
  child_ended s -> proc s = Some p -> process_ended p -> stdin_write r p s = Some s' ->
  child_ended s' /\ (weight s' < weight s)%nat.
Proof.
  intros Hce Ep Hpe Hs. unfold stdin_write in Hs. destruct (stdin_at p) as [|d|] eqn:Et; try done. destruct r as [n|].
  - destruct (Nat.leb_spec n (length d)) as [Hn|]; [|done]. destruct (bool_decide (d = []) || _) eqn:Eb; [|done]. injection Hs as <-.
    eapply proc_step_weight; [done..|by apply process_ended_stdin|]. unfold proc_weight. simpl. rewrite Et.
    destruct (bool_decide_reflect (drop n d = [])) as [Hd|Hd]; simpl; [lia|]. rewrite length_drop.
    apply orb_prop in Eb as [Eb%bool_decide_eq_true_1|Eb%Nat.ltb_lt]; [|lia].
    subst d. by rewrite drop_nil in Hd.
  - injection Hs as <-. eapply proc_step_weight; [done..|by apply process_ended_stdin|].
    unfold proc_weight. simpl. rewrite Et. simpl. lia.
Qed.

(** Every step from such a state keeps it such and loses weight. *)
Lemma step_weight s s' : child_ended s -> Step s s' -> child_ended s' /\ (weight s' < weight s)%nat.
Proof.
  intros Hce [l Hs]. pose proof Hce as (Hm & p & Ep & Hpe). destruct l; simpl in Hs; unfold with_proc in Hs; rewrite ?Ep in Hs; simpl in Hs.
  - unfold stream_start in Hs. by destruct (main s).
  - by apply main_step_weight.
  - destruct (read_chunk _ _) as [l|] eqn:Er; [|done]. injection Hs as <-. destruct (read_chunk_weight _ _ _ Er) as [Hw Hwr].
    eapply proc_step_weight; [done..| |].
    + apply process_ended_set_lane; [done|]. rewrite Hwr. apply Hpe.
    + pose proof (set_lane_weight f l p). lia.
  - by eapply send_chunk_weight.
  - unfold stdin_next in Hs. destruct (stdin_at p) eqn:Et; try done. destruct (inputs s) as [|item rest] eqn:Ei; [done|]. injection Hs as <-.
    set (t := match item with Ok _ => _ | Err _ => _ end). split.
    + split; [done|]. eexists. split; [done|]. by apply process_ended_stdin.
    + unfold weight, proc_weight. simpl. rewrite Ei, Ep. simpl. unfold proc_weight. rewrite Et. simpl.
      assert (stdin_weight t <= input_weight item)%nat; [|lia].
      unfold t. destruct item as [[[[[?|d|[]]|]]|]|e]; simpl; lia.
  - by eapply stdin_write_weight.
  - unfold stdin_abort in Hs. destruct (main s), (stdin_at p) eqn:Et; try done; injection Hs as <-;
      (eapply proc_step_weight; [done..|by apply process_ended_stdin|]); unfold proc_weight; simpl; rewrite Et; simpl; lia.
  - unfold child_write in Hs. destruct Hpe as [_ Hw]. by rewrite (Hw f) in Hs.
  - unfold child_close in Hs. destruct Hpe as [_ Hw]. by rewrite (Hw f) in Hs.
  - unfold child_exit in Hs. destruct Hpe as [[w' Hw] _]. by rewrite Hw in Hs.
  - unfold client_recv in Hs. destruct (receiving s) eqn:Er; [|done]. destruct (channel s) as [|m rest] eqn:Ec; [done|]. injection Hs as <-.
    split; [split; [done|by exists p]|]. unfold weight. simpl. rewrite Er, Ec. simpl. lia.
  - unfold client_hangup in Hs. destruct (receiving s) eqn:Er; [|done]. injection Hs as <-.
    split; [split; [done|by exists p]|]. unfold weight. simpl. rewrite Er. lia.
Qed.

Lemma child_ended_sn s : child_ended s -> sn Step s.
Proof.
  remember (weight s) as n eqn:Hn. revert s Hn. induction n as [n IH] using lt_wf_ind. intros s -> Hce. constructor.
  intros s' Hs. destruct (step_weight s s' Hce Hs) as [Hce' Hlt]. by eapply IH.
Qed.

Lemma child_ended_rtc s s' : child_ended s -> rtc Step s s' -> child_ended s'.
Proof. intros Hce Hr. induction Hr as [|s1 s2 s3 Hs _ IH]; [done|]. apply IH. by apply (step_weight s1). Qed.

(** A move that nothing outside the agent holds up: the main task and the readers,
    reads that succeed, the abort, and a client that takes what is there. *)
Definition prompt (l : label) : bool :=
  match l with
  | LMain | LRead _ (Some _) | LSend _ | LStdinAbort | LRecv => true
  | _ => false
  end.

Definition idle (s : stream) : Prop := forall l, prompt l = true -> step l s = None.

Lemma reader_progress f p s :
  proc s = Some p -> process_ended p -> channel s = [] -> idle s -> ended (lane_of f p) = true.
Proof.
  intros Ep [_ Hw] Hc Hi. unfold ended. destruct (task (lane_of f p)) as [|c|w] eqn:Et; [| |done]; exfalso.
  - set (n := Nat.min CHUNK_SIZE (length (buffered (end_of (lane_of f p))))).
    pose proof (Hi (LRead f (Some n)) eq_refl) as Hn. simpl in Hn. unfold with_proc in Hn. rewrite Ep in Hn. simpl in Hn.
    unfold read_chunk in Hn. rewrite Et in Hn. unfold n in Hn. destruct (buffered (end_of (lane_of f p))) as [|b bs] eqn:Eb.
    + simpl in Hn. by rewrite (Hw f) in Hn.
    + assert (exists k, Nat.min CHUNK_SIZE (length (b :: bs)) = S k) as [k Hk] by (exists (Nat.min 4095 (length bs)); unfold CHUNK_SIZE; simpl length; lia).
      rewrite Hk, <- Hk in Hn. rewrite (proj2 (Nat.leb_le _ _)), (proj2 (Nat.leb_le _ _)) in Hn by lia. done.
  - pose proof (Hi (LSend f) eq_refl) as Hn. simpl in Hn. unfold with_proc in Hn. rewrite Ep in Hn. simpl in Hn.
    unfold send_chunk, send in Hn. rewrite Et, Hc in Hn. by destruct (receiving s).
Qed.

Lemma idle_finished s :
  child_ended s -> delivery_ok s -> idle s -> main s = Finished /\ channel s = [].
Proof.
  intros (Hm & p & Ep & Hpe) Hd Hi. assert (channel s = []) as Hc.
  { unfold delivery_ok in Hd. destruct (receiving s) eqn:Er; [|naive_solver]. pose proof (Hi LRecv eq_refl) as Hn.
    simpl in Hn. unfold client_recv in Hn. rewrite Er in Hn. by destruct (channel s). }
  split; [|done]. pose proof (Hi LMain eq_refl) as Hn. simpl in Hn. unfold stream_main in Hn. rewrite Ep in Hn.
  destruct (main s) as [|f| |m|] eqn:Em; [done| | | |done].
  - by rewrite (reader_progress f p s) in Hn.
  - destruct Hpe as [[w Hw] _]. by rewrite Hw in Hn.
  - unfold send in Hn. rewrite Hc in Hn. by destruct (receiving s).
Qed.

Lemma idle_aborted s p : proc s = Some p -> main s = Finished -> idle s -> stdin_at p = StdinEnded.
Proof.
  intros Ep Hm Hi. pose proof (Hi LStdinAbort eq_refl) as Hn. simpl in Hn. unfold with_proc, stdin_abort in Hn.
  rewrite Ep in Hn. simpl in Hn. rewrite Hm in Hn. by destruct (stdin_at p).
Qed.

Lemma run_reachable ins ls s : run ls (exec_stream ins) = Some s -> reachable ins s.
Proof.
  unfold reachable. generalize (exec_stream ins). induction ls as [|l ls IH]; intros s0; simpl.
  - intros [= ->]. constructor.
  - destruct (step l s0) as [s1|] eqn:E; [|done]. intros Hr. apply (rtc_l _ _ s1); [by exists l|by apply IH].
Qed.

Lemma reachable_started ins s p : reachable ins s -> proc s = Some p -> process_ended p -> child_ended s.
Proof.
  intros Hr Ep Hpe. destruct (reachable_inv ins s Hr) as [_ Hp]. rewrite Ep in Hp. destruct Hp as (_ & _ & Hs).
  split; [|by exists p]. intros Hm. by rewrite Hm in Hs.
Qed.

(** What a lane promises of the bytes sent. *)
Lemma lane_ok_prefix f out open l : lane_ok f out open l -> stream_bytes f out `prefix_of` written (end_of l).
Proof.
  unfold lane_ok. destruct (task l) as [|c|[]].
  - intros <-. by eexists.
  - intros (<- & _). by eexists.
  - by intros [-> _].
  - done.
  - by intros [? _].
Qed.

(** C13. The protocol of a streamed command, in every state any interleaving can
    reach: the client has received a prefix of what was sent, and all of it but
    what waits in the channel while it listens.  A call whose command is not run
    gets at most one message, the status that says why.  Otherwise the command is
    the one of the start message, its standard input has received a prefix of the
    data the client sent, in order, each output stream was sent in order without
    gaps in chunks of at most 4096 bytes, and an exit code, if any, is the last
    message, was sent once, is that of the process, and follows the end of both
    streams. *)
Theorem stream_protocol ins s :
  reachable ins s ->
  delivered s `prefix_of` sent s /\
  (receiving s = true -> delivered s ++ channel s = sent s) /\
  match proc s with
  | None => sent s = [] \/ exists st, refusal ins st /\ sent s = [Err st]
  | Some p =>
      exists req rest, ins = start_msg req :: rest /\ command p = command_of req /\
        stdin_bytes p `prefix_of` stdin_of rest /\
        (forall f, stream_bytes f (sent s) `prefix_of` written (end_of (lane_of f p))) /\
        (Forall is_data (sent s) \/
         exists outs w, sent s = outs ++ [exit_msg (exit_code w)] /\ Forall is_data outs /\
           exited p = Some w /\ forall f, ended (lane_of f p) = true)
  end.
Proof.
  intros Hr. destruct (reachable_inv ins s Hr) as [Hd Hp]. unfold delivery_ok in Hd. split_and!.
  - destruct (receiving s); [rewrite <- Hd; by eexists|apply Hd].
  - by intros Hrec; rewrite Hrec in Hd.
  - destruct (proc s) as [p|].
    + destruct Hp as ((req & rest & Hi & Hc & Hstd) & Hl & Hs). exists req, rest. split_and!; [done..| | |].
      * by eapply stdin_ok_prefix.
      * intros f. eapply lane_ok_prefix, Hl.
      * unfold sent_ok in Hs. destruct (main s) as [|[]| |m|]; naive_solver.
    + unfold unstarted_ok in Hp. destruct (main s); naive_solver.
Qed.

(** C12. A streamed command ends: once the process has exited and nobody holds its
    output streams open, no run is infinite, and where nothing is left for the
    agent and a listening client to do, the main task and the forwarder of
    standard input have ended, the channel is empty and a client that still listens has received every byte of both streams
    (up to a failed read), followed by the exit code as the last message. *)
Theorem stream_ends_with_exit_code ins s p :
  reachable ins s -> proc s = Some p -> process_ended p ->
  sn Step s /\
  forall s', rtc Step s s' -> idle s' ->
    main s' = Finished /\ channel s' = [] /\
    exists q w, proc s' = Some q /\ exited q = Some w /\ stdin_at q = StdinEnded /\
      (receiving s' = true ->
         (exists outs, delivered s' = outs ++ [exit_msg (exit_code w)] /\ Forall is_data outs) /\
         forall f, task (lane_of f q) <> Ended ReadFailed ->
           stream_bytes f (delivered s') = written (end_of (lane_of f q))).
Proof.
  intros Hr Ep Hpe. pose proof (reachable_started _ _ _ Hr Ep Hpe) as Hce. split; [by apply child_ended_sn|].
  intros s' Hs' Hidle. pose proof (child_ended_rtc _ _ Hce Hs') as Hce'.
  destruct (reachable_inv ins s' (PreOrder_Transitive _ _ _ Hr Hs')) as [Hd Hp].
  destruct (idle_finished s' Hce' Hd Hidle) as [Hm Hc]. split_and!; [done..|].
  destruct Hce' as (_ & q & Eq & _). rewrite Eq in Hp. destruct Hp as (_ & Hl & Hs). rewrite Hm in Hs.
  destruct Hs as (He & w & Hw & Hs). exists q, w. split_and!; [done..|by apply (idle_aborted s')|]. intros Hrec.
  unfold delivery_ok in Hd. rewrite Hrec, Hc, app_nil_r in Hd. rewrite Hd. rewrite Hrec in *. split.
  - destruct Hs as [(outs & -> & Hf)|[? _]]; [by exists outs|done].
  - intros f Hne. specialize (Hl f). specialize (He f). unfold lane_ok, ended in *.
    destruct (task (lane_of f q)) as [| |[]]; [done..| |done|]; by destruct Hl.
Qed.

(** ** Witnesses *)

(** A client starts a command, sends a line and closes its input; the command
    answers on both streams and exits with 3. *)
Definition example_inputs : list received :=
  [start_msg (mkExecRequest "cat" [] [] EmptyString); Ok (Some (mkStreamInput (Some (StdinData [x68; x69]))));
   Ok (Some (mkStreamInput (Some (CloseStdin true))))].

Definition example_process : list label :=
  [LStart (Ok tt); LStdinNext; LStdinWrite (Some 2%nat); LChildWrite Stdout [x68; x69]; LRead Stdout (Some 1%nat); LStdinNext;
   LChildWrite Stderr [x21]; LChildClose Stderr; LChildClose Stdout; LChildExit (Ok (Some 3%Z))].

Definition example_ended : stream := default (exec_stream []) (run example_process (exec_stream example_inputs)).

Lemma stream_protocol_witness :
  let s := example_ended in
  delivered s `prefix_of` sent s /\
  (receiving s = true -> delivered s ++ channel s = sent s) /\
  match proc s with
  | None => sent s = [] \/ exists st, refusal example_inputs st /\ sent s = [Err st]
  | Some p =>
      exists req rest, example_inputs = start_msg req :: rest /\ command p = command_of req /\
        stdin_bytes p `prefix_of` stdin_of rest /\
        (forall f, stream_bytes f (sent s) `prefix_of` written (end_of (lane_of f p))) /\
        (Forall is_data (sent s) \/
         exists outs w, sent s = outs ++ [exit_msg (exit_code w)] /\ Forall is_data outs /\
           exited p = Some w /\ forall f, ended (lane_of f p) = true)
  end.
Proof. apply (stream_protocol example_inputs example_ended), (run_reachable _ example_process). by vm_compute. Defined.

(** The rest of that run: the client receives everything. *)
Definition example_rest : list label :=
  [LSend Stdout; LRead Stderr (Some 1%nat); LRead Stdout (Some 1%nat); LSend Stderr; LRecv; LSend Stdout; LRead Stdout (Some 0%nat);
   LRead Stderr (Some 0%nat); LMain; LMain; LMain; LMain; LRecv; LRecv; LRecv].

Example example_delivered :
  delivered <$> run example_rest example_ended =
  Some [data_msg Stdout [x68]; data_msg Stderr [x21]; data_msg Stdout [x69]; exit_msg 3].
Proof. by vm_compute. Qed.

Lemma stream_ends_with_exit_code_witness :
  exists p, proc example_ended = Some p /\ sn Step example_ended /\
  forall s', rtc Step example_ended s' -> idle s' ->
    main s' = Finished /\ channel s' = [] /\
    exists q w, proc s' = Some q /\ exited q = Some w /\ stdin_at q = StdinEnded /\
      (receiving s' = true ->
         (exists outs, delivered s' = outs ++ [exit_msg (exit_code w)] /\ Forall is_data outs) /\
         forall f, task (lane_of f q) <> Ended ReadFailed ->
           stream_bytes f (delivered s') = written (end_of (lane_of f q))).
Proof.
  exists (default (spawned (command_of (mkExecRequest EmptyString [] [] EmptyString))) (proc example_ended)).
  split; [by vm_compute|]. eapply (stream_ends_with_exit_code example_inputs).
  - apply (run_reachable _ example_process). by vm_compute.
  - by vm_compute.
  - split; [by eexists|by intros []].
Defined.
