(* ===== verification/Sql.v ===== *)
(** SQLite as the event log uses it, through the [rusqlite] crate: values and
    their conversions, the operations of a connection, and what SQLite documents
    of the two kinds of query the program sends.

    The text of a statement is what the program builds.  SQLite reads it as
    words, so the laws are about statements with given words, whatever the
    layout; the words of the queries on the events table are those of a small
    syntax ([event_query]), whose meaning is [run_query]. *)

From S2P Require Import Prelude RustStr World Events.
From Stdlib Require Import ZArith Lia Ascii String.
From Stdlib Require Import Strings.Byte.
From Stdlib Require DecimalString DecimalZ.
From stdpp Require Import base gmap strings list sorting.

Open Scope Z_scope.

(** * Values *)

Inductive sql_value : Type :=
| SqlNull
| SqlInteger (z : Z)
| SqlReal (bits : Z)
| SqlText (s : string)
| SqlBlob (bs : list byte).

(** [rusqlite::Error], the cases that the conversions below produce, and those of
    the database. *)
Inductive sql_error : Type :=
| InvalidColumnIndex (i : nat)
| InvalidColumnType (i : nat)
| IntegralValueOutOfRange (i : nat) (z : Z)
| SqliteFailure (msg : string).

(** [Display] of the errors. *)
Class SqlDisplay := { sql_error_string : sql_error -> string }.

Abbreviation sql_row := (list sql_value).

(** [row.get(i)] at the types used: the conversion of a column's value. *)
Definition row_get {A} (conv : nat -> sql_value -> result A sql_error) (i : nat) (row : sql_row) : result A sql_error :=
  match row !! i with
  | Some v => conv i v
  | None => Err (InvalidColumnIndex i)
  end.

Definition as_string (i : nat) (v : sql_value) : result string sql_error :=
  match v with
  | SqlText s => Ok s
  | _ => Err (InvalidColumnType i)
  end.

Definition as_int (lo hi : Z) (i : nat) (v : sql_value) : result Z sql_error :=
  match v with
  | SqlInteger z => if (lo <=? z) && (z <=? hi) then Ok z else Err (IntegralValueOutOfRange i z)
  | _ => Err (InvalidColumnType i)
  end.

Definition as_i64_col : nat -> sql_value -> result Z sql_error := as_int (- 2 ^ 63) (2 ^ 63 - 1).
Definition as_i32_col : nat -> sql_value -> result Z sql_error := as_int (- 2 ^ 31) (2 ^ 31 - 1).

(** An [Option]: NULL is [None]. *)
Definition as_option {A} (conv : nat -> sql_value -> result A sql_error) (i : nat) (v : sql_value)
  : result (option A) sql_error :=
  match v with
  | SqlNull => Ok None
  | _ => let^ a := conv i v in Ok (Some a)
  end.

(** [ToSql] of an optional text or integer. *)
Definition sql_opt {A} (f : A -> sql_value) (o : option A) : sql_value := from_option f SqlNull o.

(** * Connections *)

(** [Connection::open], [Connection::open_with_flags] (with the read-only and
    no-mutex flags), [execute_batch], [execute], and [prepare(sql)?] followed by
    [query_map(params, ..)?], whose rows come one by one, each of which may fail. *)
Class SqliteFiles (W : Type) := {
  db_open : string -> ST W (result Z sql_error);
  db_open_readonly : string -> ST W (result Z sql_error);
  db_execute_batch : Z -> string -> ST W (result unit sql_error);
  db_execute : Z -> string -> list sql_value -> ST W (result Z sql_error);
  db_select : Z -> string -> list sql_value -> ST W (result (list (result sql_row sql_error)) sql_error);
}.

(** [for row in rows { out.push(f(row?)?) }]: the first error ends it. *)
Fixpoint collect_rows {A} (f : sql_row -> result A sql_error) (rows : list (result sql_row sql_error))
  : result (list A) sql_error :=
  match rows with
  | [] => Ok []
  | r :: rest =>
      let^ row := r in
      let^ a := f row in
      let^ out := collect_rows f rest in
      Ok (a :: out)
  end.

Lemma collect_rows_ok {A} (f : sql_row -> result A sql_error) rows out :
  Forall2 (fun row a => f row = Ok a) rows out -> collect_rows f (map Ok rows) = Ok out.
Proof. induction 1 as [|row a rows out Hf _ IH]; simpl; [done|]. unfold rbind. by rewrite Hf, IH. Qed.

Lemma collect_rows_inv {A} (f : sql_row -> result A sql_error) rows out :
  collect_rows f rows = Ok out -> exists rs, rows = map Ok rs /\ Forall2 (fun row a => f row = Ok a) rs out.
Proof.
  revert out. induction rows as [|[row|e] rows IH]; intros out; simpl; [intros [= <-]; by exists []| |done].
  unfold rbind. destruct (f row) as [a|] eqn:Ef; [|done]. destruct (collect_rows f rows) as [out'|]; [|done].
  intros [= <-]. destruct (IH out' eq_refl) as (rs & -> & Hrs). exists (row :: rs). split; [done|]. by constructor.
Qed.

(** * Words of a statement *)

Definition blank (c : ascii) : bool := (code c =? 32) || (code c =? 10).

Definition push_word (w : string) (ws : list string) : list string :=
  match w with EmptyString => ws | _ => w :: ws end.

(** The word in progress and the later ones. *)
Fixpoint sql_split (s : string) : string * list string :=
  match s with
  | EmptyString => (EmptyString, [])
  | String c s' =>
      let '(w, ws) := sql_split s' in
      if blank c then (EmptyString, push_word w ws) else (String c w, ws)
  end.

Definition sql_words (s : string) : list string := let '(w, ws) := sql_split s in push_word w ws.

Lemma sql_split_space a b :
  sql_split (a +:+ String " " b) = ((sql_split a).1, (sql_split a).2 ++ sql_words b).
Proof.
  induction a as [|c a IH].
  - rewrite sapp_nil. cbn [sql_split]. unfold sql_words. by destruct (sql_split b).
  - rewrite sapp_cons. cbn [sql_split]. rewrite IH. destruct (sql_split a) as [w ws]. simpl.
    destruct (blank c); [|done]. by destruct w.
Qed.

(** A statement extended by a text that starts with a space. *)
Lemma sql_words_space a b : sql_words (a +:+ String " " b) = sql_words a ++ sql_words b.
Proof. unfold sql_words at 1 2. rewrite sql_split_space. destruct (sql_split a) as [[|c w] ws]; done. Qed.

Lemma sql_words_graphic s : all_graphic s = true -> sql_words s = push_word s [].
Proof.
  intros Hg. unfold sql_words. enough (sql_split s = (s, [])) as -> by done. revert Hg.
  induction s as [|c s IH]; [done|]. unfold all_graphic. simpl. intros [Hc Hs]%andb_true_iff.
  rewrite IH by done. unfold blank, graphic in *. apply andb_true_iff in Hc as [H1 H2].
  destruct (Z.eqb_spec (code c) 32), (Z.eqb_spec (code c) 10); [lia..|done].
Qed.

(** * Queries on the events table *)

(** The equality tests on columns, each with the number of its parameter, and the
    limit. *)
Record event_query : Type := mkEventQuery { q_conds : list (string * nat); q_limit : option Z }.

Definition events_head : list string :=
  ["SELECT"; "id,"; "session_id,"; "timestamp,"; "category,"; "event_type,"; "vm_id,"; "correlation_id,";
   "duration_ms,"; "success,"; "data"; "FROM"; "events"; "WHERE"; "1=1"]%string.

Definition events_order : list string := ["ORDER"; "BY"; "timestamp"; "ASC,"; "id"; "ASC"]%string.

Definition param_word (i : nat) : string := String "?" (show_Z (Z.of_nat i)).

Definition cond_words (c : string * nat) : list string := ["AND"; c.1; "="; param_word c.2]%string.

Definition query_words (q : event_query) : list string :=
  events_head ++ (q_conds q ≫= cond_words) ++ events_order ++
  from_option (fun n => ["LIMIT"%string; show_Z n]) [] (q_limit q).

(** ** Their meaning *)

(** A stored event: its id (INTEGER PRIMARY KEY AUTOINCREMENT) and the row. *)
Abbreviation stored_event := (Z * event_row)%type.

Definition stored_columns (e : stored_event) : sql_row :=
  let r := row_record e.2 in
  [SqlInteger e.1; SqlText (row_session e.2); SqlText (ev_timestamp r); SqlText (ev_category r);
   SqlText (ev_event_type r); sql_opt SqlText (ev_vm_id r); sql_opt SqlText (ev_correlation_id r);
   sql_opt SqlInteger (ev_duration_ms r); sql_opt SqlInteger (row_success e.2); SqlText (ev_data r)].

(** The text columns that can be tested. *)
Definition text_column (col : string) (e : stored_event) : option string :=
  let r := row_record e.2 in
  if String.eqb col "session_id" then Some (row_session e.2)
  else if String.eqb col "vm_id" then ev_vm_id r
  else if String.eqb col "category" then Some (ev_category r)
  else if String.eqb col "event_type" then Some (ev_event_type r)
  else None.

Definition text_columns : list string := ["session_id"; "vm_id"; "category"; "event_type"]%string.

(** [col = ?i]: NULL is equal to nothing. *)
Definition cond_holds (params : list sql_value) (e : stored_event) (c : string * nat) : bool :=
  match text_column c.1 e, params !! (c.2 - 1)%nat with
  | Some v, Some (SqlText t) => String.eqb v t
  | _, _ => false
  end.

(** ORDER BY timestamp ASC, id ASC: bytewise on the text, then by id. *)
Definition event_le (a b : stored_event) : Prop :=
  String.le (ev_timestamp (row_record a.2)) (ev_timestamp (row_record b.2)) /\
  (ev_timestamp (row_record a.2) = ev_timestamp (row_record b.2) -> a.1 <= b.1).

#[export] Instance event_le_dec : RelDecision event_le.
Proof. intros a b. unfold event_le. apply _. Defined.

#[export] Instance event_le_trans : Transitive event_le.
Proof.
  intros a b c [H1 H2] [H3 H4]. split; [by etrans|]. intros He. rewrite <- He in H3.
  assert (ev_timestamp (row_record a.2) = ev_timestamp (row_record b.2)) as Hab by by apply (anti_symm String.le).
  specialize (H2 Hab). rewrite He in Hab. symmetry in Hab. specialize (H4 Hab). lia.
Qed.

#[export] Instance event_le_total : Total event_le.
Proof.
  intros a b. unfold event_le. destruct (decide (ev_timestamp (row_record a.2) = ev_timestamp (row_record b.2))) as [He|He].
  - rewrite He. destruct (Z.le_ge_cases a.1 b.1); [left|right]; done.
  - destruct (total String.le (ev_timestamp (row_record a.2)) (ev_timestamp (row_record b.2))); [left|right]; split; congruence || done.
Qed.

(** LIMIT n: a negative [n] is no limit. *)
Definition sql_limit {A} (n : option Z) (l : list A) : list A :=
  match n with
  | Some n => if n <? 0 then l else take (Z.to_nat n) l
  | None => l
  end.

Definition run_query (q : event_query) (params : list sql_value) (table : list stored_event) : list stored_event :=
  sql_limit (q_limit q) (merge_sort event_le (filter (fun e => forallb (cond_holds params e) (q_conds q) = true) table)).

(** * The sessions *)

Record session_row : Type := mkSessionRow {
  sess_id : string;
  sess_started_at : string;
  sess_stopped_at : option string;
  sess_server_version : string;
  sess_config : option string;
}.

(** The statement that lists the sessions with the number of events of each. *)
Definition sessions_words : list string :=
  ["SELECT"; "s.id,"; "s.started_at,"; "s.stopped_at,"; "s.server_version,"; "(SELECT"; "COUNT(*)"; "FROM"; "events"; "e";
   "WHERE"; "e.session_id"; "="; "s.id)"; "as"; "event_count"; "FROM"; "sessions"; "s"; "ORDER"; "BY"; "s.started_at"; "DESC"]%string.

Definition count_of (table : list stored_event) (sid : string) : Z :=
  Z.of_nat (length (filter (fun e : stored_event => row_session e.2 = sid) table)).

Definition session_columns (table : list stored_event) (s : session_row) : sql_row :=
  [SqlText (sess_id s); SqlText (sess_started_at s); sql_opt SqlText (sess_stopped_at s);
   SqlText (sess_server_version s); SqlInteger (count_of table (sess_id s))].

(** ORDER BY s.started_at DESC *)
Definition started_ge (a b : session_row) : Prop := String.le (sess_started_at b) (sess_started_at a).

#[export] Instance started_ge_dec : RelDecision started_ge.
Proof. intros a b. unfold started_ge. apply _. Defined.

(** * What SQLite documents of the queries *)

(** The rows that a query returns, or an error, perhaps after some of them. *)
Definition answers (r : result (list (result sql_row sql_error)) sql_error) (rows : list sql_row) : Prop :=
  match r with
  | Ok got => got = map Ok rows \/ exists n e, got = map Ok (take n rows) ++ [Err e]
  | Err _ => True
  end.

(** The parameters are numbered from 1, in order, and all are used. *)
Definition query_ok (q : event_query) (params : list sql_value) : Prop :=
  Forall (fun c => c.1 ∈ text_columns) (q_conds q) /\ (q_conds q).*2 = seq 1 (length params).

Class SelectLaws (W : Type) `{SqliteFiles W} := {
  events_of : Z -> W -> list stored_event;      (* the tables that a connection reads *)
  sessions_of : Z -> W -> list session_row;
  select_events_law : forall c sql q params w,
    sql_words sql = query_words q -> query_ok q params ->
    answers (db_select c sql params w).1 (map stored_columns (run_query q params (events_of c w)));
  select_layout_law : forall c sql sql' q params w,
    sql_words sql = query_words q -> sql_words sql' = query_words q ->
    db_select c sql params w = db_select c sql' params w;
  select_sessions_law : forall c sql w, sql_words sql = sessions_words ->
    exists ss, ss ≡ₚ sessions_of c w /\ Sorted started_ge ss /\
      answers (db_select c sql [] w).1 (map (session_columns (events_of c w)) ss);
  select_sessions_layout_law : forall c sql sql' w,
    sql_words sql = sessions_words -> sql_words sql' = sessions_words -> db_select c sql [] w = db_select c sql' [] w;
}.

(** No row of an answer fails: the answer is complete. *)
Lemma answers_all r rows got : answers r rows -> r = Ok (map Ok got) -> got = rows.
Proof.
  intros Ha ->. destruct Ha as [Ha|(n & e & Ha)].
  - revert rows Ha. induction got as [|x got IH]; intros [|y rows]; simpl; [done..|]. intros [= <- Hr]. f_equal. by apply IH.
  - exfalso. assert (Err e ∈ map Ok got) as Hin by (rewrite Ha; apply elem_of_app; right; by apply list_elem_of_singleton).
    apply list_elem_of_In, in_map_iff in Hin as (x & Hx & _). done.
Qed.

(** * An in-memory database

    It reads the words of a statement back. *)

Record database : Type := mkDatabase { db_events : list stored_event; db_sessions : list session_row }.

Definition read_Z (s : string) : option Z := Z.of_int <$> DecimalString.NilEmpty.int_of_string s.

Lemma read_show_Z z : read_Z (show_Z z) = Some z.
Proof. unfold read_Z, show_Z. rewrite DecimalString.NilEmpty.isi. simpl. by rewrite DecimalZ.of_to. Qed.

Definition read_param (w : string) : option nat :=
  match w with
  | String c rest => Z.to_nat <$> read_Z rest
  | EmptyString => None
  end.

Lemma read_param_word i : read_param (param_word i) = Some i.
Proof. unfold read_param, param_word. rewrite read_show_Z. simpl. by rewrite Nat2Z.id. Qed.

Fixpoint read_conds (ws : list string) : option (list (string * nat) * list string) :=
  match ws with
  | kw :: col :: eq :: p :: rest =>
      if String.eqb kw "AND"
      then i ← read_param p; r ← read_conds rest; Some ((col, i) :: r.1, r.2)
      else Some ([], ws)
  | _ => Some ([], ws)
  end.

Definition read_query (ws : list string) : option event_query :=
  r ← read_conds (drop (length events_head) ws);
  match drop (length events_order) r.2 with
  | [] => Some (mkEventQuery r.1 None)
  | [_; n] => n ← read_Z n; Some (mkEventQuery r.1 (Some n))
  | _ => None
  end.

Lemma read_conds_words conds tail :
  read_conds tail = Some ([], tail) -> read_conds ((conds ≫= cond_words) ++ tail) = Some (conds, tail).
Proof.
  intros Ht. induction conds as [|[col i] conds IH]; [done|].
  cbn -[read_param param_word]. rewrite read_param_word. simpl. by rewrite IH.
Qed.

Lemma read_query_words q : read_query (query_words q) = Some q.
Proof.
  unfold read_query, query_words. rewrite drop_app_length, read_conds_words by done. simpl.
  destruct q as [conds [n|]]; simpl; [by rewrite read_show_Z|done].
Qed.

Definition memory_select (d : database) (sql : string) (params : list sql_value)
  : result (list (result sql_row sql_error)) sql_error :=
  if bool_decide (sql_words sql = sessions_words)
  then Ok (map (Ok ∘ session_columns (db_events d)) (merge_sort started_ge (db_sessions d)))
  else match read_query (sql_words sql) with
       | Some q => Ok (map (Ok ∘ stored_columns) (run_query q params (db_events d)))
       | None => Err (SqliteFailure "syntax error")
       end.

Lemma query_not_sessions q : query_words q <> sessions_words.
Proof. unfold query_words, sessions_words. simpl. congruence. Qed.

Lemma memory_select_query d sql q params :
  sql_words sql = query_words q ->
  memory_select d sql params = Ok (map Ok (map stored_columns (run_query q params (db_events d)))).
Proof.
  intros Hw. unfold memory_select. rewrite Hw, bool_decide_false by apply query_not_sessions.
  by rewrite read_query_words, map_map.
Qed.

#[export] Instance started_ge_total : Total started_ge.
Proof. intros a b. unfold started_ge. destruct (total String.le (sess_started_at a) (sess_started_at b)); auto. Qed.

Lemma memory_select_sessions d sql :
  sql_words sql = sessions_words ->
  memory_select d sql [] = Ok (map Ok (map (session_columns (db_events d)) (merge_sort started_ge (db_sessions d)))).
Proof. intros Hw. unfold memory_select. by rewrite Hw, bool_decide_true, map_map. Qed.
