(* ===== verification/EventQueries.v ===== *)
(** clawpot-server/src/events/types.rs, and the rest of store.rs: opening the
    database (schema, session row) and the queries over the log. *)

From S2P Require Import Prelude RustStr World Json Events Sql.
From Stdlib Require Import ZArith Lia Ascii String.
From Stdlib Require Import Strings.Byte.
From stdpp Require Import base gmap strings list sorting.

Open Scope Z_scope.

(** * Types *)

Record EventFilters : Type := mkEventFilters {
  f_session_id : option string;
  f_vm_id : option string;
  f_category : option string;
  f_event_type : option string;
  f_limit : option Z;   (* i64 *)
}.

Record SessionInfo : Type := mkSessionInfo {
  si_id : string;
  si_started_at : string;
  si_stopped_at : option string;
  si_server_version : string;
  si_event_count : Z;   (* i64 *)
}.

Record Event : Type := mkEvent {
  e_id : Z;   (* i64 *)
  e_session_id : string;
  e_timestamp : string;
  e_category : string;
  e_event_type : string;
  e_vm_id : option string;
  e_correlation_id : option string;
  e_duration_ms : option Z;   (* i64 *)
  e_success : option bool;
  e_data : json;
}.

(** * Paths *)

(** [Path::parent]: the path without its last component.  Repeated and trailing
    slashes and [.] components do not count; the root and the empty path have no
    parent.  The functions work on the characters from the last to the first. *)
Fixpoint trim_path (r : list ascii) : list ascii :=
  match r with
  | c :: rest =>
      if bool_decide (c = "/"%char)
      then match rest with [] => r | _ => trim_path rest end
      else match rest with
           | d :: _ => if bool_decide (c = "."%char) && bool_decide (d = "/"%char) then trim_path rest else r
           | [] => r
           end
  | [] => []
  end.

Fixpoint drop_component (r : list ascii) : list ascii :=
  match r with
  | c :: rest => if bool_decide (c = "/"%char) then r else drop_component rest
  | [] => []
  end.

Definition path_parent (path : string) : option string :=
  let r := trim_path (reverse (list_ascii_of_string path)) in
  match r with
  | [] => None
  | [c] => if bool_decide (c = "/"%char) then None else Some EmptyString
  | _ => Some (string_of_list_ascii (reverse (trim_path (drop_component r))))
  end.

Example path_parent_ex :
  path_parent "/srv/data/events.db" = Some "/srv/data"%string /\ path_parent "events.db" = Some EmptyString /\
  path_parent "/events.db" = Some "/"%string /\ path_parent "/" = None /\ path_parent "a//./b/" = Some "a"%string.
Proof. by vm_compute. Qed.

(** * Opening *)

Section store.
Context {W : Type} `{SqliteFiles W} `{Directories W} `{Timestamps W} `{SqlDisplay} `{SerdeJson}.

(** An error of the crate as an [anyhow::Error]; with a context. *)
Definition db_err {A} (r : result A sql_error) : result A error := map_err (fun e => anyhow (sql_error_string e)) r.
Definition db_context {A} (msg : string) (r : result A sql_error) : result A error := context msg (db_err r).

(** [create_tables(conn)] *)
Definition create_tables (conn : Z) : ST W (result unit error) :=
  do? st_map (db_context "Failed to create events tables") (db_execute_batch conn
"CREATE TABLE IF NOT EXISTS sessions (
                id             TEXT PRIMARY KEY,
                started_at     TEXT NOT NULL,
                stopped_at     TEXT,
                server_version TEXT NOT NULL,
                config         TEXT
            );

            CREATE TABLE IF NOT EXISTS events (
                id              INTEGER PRIMARY KEY AUTOINCREMENT,
                session_id      TEXT NOT NULL REFERENCES sessions(id),
                timestamp       TEXT NOT NULL,
                category        TEXT NOT NULL,
                event_type      TEXT NOT NULL,
                vm_id           TEXT,
                correlation_id  TEXT,
                duration_ms     INTEGER,
                success         INTEGER,
                data            TEXT NOT NULL DEFAULT '{}'
            );

            CREATE INDEX IF NOT EXISTS idx_events_session ON events(session_id);
            CREATE INDEX IF NOT EXISTS idx_events_ts ON events(timestamp);
            CREATE INDEX IF NOT EXISTS idx_events_vm ON events(vm_id);
            CREATE INDEX IF NOT EXISTS idx_events_type ON events(event_type);
            CREATE INDEX IF NOT EXISTS idx_events_corr ON events(correlation_id);") in
  ret (Ok tt).

(** [EventStore::new(path, session_id, server_version, config, persist_mode)]: the
    store, and the connection that the writer task is spawned with. *)
Definition open_store (path sid server_version config : string) (mode : PersistMode)
  : ST W (result (EventStore * Z) error) :=
  do? match path_parent path with
      | Some parent =>
          st_map (context ("Failed to create DB directory: " +:+ parent))
            (st_map (map_err (fun e => anyhow (io_error_msg e))) (create_dir_all parent))
      | None => ret (Ok tt)
      end in
  let? conn := st_map (db_context ("Failed to open events DB at " +:+ path)) (db_open path) in
  do? st_map (db_context "Failed to set SQLite pragmas")
        (db_execute_batch conn "PRAGMA journal_mode=WAL; PRAGMA synchronous=NORMAL;") in
  do? create_tables conn in
  let! now := rfc3339_now in
  do? st_map (db_context "Failed to insert session")
        (db_execute conn "INSERT INTO sessions (id, started_at, server_version, config) VALUES (?1, ?2, ?3, ?4)"
           [SqlText sid; SqlText now; SqlText server_version; SqlText config]) in
  ret (Ok (new_store sid mode, conn)).

(** [EventStore::open_readonly(path)] *)
Definition open_readonly (path : string) : ST W (result Z error) :=
  let? conn := st_map (db_context ("Failed to open events DB at " +:+ path)) (db_open_readonly path) in
  do? st_map (db_context "Failed to set busy timeout") (db_execute_batch conn "PRAGMA busy_timeout=5000;") in
  ret (Ok conn).

(** * Queries *)

Definition read_session (row : sql_row) : result SessionInfo sql_error :=
  let^ id := row_get as_string 0 row in
  let^ started_at := row_get as_string 1 row in
  let^ stopped_at := row_get (as_option as_string) 2 row in
  let^ server_version := row_get as_string 3 row in
  let^ event_count := row_get as_i64_col 4 row in
  Ok (mkSessionInfo id started_at stopped_at server_version event_count).

Definition sessions_sql : string :=
"SELECT s.id, s.started_at, s.stopped_at, s.server_version,
                    (SELECT COUNT(*) FROM events e WHERE e.session_id = s.id) as event_count
             FROM sessions s
             ORDER BY s.started_at DESC".

(** [EventStore::list_sessions(conn)] *)
Definition list_sessions (conn : Z) : ST W (result (list SessionInfo) error) :=
  let? rows := st_map db_err (db_select conn sessions_sql []) in
  ret (db_err (collect_rows read_session rows)).

(** [if let Some(v) = filter { write!(sql, " AND <col> = ?{}", params.len() + 1); params.push(v) }] *)
Definition push_filter (col : string) (filter : option string) (b : string * list sql_value) : string * list sql_value :=
  match filter with
  | Some v =>
      (b.1 +:+ String " " ("AND" +:+ String " " (col +:+ String " " ("=" +:+ String " " (param_word (length b.2 + 1))))),
       b.2 ++ [SqlText v])
  | None => b
  end.

Definition push_limit (limit : option Z) (sql : string) : string :=
  match limit with
  | Some n => sql +:+ String " " ("LIMIT" +:+ String " " (show_Z n))
  | None => sql
  end.

(** The statement and the parameters of [query_events]. *)
Definition events_sql (filters : EventFilters) : string * list sql_value :=
  let b := (
"SELECT id, session_id, timestamp, category, event_type, vm_id,
                    correlation_id, duration_ms, success, data
             FROM events WHERE 1=1"%string, []) in
  let b := push_filter "session_id" (f_session_id filters) b in
  let b := push_filter "vm_id" (f_vm_id filters) b in
  let b := push_filter "category" (f_category filters) b in
  let b := push_filter "event_type" (f_event_type filters) b in
  (push_limit (f_limit filters) (b.1 +:+ " ORDER BY timestamp ASC, id ASC"), b.2).

(** The closure that reads a row. *)
Definition read_event (row : sql_row) : result Event sql_error :=
  let^ success_int := row_get (as_option as_i32_col) 8 row in
  let^ data_str := row_get as_string 9 row in
  let^ id := row_get as_i64_col 0 row in
  let^ session_id := row_get as_string 1 row in
  let^ timestamp := row_get as_string 2 row in
  let^ category := row_get as_string 3 row in
  let^ event_type := row_get as_string 4 row in
  let^ vm_id := row_get (as_option as_string) 5 row in
  let^ correlation_id := row_get (as_option as_string) 6 row in
  let^ duration_ms := row_get (as_option as_i64_col) 7 row in
  Ok (mkEvent id session_id timestamp category event_type vm_id correlation_id duration_ms
        ((fun v => negb (v =? 0)) <$> success_int)
        (match json_from_slice (bytes_of_str data_str) with Ok v => v | Err _ => JObject [] end)).

(** [EventStore::query_events(conn, filters)] *)
Definition query_events (conn : Z) (filters : EventFilters) : ST W (result (list Event) error) :=
  let '(sql, params) := events_sql filters in
  let? rows := st_map db_err (db_select conn sql params) in
  ret (db_err (collect_rows read_event rows)).

End store.

(** * Properties *)

(** ** The statement that is built *)

(** The filters that are given, with their columns, in the order of the code. *)
Definition given (cols : list (string * option string)) : list (string * string) :=
  omap (fun cv => (fun v => (cv.1, v)) <$> cv.2) cols.

Definition filter_columns (f : EventFilters) : list (string * option string) :=
  [("session_id"%string, f_session_id f); ("vm_id"%string, f_vm_id f); ("category"%string, f_category f);
   ("event_type"%string, f_event_type f)].

Definition numbered (n : nat) (gs : list (string * string)) : list (string * nat) := zip gs.*1 (seq n (length gs)).

Definition query_of (f : EventFilters) : event_query :=
  mkEventQuery (numbered 1 (given (filter_columns f))) (f_limit f).

Definition params_of (gs : list (string * string)) : list sql_value := map (fun cv => SqlText cv.2) gs.

Lemma param_word_words i : sql_words (param_word i) = [param_word i].
Proof.
  unfold param_word. rewrite sql_words_graphic; [done|]. pose proof (show_Z_graphic (Z.of_nat i)) as Hg.
  unfold all_graphic in *. simpl. by rewrite Hg.
Qed.

(** One filter: its words, with the number of its parameter. *)
Lemma push_filter_words col v b :
  sql_words col = [col] ->
  sql_words (push_filter col (Some v) b).1 = sql_words b.1 ++ cond_words (col, (length b.2 + 1)%nat).
Proof.
  intros Hcol. unfold push_filter. cbn [fst]. rewrite !sql_words_space, param_word_words, Hcol. done.
Qed.

Lemma fold_push_filter cols : forall b,
  Forall (fun cv : string * option string => sql_words cv.1 = [cv.1]) cols ->
  let r := fold_left (fun b cv => push_filter cv.1 cv.2 b) cols b in
  r.2 = b.2 ++ params_of (given cols) /\
  sql_words r.1 = sql_words b.1 ++ (numbered (length b.2 + 1) (given cols) ≫= cond_words).
Proof.
  induction cols as [|[col [v|]] cols IH]; intros b Hw; inversion Hw as [|? ? Hcol Hrest]; subst.
  - simpl. by rewrite !app_nil_r.
  - cbn [fold_left fst snd]. destruct (IH (push_filter col (Some v) b) Hrest) as [-> ->].
    rewrite push_filter_words by done. cbn [push_filter snd]. rewrite length_app, <- !app_assoc. split; [done|].
    change (given ((col, Some v) :: cols)) with ((col, v) :: given cols).
    assert (length b.2 + length [SqlText v] + 1 = S (length b.2 + 1))%nat as -> by (simpl; lia). done.
  - cbn [fold_left fst snd push_filter]. apply IH, Hrest.
Qed.

Lemma push_limit_words limit sql :
  sql_words (push_limit limit sql) = sql_words sql ++ from_option (fun n => ["LIMIT"%string; show_Z n]) [] limit.
Proof.
  destruct limit as [n|]; simpl; [|by rewrite app_nil_r]. rewrite !sql_words_space, (sql_words_graphic (show_Z n)) by apply show_Z_graphic.
  assert (show_Z n <> EmptyString) as Hn.
  { intros He. pose proof (read_show_Z n) as Hr. rewrite He in Hr. injection Hr as <-. done. }
  by destruct (show_Z n).
Qed.

(** The words of a statement built over any head with the right words. *)
Lemma build_words head f :
  sql_words head = events_head ->
  let b := fold_left (fun b cv => push_filter cv.1 cv.2 b) (filter_columns f) (head, []) in
  sql_words (push_limit (f_limit f) (b.1 +:+ " ORDER BY timestamp ASC, id ASC")) = query_words (query_of f) /\
  b.2 = params_of (given (filter_columns f)).
Proof.
  intros Hh b. destruct (fold_push_filter (filter_columns f) (head, [])) as [Hp Hw]; [by repeat constructor|].
  fold b in Hp, Hw. cbn [fst snd length app] in Hp, Hw. split; [|done]. rewrite push_limit_words.
  change (" ORDER BY timestamp ASC, id ASC"%string) with (String " " "ORDER BY timestamp ASC, id ASC").
  rewrite sql_words_space, Hw, Hh. unfold query_words. simpl. by rewrite <- !app_assoc.
Qed.

Lemma events_sql_words f :
  sql_words (events_sql f).1 = query_words (query_of f) /\ (events_sql f).2 = params_of (given (filter_columns f)).
Proof. apply (build_words _ f). by vm_compute. Qed.

Lemma numbered_snd n gs : (numbered n gs).*2 = seq n (length gs).
Proof. unfold numbered. apply snd_zip. rewrite length_fmap, length_seq. done. Qed.

Lemma query_of_ok f : query_ok (query_of f) (params_of (given (filter_columns f))).
Proof.
  split.
  - unfold query_of, numbered. simpl. apply Forall_forall. intros [c i] Hin. apply elem_of_zip_l in Hin.
    destruct f as [[?|] [?|] [?|] [?|] ?]; simpl in *; set_solver.
  - unfold query_of. simpl. rewrite numbered_snd. unfold params_of. by rewrite length_map.
Qed.

(** ** What it selects *)

(** An event passes the filters. *)
Definition passes (f : EventFilters) (e : stored_event) : Prop :=
  Forall (fun cv : string * string => text_column cv.1 e = Some cv.2) (given (filter_columns f)).

#[export] Instance passes_dec f e : Decision (passes f e).
Proof. unfold passes. apply _. Defined.

(** The filtered table in the order of time, then of ids, cut at the limit. *)
Definition selected (f : EventFilters) (table : list stored_event) : list stored_event :=
  sql_limit (f_limit f) (merge_sort event_le (filter (passes f) table)).

Lemma conds_hold gs : forall pre e,
  forallb (cond_holds (pre ++ params_of gs) e) (numbered (length pre + 1) gs) = true <->
  Forall (fun cv : string * string => text_column cv.1 e = Some cv.2) gs.
Proof.
  induction gs as [|[c v] gs IH]; intros pre e; [by split|].
  change (numbered (length pre + 1) ((c, v) :: gs)) with ((c, (length pre + 1)%nat) :: numbered (S (length pre + 1)) gs).
  cbn [forallb]. rewrite andb_true_iff, Forall_cons. specialize (IH (pre ++ [SqlText v]) e).
  assert (length (pre ++ [SqlText v]) + 1 = S (length pre + 1))%nat as Hn by (rewrite length_app; simpl; lia).
  rewrite Hn, <- app_assoc in IH.
  change ([SqlText v] ++ params_of gs) with (params_of ((c, v) :: gs)) in IH. rewrite IH.
  enough (cond_holds (pre ++ params_of ((c, v) :: gs)) e (c, (length pre + 1)%nat) = true <-> text_column c e = Some v) by tauto.
  unfold cond_holds. simpl. rewrite Nat.add_sub, list_lookup_middle by done.
  destruct (text_column c e) as [t|]; [|done]. destruct (String.eqb_spec t v); naive_solver.
Qed.

Lemma run_query_of f table :
  run_query (query_of f) (params_of (given (filter_columns f))) table = selected f table.
Proof.
  unfold run_query, selected. f_equal. f_equal. apply list_filter_iff. intros e. apply (conds_hold _ [] e).
Qed.

(** ** What is read back *)

(** The integers of a row fit their types. *)
Definition stored_wf (e : stored_event) : Prop :=
  - 2 ^ 63 <= e.1 < 2 ^ 63 /\
  from_option (fun d => - 2 ^ 63 <= d < 2 ^ 63) True (ev_duration_ms (row_record e.2)) /\
  from_option (fun s => - 2 ^ 31 <= s < 2 ^ 31) True (row_success e.2).

Section read_back.
Context `{SerdeJson}.

Definition event_of (e : stored_event) : Event :=
  let r := row_record e.2 in
  mkEvent e.1 (row_session e.2) (ev_timestamp r) (ev_category r) (ev_event_type r) (ev_vm_id r) (ev_correlation_id r)
    (ev_duration_ms r) ((fun v => negb (v =? 0)) <$> row_success e.2)
    (match json_from_slice (bytes_of_str (ev_data r)) with Ok v => v | Err _ => JObject [] end).

Lemma as_int_in lo hi i z : lo <= z < hi + 1 -> as_int lo hi i (SqlInteger z) = Ok z.
Proof. intros Hz. unfold as_int. by rewrite (proj2 (Z.leb_le lo z)), (proj2 (Z.leb_le z hi)) by lia. Qed.

Lemma as_option_int lo hi i o :
  from_option (fun z => lo <= z < hi + 1) True o -> as_option (as_int lo hi) i (sql_opt SqlInteger o) = Ok o.
Proof.
  destruct o as [z|]; [|done]. intros Hz. change (rbind (as_int lo hi i (SqlInteger z)) (fun a => Ok (Some a)) = Ok (Some z)).
  by rewrite as_int_in.
Qed.

Lemma as_option_text i o : as_option as_string i (sql_opt SqlText o) = Ok o.
Proof. by destruct o. Qed.

Lemma read_event_stored e : stored_wf e -> read_event (stored_columns e) = Ok (event_of e).
Proof.
  intros (Hi & Hd & Hs). unfold read_event, as_i64_col, as_i32_col, row_get, stored_columns.
  cbn -[as_option as_int Z.pow]. rewrite (as_option_int _ _ 8), (as_option_int _ _ 7), !as_option_text, as_int_in; [done|lia|..].
  - destruct (ev_duration_ms _); simpl in *; lia.
  - destruct (row_success _); simpl in *; lia.
Qed.

End read_back.

(** ** The queries *)

Lemma selected_subset f table e : e ∈ selected f table -> e ∈ table /\ passes f e.
Proof.
  unfold selected. intros He. assert (e ∈ merge_sort event_le (filter (passes f) table)) as Hin.
  { unfold sql_limit in He. destruct (f_limit f) as [n|]; [|done]. destruct (n <? 0); [done|].
    by eapply elem_of_take in He as (i & Hi & _); apply list_elem_of_lookup_2 in Hi. }
  rewrite merge_sort_Permutation in Hin. apply list_elem_of_filter in Hin as [? ?]. done.
Qed.

Lemma read_events_stored `{SerdeJson} es :
  Forall stored_wf es -> Forall2 (fun row a => read_event row = Ok a) (map stored_columns es) (map event_of es).
Proof. induction 1 as [|e es He _ IH]; simpl; constructor; [by apply read_event_stored|done]. Qed.

Section laws.
Context {W : Type} `{SelectLaws W} `{SqlDisplay} `{SerdeJson}.

(** The database answers a query and all its rows. *)
Definition complete (c : Z) (b : string * list sql_value) (w : W) : Prop :=
  exists rows, (db_select c b.1 b.2 w).1 = Ok (map Ok rows).

Lemma query_events_run c f w :
  Forall stored_wf (events_of c w) ->
  (forall evs, (query_events c f w).1 = Ok evs -> evs = map event_of (selected f (events_of c w))) /\
  (complete c (events_sql f) w -> (query_events c f w).1 = Ok (map event_of (selected f (events_of c w)))).
Proof.
  intros Hwf. destruct (events_sql_words f) as [Hw Hp]. unfold query_events, complete, bind_ok, st_map.
  destruct (events_sql f) as [sql params]. simpl in *. subst params.
  pose proof (select_events_law c sql _ _ w Hw (query_of_ok f)) as Ha. rewrite run_query_of in Ha.
  unfold bind, ret. destruct (db_select c sql _ w) as [r w']. simpl in *.
  assert (Forall stored_wf (selected f (events_of c w))) as Hs.
  { apply Forall_forall. intros e [He _]%selected_subset. by eapply Forall_forall in Hwf. }
  assert (Hall : forall rows, r = Ok (map Ok rows) -> rows = map stored_columns (selected f (events_of c w))).
  { intros rows Hr. by eapply answers_all. }
  split.
  - intros evs. destruct r as [got|e]; simpl; [|done]. unfold db_err.
    destruct (collect_rows read_event got) as [out|e] eqn:Ec; simpl; [|done]. intros [= <-].
    apply collect_rows_inv in Ec as (rs & -> & Hf). rewrite (Hall rs eq_refl) in Hf.
    pose proof (read_events_stored _ Hs) as Hr. clear -Hf Hr. revert Hr. generalize (map event_of (selected f (events_of c w))).
    induction Hf as [|row a rows out Hra _ IH]; intros evs Hr; inversion Hr; subst; [done|]. f_equal; [congruence|]. by apply IH.
  - intros [rows ->]. simpl. rewrite (Hall rows eq_refl). by rewrite (collect_rows_ok _ _ _ (read_events_stored _ Hs)).
Qed.

(** Every session once, the latest first, each with the number of its events. *)
Definition session_of (table : list stored_event) (s : session_row) : SessionInfo :=
  mkSessionInfo (sess_id s) (sess_started_at s) (sess_stopped_at s) (sess_server_version s) (count_of table (sess_id s)).

Lemma read_session_stored table s :
  Z.of_nat (length table) < 2 ^ 63 -> read_session (session_columns table s) = Ok (session_of table s).
Proof.
  intros Hn. unfold read_session, session_columns, row_get, as_i64_col. cbn -[as_option as_int Z.pow].
  rewrite as_option_text, as_int_in; [done|]. unfold count_of.
  pose proof (length_filter (fun e : stored_event => row_session e.2 = sess_id s) table). lia.
Qed.

Lemma list_sessions_run c w :
  Z.of_nat (length (events_of c w)) < 2 ^ 63 -> complete c (sessions_sql, []) w ->
  exists ss, ss ≡ₚ sessions_of c w /\ Sorted started_ge ss /\
    (list_sessions c w).1 = Ok (map (session_of (events_of c w)) ss).
Proof.
  intros Hn [rows Hr]. destruct (select_sessions_law c sessions_sql w) as (ss & Hp & Hs & Ha); [by vm_compute|].
  exists ss. split_and!; [done..|]. unfold list_sessions, bind_ok, st_map, bind, ret. simpl in Hr.
  pose proof (answers_all _ _ _ Ha Hr) as ->. destruct (db_select c sessions_sql [] w) as [r w']. simpl in *. subst r. simpl.
  erewrite collect_rows_ok; [done|]. clear -Hn. induction ss as [|s ss IH]; simpl; constructor; [by apply read_session_stored|done].
Qed.

End laws.
