(* ===== verification/CliLogs.v ===== *)
(** clawpot-cli/src/commands/logs.rs: the log commands of the command-line client,
    which read the server's event database themselves, with their own copies of
    the server's queries. *)

From S2P Require Import Prelude RustStr World Json SimWorld Events Sql EventQueries.
From Stdlib Require Import ZArith Lia Ascii String.
From Stdlib Require Import Strings.Byte.
From stdpp Require Import base gmap strings list sorting.

Open Scope Z_scope.

(** [println!]: a line on standard output (a text with line breaks is one call). *)
Class Console (W : Type) := { println : string -> ST W unit }.

(** [serde_json::to_string_pretty] *)
Class JsonPretty := { json_to_string_pretty : json -> result string string }.

(** * Formatting *)

(** The number of characters of a string: the bytes that do not continue one. *)
Definition char_count (s : string) : nat := length (filter (fun b => is_cont b = false) (bytes_of_str s)).

Definition spaces (n : nat) : string := string_of_list_ascii (replicate n " "%char).

(** [{s:<n}] and [{s:>n}] *)
Definition pad_right (n : nat) (s : string) : string := s +:+ spaces (n - char_count s).
Definition pad_left (n : nat) (s : string) : string := spaces (n - char_count s) +:+ s.

(** ["-".repeat(n)] *)
Definition dashes (n : nat) : string := string_of_list_ascii (replicate n "-"%char).

(** [s.is_char_boundary(n)] and [&s[..n]], which panics elsewhere. *)
Definition is_char_boundary (s : string) (n : nat) : bool :=
  (n =? 0)%nat ||
  match bytes_of_str s !! n with
  | Some b => negb (is_cont b)
  | None => (n =? String.length s)%nat
  end.

Definition str_prefix (s : string) (n : nat) : outcome string :=
  if is_char_boundary s n then Done (String.substring 0 n s) else Panic.

Definition show_bool (b : bool) : string := if b then "true" else "false".

Module Logs.

(** * Types *)

Record SessionInfo : Type := mkSessionInfo {
  id : string;
  started_at : string;
  stopped_at : option string;
  server_version : string;
  event_count : Z;   (* i64 *)
}.

Record Event : Type := mkEvent {
  event_id : Z;   (* i64 *)
  session_id : string;
  timestamp : string;
  category : string;
  event_type : string;
  vm_id : option string;
  correlation_id : option string;
  duration_ms : option Z;   (* i64 *)
  success : option bool;
  data : json;
}.

(** [derive(Serialize)] *)
Definition event_json (e : Event) : json :=
  JObject [("id", jint (event_id e)); ("session_id", JString (session_id e)); ("timestamp", JString (timestamp e));
           ("category", JString (category e)); ("event_type", JString (event_type e));
           ("vm_id", jopt JString (vm_id e)); ("correlation_id", jopt JString (correlation_id e));
           ("duration_ms", jopt jint (duration_ms e)); ("success", jopt JBool (success e)); ("data", data e)]%string.

Section queries.
Context {W : Type} `{SqliteFiles W} `{SqlDisplay} `{SerdeJson}.

(** [open_db(path)] *)
Definition open_db (path : string) : ST W (result Z error) :=
  let? conn := st_map (db_context ("Failed to open events DB at " +:+ path)) (db_open path) in
  do? st_map (db_context "Failed to set pragmas")
        (db_execute_batch conn "PRAGMA busy_timeout=5000; PRAGMA query_only=ON;") in
  ret (Ok conn).

Definition read_session (row : sql_row) : result SessionInfo sql_error :=
  let^ id := row_get as_string 0 row in
  let^ started_at := row_get as_string 1 row in
  let^ stopped_at := row_get (as_option as_string) 2 row in
  let^ server_version := row_get as_string 3 row in
  let^ event_count := row_get as_i64_col 4 row in
  Ok (mkSessionInfo id started_at stopped_at server_version event_count).

(** [list_sessions(conn)] *)
Definition list_sessions (conn : Z) : ST W (result (list SessionInfo) error) :=
  let? rows := st_map db_err (db_select conn
"SELECT s.id, s.started_at, s.stopped_at, s.server_version,
                (SELECT COUNT(*) FROM events e WHERE e.session_id = s.id) as event_count
         FROM sessions s
         ORDER BY s.started_at DESC" []) in
  ret (db_err (collect_rows read_session rows)).

(** The statement and the parameters of [query_events]; a filter is added as in the
    server's. *)
Definition events_sql (session_id vm_id category event_type : option string) (limit : option Z) : string * list sql_value :=
  let b := (
"SELECT id, session_id, timestamp, category, event_type, vm_id,
                correlation_id, duration_ms, success, data
         FROM events WHERE 1=1"%string, []) in
  let b := push_filter "session_id" session_id b in
  let b := push_filter "vm_id" vm_id b in
  let b := push_filter "category" category b in
  let b := push_filter "event_type" event_type b in
  (push_limit limit (b.1 +:+ " ORDER BY timestamp ASC, id ASC"), b.2).

Definition read_event (row : sql_row) : result Event sql_error :=
  let^ success_int := row_get (as_option as_i32_col) 8 row in
  let^ data_str := row_get as_string 9 row in
  let^ id := row_get as_i64_col 0 row in
  let^ session_id := row_get as_string 1 row in
  let^ timestamp := row_get as_string 2 row in
  let^ category := row_get as_string 3 row in
  let^ event_type := row_get as_string 4 row in
  let^ vm_id := row_get (as_option as_string) 5 row in
  let^ correlation_id := row_get (as_option as_string) 6 row in
  let^ duration_ms := row_get (as_option as_i64_col) 7 row in
  Ok (mkEvent id session_id timestamp category event_type vm_id correlation_id duration_ms
        ((fun v => negb (v =? 0)) <$> success_int)
        (match json_from_slice (bytes_of_str data_str) with Ok v => v | Err _ => JObject [] end)).

(** [query_events(conn, session_id, vm_id, category, event_type, limit)] *)
Definition query_events (conn : Z) (session_id vm_id category event_type : option string) (limit : option Z)
  : ST W (result (list Event) error) :=
  let '(sql, params) := events_sql session_id vm_id category event_type limit in
  let? rows := st_map db_err (db_select conn sql params) in
  ret (db_err (collect_rows read_event rows)).

End queries.

(** * Commands *)

(** [default_db_path()], on the value of CLAWPOT_ROOT if it is set *)
Definition default_db_path (root : option string) : string :=
  default "/workspaces/clawpot"%string root +:+ "/data/events.db".

(** [format_data_summary(event_type, data)] *)
Definition str_field (key dflt : string) (data : json) : string := default dflt (Json.get key data ≫= as_str).

Definition format_data_summary `{SerdeJson} (event_type : string) (data : json) : outcome string :=
  if String.eqb event_type "log" then Done (str_field "message" "" data)
  else if String.eqb event_type "network.http.request" then
    Done (str_field "method" "?" data +:+ " " +:+ str_field "url" "?" data)
  else if String.eqb event_type "network.http.response" then
    Done ("status=" +:+ show_Z (default 0 (Json.get "status_code" data ≫= as_u64)))
  else if String.eqb event_type "network.dns.request" then
    Done (str_field "query_name" "?" data +:+ " " +:+ str_field "query_type" "?" data)
  else if String.eqb event_type "vm.create.ip_allocated" then Done (str_field "ip_address" "" data)
  else if String.eqb event_type "vm.exec" then
    Done (str_field "command" "?" data +:+ " exit=" +:+ show_Z (default (-1) (Json.get "exit_code" data ≫= as_i64)))
  else if String.eqb event_type "llm.request" then
    let messages := from_option (fun n => " messages=" +:+ show_Z n) EmptyString (Json.get "message_count" data ≫= as_u64) in
    let streaming := from_option (fun s => " streaming=" +:+ show_bool s) EmptyString (Json.get "streaming" data ≫= as_bool) in
    Done (str_field "provider" "?" data +:+ "/" +:+ str_field "endpoint" "?" data +:+ " model=" +:+
          str_field "model" "unknown" data +:+ messages +:+ streaming)
  else if String.eqb event_type "llm.response" then
    let tokens := match Json.get "input_tokens" data ≫= as_u64, Json.get "output_tokens" data ≫= as_u64 with
                  | Some i, Some o => " tokens=" +:+ show_Z i +:+ "+" +:+ show_Z o
                  | _, _ => EmptyString
                  end in
    let status := from_option (fun s => " status=" +:+ show_Z s) EmptyString (Json.get "status_code" data ≫= as_u64) in
    Done (str_field "provider" "?" data +:+ "/" +:+ str_field "endpoint" "?" data +:+ " model=" +:+
          str_field "model" "unknown" data +:+ tokens +:+ status)
  else
    let s := match json_to_string data with Ok t => t | Err _ => EmptyString end in
    if (80 <? String.length s)%nat then
      let$ p := str_prefix s 77 in
      Done (p +:+ "...")
    else Done s.

Section commands.
Context {W : Type} `{SqliteFiles W} `{FileSystem W} `{Console W} `{SqlDisplay} `{SerdeJson} `{JsonPretty}.
Context (root : option string).   (* CLAWPOT_ROOT *)

Definition db_path_of (db_path : option string) : string :=
  match db_path with Some p => p | None => default_db_path root end.

Definition session_line (s : SessionInfo) : string :=
  pad_right 38 (id s) +:+ " " +:+ pad_right 26 (started_at s) +:+ " " +:+
  pad_right 26 (default "(running)"%string (stopped_at s)) +:+ " " +:+ pad_right 10 (server_version s) +:+ " " +:+
  pad_left 6 (show_Z (event_count s)).

(** [execute_sessions(db_path)] *)
Definition execute_sessions (db_path : option string) : ST W (result unit error) :=
  let path := db_path_of db_path in
  let! there := path_exists path in
  if negb there then do! println ("No events database found at " +:+ path) in ret (Ok tt)
  else
    let? conn := open_db path in
    let? sessions := list_sessions conn in
    match sessions with
    | [] => do! println "No sessions found." in ret (Ok tt)
    | _ =>
        do! println (pad_right 38 "SESSION ID" +:+ " " +:+ pad_right 26 "STARTED" +:+ " " +:+ pad_right 26 "STOPPED"
                     +:+ " " +:+ pad_right 10 "VERSION" +:+ " " +:+ pad_left 6 "EVENTS") in
        do! println (dashes 110) in
        do! for_each (fun s => println (session_line s)) sessions in
        ret (Ok tt)
    end.

Definition event_line (e : Event) : string :=
  pad_right 26 (timestamp e) +:+ " " +:+ pad_right 12 (category e) +:+ " " +:+ pad_right 32 (event_type e) +:+ " " +:+
  pad_right 38 (default "-"%string (vm_id e)) +:+ " " +:+
  pad_left 8 (from_option show_Z "-"%string (duration_ms e)) +:+ " " +:+
  pad_right 7 (match success e with Some true => "yes" | Some false => "no" | None => "-" end).

(** [execute_show(db_path, session_id, vm_id, category, event_type, limit)] *)
Definition execute_show (db_path session_id vm_id category event_type : option string) (limit : option Z)
  : ST W (result unit error) :=
  let path := db_path_of db_path in
  let! there := path_exists path in
  if negb there then do! println ("No events database found at " +:+ path) in ret (Ok tt)
  else
    let? conn := open_db path in
    let? events := query_events conn session_id vm_id category event_type limit in
    match events with
    | [] => do! println "No events found." in ret (Ok tt)
    | _ =>
        do! println (pad_right 26 "TIMESTAMP" +:+ " " +:+ pad_right 12 "CATEGORY" +:+ " " +:+ pad_right 32 "EVENT TYPE"
                     +:+ " " +:+ pad_right 38 "VM ID" +:+ " " +:+ pad_left 8 "DUR(ms)" +:+ " " +:+ pad_right 7 "OK") in
        do! println (dashes 130) in
        do! for_each (fun e => println (event_line e)) events in
        do! println (nl +:+ "Total: " +:+ show_Z (Z.of_nat (length events)) +:+ " event(s)") in
        ret (Ok tt)
    end.

(** [execute_export(db_path, session_id, format)] *)
Definition execute_export (db_path session_id : option string) (format : string) : ST W (result unit error) :=
  let path := db_path_of db_path in
  let! there := path_exists path in
  if negb there then ret (Err (anyhow ("No events database found at " +:+ path)))
  else
    let? conn := open_db path in
    let? events := query_events conn session_id None None None None in
    if String.eqb format "json" then
      let? text := ret (map_err anyhow (json_to_string_pretty (JArray (map event_json events)))) in
      do! println text in
      ret (Ok tt)
    else
      for_ok (fun event =>
        let? text := ret (map_err anyhow (json_to_string (event_json event))) in
        do! println text in
        ret (Ok tt)) events.

(** One line of the timeline. *)
Definition timeline_line (e : Event) : outcome string :=
  let vm_part := from_option (fun v => " vm=" +:+ v) EmptyString (vm_id e) in
  let duration_part := from_option (fun d => " (" +:+ show_Z d +:+ "ms)") EmptyString (duration_ms e) in
  let success_part := match success e with Some true => " OK" | Some false => " FAIL" | None => EmptyString end in
  let$ data_summary := format_data_summary (event_type e) (data e) in
  Done (timestamp e +:+ " [" +:+ category e +:+ "] " +:+ event_type e +:+ vm_part +:+ duration_part +:+ success_part +:+
        " " +:+ data_summary).

(** The loop of [execute_timeline]: a panic ends it after the lines before. *)
Fixpoint timeline_loop (events : list Event) : ST W (outcome (result unit error)) :=
  match events with
  | [] => ret (Done (Ok tt))
  | e :: rest =>
      match timeline_line e with
      | Done line => do! println line in timeline_loop rest
      | Panic => ret Panic
      | NoFuel => ret NoFuel
      end
  end.

(** [execute_timeline(db_path, session_id, vm_id)] *)
Definition execute_timeline (db_path session_id vm_id : option string) : ST W (outcome (result unit error)) :=
  let path := db_path_of db_path in
  let! there := path_exists path in
  if negb there then do! println ("No events database found at " +:+ path) in ret (Done (Ok tt))
  else
    let! events := (let? conn := open_db path in query_events conn session_id vm_id None None None) in
    match events with
    | Err e => ret (Done (Err e))
    | Ok [] => do! println "No events found." in ret (Done (Ok tt))
    | Ok events => timeline_loop events
    end.

End commands.
End Logs.

(** * Properties *)

(** ** The client's queries and the server's *)

Definition res_map {A B E} (f : A -> B) (r : result A E) : result B E :=
  match r with
  | Ok a => Ok (f a)
  | Err e => Err e
  end.

(** The same values in the client's own types. *)
Definition cli_event (e : Event) : Logs.Event :=
  Logs.mkEvent (e_id e) (e_session_id e) (e_timestamp e) (e_category e) (e_event_type e) (e_vm_id e) (e_correlation_id e)
    (e_duration_ms e) (e_success e) (e_data e).

Definition cli_session (s : SessionInfo) : Logs.SessionInfo :=
  Logs.mkSessionInfo (si_id s) (si_started_at s) (si_stopped_at s) (si_server_version s) (si_event_count s).

Lemma collect_rows_map {A B} (f : sql_row -> result A sql_error) (g : sql_row -> result B sql_error) (h : A -> B) rows :
  (forall row, g row = res_map h (f row)) -> collect_rows g rows = res_map (map h) (collect_rows f rows).
Proof.
  intros Hg. induction rows as [|[row|e] rows IH]; simpl; [done| |done]. unfold rbind. rewrite Hg, IH.
  destruct (f row); simpl; [|done]. by destruct (collect_rows f rows).
Qed.

(** Case analysis on the reads of a row, one after the other. *)
Ltac read_fields := unfold rbind, res_map; repeat (case_res; simpl); try reflexivity; try discriminate.

Lemma cli_read_event `{SerdeJson} row : Logs.read_event row = res_map cli_event (read_event row).
Proof. unfold Logs.read_event, read_event. read_fields. Qed.

Lemma cli_read_session row : Logs.read_session row = res_map cli_session (read_session row).
Proof. unfold Logs.read_session, read_session. read_fields. Qed.

Section equivalence.
Context {W : Type} `{SelectLaws W} `{SqlDisplay} `{SerdeJson}.

Definition cli_sql (f : EventFilters) : string * list sql_value :=
  Logs.events_sql (f_session_id f) (f_vm_id f) (f_category f) (f_event_type f) (f_limit f).

Lemma cli_sql_words f :
  sql_words (cli_sql f).1 = query_words (query_of f) /\ (cli_sql f).2 = params_of (given (filter_columns f)).
Proof. apply (build_words _ f). by vm_compute. Qed.

(** The two statements differ in their layout only. *)
Lemma cli_select c f w :
  db_select c (cli_sql f).1 (cli_sql f).2 w = db_select c (events_sql f).1 (events_sql f).2 w.
Proof.
  destruct (cli_sql_words f) as [Hc ->]. destruct (events_sql_words f) as [Hs ->]. by eapply select_layout_law.
Qed.

Definition cli_query (c : Z) (f : EventFilters) : ST W (result (list Logs.Event) error) :=
  Logs.query_events c (f_session_id f) (f_vm_id f) (f_category f) (f_event_type f) (f_limit f).

Lemma cli_query_eq c f w : cli_query c f w = st_map (res_map (map cli_event)) (query_events c f) w.
Proof.
  pose proof (cli_select c f w) as Hs. unfold cli_query, Logs.query_events, query_events. fold (cli_sql f).
  destruct (cli_sql f) as [sql ps], (events_sql f) as [sql' ps']. simpl in Hs. unfold bind_ok, st_map, bind, ret. rewrite Hs.
  destruct (db_select c sql' ps' w) as [[rows|e] w']; [|done]. simpl.
  rewrite (collect_rows_map read_event _ cli_event) by apply cli_read_event. by destruct (collect_rows read_event rows).
Qed.

Lemma cli_sessions_eq c w : Logs.list_sessions c w = st_map (res_map (map cli_session)) (list_sessions c) w.
Proof.
  unfold Logs.list_sessions, list_sessions, bind_ok, st_map, bind, ret.
  rewrite (select_sessions_layout_law c _ sessions_sql) by by vm_compute.
  destruct (db_select c sessions_sql [] w) as [[rows|e] w']; [|done]. simpl.
  rewrite (collect_rows_map read_session _ cli_session) by apply cli_read_session. by destruct (collect_rows read_session rows).
Qed.

(** C21. The client's copies of the queries are equivalent to the server's: on any
    database, whatever the filters, they return the same events and sessions (in
    the client's types) or the same error and leave the same state; and what they
    return is the events that pass the filters, ordered by time and id and cut at
    the limit, unless the database itself fails. *)
Theorem cli_queries_match_server c f w :
  Forall stored_wf (events_of c w) ->
  cli_query c f w = st_map (res_map (map cli_event)) (query_events c f) w /\
  Logs.list_sessions c w = st_map (res_map (map cli_session)) (list_sessions c) w /\
  (forall evs, (query_events c f w).1 = Ok evs -> evs = map event_of (selected f (events_of c w))) /\
  (complete c (events_sql f) w -> (query_events c f w).1 = Ok (map event_of (selected f (events_of c w)))).
Proof.
  intros Hwf. split; [apply cli_query_eq|]. split; [apply cli_sessions_eq|]. by apply query_events_run.
Qed.

End equivalence.

(** ** Summaries *)

Definition summarized : list string :=
  ["log"; "network.http.request"; "network.http.response"; "network.dns.request"; "vm.create.ip_allocated"; "vm.exec";
   "llm.request"; "llm.response"]%string.

Definition compact `{SerdeJson} (d : json) : string := match json_to_string d with Ok t => t | Err _ => EmptyString end.

(** The default summary: the text of the data, or its first 77 bytes. *)
Lemma format_data_summary_default `{SerdeJson} et d :
  et ∉ summarized ->
  Logs.format_data_summary et d =
  if (80 <? String.length (compact d))%nat then obind (str_prefix (compact d) 77) (fun p => Done (p +:+ "...")) else Done (compact d).
Proof.
  intros Hn. unfold Logs.format_data_summary. fold (compact d).
  repeat match goal with
  | |- context [String.eqb et ?s] =>
      destruct (String.eqb_spec et s) as [He|_]; [exfalso; apply Hn; rewrite He; unfold summarized; set_solver|]
  end.
  done.
Qed.

(** C39. The summary of an event in the timeline cuts a long JSON text at byte 77
    without looking at characters: it panics exactly on an event of a type without
    a summary of its own whose data takes more than 80 bytes and has a character
    across that byte; all other summaries are printed, and those of such types
    have at most 80 bytes. *)
Theorem format_data_summary_panics_iff `{SerdeJson} et d :
  (Logs.format_data_summary et d = Panic <->
     (et ∉ summarized) /\ (80 < String.length (compact d))%nat /\
     exists b, bytes_of_str (compact d) !! 77%nat = Some b /\ is_cont b = true) /\
  (Logs.format_data_summary et d <> NoFuel) /\
  (et ∉ summarized -> forall t, Logs.format_data_summary et d = Done t -> (String.length t <= 80)%nat).
Proof.
  destruct (decide (et ∈ summarized)) as [Hin|Hn].
  - assert (exists t, Logs.format_data_summary et d = Done t) as [t Ht].
    { unfold summarized in Hin. unfold Logs.format_data_summary.
      repeat (apply elem_of_cons in Hin as [->|Hin]; [by eexists|]). by apply elem_of_nil in Hin. }
    rewrite Ht. naive_solver.
  - rewrite format_data_summary_default by done. unfold str_prefix, is_char_boundary.
    destruct (Nat.ltb_spec 80 (String.length (compact d))) as [Hl|Hl].
    2:{ split; [|split; [done|]]; [naive_solver lia|]. intros _ t [= <-]. done. }
    pose proof (length_bytes_of_str (compact d)) as Hlen.
    destruct (lookup_lt_is_Some_2 (bytes_of_str (compact d)) 77) as [b Hb]; [lia|]. rewrite Hb. simpl.
    destruct (is_cont b) eqn:Ec; simpl.
    + split; [|by split]. split; [|done]. intros _. split_and!; [done..|]. by exists b.
    + split; [|split; [done|]]; [split; [done|]; intros (_ & _ & b' & [= <-] & Hc'); congruence|].
      intros _ t [= <-]. rewrite slength_app.
      assert (forall n s, String.length (String.substring 0 n s) <= n)%nat as Hsub.
      { induction n as [|n IH]; intros [|a s]; simpl; [lia..|]. specialize (IH s). lia. }
      specialize (Hsub 77%nat (compact d)). simpl. lia.
Qed.

(** ** Exporting a session *)

(** What appears on standard output. *)
Class ConsoleLaws (W : Type) `{SqliteFiles W, FileSystem W, Console W} := {
  console : W -> list string;
  println_law : forall s w, console (println s w).2 = console w ++ [s];
  path_exists_console : forall p w, console (path_exists p w).2 = console w;
  db_open_console : forall p w, console (db_open p w).2 = console w;
  db_batch_console : forall c s w, console (db_execute_batch c s w).2 = console w;
  db_select_console : forall c s ps w, console (db_select c s ps w).2 = console w;
}.

(** The event as its record had it when it was emitted, with its id and session. *)
Definition exported (datum : stored_event -> json) (e : stored_event) : json :=
  let r := row_record e.2 in
  JObject [("id", jint e.1); ("session_id", JString (row_session e.2)); ("timestamp", JString (ev_timestamp r));
           ("category", JString (ev_category r)); ("event_type", JString (ev_event_type r));
           ("vm_id", jopt JString (ev_vm_id r)); ("correlation_id", jopt JString (ev_correlation_id r));
           ("duration_ms", jopt jint (ev_duration_ms r)); ("success", jopt JBool (ev_success r)); ("data", datum e)]%string.

(** The row is one that the background writer makes. *)
Definition as_written (e : stored_event) : Prop := e.2 = row_of (row_session e.2) (row_record e.2).

Lemma exported_json `{SerdeJson} datum e :
  as_written e -> json_from_slice (bytes_of_str (ev_data (row_record e.2))) = Ok (datum e) ->
  Logs.event_json (cli_event (event_of e)) = exported datum e.
Proof.
  intros Hw Hd. unfold Logs.event_json, exported, event_of. simpl. rewrite Hd.
  assert (row_success e.2 = (fun b : bool => if b then 1 else 0) <$> ev_success (row_record e.2)) as -> by by rewrite Hw.
  by destruct (ev_success (row_record e.2)) as [[]|].
Qed.

(** The rows of one session. *)
Abbreviation rows_of_session sid := (filter (fun e : stored_event => row_session e.2 = sid)).

Section export.
Context {W : Type} `{SqliteFiles W} `{FileSystem W} `{Console W} `{!SelectLaws W} `{!ConsoleLaws W} `{SqlDisplay}
  `{SerdeJson} `{JsonPretty}.

Definition print_json (event : Logs.Event) : ST W (result unit error) :=
  let? text := ret (map_err anyhow (json_to_string (Logs.event_json event))) in
  do! println text in
  ret (Ok tt).

Lemma for_ok_print evs texts : forall w,
  Forall2 (fun e t => json_to_string (Logs.event_json e) = Ok t) evs texts ->
  exists w', for_ok print_json evs w = (Ok tt, w') /\ console w' = console w ++ texts.
Proof.
  intros w Hf. revert w. induction Hf as [|e t evs texts He _ IH]; intros w; simpl.
  - exists w. by rewrite app_nil_r.
  - unfold bind_ok at 1, bind at 1, print_json at 1, bind_ok, bind, ret. rewrite He. simpl.
    pose proof (println_law t w) as Hp. destruct (println t w) as [u w1]. simpl in Hp. destruct (IH w1) as (w' & -> & Hc).
    exists w'. split; [done|]. by rewrite Hc, Hp, <- app_assoc.
Qed.

Lemma query_console c sid w : console (cli_query c (mkEventFilters sid None None None None) w).2 = console w.
Proof.
  unfold cli_query, Logs.query_events. set (b := Logs.events_sql _ _ _ _ _). destruct b as [sql ps].
  unfold bind_ok, st_map, bind, ret. pose proof (db_select_console c sql ps w) as Hs.
  by destruct (db_select c sql ps w) as [[rows|e] w'].
Qed.

Lemma open_db_console path w : console (Logs.open_db path w).2 = console w.
Proof.
  unfold Logs.open_db, bind_ok, st_map, bind, ret. pose proof (db_open_console path w) as Ho.
  destruct (db_open path w) as [[c|e] w1]; simpl in *; [|done].
  pose proof (db_batch_console c "PRAGMA busy_timeout=5000; PRAGMA query_only=ON;" w1) as Hb.
  destruct (db_execute_batch c _ w1) as [[u|e] w2]; simpl in *; congruence.
Qed.

Definition of_session (sid : string) : EventFilters := mkEventFilters (Some sid) None None None None.

Lemma selected_session sid table :
  selected (of_session sid) table = merge_sort event_le (filter (fun e : stored_event => row_session e.2 = sid) table).
Proof.
  unfold selected, sql_limit. simpl. f_equal. apply list_filter_iff. intros e. unfold passes. simpl.
  rewrite Forall_singleton. unfold text_column. simpl. split; congruence.
Qed.

Lemma export_texts sid datum table texts :
  Forall as_written (rows_of_session sid table) ->
  (forall e, e ∈ rows_of_session sid table -> json_from_slice (bytes_of_str (ev_data (row_record e.2))) = Ok (datum e)) ->
  Forall2 (fun e t => json_to_string (exported datum e) = Ok t)
    (merge_sort event_le (rows_of_session sid table)) texts ->
  Forall2 (fun e t => json_to_string (Logs.event_json e) = Ok t)
    (map cli_event (map event_of (selected (of_session sid) table))) texts.
Proof.
  intros Hw Hd Ht. rewrite selected_session, map_map.
  assert (Forall (fun e => e ∈ rows_of_session sid table) (merge_sort event_le (rows_of_session sid table))) as Hin.
  { rewrite merge_sort_Permutation. by apply Forall_forall. }
  induction Ht as [|e t es texts He _ IH]; [constructor|]. inversion Hin; subst. constructor; [|by apply IH].
  rewrite (exported_json datum); [done| |by apply Hd]. by eapply Forall_forall in Hw.
Qed.

(** What the server logged is what the client exports: when the table holds
    rows that the background writer stored, exporting a session as JSON lines
    prints, for each event of that session and no other, in the order of time and
    then of ids, the text of an object with the id, the fields of the record as
    they were emitted (the success flag included, which is stored as an integer),
    and the JSON value that was logged. *)
Lemma export_prints_session root path sid format datum texts w w1 c w2 :
  path_exists path w = (true, w1) -> Logs.open_db path w1 = (Ok c, w2) ->
  Forall stored_wf (events_of c w2) -> Forall as_written (rows_of_session sid (events_of c w2)) ->
  (forall e, e ∈ rows_of_session sid (events_of c w2) -> json_from_slice (bytes_of_str (ev_data (row_record e.2))) = Ok (datum e)) ->
  complete c (events_sql (of_session sid)) w2 -> format <> "json"%string ->
  Forall2 (fun e t => json_to_string (exported datum e) = Ok t)
    (merge_sort event_le (rows_of_session sid (events_of c w2))) texts ->
  exists w', Logs.execute_export root (Some path) (Some sid) format w = (Ok tt, w') /\ console w' = console w ++ texts.
Proof.
  intros He Ho Hwf Hw Hd Hc Hf Ht. unfold Logs.execute_export. cbn [Logs.db_path_of].
  rewrite (bind_eq _ _ _ _ _ He). cbn [negb]. rewrite (bind_ok_eq _ _ _ _ _ Ho).
  change (Logs.query_events c (Some sid) None None None None) with (cli_query c (of_session sid)).
  pose proof (query_console c (Some sid) w2) as Hcon. fold (of_session sid) in Hcon.
  destruct (query_events_run c (of_session sid) w2 Hwf) as [_ Hq]. specialize (Hq Hc).
  pose proof (cli_query_eq c (of_session sid) w2) as Heq. unfold st_map, bind, ret in Heq.
  destruct (query_events c (of_session sid) w2) as [r w3]. simpl in Hq. subst r. simpl in Heq.
  rewrite Heq in Hcon. rewrite (bind_ok_eq _ _ _ _ _ Heq). destruct (String.eqb_spec format "json"); [done|].
  destruct (for_ok_print _ texts w3 (export_texts sid datum _ texts Hw Hd Ht)) as (w' & Hr & Hc'). exists w'. split; [exact Hr|].
  simpl in Hcon. rewrite Hc', Hcon. pose proof (open_db_console path w1) as Hco. rewrite Ho in Hco. simpl in Hco. rewrite Hco.
  pose proof (path_exists_console path w) as Hce. rewrite He in Hce. simpl in Hce. by rewrite Hce.
Qed.

End export.

(** ** A host with a database *)

Record log_host : Type := mkLogHost {
  lh_files : list (string * database);
  lh_conns : list string;
  lh_out : list string;
}.

Definition lh_db (c : Z) (h : log_host) : database :=
  default (mkDatabase [] [])
    (path ← lh_conns h !! Z.to_nat c; (list_to_map (lh_files h) : gmap string database) !! path).

Definition lh_open (path : string) : ST log_host (result Z sql_error) := fun h =>
  (Ok (Z.of_nat (length (lh_conns h))), mkLogHost (lh_files h) (lh_conns h ++ [path]) (lh_out h)).

#[export] Instance log_host_sqlite : SqliteFiles log_host := {|
  db_open := lh_open;
  db_open_readonly := lh_open;
  db_execute_batch _ _ := ret (Ok tt);
  db_execute _ _ _ := ret (Ok 1);
  db_select c sql ps := fun h => (memory_select (lh_db c h) sql ps, h);
|}.

#[export] Instance log_host_fs : FileSystem log_host := {|
  path_exists p := fun h => (bool_decide (p ∈ (lh_files h).*1), h);
  remove_file _ := ret (Ok tt);
  write_file _ _ := ret (Ok tt);
  read_to_string _ := ret (Ok EmptyString);
|}.

#[export] Instance log_host_console : Console log_host := {|
  println s := fun h => (tt, mkLogHost (lh_files h) (lh_conns h) (lh_out h ++ [s]));
|}.

#[export] Instance log_host_select : SelectLaws log_host.
Proof.
  refine {| events_of c h := db_events (lh_db c h); sessions_of c h := db_sessions (lh_db c h) |}; intros; simpl.
  - erewrite memory_select_query by done. by left.
  - by erewrite !memory_select_query.
  - exists (merge_sort started_ge (db_sessions (lh_db c w))). split; [apply merge_sort_Permutation|].
    split; [by apply Sorted_merge_sort, _|]. rewrite memory_select_sessions by done. by left.
  - by rewrite !memory_select_sessions.
Defined.

#[export] Instance log_host_console_laws : ConsoleLaws log_host.
Proof. refine {| console := lh_out |}; done. Defined.

#[export] Instance debug_display : SqlDisplay := {| sql_error_string e :=
  match e with SqliteFailure m => m | _ => "conversion"%string end |}.

(** Texts for a few values. *)
Fixpoint brief (v : json) : string :=
  match v with
  | JNumber (PosInt n) => show_Z n
  | JString s => s
  | JBool b => show_bool b
  | JObject fields => "{" +:+ str_join "," (map (fun kv : string * json => brief kv.2) fields) +:+ "}"
  | _ => "-"
  end.

Definition brief_json : SerdeJson := {|
  json_to_string v := Ok (brief v);
  json_from_slice bs := if String.eqb (str_of_bytes bs) "{}" then Ok (JObject []) else Err "syntax"%string;
  de_error_response _ := Err "unsupported"%string;
  de_instance_info _ := Err "unsupported"%string;
|}.

Definition brief_pretty : JsonPretty := {| json_to_string_pretty v := Ok (@brief v) |}.

Definition logged (ts et : string) (ok : option bool) : EventRecord := mkEventRecord ts "vm" et (Some "vm-1"%string) None None ok "{}".

(** Three events of two sessions, one with a clock that went back. *)
Definition example_table : list stored_event :=
  [(1, row_of "a" (logged "t2" "vm.create.completed" (Some true))); (2, row_of "b" (logged "t2" "log" None));
   (3, row_of "a" (logged "t1" "vm.exec" (Some false)))].

Definition example_log_host : log_host := mkLogHost [("/e.db"%string, mkDatabase example_table [])] [] [].
Definition example_open_host : log_host := mkLogHost (lh_files example_log_host) ["/e.db"%string] [].

Lemma example_table_wf : Forall stored_wf (events_of 0 example_open_host).
Proof. change (Forall stored_wf example_table). repeat constructor; simpl; lia. Defined.

Lemma cli_queries_match_server_witness :
  let c := 0 in let f := mkEventFilters None (Some "vm-1"%string) None None (Some 2) in let w := example_open_host in
  let H := brief_json in
  cli_query c f w = st_map (res_map (map cli_event)) (query_events c f) w /\
  Logs.list_sessions c w = st_map (res_map (map cli_session)) (list_sessions c) w /\
  (forall evs, (query_events c f w).1 = Ok evs -> evs = map event_of (selected f (events_of c w))) /\
  (complete c (events_sql f) w -> (query_events c f w).1 = Ok (map event_of (selected f (events_of c w)))).
Proof. intros c f w H. apply (cli_queries_match_server c f w), example_table_wf. Defined.

Lemma export_run :
  let H := brief_json in let H' := brief_pretty in
  exists w', Logs.execute_export None (Some "/e.db"%string) (Some "a"%string) "jsonl" example_log_host = (Ok tt, w') /\
    console w' = console example_log_host ++
      ["{3,a,t1,vm,vm.exec,vm-1,-,-,false,{}}"; "{1,a,t2,vm,vm.create.completed,vm-1,-,-,true,{}}"]%string.
Proof.
  intros H H'.
  apply (export_prints_session None "/e.db" "a" "jsonl" (fun _ => JObject []) _ example_log_host example_log_host 0 example_open_host).
  - by vm_compute.
  - by vm_compute.
  - apply example_table_wf.
  - apply Forall_forall. intros e [_ He]%list_elem_of_filter. revert e He.
    change (forall e, e ∈ example_table -> as_written e). apply Forall_forall. repeat constructor.
  - intros e [_ He]%list_elem_of_filter. revert e He.
    change (forall e, e ∈ example_table -> json_from_slice (bytes_of_str (ev_data (row_record e.2))) = Ok (JObject [])).
    apply Forall_forall. repeat constructor.
  - eexists. apply (memory_select_query _ (events_sql (of_session "a")).1), events_sql_words.
  - done.
  - change (events_of 0 example_open_host) with example_table.
    assert (merge_sort event_le (filter (fun e : stored_event => row_session e.2 = "a"%string) example_table) =
            [(3, row_of "a" (logged "t1" "vm.exec" (Some false))); (1, row_of "a" (logged "t2" "vm.create.completed" (Some true)))])
      as -> by by vm_compute.
    repeat constructor.
Defined.

(** The timeline on a long text with a character across byte 77. *)
Example summary_panics :
  let H := {| json_to_string _ := Ok (dashes 76 +:+ str_of_bytes [xc3; xa9] +:+ dashes 10); json_from_slice _ := Err EmptyString;
              de_error_response _ := Err EmptyString; de_instance_info _ := Err EmptyString |} in
  Logs.format_data_summary "proxy.error" (JObject []) = Panic.
Proof. by vm_compute. Qed.
