(* ===== verification/EventLog.v ===== *)
(** The event log from the tasks that emit to the client that reads it.

    All tasks of the server share one [EventStore]: an id counter and the sending
    half of a channel, whose receiving half the background writer of
    clawpot-server/src/events/store.rs owns.  Here they run side by side: an
    emission takes an id and the time, and sends its record later; the writer
    receives message by message.  The writer's moves are those of the loops of
    [background_writer]; [Events.background_writer] is the same code run on the
    messages that each turn finds. *)

From S2P Require Import Prelude RustStr World Json SimWorld Events Sql EventQueries CliLogs.
From Stdlib Require Import ZArith Lia Ascii String.
From Stdlib Require Import Strings.Byte.
From stdpp Require Import base gmap strings list sorting relations.

Open Scope nat_scope.

(** * Emission in two halves *)

Section emission.
Context {W : Type} `{Timestamps W} `{SerdeJson}.

(** [emit_inner] up to the record, if one is to be sent. *)
Definition emit_begin (e : emission) : ST (EventStore * W) (Z * option EventRecord) :=
  fun '(st, w) =>
    let st1 := mkEventStore (tx st) (rx_open st) (session_id st) (persist_mode st) (wrap_i64 (next_id st + 1)) in
    let data_json := match json_to_string (em_data e) with Ok t => t | Err _ => "{}"%string end in
    if should_persist (persist_mode st1) (em_type e)
    then
      let '(ts, w1) := rfc3339_now w in
      let record := mkEventRecord ts (em_category e) (em_type e) (em_vm_id e) (em_correlation e) (em_duration e)
                      (em_success e) data_json in
      ((next_id st, Some record), (st1, w1))
    else ((next_id st, None), (st1, w)).

(** The rest of it. *)
Definition emit_end (r : option EventRecord) (st : EventStore) : EventStore :=
  match r with Some r => send (MsgEvent r) st | None => st end.

Lemma emit_begin_run e st (w : W) i r st' w' :
  emit_begin e (st, w) = ((i, r), (st', w')) ->
  tx st' = tx st /\ rx_open st' = rx_open st /\ session_id st' = session_id st /\ persist_mode st' = persist_mode st /\
  if should_persist (persist_mode st) (em_type e) then exists r0, r = Some r0 /\ records e r0 else r = None.
Proof.
  unfold emit_begin. simpl. destruct (should_persist (persist_mode st) (em_type e)); [|by intros [= <- <- <- <-]].
  destruct (rfc3339_now w) as [ts w1]. intros [= <- <- <- <-]. repeat (split; [done|]). eexists. split; [done|].
  repeat (split; [done|]). simpl. by intros t ->.
Qed.

Lemma emit_halves e st (w : W) :
  emit_one e (st, w) = let '((i, r), (st1, w1)) := emit_begin e (st, w) in (i, (emit_end r st1, w1)).
Proof.
  unfold emit_one, emit_inner, emit_begin. simpl. destruct (should_persist (persist_mode st) (em_type e)); [|done].
  by destruct (rfc3339_now w).
Qed.

End emission.

(** * The running log *)

(** Where the writer is: at [recv]; in the loop that takes what else is waiting; in
    the loop that takes what is left after a [Close]; or it has returned. *)
Inductive writer_at : Type :=
| AtRecv
| Batching (batch : list EventRecord)
| Draining (batch : list EventRecord)
| Returned.

Section log.
Context {D : Type} `{Sqlite D}.

Record logging : Type := mkLogging {
  lg_store : EventStore;
  lg_pending : list EventRecord;    (* of emissions under way *)
  lg_handles : bool;                (* some handle of the store is alive *)
  lg_writer : writer_at;
  lg_db : D;
  lg_sent : list WriterMsg;         (* all that was sent, in order *)
  lg_answered : bool;               (* a [Close] was answered *)
  lg_begun : list emission;         (* all that was emitted, in order *)
  lg_lost : list EventRecord;       (* what was sent after the writer returned *)
}.

Definition set_tx (msgs : list WriterMsg) (st : EventStore) : EventStore :=
  mkEventStore msgs (rx_open st) (session_id st) (persist_mode st) (next_id st).

(** The writer has taken a message. *)
Definition take_msg (rest : list WriterMsg) (at_ : writer_at) (s : logging) : logging :=
  mkLogging (set_tx rest (lg_store s)) (lg_pending s) (lg_handles s) at_ (lg_db s) (lg_sent s) (lg_answered s)
    (lg_begun s) (lg_lost s).

(** The writer returns: the receiving half is dropped, with what is left in it. *)
Definition return_writer (d : D) (answer : bool) (s : logging) : logging :=
  let st := lg_store s in
  mkLogging (mkEventStore [] false (session_id st) (persist_mode st) (next_id st)) (lg_pending s) (lg_handles s)
    Returned d (lg_sent s) answer (lg_begun s) (lg_lost s).

(** The next move of the writer; [None] where it waits or has returned. *)
Definition writer_move (s : logging) : option logging :=
  let sid := session_id (lg_store s) in
  match lg_writer s, tx (lg_store s) with
  | AtRecv, MsgEvent r :: rest => Some (take_msg rest (Batching [r]) s)
  | AtRecv, MsgClose :: rest => Some (take_msg rest (Draining []) s)
  | AtRecv, [] => if lg_handles s then None else Some (return_writer (finish sid [] (lg_db s)).2 false s)
  | Batching b, MsgEvent r :: rest => Some (take_msg rest (Batching (b ++ [r])) s)
  | Batching b, MsgClose :: _ => Some (return_writer (finish sid b (lg_db s)).2 true s)
  | Batching b, [] =>
      Some (mkLogging (lg_store s) (lg_pending s) (lg_handles s) AtRecv (flush_batch sid b (lg_db s)).2 (lg_sent s) (lg_answered s)
              (lg_begun s) (lg_lost s))
  | Draining b, MsgEvent r :: rest => Some (take_msg rest (Draining (b ++ [r])) s)
  | Draining b, MsgClose :: rest => Some (take_msg rest (Draining b) s)
  | Draining b, [] => Some (return_writer (finish sid b (lg_db s)).2 true s)
  | Returned, _ => None
  end.

(** A message is sent; it is lost if the writer has returned. *)
Definition send_msg (m : WriterMsg) (pending : list EventRecord) (s : logging) : logging :=
  mkLogging (send m (lg_store s)) pending (lg_handles s) (lg_writer s) (lg_db s)
    (if rx_open (lg_store s) then lg_sent s ++ [m] else lg_sent s) (lg_answered s) (lg_begun s)
    (if rx_open (lg_store s) then lg_lost s else lg_lost s ++ drained [m]).

Section steps.
Context {W : Type} `{Timestamps W} `{SerdeJson}.

Inductive log_step : logging -> logging -> Prop :=
| log_begin s e (w w' : W) i r st :
    lg_handles s = true -> emit_begin e (lg_store s, w) = ((i, r), (st, w')) ->
    log_step s (mkLogging st (option_list r ++ lg_pending s) true (lg_writer s) (lg_db s) (lg_sent s) (lg_answered s)
                  (lg_begun s ++ [e]) (lg_lost s))
| log_send s r pending : lg_pending s ≡ₚ r :: pending -> log_step s (send_msg (MsgEvent r) pending s)
| log_close s : lg_handles s = true -> log_step s (send_msg MsgClose (lg_pending s) s)
| log_drop s : lg_pending s = [] ->
    log_step s (mkLogging (lg_store s) [] false (lg_writer s) (lg_db s) (lg_sent s) (lg_answered s) (lg_begun s) (lg_lost s))
| log_write s s' : writer_move s = Some s' -> log_step s s'.

(** The log of a session on a database. *)
Definition opened (sid : string) (mode : PersistMode) (d : D) : logging :=
  mkLogging (new_store sid mode) [] true AtRecv d [] false [] [].

Definition log_reachable (sid : string) (mode : PersistMode) (d : D) (s : logging) : Prop := rtc log_step (opened sid mode d) s.

End steps.

(** * The writer and the function *)

(** Turns after which the writer goes on. *)
Inductive turns (sid : string) : list (list WriterMsg) -> D -> D -> Prop :=
| turns_nil d : turns sid [] d d
| turns_cons burst bursts d d1 d2 :
    writer_turn sid burst d = (false, d1) -> turns sid bursts d1 d2 -> turns sid (burst :: bursts) d d2.

Lemma turns_snoc sid bursts burst d d1 d2 :
  turns sid bursts d d1 -> writer_turn sid burst d1 = (false, d2) -> turns sid (bursts ++ [burst]) d d2.
Proof. intros Ht Hb. induction Ht; [by repeat econstructor|]. simpl. econstructor; [done|auto]. Qed.

Lemma turns_writer sid bursts rest d d1 :
  turns sid bursts d d1 -> background_writer sid (bursts ++ rest) d = background_writer sid rest d1.
Proof. induction 1 as [|burst bursts d d1 d2 Hb _ IH]; [done|]. simpl. unfold bind. by rewrite Hb. Qed.

Lemma drain_events b : forall batch, drain (map MsgEvent b) batch = (batch ++ b, false).
Proof. induction b as [|r b IH]; intros batch; simpl; [by rewrite app_nil_r|]. by rewrite IH, <- app_assoc. Qed.

Lemma drain_events_close b : forall batch, drain (map MsgEvent b ++ [MsgClose]) batch = (batch ++ b, true).
Proof. induction b as [|r b IH]; intros batch; simpl; [by rewrite app_nil_r|]. by rewrite IH, <- app_assoc. Qed.

(** A turn that finds events only, and one that finds a [Close] after them. *)
Lemma turn_events sid b d : b <> [] -> writer_turn sid (map MsgEvent b) d = (false, (flush_batch sid b d).2).
Proof.
  destruct b as [|r b]; [done|]. intros _. unfold writer_turn. cbn [map]. rewrite drain_events. cbn [app].
  unfold bind, ret. by destruct (flush_batch sid (r :: b) d).
Qed.

Lemma turn_close sid b d : b <> [] -> writer_turn sid (map MsgEvent b ++ [MsgClose]) d = (true, (finish sid b d).2).
Proof.
  destruct b as [|r b]; [done|]. intros _. unfold writer_turn. cbn [map app]. rewrite drain_events_close. cbn [app].
  unfold bind, ret. by destruct (finish sid (r :: b) d).
Qed.

Lemma turn_drain sid msgs d : writer_turn sid (MsgClose :: msgs) d = (true, (finish sid (drained msgs) d).2).
Proof. unfold writer_turn, bind, ret. by destruct (finish sid (drained msgs) d). Qed.

Lemma writer_last sid bursts burst d d1 d2 :
  turns sid bursts d d1 -> writer_turn sid burst d1 = (true, d2) -> (background_writer sid (bursts ++ [burst]) d).2 = d2.
Proof. intros Ht Hb. rewrite (turns_writer _ _ _ _ _ Ht). cbn [background_writer]. unfold bind. by rewrite Hb. Qed.

(** Where the writer is, the messages it has taken are those of the turns so far and
    of the turn it is in. *)
Definition taken (sid : string) (d0 : D) (s : logging) (bursts : list (list WriterMsg)) : Prop :=
  match lg_writer s with
  | AtRecv => turns sid bursts d0 (lg_db s) /\ lg_sent s = concat bursts ++ tx (lg_store s)
  | Batching b => turns sid bursts d0 (lg_db s) /\ b <> [] /\ lg_sent s = concat bursts ++ map MsgEvent b ++ tx (lg_store s)
  | Draining b =>
      turns sid bursts d0 (lg_db s) /\ exists msgs, b = drained msgs /\ lg_sent s = concat bursts ++ (MsgClose :: msgs) ++ tx (lg_store s)
  | Returned =>
      lg_db s = (background_writer sid bursts d0).2 /\ concat bursts `prefix_of` lg_sent s /\
      (lg_answered s = true -> MsgClose ∈ concat bursts) /\
      (lg_answered s = false -> concat bursts = lg_sent s)
  end.

Record log_inv (sid : string) (d0 : D) (s : logging) : Prop := mkLogInv {
  li_session : session_id (lg_store s) = sid;
  li_open : rx_open (lg_store s) = true <-> lg_writer s <> Returned;
  li_taken : exists bursts, taken sid d0 s bursts;
}.

(** The cases of a move of the writer. *)
Ltac writer_cases s :=
  let b := fresh "b" in let r := fresh "r" in let rest := fresh "rest" in let Etx := fresh "Etx" in
  destruct (lg_writer s) as [|b|b|], (tx (lg_store s)) as [|[r|] rest] eqn:Etx;
  try (match goal with |- context [if _ then _ else _] => destruct (lg_handles s) end); intros [= <-]; simpl in *.

Lemma writer_move_open sid d0 s s' :
  log_inv sid d0 s -> writer_move s = Some s' -> session_id (lg_store s') = sid /\ (rx_open (lg_store s') = true <-> lg_writer s' <> Returned).
Proof.
  intros [Hsid Ho _]. unfold writer_move. writer_cases s; (split; [done|]); split; try done; intros _; by apply Ho.
Qed.

Lemma concat_snoc {A} (l : list (list A)) x : concat (l ++ [x]) = concat l ++ x.
Proof. by rewrite concat_app, concat_cons, app_nil_r. Qed.

Lemma taken_returned sid d0 bursts burst (d d' : D) (sent rest : list WriterMsg) :
  turns sid bursts d0 d -> writer_turn sid burst d = (true, d') -> sent = concat bursts ++ burst ++ rest -> MsgClose ∈ burst ->
  d' = (background_writer sid (bursts ++ [burst]) d0).2 /\ concat (bursts ++ [burst]) `prefix_of` sent /\
  (true = true -> MsgClose ∈ concat (bursts ++ [burst])) /\ (true = false -> concat (bursts ++ [burst]) = sent).
Proof.
  intros Ht Hb -> Hin. rewrite (writer_last _ _ _ _ _ _ Ht Hb), concat_snoc. split_and!; [done| |intros _; set_solver|done].
  rewrite app_assoc. by exists rest.
Qed.

Lemma writer_move_taken sid d0 s s' :
  log_inv sid d0 s -> writer_move s = Some s' -> exists bursts, taken sid d0 s' bursts.
Proof.
  intros [<- _ [bursts Ht]]. unfold writer_move, taken in *. writer_cases s.
  - destruct Ht as [Ht Hs]. exists bursts. pose proof (turns_writer _ _ [] _ _ Ht) as Hw. rewrite app_nil_r in *. rewrite Hw, Hs. done.
  - exists bursts. by destruct Ht as [Ht Hs].
  - exists bursts. destruct Ht as [Ht Hs]. split; [done|]. by exists [].
  - destruct Ht as (Ht & Hb & Hs). exists (bursts ++ [map MsgEvent b]). rewrite concat_snoc, <- app_assoc, Etx. split; [|done].
    by eapply turns_snoc, turn_events.
  - destruct Ht as (Ht & Hb & Hs). exists bursts. rewrite map_app, <- app_assoc. split_and!; [done|by destruct b|done].
  - destruct Ht as (Ht & Hb & Hs). eexists. eapply (taken_returned _ _ _ _ _ _ _ rest Ht (turn_close _ _ _ Hb)); [|set_solver].
    by rewrite <- app_assoc.
  - destruct Ht as (Ht & msgs & -> & Hs). eexists. eapply (taken_returned _ _ _ _ _ _ _ [] Ht (turn_drain _ _ _)); [done|set_solver].
  - destruct Ht as (Ht & msgs & -> & Hs). exists bursts. split; [done|]. exists (msgs ++ [MsgEvent r]).
    rewrite drained_app, <- app_assoc. done.
  - destruct Ht as (Ht & msgs & -> & Hs). exists bursts. split; [done|]. exists (msgs ++ [MsgClose]).
    rewrite drained_app, app_nil_r, <- app_assoc. done.
Qed.

Lemma send_taken sid d0 s m pending bursts :
  log_inv sid d0 s -> taken sid d0 s bursts -> taken sid d0 (send_msg m pending s) bursts.
Proof.
  intros [_ Ho _]. unfold taken, send_msg, send. simpl. destruct (rx_open (lg_store s)) eqn:Erx; simpl.
  - destruct (lg_writer s) as [|b|b|].
    + intros [Ht Hs]. by rewrite Hs, <- app_assoc.
    + intros (Ht & Hb & Hs). split_and!; [done..|]. by rewrite Hs, <- !app_assoc.
    + intros (Ht & msgs & Hb & Hs). split; [done|]. exists msgs. split; [done|].
      rewrite Hs, <- !app_assoc. simpl. by rewrite <- !app_assoc.
    + by destruct Ho as [[] _].
  - done.
Qed.

Lemma send_fields m st :
  session_id (send m st) = session_id st /\ rx_open (send m st) = rx_open st /\ persist_mode (send m st) = persist_mode st.
Proof. unfold send. by destruct (rx_open st) eqn:E. Qed.

Lemma send_log_inv sid d0 s m pending : log_inv sid d0 s -> log_inv sid d0 (send_msg m pending s).
Proof.
  intros Hi. pose proof Hi as [Hs Ho [bursts Ht]]. destruct (send_fields m (lg_store s)) as (H1 & H2 & _).
  split; simpl; [congruence|by rewrite H2|]. exists bursts. by apply send_taken.
Qed.

Section log_steps.
Context {W : Type} `{Timestamps W} `{SerdeJson}.

Lemma log_step_inv sid d0 s s' : log_inv sid d0 s -> log_step (W := W) s s' -> log_inv sid d0 s'.
Proof.
  intros Hi Hstep. destruct Hstep as [s e w w' i r st _ Hb|s r pending _|s _|s _|s s' Hm].
  - apply emit_begin_run in Hb as (Htx & Hrx & Hsid & _). destruct Hi as [Hs Ho [bursts Ht]].
    split; simpl; [congruence|by rewrite Hrx|]. exists bursts. unfold taken in *. simpl. by rewrite Htx.
  - by apply send_log_inv.
  - by apply send_log_inv.
  - destruct Hi as [Hs Ho [bursts Ht]]. split; [done..|]. by exists bursts.
  - destruct (writer_move_open _ _ _ _ Hi Hm) as [Hs Ho]. split; [done..|]. by eapply writer_move_taken.
Qed.

Lemma reachable_log_inv sid mode d0 s : log_reachable (W := W) sid mode d0 s -> log_inv sid d0 s.
Proof.
  apply (rtc_ind_r (log_inv sid d0)); [|intros; by eapply log_step_inv].
  split; [done|done|]. exists []. by split; [constructor|].
Qed.

(** Every event that the mode keeps is with a task that is about to send it, was
    sent, or was lost because the writer had returned. *)
Definition accounted (mode : PersistMode) (s : logging) : Prop :=
  persist_mode (lg_store s) = mode /\
  exists rs, Forall2 records (filter (fun e => should_persist mode (em_type e) = true) (lg_begun s)) rs /\
    rs ≡ₚ lg_pending s ++ drained (lg_sent s) ++ lg_lost s.

Lemma send_accounted mode s m pending :
  lg_pending s ≡ₚ drained [m] ++ pending -> accounted mode s -> accounted mode (send_msg m pending s).
Proof.
  intros Hp (Hm & rs & HF & Hrs). destruct (send_fields m (lg_store s)) as (_ & _ & H3).
  split; simpl; [congruence|]. exists rs. split; [done|]. rewrite Hrs, Hp. destruct (rx_open (lg_store s)).
  - rewrite drained_app. solve_Permutation.
  - solve_Permutation.
Qed.

Lemma log_step_accounted mode s s' : accounted mode s -> log_step (W := W) s s' -> accounted mode s'.
Proof.
  intros Ha Hstep. destruct Hstep as [s e w w' i r st _ Hb|s r pending Hp|s _|s Hp|s s' Hm].
  - apply emit_begin_run in Hb as (_ & _ & _ & Hpm & Hr). destruct Ha as (Hm & rs & HF & Hrs). rewrite Hm in *.
    split; [done|]. simpl. rewrite filter_app, filter_cons, filter_nil.
    destruct (should_persist mode (em_type e)).
    + destruct Hr as (r0 & -> & Hr). rewrite decide_True by done. exists (rs ++ [r0]). split; [by apply Forall2_app; [|constructor]|].
      simpl. rewrite Hrs. solve_Permutation.
    + subst r. rewrite decide_False, app_nil_r by done. by exists rs.
  - by apply send_accounted.
  - by apply send_accounted.
  - destruct Ha as (Hm & rs & HF & Hrs). rewrite Hp in Hrs. split; [done|]. by exists rs.
  - destruct Ha as (Hpm & rs & HF & Hrs). revert Hm. unfold writer_move. writer_cases s; (split; [done|]); by exists rs.
Qed.

Lemma reachable_accounted sid mode d0 s : log_reachable (W := W) sid mode d0 s -> accounted mode s.
Proof.
  apply (rtc_ind_r (accounted mode)); [|intros; by eapply log_step_accounted].
  split; [done|]. by exists [].
Qed.

(** ** The writer comes to its end *)

Definition closing (s : logging) : Prop :=
  match lg_writer s with
  | Returned => False
  | Draining _ => True
  | _ => MsgClose ∈ tx (lg_store s)
  end.

Definition moves_left (s : logging) : nat :=
  2 * length (tx (lg_store s)) + match lg_writer s with AtRecv => 1 | Returned => 0 | _ => 2 end.

Lemma closing_moves s :
  closing s -> exists s', writer_move s = Some s' /\ moves_left s' < moves_left s /\
    (closing s' \/ lg_writer s' = Returned /\ lg_answered s' = true).
Proof.
  unfold closing, moves_left, writer_move. intros Hc.
  destruct (lg_writer s) as [|b|b|], (tx (lg_store s)) as [|[r|] rest] eqn:Etx; try done; try (by apply elem_of_nil in Hc);
    (eexists; split; [done|]; simpl in *; rewrite ?Etx; simpl; split; [lia|]); try tauto;
    left; by apply elem_of_cons in Hc as [|].
Qed.

Lemma closing_returns s :
  closing s -> exists s', rtc (fun a b => writer_move a = Some b) s s' /\ lg_writer s' = Returned /\ lg_answered s' = true.
Proof.
  induction s as [s IH] using (induction_ltof1 _ moves_left). intros Hc.
  destruct (closing_moves s Hc) as (s1 & Hm & Hlt & [Hc1|[Hr Ha]]).
  - destruct (IH s1 Hlt Hc1) as (s' & Hrtc & Hs'). exists s'. split; [by eapply rtc_l|done].
  - exists s1. split; [by apply rtc_once|done].
Qed.

End log_steps.
End log.

(** * What the log keeps *)

Lemma before_close_closed l more : MsgClose ∈ l -> before_close (l ++ more) = before_close l.
Proof. induction l as [|[r|] l IH]; simpl; [by intros ?%elem_of_nil| |done]. intros [?|Hin]%elem_of_cons; [done|]. by rewrite IH. Qed.

Section laws.
Context {D : Type} `{SqliteLaws D}.

(** The database after the writer has returned: the batches [bs], of which those with
    a flag were stored. *)
Lemma returned_stored sid d0 (s : logging (D := D)) :
  log_inv sid d0 s -> lg_writer s = Returned ->
  exists bs oks, length oks = length bs /\ committed (lg_db s) = committed d0 ++ map (row_of sid) (stored oks bs) /\
    before_close (lg_sent s) `prefix_of` concat bs /\ concat bs `prefix_of` drained (lg_sent s) /\
    (reliable -> stored oks bs = concat bs).
Proof.
  intros [_ _ [bursts Ht]] Hr. unfold taken in Ht. rewrite Hr in Ht. destruct Ht as (-> & [more Hs] & Hc & Hn).
  destruct (writer_stores_batches_in_order sid bursts d0) as (Hp1 & Hp2 & oks & Hlen & Hrel & ->).
  exists (batches bursts), oks. split_and!; [done|done| | |done].
  - destruct (lg_answered s); [by rewrite Hs, before_close_closed by auto|by rewrite <- Hn].
  - rewrite Hs, drained_app. by apply prefix_app_r.
Qed.

Context {W : Type} `{Timestamps W} `{SerdeJson}.

(** C10. The event log under any interleaving of emitting tasks, the task that closes
    the session and the background writer.  No event is made up, doubled or
    dropped by the server: those that the persistence mode keeps are, with the
    fields they were emitted with, about to be sent, sent, or sent too late,
    after the writer had returned.  Once a close is under way the writer's own
    moves bring it to its end, with an answer.  When it has returned, what it added
    to the database are rows of this session for the records in the order they were
    sent, each batch whole or not at all; the batches hold all that was sent before
    the close, and when SQLite's statements succeed all of them are stored. *)
Theorem log_keeps_what_was_sent sid mode d0 (s : logging (D := D)) :
  log_reachable (W := W) sid mode d0 s ->
  (exists rs, Forall2 records (filter (fun e => should_persist mode (em_type e) = true) (lg_begun s)) rs /\
     rs ≡ₚ lg_pending s ++ drained (lg_sent s) ++ lg_lost s) /\
  (closing s -> exists s', rtc (fun a b => writer_move a = Some b) s s' /\ lg_writer s' = Returned /\ lg_answered s' = true) /\
  (lg_writer s = Returned ->
   exists bs oks, length oks = length bs /\ committed (lg_db s) = committed d0 ++ map (row_of sid) (stored oks bs) /\
     before_close (lg_sent s) `prefix_of` concat bs /\ concat bs `prefix_of` drained (lg_sent s) /\
     (reliable -> stored oks bs = concat bs)).
Proof.
  intros Hr. split; [by destruct (reachable_accounted _ _ _ _ Hr)|]. split; [apply closing_returns|].
  apply returned_stored. by eapply reachable_log_inv.
Qed.

End laws.

(** * From the server's tasks to the client's screen *)

(** The row of a record with its id. *)
Definition as_row (sid : string) (p : Z * EventRecord) : stored_event := (p.1, row_of sid p.2).

Definition of_row (e : stored_event) : Z * EventRecord := (e.1, row_record e.2).

Lemma as_rows_of sid (es : list stored_event) rs :
  es.*2 ≡ₚ map (row_of sid) rs -> map (as_row sid) (map of_row es) = es /\ (map of_row es).*2 ≡ₚ rs.
Proof.
  intros Hp. split.
  - assert (Forall (fun x => exists r, x = row_of sid r) es.*2) as Hall.
    { rewrite Hp. apply Forall_fmap, Forall_true. intros r. by exists r. }
    clear Hp. induction es as [|[i x] es IH]; [done|]. inversion Hall as [|? ? [r ->] Hes]; subst. simpl. by rewrite IH.
  - assert ((map of_row es).*2 = row_record <$> es.*2) as -> by (rewrite <- !list_fmap_compose; done).
    rewrite Hp. change (map (row_of sid) rs) with (row_of sid <$> rs). rewrite <- list_fmap_compose. by rewrite list_fmap_id.
Qed.

Lemma as_rows_eq sid (es : list stored_event) rs : es.*2 = map (row_of sid) rs -> (map of_row es).*2 = rs.
Proof. revert es. induction rs as [|r rs IH]; intros [|[i x] es] [=]; [done|]. subst x. simpl. f_equal. by apply IH. Qed.

Lemma session_rows sid old rs (table : list stored_event) :
  table.*2 = old ++ map (row_of sid) rs -> Forall (fun x => row_session x <> sid) old ->
  (rows_of_session sid table).*2 = map (row_of sid) rs.
Proof.
  intros Ht Hold. apply fmap_app_inv in Ht as (t1 & t2 & H1 & H2 & ->). rewrite filter_app, H2. subst old.
  assert (rows_of_session sid t1 = []) as ->.
  { clear H2. induction t1 as [|e t1 IH]; [done|]. inversion Hold; subst. by rewrite filter_cons_False, IH. }
  simpl. revert rs H2. induction t2 as [|[i x] t2 IH]; intros [|r rs] [=]; [done|]. subst x. rewrite filter_cons_True by done.
  cbn [map fmap list_fmap]. f_equal. by apply (IH rs).
Qed.

Lemma ids_increase sid (table : list stored_event) :
  StronglySorted Z.lt table.*1 -> StronglySorted Z.lt (rows_of_session sid table).*1.
Proof.
  induction table as [|e table IH]; [done|]. rewrite fmap_cons. intros Hs. inversion Hs as [|? ? Hs' Hf]; subst.
  rewrite filter_cons. destruct (decide _); [|by apply IH]. rewrite fmap_cons. constructor; [by apply IH|].
  apply Forall_fmap. rewrite Forall_fmap, Forall_forall in Hf. apply Forall_forall.
  intros x [_ Hx]%list_elem_of_filter. by apply Hf.
Qed.

(** Rows whose ids and times increase are in the order of the query. *)
Lemma rows_in_order (es : list stored_event) :
  StronglySorted Z.lt es.*1 -> StronglySorted String.le ((fun x => ev_timestamp (row_record x)) <$> es.*2) ->
  merge_sort event_le es = es.
Proof.
  intros Hi Ht. assert (StronglySorted event_le es) as Hs.
  { induction es as [|e es IH]; [constructor|]. rewrite fmap_cons in Hi. rewrite 2!fmap_cons in Ht.
    inversion Hi as [|? ? Hi' Fi]; inversion Ht as [|? ? Ht' Ft]; subst.
    constructor; [auto|]. rewrite Forall_fmap, Forall_forall in Fi.
    rewrite !Forall_fmap, Forall_forall in Ft. apply Forall_forall. intros x Hx. specialize (Fi x Hx). specialize (Ft x Hx). simpl in *. split; [done|lia]. }
  apply (StronglySorted_unique_strong event_le); [|apply Sorted_StronglySorted, Sorted_merge_sort; apply _|done|apply merge_sort_Permutation].
  intros a b Ha Hb Hab Hba. rewrite merge_sort_Permutation in Ha. clear Hs Ht.
  assert (a.1 = b.1) as He.
  { destruct Hab as [L1 E1], Hba as [L2 E2]. assert (ev_timestamp (row_record a.2) = ev_timestamp (row_record b.2)) by by apply (anti_symm String.le).
    specialize (E1 H). specialize (E2 (eq_sym H)). lia. }
  induction es as [|e es IH]; [by apply elem_of_nil in Ha|]. rewrite fmap_cons in Hi. inversion Hi as [|? ? Hi' Fi]; subst.
  assert (forall x, x ∈ es -> (e.1 < x.1)%Z) as Hlt by by rewrite Forall_fmap, Forall_forall in Fi.
  apply elem_of_cons in Ha as [->|Ha], Hb as [->|Hb]; [done|specialize (Hlt b Hb); lia|specialize (Hlt a Ha); lia|auto].
Qed.

(** The line of a record: an object with the data value of an event that was emitted. *)
Definition printed `{SerdeJson} (sid : string) (begun : list emission) (p : Z * EventRecord) (text : string) : Prop :=
  exists e, e ∈ begun /\ records e p.2 /\ json_to_string (exported (fun _ => em_data e) (as_row sid p)) = Ok text.

(** Each value has a text, and those that were logged are read back from theirs. *)
Definition json_read_back `{SerdeJson} (begun : list emission) : Prop :=
  (forall v, is_ok (json_to_string v) = true) /\
  forall e t, e ∈ begun -> json_to_string (em_data e) = Ok t -> json_from_slice (bytes_of_str t) = Ok (em_data e).

Section to_the_client.
Context {D : Type} `{SqliteLaws D}.
Context {W : Type} `{Timestamps W} `{SerdeJson}.

Lemma sent_was_emitted sid mode d0 (s : logging (D := D)) r :
  log_reachable (W := W) sid mode d0 s -> r ∈ drained (lg_sent s) -> exists e, e ∈ lg_begun s /\ records e r.
Proof.
  intros Hr Hin. destruct (reachable_accounted _ _ _ _ Hr) as (_ & rs & HF & Hp).
  assert (r ∈ rs) as Hrs by (rewrite Hp; set_solver). apply list_elem_of_lookup_1 in Hrs as [i Hi].
  destruct (Forall2_lookup_r _ _ _ _ _ HF Hi) as (e & He & Her). exists e. split; [|done].
  apply list_elem_of_lookup_2 in He. by apply list_elem_of_filter in He as [_ He].
Qed.

(** The data of a record is read back as it was emitted. *)
Lemma read_back_data begun e r :
  json_read_back begun -> e ∈ begun -> records e r -> json_from_slice (bytes_of_str (ev_data r)) = Ok (em_data e).
Proof.
  intros [Hs Hj] He (_ & _ & _ & _ & _ & _ & Hr). specialize (Hs (em_data e)).
  destruct (json_to_string (em_data e)) as [t|] eqn:Ed; [|done]. rewrite (Hr t eq_refl). by apply Hj.
Qed.

(** The data column as the client reads it. *)
Definition datum_of (e : stored_event) : json :=
  match json_from_slice (bytes_of_str (ev_data (row_record e.2))) with Ok v => v | Err _ => JNull end.

Lemma printed_texts sid (begun : list emission) (ps : list (Z * EventRecord)) :
  json_read_back begun -> (forall p, p ∈ ps -> exists e, e ∈ begun /\ records e p.2) ->
  exists texts, Forall2 (fun e t => json_to_string (exported datum_of e) = Ok t) (map (as_row sid) ps) texts /\
    Forall2 (printed sid begun) ps texts.
Proof.
  intros Hj. pose proof Hj as [Hs _]. induction ps as [|p ps IH]; intros Hps; [by exists []|].
  destruct IH as (texts & Hx & Hp); [set_solver|]. destruct (Hps p) as (e & He & Hr); [set_solver|].
  pose proof (Hs (exported datum_of (as_row sid p))) as Ht. destruct (json_to_string (exported _ _)) as [t|] eqn:Et; [|done].
  exists (t :: texts). split; [by constructor|]. constructor; [|done]. exists e. split; [done|]. split; [done|].
  rewrite <- Et. unfold exported. repeat f_equal. unfold datum_of. simpl. by rewrite (read_back_data begun e).
Qed.

Context {C : Type} `{SqliteFiles C} `{FileSystem C} `{Console C} `{!SelectLaws C} `{!ConsoleLaws C} `{SqlDisplay} `{JsonPretty}.

(** C11. From the server's tasks to the client's screen: after the writer of a
    session has returned, on a database whose statements succeed and that had no
    row of the session before, exporting the session as JSON lines prints one line
    for each record of a sequence that has all that was sent before the close and
    nothing that was not sent, in the order of time and then of arrival (so, when
    the clock did not go back, in the order they were sent); each line is the text
    of an object with the fields and the data value of an event that a task
    emitted. *)
Theorem emitted_events_exported sid mode d0 (s : logging (D := D)) root path format (w w1 : C) c w2 :
  log_reachable (W := W) sid mode d0 s -> lg_writer s = Returned -> reliable (D := D) ->
  Forall (fun x => row_session x <> sid) (committed d0) -> json_read_back (lg_begun s) ->
  path_exists path w = (true, w1) -> Logs.open_db path w1 = (Ok c, w2) -> format <> "json"%string ->
  (events_of c w2).*2 = committed (lg_db s) -> StronglySorted Z.lt (events_of c w2).*1 ->
  Forall stored_wf (events_of c w2) -> complete c (events_sql (of_session sid)) w2 ->
  exists rs ps texts w',
    before_close (lg_sent s) `prefix_of` rs /\ rs `prefix_of` drained (lg_sent s) /\
    ps.*2 ≡ₚ rs /\ StronglySorted event_le (map (as_row sid) ps) /\
    (StronglySorted String.le (ev_timestamp <$> rs) -> ps.*2 = rs) /\
    Forall2 (printed sid (lg_begun s)) ps texts /\
    Logs.execute_export root (Some path) (Some sid) format w = (Ok tt, w') /\ console w' = console w ++ texts.
Proof.
  intros Hr Hret Hrel Hfresh Hj He Ho Hf Hrows Hids Hwf Hc.
  destruct (returned_stored _ _ _ (reachable_log_inv _ _ _ _ Hr) Hret) as (bs & oks & _ & Hdb & Hp1 & Hp2 & Hall).
  rewrite Hdb, (Hall Hrel) in Hrows. set (rs := concat bs) in *. set (table := events_of c w2) in *.
  pose proof (session_rows sid _ rs table Hrows Hfresh) as Hsr. pose proof (ids_increase sid table Hids) as Hsi.
  set (es := merge_sort event_le (rows_of_session sid table)).
  destruct (as_rows_of sid es rs) as [Has Hps].
  { unfold es. by rewrite merge_sort_Permutation, Hsr. }
  destruct (printed_texts sid (lg_begun s) (map of_row es)) as (texts & Ht1 & Ht2); [done| |].
  { intros p Hp. apply (sent_was_emitted _ _ _ _ _ Hr). eapply elem_of_prefix; [|exact Hp2]. rewrite <- Hps. by apply list_elem_of_fmap_2. }
  assert (forall e, e ∈ rows_of_session sid table -> exists r, r ∈ rs /\ e.2 = row_of sid r) as Hrow.
  { intros e Hin. apply (list_elem_of_fmap_2 snd) in Hin. rewrite Hsr in Hin. apply list_elem_of_fmap in Hin as (r & -> & Hr'). eauto. }
  destruct (export_prints_session root path sid format datum_of texts w w1 c w2) as (w' & Hx & Hcon); try done.
  - apply Forall_forall. intros e Hin. destruct (Hrow e Hin) as (r & _ & Her). unfold as_written. by rewrite Her.
  - intros e Hin. destruct (Hrow e Hin) as (r & Hr' & Her). rewrite Her. unfold datum_of. rewrite Her. simpl.
    destruct (sent_was_emitted _ _ _ _ r Hr) as (em & Hem & Hrec); [by eapply elem_of_prefix|]. by rewrite (read_back_data _ _ _ Hj Hem Hrec).
  - fold table es. by rewrite <- Has.
  - exists rs, (map of_row es), texts, w'. split_and!; try done.
    + rewrite Has. apply Sorted_StronglySorted, Sorted_merge_sort; apply _.
    + intros Hts. unfold es. rewrite rows_in_order; [by apply (as_rows_eq sid)|done|]. rewrite Hsr. by rewrite <- list_fmap_compose.
Qed.

End to_the_client.

(** * A run *)

(** The time as its digits. *)
#[local] Instance clock_ts : Timestamps Z := {| rfc3339_now := fun z => (show_Z z, z); rfc3339_long := fun z => (show_Z z, z) |}.

#[local] Existing Instance brief_json.
#[local] Existing Instance brief_pretty.

Definition emission_of (et : string) (ok : option bool) : emission :=
  mkEmission et "vm" (Some "vm-1"%string) None None ok (JObject []).

Definition example_mode : PersistMode := PersistStructured.

Definition example_emissions : list emission :=
  [emission_of "vm.create.started" None; emission_of "log" None; emission_of "vm.exec" (Some true); emission_of "vm.delete.started" None].

Definition record_1 : EventRecord := logged "1" "vm.create.started" None.
Definition record_2 : EventRecord := logged "2" "vm.exec" (Some true).
Definition record_3 : EventRecord := logged "3" "vm.delete.started" None.

(** Two events overtake each other, and one is sent after the writer returned. *)
Definition example_returned : logging (D := memdb) :=
  mkLogging (mkEventStore [] false "a" example_mode 5) [] true Returned
    (mkMemdb [row_of "a" record_2; row_of "a" record_1] [] ["a"%string])
    [MsgEvent record_2; MsgEvent record_1; MsgClose] true example_emissions [record_3].

Ltac move_log tac := eapply rtc_l; [tac; vm_compute; reflexivity|]; match goal with |- rtc _ ?s _ => let s' := eval vm_compute in s in change s with s' end.

Lemma example_reachable : log_reachable (W := Z) "a" example_mode (mkMemdb [] [] []) example_returned.
Proof.
  unfold log_reachable, opened.
  move_log ltac:(eapply (log_begin _ (emission_of "vm.create.started" None) 1%Z)).
  move_log ltac:(eapply (log_begin _ (emission_of "log" None) 1%Z)).
  move_log ltac:(eapply (log_begin _ (emission_of "vm.exec" (Some true)) 2%Z)).
  move_log ltac:(apply (log_send _ record_2 [record_1])).
  move_log ltac:(apply log_write).
  move_log ltac:(apply (log_send _ record_1 [])).
  move_log ltac:(apply log_close).
  move_log ltac:(eapply (log_begin _ (emission_of "vm.delete.started" None) 3%Z)).
  move_log ltac:(apply log_write).
  move_log ltac:(apply log_write).
  move_log ltac:(apply (log_send _ record_3 [])).
  apply rtc_refl.
Qed.

Lemma log_keeps_what_was_sent_witness :
  let s := example_returned in
  (exists rs, Forall2 records (filter (fun e => should_persist example_mode (em_type e) = true) (lg_begun s)) rs /\
     rs ≡ₚ lg_pending s ++ drained (lg_sent s) ++ lg_lost s) /\
  exists bs oks, length oks = length bs /\ committed (lg_db s) = [] ++ map (row_of "a") (stored oks bs) /\
    before_close (lg_sent s) `prefix_of` concat bs /\ concat bs `prefix_of` drained (lg_sent s) /\
    (reliable (D := memdb) -> stored oks bs = concat bs).
Proof.
  intros s. destruct (log_keeps_what_was_sent (W := Z) "a" example_mode (mkMemdb [] [] []) s example_reachable) as (Ha & _ & Hr).
  split; [exact Ha|exact (Hr eq_refl)].
Defined.

(** The table that the client finds. *)
Definition client_table : list stored_event := [(1%Z, row_of "a" record_2); (2%Z, row_of "a" record_1)].

Definition client_host : log_host := mkLogHost [("/e.db"%string, mkDatabase client_table [])] [] [].
Definition client_open_host : log_host := mkLogHost (lh_files client_host) ["/e.db"%string] [].

Lemma client_table_of : events_of 0 client_open_host = client_table.
Proof. reflexivity. Defined.

Lemma emitted_events_exported_witness :
  let s := example_returned in
  exists rs ps texts w',
    before_close (lg_sent s) `prefix_of` rs /\ rs `prefix_of` drained (lg_sent s) /\
    ps.*2 ≡ₚ rs /\ StronglySorted event_le (map (as_row "a") ps) /\
    (StronglySorted String.le (ev_timestamp <$> rs) -> ps.*2 = rs) /\
    Forall2 (printed "a" (lg_begun s)) ps texts /\
    Logs.execute_export None (Some "/e.db"%string) (Some "a"%string) "jsonl" client_host = (Ok tt, w') /\
    console w' = console client_host ++ texts.
Proof.
  intros s.
  apply (emitted_events_exported (W := Z) "a" example_mode (mkMemdb [] [] []) s None "/e.db" "jsonl" client_host client_host 0
           client_open_host example_reachable).
  - reflexivity.
  - by intros d.
  - constructor.
  - split; [done|]. intros e t He [= <-]. revert e He. by apply (Forall_forall (fun e => json_from_slice (bytes_of_str (brief (em_data e))) = Ok (em_data e))); repeat constructor.
  - by vm_compute.
  - by vm_compute.
  - done.
  - by rewrite client_table_of.
  - rewrite client_table_of. repeat constructor.
  - rewrite client_table_of. repeat constructor; simpl; lia.
  - eexists. apply (memory_select_query _ (events_sql (of_session "a")).1), events_sql_words.
Defined.
