(* ===== verification/Ca.v ===== *)
(** clawpot-server/src/proxy/ca.rs: the certificate authority, which signs a leaf
    certificate per domain for the TLS proxy and keeps it.

    The [rcgen] crate is a parameter: what a certificate is made of is what the
    code passes to it ([CertParams]). *)

From S2P Require Import Prelude RustStr World SimWorld.
From Stdlib Require Import ZArith Lia Ascii String.
From stdpp Require Import base gmap strings list relations.

(** * Certificates *)

(** The attributes of a distinguished name that are used. *)
Inductive DnType : Type := CommonName | OrganizationName.

Section rcgen.
Context {san : Type}.

(** [CertificateParams]: the subject names, whether it is a CA (with
    [BasicConstraints::Unconstrained]), and the distinguished name; the other
    fields keep their defaults. *)
Record CertParams : Type := mkCertParams {
  subject_alt_names : list san;
  is_ca : bool;
  distinguished_name : list (DnType * string);
}.

End rcgen.
Arguments CertParams san : clear implicits.

(** [KeyPair::generate], [KeyPair::from_pem], [serialize_pem], the subject names of
    [CertificateParams::new] (which refuses texts that are none), [self_signed],
    [signed_by], [pem]. *)
Class Rcgen (W : Type) := {
  KeyPair : Type;
  Certificate : Type;
  san : Type;
  key_generate : ST W (result KeyPair string);
  key_from_pem : string -> result KeyPair string;
  key_serialize_pem : KeyPair -> string;
  subject_names : list string -> result (list san) string;
  self_signed : CertParams san -> KeyPair -> ST W (result Certificate string);
  signed_by : CertParams san -> KeyPair -> Certificate -> KeyPair -> ST W (result Certificate string);
  cert_pem_text : Certificate -> string;
}.

Record CachedCert : Type := mkCachedCert { cert_pem : string; key_pem : string }.

#[export] Instance cached_cert_eq_dec : EqDecision CachedCert.
Proof. solve_decision. Defined.

Section authority.
Context {W : Type} `{Rcgen W} `{FileSystem W} `{Directories W}.

Record CertificateAuthority : Type := mkCa {
  ca_cert : Certificate;
  ca_key : KeyPair;
  ca_cert_pem : string;
  cache : gmap string CachedCert;
  ca_dir : string;
}.

(** The parameters of the CA's own certificate. *)
Definition ca_params : CertParams san :=
  mkCertParams [] true [(CommonName, "Clawpot MITM CA"); (OrganizationName, "Clawpot")]%string.

Definition with_msg {A} (msg : string) (r : result A string) : result A error := context msg (map_err anyhow r).
Definition with_io {A} (msg : string) (r : result A io_error) : result A error := context msg (map_err (fun e => anyhow (io_error_msg e)) r).

(** The branch of [new] that finds the files of an earlier run. *)
Definition load_ca (cert_path key_path : string) : ST W (result (Certificate * KeyPair * string) error) :=
  let? key_pem := st_map (with_io "Failed to read CA key") (read_to_string key_path) in
  let? ca_cert_pem := st_map (with_io "Failed to read CA cert") (read_to_string cert_path) in
  let? ca_key := ret (with_msg "Failed to parse CA key" (key_from_pem key_pem)) in
  let? ca_cert := st_map (with_msg "Failed to self-sign CA cert") (self_signed ca_params ca_key) in
  ret (Ok (ca_cert, ca_key, ca_cert_pem)).

(** The branch that makes a new CA. *)
Definition generate_ca (cert_path key_path : string) : ST W (result (Certificate * KeyPair * string) error) :=
  let? ca_key := st_map (with_msg "Failed to generate CA key pair") key_generate in
  let? ca_cert := st_map (with_msg "Failed to self-sign CA cert") (self_signed ca_params ca_key) in
  let ca_cert_pem := cert_pem_text ca_cert in
  let ca_key_pem := key_serialize_pem ca_key in
  do? st_map (with_io "Failed to write CA cert") (write_file cert_path ca_cert_pem) in
  do? st_map (with_io "Failed to write CA key") (write_file key_path ca_key_pem) in
  ret (Ok (ca_cert, ca_key, ca_cert_pem)).

(** [CertificateAuthority::new(ca_dir)]; the key's file is looked at only if the
    certificate's exists. *)
Definition new_ca (dir : string) : ST W (result CertificateAuthority error) :=
  do? st_map (with_io ("Failed to create CA directory: " +:+ dir)) (create_dir_all dir) in
  let cert_path := path_join dir "ca.crt" in
  let key_path := path_join dir "ca.key" in
  let! have_cert := path_exists cert_path in
  let! have_both := if have_cert then path_exists key_path else ret false in
  let? made := if have_both then load_ca cert_path key_path else generate_ca cert_path key_path in
  ret (Ok (mkCa made.1.1 made.1.2 made.2 ∅ dir)).

(** The parameters of a leaf certificate. *)
Definition leaf_params (sans : list san) (domain : string) : CertParams san :=
  mkCertParams sans false [(CommonName, domain)].

Definition on_w {A} (m : ST W A) : ST (CertificateAuthority * W) A :=
  fun '(ca, w) => let '(a, w') := m w in (a, (ca, w')).

Definition cache_insert (domain : string) (c : CachedCert) (ca : CertificateAuthority) : CertificateAuthority :=
  mkCa (ca_cert ca) (ca_key ca) (ca_cert_pem ca) (<[domain := c]> (cache ca)) (ca_dir ca).

(** [get_or_create_cert(&self, domain)]: the lock on the cache is held all along. *)
Definition get_or_create_cert (domain : string) : ST (CertificateAuthority * W) (result CachedCert error) :=
  let! self := (fun s => (s.1, s)) in
  match cache self !! domain with
  | Some cached => ret (Ok cached)
  | None =>
      let? leaf_key := on_w (st_map (with_msg "Failed to generate leaf key pair") key_generate) in
      let? sans := ret (with_msg "Failed to create leaf cert params" (subject_names [domain])) in
      let? leaf_cert := on_w (st_map (with_msg "Failed to sign leaf cert")
                                (signed_by (leaf_params sans domain) leaf_key (ca_cert self) (ca_key self))) in
      let cached := mkCachedCert (cert_pem_text leaf_cert) (key_serialize_pem leaf_key) in
      do! (fun '(ca, w) => (tt, (cache_insert domain cached ca, w))) in
      ret (Ok cached)
  end.

End authority.
Arguments CertificateAuthority W {_}.

(** * Properties *)

(** ** The cache *)

Section cache.
Context {W : Type} `{Rcgen W}.

(** [c] holds a leaf certificate for the domain, and its key, that this authority
    signed. *)
Definition issued (ca : CertificateAuthority W) (domain : string) (c : CachedCert) : Prop :=
  exists sans key cert w, subject_names [domain] = Ok sans /\
    (signed_by (leaf_params sans domain) key (ca_cert ca) (ca_key ca) w).1 = Ok cert /\
    c = mkCachedCert (cert_pem_text cert) (key_serialize_pem key).

(** Everything but the cache. *)
Definition identity (ca : CertificateAuthority W) : Certificate * KeyPair * string * string :=
  (ca_cert ca, ca_key ca, ca_cert_pem ca, ca_dir ca).

Lemma issued_identity ca ca' d c : identity ca' = identity ca -> issued ca d c -> issued ca' d c.
Proof. intros [= Hc Hk _ _]. unfold issued. by rewrite Hc, Hk. Qed.

(** One call: a cached certificate is returned as it is, another is issued and
    kept, a failure changes nothing. *)
Lemma get_or_create_run domain ca w :
  let '(r, (ca', w')) := get_or_create_cert domain (ca, w) in
  identity ca' = identity ca /\
  match r with
  | Ok c => cache ca' = <[domain := c]> (cache ca) /\
            (cache ca !! domain = Some c \/ (cache ca !! domain = None /\ issued ca domain c))
  | Err _ => cache ca' = cache ca /\ cache ca !! domain = None
  end.
Proof.
  unfold get_or_create_cert. unfold bind at 1. cbn [fst]. destruct (cache ca !! domain) as [c|] eqn:Ec.
  { simpl. split; [done|]. by rewrite insert_id by done; auto. }
  unfold bind_ok, st_map, bind, on_w, ret. destruct (key_generate w) as [[key|e] w1]; simpl; [|done].
  destruct (subject_names [domain]) as [sans|e] eqn:Es; simpl; [|done].
  destruct (signed_by _ key (ca_cert ca) (ca_key ca) w1) as [[cert|e] w2] eqn:Eg; simpl; [|done].
  split_and!; [done..|]. right. split; [done|]. exists sans, key, cert, w1. by rewrite Eg.
Qed.

(** Calls of any connections one after the other, the world changing between. *)
Inductive ca_run : CertificateAuthority W -> list (string * result CachedCert error) -> CertificateAuthority W -> Prop :=
| ca_run_nil ca : ca_run ca [] ca
| ca_run_call ca domain r ca1 answers ca2 (w w' : W) :
    get_or_create_cert domain (ca, w) = (r, (ca1, w')) -> ca_run ca1 answers ca2 ->
    ca_run ca ((domain, r) :: answers) ca2.

(** Requests one after the other in one world. *)
Fixpoint request_all (domains : list string) (s : CertificateAuthority W * W)
  : list (string * result CachedCert error) * (CertificateAuthority W * W) :=
  match domains with
  | [] => ([], s)
  | d :: rest =>
      let '(r, s1) := get_or_create_cert d s in
      let '(answers, s2) := request_all rest s1 in
      ((d, r) :: answers, s2)
  end.

Lemma request_all_run domains : forall ca w,
  ca_run ca (request_all domains (ca, w)).1 (request_all domains (ca, w)).2.1.
Proof.
  induction domains as [|d rest IH]; intros ca w; simpl; [constructor|].
  destruct (get_or_create_cert d (ca, w)) as [r [ca1 w1]] eqn:E. specialize (IH ca1 w1).
  destruct (request_all rest (ca1, w1)) as [answers [ca2 w2]]. by eapply ca_run_call.
Qed.

Lemma ca_run_spec ca answers ca' :
  ca_run ca answers ca' ->
  identity ca' = identity ca /\ cache ca ⊆ cache ca' /\
  (forall d c, (d, Ok c) ∈ answers -> cache ca' !! d = Some c) /\
  (forall d c, cache ca' !! d = Some c -> cache ca !! d = Some c \/ ((d, Ok c) ∈ answers /\ issued ca d c)).
Proof.
  induction 1 as [ca|ca domain r ca1 answers ca2 w w' Hg Hrun (Hid & Hsub & Hans & Hback)].
  { split_and!; [done..| |by left]. intros d c Hin. by apply elem_of_nil in Hin. }
  pose proof (get_or_create_run domain ca w) as Hs. rewrite Hg in Hs. destruct Hs as [Hid1 Hr].
  split; [congruence|]. destruct r as [c|e].
  - destruct Hr as [Hc Hcase]. assert (cache ca1 !! domain = Some c) as Hdom by by rewrite Hc, lookup_insert_eq.
    split; [|split].
    + etrans; [|exact Hsub]. rewrite Hc. destruct Hcase as [Hin|[Hn _]]; [by rewrite insert_id|by apply insert_subseteq].
    + intros d c' [[= -> ->]|Hin]%elem_of_cons; [by eapply lookup_weaken|by apply Hans].
    + intros d c' Hd. destruct (Hback d c' Hd) as [H1|[H1 H2]].
      * rewrite Hc in H1. destruct (decide (d = domain)) as [->|Hne].
        -- rewrite lookup_insert_eq in H1. injection H1 as <-. destruct Hcase as [?|[_ Hi]]; [by left|].
           right. split; [by left|done].
        -- rewrite lookup_insert_ne in H1 by done. by left.
      * right. split; [by right|]. by eapply issued_identity.
  - destruct Hr as [Hc Hn]. rewrite Hc in *. split; [done|]. split.
    + intros d c' [?|Hin]%elem_of_cons; [done|by apply Hans].
    + intros d c' Hd. destruct (Hback d c' Hd) as [?|[? ?]]; [by left|]. right. split; [by right|]. by eapply issued_identity.
Qed.

(** C23. One certificate per domain: over any sequence of requests to an authority
    whose cached certificates it issued itself, all answers for a domain are the
    same certificate and key, each one issued by this authority for that very
    domain; the cache holds exactly the earlier entries and the answers given, and
    nothing else of the authority changes. *)
Theorem certificates_stable ca answers ca' :
  ca_run ca answers ca' -> (forall d c, cache ca !! d = Some c -> issued ca d c) ->
  identity ca' = identity ca /\
  (forall d c1 c2, (d, Ok c1) ∈ answers -> (d, Ok c2) ∈ answers -> c1 = c2) /\
  (forall d c, (d, Ok c) ∈ answers -> issued ca d c) /\
  (forall d c, cache ca' !! d = Some c <-> cache ca !! d = Some c \/ (d, Ok c) ∈ answers).
Proof.
  intros Hrun Hwf. destruct (ca_run_spec ca answers ca' Hrun) as (Hid & Hsub & Hans & Hback). split_and!; [done|..].
  - intros d c1 c2 H1 H2. apply Hans in H1, H2. congruence.
  - intros d c Hin. destruct (Hback d c (Hans d c Hin)) as [?|[_ ?]]; [by apply Hwf|done].
  - intros d c. split; [intros Hc; destruct (Hback d c Hc) as [?|[? _]]; auto|].
    intros [Hc|Hin]; [by eapply lookup_weaken|by apply Hans].
Qed.

End cache.

(** ** Restarting *)

(** What a file holds, and that making keys and certificates leaves files alone; a
    key survives its text form. *)
Class DiskLaws (W : Type) `{Rcgen W, FileSystem W, Directories W} := {
  file : W -> string -> option string;
  path_exists_file : forall p w, (path_exists p w).1 = bool_decide (is_Some (file w p)) /\ file (path_exists p w).2 = file w;
  read_file : forall p w, file (read_to_string p w).2 = file w /\
    (forall t, (read_to_string p w).1 = Ok t -> file w p = Some t);
  write_file_law : forall p t w, (write_file p t w).1 = Ok tt ->
    forall q, file (write_file p t w).2 q = if bool_decide (q = p) then Some t else file w q;
  create_dir_file : forall d w, file (create_dir_all d w).2 = file w;
  key_generate_file : forall w, file (key_generate w).2 = file w;
  self_signed_file : forall p k w, file (self_signed p k w).2 = file w;
  key_pem_round_trip : forall k, key_from_pem (key_serialize_pem k) = Ok k;
}.

Lemma path_join_inj dir a b : path_join dir a = path_join dir b -> a = b.
Proof.
  unfold path_join. destruct (String.eqb dir EmptyString); [done|]. destruct (String.eqb _ "/"); intros Heq.
  - by apply (inj (String.append dir)) in Heq.
  - rewrite <- !sapp_assoc in Heq. by apply (inj (String.append (dir +:+ "/"))) in Heq.
Qed.

Section restart.
Context {W : Type} `{DiskLaws W}.

(** The files of an authority in a directory: its certificate, and a text of its key. *)
Definition on_disk (dir cert_text : string) (key : KeyPair) (w : W) : Prop :=
  file w (path_join dir "ca.crt") = Some cert_text /\
  exists key_text, file w (path_join dir "ca.key") = Some key_text /\ key_from_pem key_text = Ok key.

Lemma load_ca_run cp kp w r w' :
  load_ca cp kp w = (Ok r, w') ->
  file w' = file w /\ file w cp = Some r.2 /\ exists t, file w kp = Some t /\ key_from_pem t = Ok r.1.2.
Proof.
  intros Hr. unfold load_ca in Hr. apply bind_ok_inv in Hr as (kt & w1 & Hk & Hr). apply bind_ok_inv in Hr as (ct & w2 & Hc & Hr).
  apply bind_ok_inv in Hr as (key & w3 & Hp & Hr). apply bind_ok_inv in Hr as (cert & w4 & Hs & Hr). injection Hr as <- <-.
  injection Hp as Hp <-. unfold st_map in *. apply bind_inv in Hk as (x & ? & Hk & [= Hx ->]). apply bind_inv in Hc as (y & ? & Hc & [= Hy ->]).
  apply bind_inv in Hs as (z & ? & Hs & [= Hz ->]).
  apply context_Ok, map_err_Ok in Hx, Hy, Hp. subst x y. simpl.
  destruct (read_file kp w) as [Hf1 Hv1]. destruct (read_file cp w1) as [Hf2 Hv2]. pose proof (self_signed_file ca_params key w2) as Hf3.
  rewrite Hk in Hf1, Hv1. rewrite Hc in Hf2, Hv2. rewrite Hs in Hf3. simpl in *. split; [congruence|]. split.
  - rewrite <- Hf1. by apply Hv2.
  - exists kt. split; [by apply Hv1|done].
Qed.

Lemma generate_ca_run cp kp w r w' :
  cp <> kp -> generate_ca cp kp w = (Ok r, w') ->
  file w' cp = Some r.2 /\ exists t, file w' kp = Some t /\ key_from_pem t = Ok r.1.2.
Proof.
  intros Hne Hr. unfold generate_ca in Hr. apply bind_ok_inv in Hr as (key & w1 & Hk & Hr).
  apply bind_ok_inv in Hr as (cert & w2 & Hs & Hr). cbv zeta in Hr.
  apply bind_ok_inv in Hr as (u1 & w3 & Hw1 & Hr). apply bind_ok_inv in Hr as (u2 & w4 & Hw2 & Hr). injection Hr as <- <-.
  unfold st_map in *. apply bind_inv in Hw1 as (x & ? & Hw1 & [= Hx ->]). apply bind_inv in Hw2 as (y & ? & Hw2 & [= Hy ->]).
  apply context_Ok, map_err_Ok in Hx, Hy. subst x y. destruct u1, u2. simpl.
  pose proof (write_file_law cp (cert_pem_text cert) w2) as L1. pose proof (write_file_law kp (key_serialize_pem key) w3) as L2.
  rewrite Hw1 in L1. rewrite Hw2 in L2. specialize (L1 eq_refl). specialize (L2 eq_refl). simpl in *. split.
  - rewrite L2, bool_decide_false, L1, bool_decide_true by done. done.
  - eexists. rewrite L2, bool_decide_true by done. split; [done|]. apply key_pem_round_trip.
Qed.

Lemma ca_paths_ne dir : path_join dir "ca.crt" <> path_join dir "ca.key".
Proof. by intros Heq%path_join_inj. Qed.

Lemma new_ca_run dir w ca w' :
  new_ca dir w = (Ok ca, w') ->
  cache ca = ∅ /\ ca_dir ca = dir /\ on_disk dir (ca_cert_pem ca) (ca_key ca) w' /\
  (forall t k, on_disk dir t k w -> ca_cert_pem ca = t /\ ca_key ca = k).
Proof.
  intros Hr. unfold new_ca in Hr. apply bind_ok_inv in Hr as (u & w1 & Hd & Hr). cbv zeta in Hr.
  unfold st_map in Hd. apply bind_inv in Hd as (x & ? & Hd & [= Hx ->]). pose proof (create_dir_file dir w) as F1. rewrite Hd in F1. simpl in F1.
  apply bind_inv in Hr as (have_cert & w2 & Hc & Hr). destruct (path_exists_file (path_join dir "ca.crt") w1) as [B2 F2].
  rewrite Hc in B2, F2. simpl in B2, F2. apply bind_inv in Hr as (have_both & w3 & Hb & Hr).
  assert (have_both = bool_decide (is_Some (file w (path_join dir "ca.crt"))) && bool_decide (is_Some (file w (path_join dir "ca.key")))
          /\ file w3 = file w) as [-> F3].
  { rewrite <- F1, <- B2. destruct have_cert; [|by injection Hb as <- <-; split; [done|congruence]].
    destruct (path_exists_file (path_join dir "ca.key") w2) as [B3 F3]. rewrite Hb in B3, F3. simpl in *. rewrite B3, F3, F2. done. }
  apply bind_ok_inv in Hr as (made & w4 & Hm & Hr). injection Hr as <- <-. simpl.
  destruct (bool_decide (is_Some (file w (path_join dir "ca.crt"))) && bool_decide (is_Some (file w (path_join dir "ca.key")))) eqn:Eb.
  - apply load_ca_run in Hm as (F4 & Hcert & kt & Hkt & Hkey). rewrite F3 in *. split_and!; [done..| |].
    + split; [congruence|]. exists kt. split; [congruence|done].
    + intros t k [Ht (kt' & Hkt' & Hk)]. split; congruence.
  - apply generate_ca_run in Hm as (Hcert & kt & Hkt & Hkey); [|apply ca_paths_ne]. split_and!; [done..| |].
    + split; [done|]. by exists kt.
    + intros t k [Ht (kt' & Hkt' & _)]. rewrite Ht, Hkt' in Eb. by rewrite !bool_decide_true in Eb by by eexists.
Qed.

(** No operation on the files of the directory fails, and the key signs. *)
Definition disk_works (dir : string) : Prop :=
  (forall w, is_ok (create_dir_all dir w).1 = true) /\
  (forall p t w, file w p = Some t -> (read_to_string p w).1 = Ok t) /\
  (forall k w, is_ok (self_signed ca_params k w).1 = true).

Lemma load_ca_ok dir cp kp kt ct key w :
  disk_works dir -> file w kp = Some kt -> file w cp = Some ct -> key_from_pem kt = Ok key ->
  exists cert w', load_ca cp kp w = (Ok (cert, key, ct), w').
Proof.
  intros (_ & Hread & Hsign) Hk Hc Hp. unfold load_ca, bind_ok, st_map, bind, ret.
  pose proof (Hread kp kt w Hk) as R1. destruct (read_file kp w) as [F1 _]. destruct (read_to_string kp w) as [r1 w1]. simpl in R1, F1. subst r1. simpl.
  assert (file w1 cp = Some ct) as Hc1 by by rewrite F1.
  pose proof (Hread cp ct w1 Hc1) as R2. destruct (read_to_string cp w1) as [r2 w2]. simpl in R2. subst r2. simpl. rewrite Hp. simpl.
  pose proof (Hsign key w2) as Hs. destruct (self_signed ca_params key w2) as [[cert|e] w3]; [|done]. simpl. by eauto.
Qed.

Lemma new_ca_reloads dir t k w :
  disk_works dir -> on_disk dir t k w -> exists ca w', new_ca dir w = (Ok ca, w').
Proof.
  intros Hw [Ht (kt & Hkt & Hk)]. pose proof Hw as (Hdir & _ & _). unfold new_ca, bind_ok at 1, st_map, bind at 1 2, ret at 1.
  pose proof (Hdir w) as Hd. pose proof (create_dir_file dir w) as F1. destruct (create_dir_all dir w) as [[u|e] w1]; [|done]. simpl in F1. simpl.
  unfold bind at 1. destruct (path_exists_file (path_join dir "ca.crt") w1) as [B2 F2].
  destruct (path_exists (path_join dir "ca.crt") w1) as [b2 w2]. simpl in B2, F2. rewrite F1, Ht, bool_decide_true in B2 by by eexists. subst b2.
  unfold bind at 1. destruct (path_exists_file (path_join dir "ca.key") w2) as [B3 F3].
  destruct (path_exists (path_join dir "ca.key") w2) as [b3 w3]. simpl in B3, F3. rewrite F2, F1, Hkt, bool_decide_true in B3 by by eexists. subst b3.
  destruct (load_ca_ok dir (path_join dir "ca.crt") (path_join dir "ca.key") kt t k w3) as (cert & w' & Hl); [done|congruence..|].
  rewrite (bind_ok_eq _ _ _ _ _ Hl). by eauto.
Qed.

(** C24. The authority survives a restart: after [new] has returned one, whether it
    was loaded or made, any later [new] on the same files returns an authority with
    the same signing key that presents the same certificate text (the one put into
    the images of VMs), and it does return one if the files can be read. *)
Theorem ca_survives_restart dir w ca w1 w2 :
  new_ca dir w = (Ok ca, w1) -> (forall p, file w2 p = file w1 p) ->
  (forall ca2 w3, new_ca dir w2 = (Ok ca2, w3) -> ca_key ca2 = ca_key ca /\ ca_cert_pem ca2 = ca_cert_pem ca) /\
  (disk_works dir -> is_ok (new_ca dir w2).1 = true).
Proof.
  intros Hn Hf. destruct (new_ca_run dir w ca w1 Hn) as (_ & _ & Hdisk & _).
  assert (on_disk dir (ca_cert_pem ca) (ca_key ca) w2) as Hdisk2 by (unfold on_disk in *; by rewrite !Hf). split.
  - intros ca2 w3 Hn2. destruct (new_ca_run dir w2 ca2 w3 Hn2) as (_ & _ & _ & Hsame). destruct (Hsame _ _ Hdisk2). done.
  - intros Hw. destruct (new_ca_reloads dir _ _ w2 Hw Hdisk2) as (ca2 & w3 & ->). done.
Qed.

End restart.

(** ** Witnesses *)

(** A disk, and keys that are numbers. *)
Record disk : Type := mkDisk { files : gmap string string; next_key : N }.

#[export] Instance disk_rcgen : Rcgen disk := {|
  KeyPair := N;
  Certificate := string;
  san := string;
  key_generate := fun d => (Ok (next_key d), mkDisk (files d) (next_key d + 1));
  key_from_pem := bin_parse;
  key_serialize_pem := bin_string;
  subject_names := Ok;
  self_signed p k := fun d => (Ok ("CA " +:+ bin_string k), d);
  signed_by p k c ck := fun d => (Ok (str_join "," (map id (subject_alt_names p)) +:+ " by " +:+ c), d);
  cert_pem_text c := c;
|}.

#[export] Instance disk_files : FileSystem disk := {|
  path_exists p := fun d => (bool_decide (is_Some (files d !! p)), d);
  remove_file _ := ret (Ok tt);
  write_file p t := fun d => (Ok tt, mkDisk (<[p := t]> (files d)) (next_key d));
  read_to_string p := fun d => (match files d !! p with Some t => Ok t | None => Err (mkIoError OtherKind "not found") end, d);
|}.

#[export] Instance disk_dirs : Directories disk := {| create_dir_all _ := ret (Ok tt) |}.

#[export] Instance disk_laws : DiskLaws disk.
Proof.
  refine {| file d p := files d !! p |}; intros; simpl; try done.
  - split; [done|]. intros t. by destruct (files w !! p); [intros [= ->]|].
  - destruct (decide (q = p)) as [->|Hne]; [by rewrite lookup_insert_eq, bool_decide_true|].
    rewrite lookup_insert_ne by done. by rewrite bool_decide_false.
  - exact (@uuid_parse_string sim_uuid _ k).
Defined.

Definition example_authority : CertificateAuthority disk := mkCa (W := disk) "CA 101e"%string 5%N "CA 101e" ∅ "/ca".

Definition example_requests := request_all ["a.org"; "b.org"; "a.org"]%string (example_authority, mkDisk ∅ 7).

Example example_answers :
  example_requests.1 =
  [("a.org", Ok (mkCachedCert "a.org by CA 101e" (bin_string 7))); ("b.org", Ok (mkCachedCert "b.org by CA 101e" (bin_string 8)));
   ("a.org", Ok (mkCachedCert "a.org by CA 101e" (bin_string 7)))]%string.
Proof. by vm_compute. Qed.

Lemma certificates_stable_witness :
  let answers := example_requests.1 in let ca' := example_requests.2.1 in
  identity ca' = identity example_authority /\
  (forall d c1 c2, (d, Ok c1) ∈ answers -> (d, Ok c2) ∈ answers -> c1 = c2) /\
  (forall d c, (d, Ok c) ∈ answers -> issued example_authority d c) /\
  (forall d c, cache ca' !! d = Some c <-> cache example_authority !! d = Some c \/ (d, Ok c) ∈ answers).
Proof.
  intros answers ca'. apply (certificates_stable example_authority answers ca'); [apply request_all_run|].
  intros d c Hc. change ((∅ : gmap string CachedCert) !! d = Some c) in Hc. by rewrite lookup_empty in Hc.
Defined.

Definition example_new : CertificateAuthority disk :=
  mkCa (W := disk) ("CA " +:+ bin_string 5) 5%N ("CA " +:+ bin_string 5) ∅ "/ca".

Lemma ca_survives_restart_witness :
  let w1 := (new_ca "/ca" (mkDisk ∅ 5)).2 in
  new_ca "/ca" (mkDisk ∅ 5) = (Ok example_new, w1) /\
  (forall ca2 w3, new_ca "/ca" w1 = (Ok ca2, w3) -> ca_key ca2 = ca_key example_new /\ ca_cert_pem ca2 = ca_cert_pem example_new) /\
  (disk_works (W := disk) "/ca" -> is_ok (new_ca "/ca" w1).1 = true).
Proof.
  intros w1. assert (new_ca "/ca" (mkDisk ∅ 5) = (Ok example_new, w1)) as Hn by by vm_compute.
  split; [done|]. by apply (ca_survives_restart "/ca" (mkDisk ∅ 5) example_new w1 w1).
Defined.
