(* ===== verification/TlsProxy.v ===== *)
(** clawpot-server/src/proxy/tls_mitm.rs: a connection of the TLS proxy, from the
    peeked ClientHello (parsed by [Sni]) to the bytes passed to the HTTP proxy.

    TLS itself (rustls, its PEM reader and the handshake) and the sockets are
    parameters. *)

From S2P Require Import Prelude RustStr Addr World Json SimWorld ProxyProtocol Sni Ca.
From Stdlib Require Import ZArith Lia Ascii String.
From Stdlib Require Import Strings.Byte.
From stdpp Require Import base gmap strings list.

Open Scope Z_scope.

Definition MITM_LISTEN_ADDR : string := "0.0.0.0:10443".
Definition HTTP_PROXY_TLS_ADDR : string := "127.0.0.1:10081".

(** The two ends that are copied between. *)
Inductive endpoint : Type := TlsEnd (h : Z) | TcpEnd (h : Z).

#[export] Instance endpoint_eq_dec : EqDecision endpoint.
Proof. solve_decision. Defined.

(** [rustls_pemfile::certs] and [private_key], [ServerConfig::builder()], the
    handshake of [TlsAcceptor::accept], and what is used of sockets.  [tcp_peek]
    returns what is there, at most [n] bytes, without consuming it. *)
Class TlsIo (W : Type) := {
  DerCert : Type;
  DerKey : Type;
  ServerConfig : Type;
  pem_certs : string -> result (list DerCert) string;
  pem_private_key : string -> result (option DerKey) string;
  with_single_cert : list DerCert -> DerKey -> result ServerConfig string;
  tcp_peek : Z -> nat -> ST W (result (list byte) io_error);
  tls_accept : ServerConfig -> Z -> ST W (result Z string);
  tcp_connect : string -> ST W (result Z io_error);
  end_write_all : endpoint -> list byte -> ST W (result unit io_error);
  io_copy : endpoint -> endpoint -> ST W (result Z io_error);
  end_shutdown : endpoint -> ST W (result unit io_error);
}.

Section connection.
Context {W : Type} `{Rcgen W} `{TlsIo W}.

(** [build_server_config(cert_pem, key_pem, ca_pem)]: the leaf first, then the CA. *)
Definition build_server_config (cert_pem key_pem ca_pem : string) : result ServerConfig error :=
  let^ certs := with_msg "Failed to parse leaf cert PEM" (pem_certs cert_pem) in
  let^ ca_certs := with_msg "Failed to parse CA cert PEM" (pem_certs ca_pem) in
  let certs := certs ++ ca_certs in
  let^ key := with_msg "Failed to read private key PEM" (pem_private_key key_pem) in
  let^ key := ok_or key (anyhow "No private key found in PEM") in
  with_msg "Failed to build ServerConfig" (with_single_cert certs key).

Definition plain_io {A} (r : result A io_error) : result A error := map_err (fun e => anyhow (io_error_msg e)) r.

(** [copy(reader, writer)] *)
Definition copy (reader writer : endpoint) : ST W (result unit error) :=
  do? st_map plain_io (io_copy reader writer) in
  do? st_map plain_io (end_shutdown writer) in
  ret (Ok tt).

(** The sink that [write_proxy_header] writes to. *)
Definition endpoint_sink (e : endpoint) : ByteSink W := {|
  write_all := end_write_all e;
  flush := ret (Ok tt);
|}.

(** [MITM_LISTEN_ADDR.parse().unwrap()] *)
Definition mitm_addr : SocketAddr := mkSocketAddr (V4 (ipv4 0 0 0 0)) 10443.

(** [handle_connection] from the handshake on: the connection to the HTTP proxy, the
    PROXY line, and the two copies, whose results are ignored.  The copies are two
    tasks that run side by side, each reading one end and writing the other; as no
    end is read or written by both, the model runs them one after the other. *)
Definition pass_to_proxy (tls_stream : Z) (client_addr : SocketAddr) : ST W (result unit error) :=
  let? proxy_stream := st_map (with_io ("Failed to connect to HTTP proxy at " +:+ HTTP_PROXY_TLS_ADDR))
                         (tcp_connect HTTP_PROXY_TLS_ADDR) in
  do? @write_proxy_header W (endpoint_sink (TcpEnd proxy_stream)) client_addr mitm_addr in
  do! copy (TlsEnd tls_stream) (TcpEnd proxy_stream) in
  do! copy (TcpEnd proxy_stream) (TlsEnd tls_stream) in
  ret (Ok tt).

(** The certificate, the configuration and the handshake for a host. *)
Definition terminate_tls (stream : Z) (sni : string) : ST (CertificateAuthority W * W) (result Z error) :=
  let? leaf := st_map (context ("Failed to generate cert for " +:+ sni)) (get_or_create_cert sni) in
  let! ca := (fun s => (s.1, s)) in
  let? tls_config := ret (context ("Failed to build TLS config for " +:+ sni)
                            (build_server_config (cert_pem leaf) (key_pem leaf) (ca_cert_pem ca))) in
  on_w (st_map (with_msg "TLS handshake failed") (tls_accept tls_config stream)).

(** [handle_connection(stream, client_addr, ca)] *)
Definition handle_connection (stream : Z) (client_addr : SocketAddr)
  : ST (CertificateAuthority W * W) (outcome (result unit error)) :=
  let! peeked := on_w (st_map (with_io "Failed to peek at TLS ClientHello") (tcp_peek stream 4096)) in
  match peeked with
  | Err e => ret (Done (Err e))
  | Ok buf =>
      match extract_sni buf with
      | Panic => ret Panic
      | NoFuel => ret NoFuel
      | Done found =>
          let sni := default EmptyString found in
          if String.eqb sni EmptyString then ret (Done (Err (anyhow "No SNI found in ClientHello")))
          else
            let! r := (let? tls_stream := terminate_tls stream sni in
                       on_w (pass_to_proxy tls_stream client_addr)) in
            ret (Done r)
      end
  end.

End connection.

(** * Properties *)

(** What was sent on each end, and the handshakes made. *)
Class TlsTrace (W : Type) `{Rcgen W, TlsIo W} := {
  sent_on : W -> endpoint -> list byte;
  handshakes : W -> list (Z * ServerConfig);
  key_generate_tls : forall w, sent_on (key_generate w).2 = sent_on w /\ handshakes (key_generate w).2 = handshakes w;
  signed_by_tls : forall p k c ck w, sent_on (signed_by p k c ck w).2 = sent_on w /\ handshakes (signed_by p k c ck w).2 = handshakes w;
  peek_tls : forall s n w, sent_on (tcp_peek s n w).2 = sent_on w /\ handshakes (tcp_peek s n w).2 = handshakes w;
  accept_tls : forall cfg s w,
    (forall h, sent_on (tls_accept cfg s w).2 (TcpEnd h) = sent_on w (TcpEnd h)) /\
    handshakes (tls_accept cfg s w).2 = handshakes w ++ [(s, cfg)];
  connect_tls : forall a w, handshakes (tcp_connect a w).2 = handshakes w /\
    match (tcp_connect a w).1 with
    | Ok h => sent_on (tcp_connect a w).2 (TcpEnd h) = [] /\
              forall e, e <> TcpEnd h -> sent_on (tcp_connect a w).2 e = sent_on w e
    | Err _ => sent_on (tcp_connect a w).2 = sent_on w
    end;
  write_tls : forall e bs w, handshakes (end_write_all e bs w).2 = handshakes w /\
    (forall e', e' <> e -> sent_on (end_write_all e bs w).2 e' = sent_on w e') /\
    exists n, sent_on (end_write_all e bs w).2 e = sent_on w e ++ take n bs /\
      (is_ok (end_write_all e bs w).1 = true -> (length bs <= n)%nat);
  copy_tls : forall r e w, handshakes (io_copy r e w).2 = handshakes w /\
    (forall e', e' <> e -> sent_on (io_copy r e w).2 e' = sent_on w e') /\
    sent_on w e `prefix_of` sent_on (io_copy r e w).2 e;
  shutdown_tls : forall e w, handshakes (end_shutdown e w).2 = handshakes w /\ sent_on (end_shutdown e w).2 = sent_on w;
}.

Section attribution.
Context {W : Type} `{TlsTrace W}.

Definition proxy_header (client_addr : SocketAddr) : list byte := bytes_of_str (proxy_line client_addr mitm_addr).

(** What a connection to the HTTP proxy may carry of a client. *)
Definition header_first (client_addr : SocketAddr) (bs : list byte) : Prop :=
  bs `prefix_of` proxy_header client_addr \/ exists rest, bs = proxy_header client_addr ++ rest.

Lemma copy_run r e w :
  handshakes (copy r e w).2 = handshakes w /\ (forall e', e' <> e -> sent_on (copy r e w).2 e' = sent_on w e') /\
  sent_on w e `prefix_of` sent_on (copy r e w).2 e.
Proof.
  unfold copy, bind_ok, st_map, bind, ret. destruct (copy_tls r e w) as (K1 & K2 & K3).
  destruct (io_copy r e w) as [[n|x] w1]; simpl in *; [|done]. destruct (shutdown_tls e w1) as [K4 K5].
  destruct (end_shutdown e w1) as [[u|x] w2]; simpl in *; rewrite K4, K5; done.
Qed.

(** The HTTP proxy gets the PROXY line first, and nothing else is written to. *)
Lemma pass_to_proxy_run tls client w :
  let '(r, w') := pass_to_proxy tls client w in
  handshakes w' = handshakes w /\
  forall h, sent_on w' (TcpEnd h) = sent_on w (TcpEnd h) \/ header_first client (sent_on w' (TcpEnd h)).
Proof.
  unfold pass_to_proxy. unfold bind_ok at 1, st_map at 1, bind at 1 2. destruct (connect_tls HTTP_PROXY_TLS_ADDR w) as [K1 K2].
  destruct (tcp_connect HTTP_PROXY_TLS_ADDR w) as [[h|x] w1]; cbn [fst snd with_io context map_err ret] in *; [|split; [done|]; intros h; by left; rewrite K2].
  destruct K2 as [K2 K3]. unfold bind_ok at 1, write_proxy_header, bind_ok at 1, st_map at 1, bind at 1 2 3. cbn [write_all endpoint_sink].
  fold (proxy_header client). destruct (write_tls (TcpEnd h) (proxy_header client) w1) as (K4 & K5 & n & K6 & K7).
  destruct (end_write_all (TcpEnd h) (proxy_header client) w1) as [[u|x] w2]; cbn [fst snd map_err ret is_ok] in *.
  - specialize (K7 eq_refl). rewrite K2, app_nil_l, take_ge in K6 by done.
    unfold bind. pose proof (copy_run (TlsEnd tls) (TcpEnd h) w2) as (K8 & K9 & K10). destruct (copy (TlsEnd tls) (TcpEnd h) w2) as [r3 w3]. simpl in *.
    pose proof (copy_run (TcpEnd h) (TlsEnd tls) w3) as (K11 & K12 & K13). destruct (copy (TcpEnd h) (TlsEnd tls) w3) as [r4 w4]. simpl in *.
    split; [congruence|]. intros h'. rewrite (K12 (TcpEnd h')) by done. destruct (decide (h' = h)) as [->|Hne].
    + right. right. rewrite K6 in K10. destruct K10 as [rest ->]. by exists rest.
    + left. by rewrite K9, K5, K3 by congruence.
  - split; [congruence|]. intros h'. destruct (decide (h' = h)) as [->|Hne].
    + right. left. rewrite K6, K2. simpl. apply prefix_take.
    + left. by rewrite K5, K3 by congruence.
Qed.

Lemma get_or_create_tls domain ca w :
  let '(r, (ca', w')) := get_or_create_cert domain (ca, w) in sent_on w' = sent_on w /\ handshakes w' = handshakes w.
Proof.
  unfold get_or_create_cert. unfold bind at 1. cbn [fst]. destruct (cache ca !! domain) as [c|]; [done|].
  unfold bind_ok, st_map, bind, on_w, ret. destruct (key_generate_tls w) as [K1 K2].
  destruct (key_generate w) as [[key|e] w1]; simpl in *; [|done].
  destruct (subject_names [domain]) as [sans|e]; simpl; [|done].
  destruct (signed_by_tls (leaf_params sans domain) key (ca_cert ca) (ca_key ca) w1) as [K3 K4].
  destruct (signed_by _ key (ca_cert ca) (ca_key ca) w1) as [[cert|e] w2]; simpl in *; split; congruence.
Qed.

(** A handshake is made with a certificate of this authority for the host, followed
    by the authority's own. *)
Definition presents (ca ca' : CertificateAuthority W) (sni : string) (cfg : ServerConfig) : Prop :=
  exists leaf, cache ca' !! sni = Some leaf /\ (cache ca !! sni = Some leaf \/ issued ca sni leaf) /\
    build_server_config (cert_pem leaf) (key_pem leaf) (ca_cert_pem ca) = Ok cfg.

Lemma terminate_tls_run stream sni ca w :
  let '(r, (ca', w')) := terminate_tls stream sni (ca, w) in
  (forall h, sent_on w' (TcpEnd h) = sent_on w (TcpEnd h)) /\
  ((handshakes w' = handshakes w /\ is_ok r = false) \/
   exists cfg, handshakes w' = handshakes w ++ [(stream, cfg)] /\ presents ca ca' sni cfg).
Proof.
  unfold terminate_tls. unfold bind_ok at 1, st_map at 1, bind at 1 2. pose proof (get_or_create_run sni ca w) as Hg.
  pose proof (get_or_create_tls sni ca w) as Ht. destruct (get_or_create_cert sni (ca, w)) as [[leaf|e] [ca1 w1]];
    cbn [fst snd ret context] in *; destruct Ht as [Hs Hh]; [|split; [by intros h; rewrite Hs|by left]].
  destruct Hg as ([= Hc Hk Hp Hd] & Hcache & Hor). unfold bind at 1. cbn [fst]. rewrite Hp.
  destruct (build_server_config (cert_pem leaf) (key_pem leaf) (ca_cert_pem ca)) as [cfg|e] eqn:Eb; unfold bind_ok, bind, ret; cbn [context].
  2:{ split; [by intros h; rewrite Hs|by left]. }
  unfold on_w, st_map, bind, ret. destruct (accept_tls cfg stream w1) as [K1 K2]. destruct (tls_accept cfg stream w1) as [r w2]. simpl in *.
  split; [intros h; rewrite K1; by rewrite Hs|]. right. exists cfg. split; [by rewrite K2, Hh|].
  exists leaf. rewrite Hcache, lookup_insert_eq. split_and!; [done| |done]. naive_solver.
Qed.

(** A TLS connection is terminated for the host its client named and attributed
    to that client: whatever fails on the way, at most one handshake is made, with a
    certificate of the authority for the SNI of the peeked hello followed by the
    authority's own; a connection to the HTTP proxy carries nothing but the PROXY
    line with the client's address (or the beginning of it) and, after it, what is
    relayed, and only once the handshake was made, so that the reader of the line
    gets exactly the client's address. *)
Lemma tls_connection_attributed stream a port ca w :
  0 <= port < 65536 ->
  let client := mkSocketAddr (V4 a) port in
  let '(r, (ca', w')) := handle_connection stream client (ca, w) in
  (handshakes w' = handshakes w \/
   exists hello sni cfg, (tcp_peek stream 4096 w).1 = Ok hello /\ extract_sni hello = Done (Some sni) /\
     handshakes w' = handshakes w ++ [(stream, cfg)] /\ presents ca ca' sni cfg) /\
  forall h, sent_on w' (TcpEnd h) = sent_on w (TcpEnd h) \/
    (handshakes w' <> handshakes w /\
     (sent_on w' (TcpEnd h) `prefix_of` proxy_header client \/
      exists rest, sent_on w' (TcpEnd h) = proxy_header client ++ rest /\
        read_proxy_header (sent_on w' (TcpEnd h)) = (Done (Ok (V4 a)), rest))).
Proof.
  intros Hport client. unfold handle_connection. unfold bind at 1, on_w at 1, st_map at 1, bind at 1.
  destruct (peek_tls stream 4096 w) as [Hs Hh]. destruct (tcp_peek stream 4096 w) as [[hello|e] w1];
    cbn [fst snd ret with_io context map_err] in *; [|split; [by left|]; intros h; left; by rewrite Hs].
  destruct (extract_sni hello) as [found| |] eqn:Es; [|split; [by left|]; intros h; left; by rewrite Hs..].
  destruct (String.eqb_spec (default EmptyString found) EmptyString) as [_|Hne]; [split; [by left|]; intros h; left; by rewrite Hs|].
  destruct found as [sni|]; [|done]. simpl in Hne |- *. unfold bind at 1, bind_ok, bind.
  pose proof (terminate_tls_run stream sni ca w1) as Ht. destruct (terminate_tls stream sni (ca, w1)) as [[tls|e] [ca2 w2]].
  - destruct Ht as [K1 [[_ K2]|(cfg & K2 & K3)]]; [done|]. unfold on_w. pose proof (pass_to_proxy_run tls client w2) as Hp.
    destruct (pass_to_proxy tls client w2) as [r w3]. destruct Hp as [K4 K5]. simpl. rewrite Hh in K2. split.
    + right. exists hello, sni, cfg. split_and!; [done..|congruence|done].
    + intros h. destruct (K5 h) as [K6|K6]; [left; by rewrite K6, K1, Hs|]. right. split.
      * rewrite K4, K2. intros Heq. apply (f_equal length) in Heq. rewrite length_app in Heq. simpl in Heq. lia.
      * destruct K6 as [K6|[rest K6]]; [by left|]. right. exists rest. split; [done|]. rewrite K6. by apply read_proxy_line.
  - destruct Ht as [K1 K2]. simpl. split.
    + destruct K2 as [[K2 _]|(cfg & K2 & K3)]; [left; congruence|]. right. exists hello, sni, cfg. split_and!; [done..|congruence|done].
    + intros h. left. by rewrite K1, Hs.
Qed.

End attribution.

(** ** A host on which a VM connects *)

Record tls_host : Type := mkTlsHost {
  th_key : N;
  th_hello : list byte;
  th_sent : endpoint -> list byte;
  th_handshakes : list (Z * string);
}.

Definition th_send (e : endpoint) (bs : list byte) (h : tls_host) : tls_host :=
  mkTlsHost (th_key h) (th_hello h) (fun e' => if decide (e' = e) then th_sent h e' ++ bs else th_sent h e') (th_handshakes h).

#[export] Instance tls_host_rcgen : Rcgen tls_host := {|
  KeyPair := N;
  Certificate := string;
  san := string;
  key_generate := fun h => (Ok (th_key h), mkTlsHost (th_key h + 1) (th_hello h) (th_sent h) (th_handshakes h));
  key_from_pem := bin_parse;
  key_serialize_pem := bin_string;
  subject_names := Ok;
  self_signed p k := ret (Ok "CA"%string);
  signed_by p k c ck := ret (Ok (str_join "," (subject_alt_names p)));
  cert_pem_text c := c;
|}.

#[export] Instance tls_host_io : TlsIo tls_host := {|
  DerCert := string;
  DerKey := string;
  ServerConfig := string;
  pem_certs t := Ok [t];
  pem_private_key t := Ok (Some t);
  with_single_cert cs k := Ok (str_join ";" cs);
  tcp_peek _ n := fun h => (Ok (take n (th_hello h)), h);
  tls_accept cfg s := fun h => (Ok s, mkTlsHost (th_key h) (th_hello h) (th_sent h) (th_handshakes h ++ [(s, cfg)]));
  tcp_connect _ := fun h => (Ok 7, mkTlsHost (th_key h) (th_hello h) (fun e => if decide (e = TcpEnd 7) then [] else th_sent h e) (th_handshakes h));
  end_write_all e bs := fun h => (Ok tt, th_send e bs h);
  io_copy _ e := fun h => (Ok 1, th_send e [x47] h);
  end_shutdown _ := ret (Ok tt);
|}.

#[export] Instance tls_host_trace : TlsTrace tls_host.
Proof.
  refine {| sent_on := th_sent; handshakes := th_handshakes |}; intros; simpl; try done.
  - split; [done|]. split; [done|]. intros e He. by case_decide.
  - split; [done|]. split; [intros e' He; by case_decide|]. exists (length bs). case_decide; [|done]. by rewrite firstn_all.
  - split; [done|]. split; [intros e' He; by case_decide|]. case_decide; [by eexists|done].
Defined.

Definition example_hello : list byte :=
  record_bytes x03 x01 (hello_bytes (replicate 34 x00) [] [x13; x01] [x00] (extension 0 (sni_body [x61; x2e; x62]))).

Definition example_tls_host : tls_host := mkTlsHost 3 example_hello (fun _ => []) [].
Definition example_tls_ca : CertificateAuthority tls_host := mkCa (W := tls_host) "CA"%string 2%N "CA" ∅ "/ca".

(** The client's request arrives behind the line that names it. *)
Example example_relayed :
  let s := handle_connection 1 (mkSocketAddr (V4 (ipv4 192 168 100 2)) 40000) (example_tls_ca, example_tls_host) in
  s.1 = Done (Ok tt) /\ handshakes s.2.2 = [(1, "a.b;CA"%string)] /\
  str_of_bytes (sent_on s.2.2 (TcpEnd 7)) = "PROXY TCP4 192.168.100.2 0.0.0.0 40000 10443" +:+ crlf +:+ "G".
Proof. by vm_compute. Qed.
