(* ===== verification/HttpsPath.v ===== *)
(** A TLS connection of a VM from the hello to the request that leaves the host: the
    TLS proxy (tls_mitm.rs) terminates it and passes the client's bytes on behind a
    PROXY line, and the HTTP proxy (http_proxy.rs) reads the line, attributes the
    request to the address in it, asks and forwards.  To the HTTP proxy all these
    connections come from the TLS proxy on the loopback interface. *)

From S2P Require Import Prelude RustStr Addr World Json SimWorld Events Registry Service.
From S2P Require Import ProxyProtocol Sni AuthClient Llm ProxyLog HttpProxy Ca TlsProxy.
From Stdlib Require Import ZArith Lia Ascii String.
From Stdlib Require Import Strings.Byte.
From stdpp Require Import base gmap strings list.

Open Scope Z_scope.

(** * A PROXY line that is cut off *)

Lemma read_line_cut fuel : forall line acc x, x0a ∉ line -> (read_line_loop (R := list byte) fuel acc line).1 <> Done (Ok x).
Proof.
  induction fuel as [|fuel IH]; intros line acc x Hn; [done|]. cbn [read_line_loop]. unfold bind.
  destruct line as [|b line]; [done|]. cbn. rewrite not_elem_of_cons in Hn. destruct Hn as [Hb Hn].
  rewrite bool_decide_false by congruence.
  case_match; [done|]. by apply IH.
Qed.

Lemma header_cut a b p q bs ip rest :
  bs `prefix_of` bytes_of_str (proxy_line (mkSocketAddr (V4 a) p) (mkSocketAddr (V4 b) q)) ->
  read_proxy_header bs = (Done (Ok ip), rest) ->
  bs = bytes_of_str (proxy_line (mkSocketAddr (V4 a) p) (mkSocketAddr (V4 b) q)).
Proof.
  intros [more Hb] Hr. destruct more as [|c more] using rev_ind; [by rewrite app_nil_r in Hb|]. exfalso.
  assert (x0a ∉ bs) as Hn.
  { rewrite proxy_line_body, bytes_of_str_app in Hb. destruct (printable_bytes _ (proxy_body_printable a b p q)) as [Hnl _].
    change (bytes_of_str crlf) with ([x0d] ++ [x0a]) in Hb. rewrite !app_assoc in Hb. apply app_inj_tail in Hb as [Hb _].
    intros Hin. assert (x0a ∈ bytes_of_str (proxy_body a b p q) ++ [x0d]) as Hin2 by (rewrite Hb; set_solver).
    apply elem_of_app in Hin2 as [|Hin2]; [done|]. by apply list_elem_of_singleton in Hin2. }
  unfold read_proxy_header, bind in Hr. pose proof (read_line_cut 257 bs []) as Hc.
  destruct (read_line_loop 257 [] bs) as [[[l|e]| |] r1]; [by apply (Hc l)|discriminate..].
Qed.

(** * From the VM to the upstream server *)

Section path.
Context {T : Type} `{TlsTrace T}.
Context {W : Type} `{FileSystem W} `{Clock W} `{Timestamps W} `{UuidGen W} `{UuidText} `{SerdeJson} `{HashOrder}
  `{AuthService W} `{HttpCrate} `{HttpUpstream W} `{StringMapOrder} `{!NetTrace W UpstreamRequest} `{!HttpTrace W}.
Context `{Http1 (list byte)} (ctx : ProxyCtx).

(** C5. Web traffic of a VM, plain or encrypted, leaves the host only as a request of
    the VM at that address which the authorization service, if there is one, allowed.  A plain
    connection is attributed to its peer.  For a TLS connection: whatever fails in
    the TLS proxy on the way and whatever address the HTTP proxy sees as its peer,
    when serving what was passed to it sends anything or asks about anything, then
    the TLS proxy had made one handshake, with a certificate of the authority for
    the SNI in the client's hello, the bytes began with the PROXY line of the
    client, and the one request that may be sent is read from the bytes after it,
    for the VM that has the client's address and with the permission for that very
    request. *)
Theorem web_traffic_attributed stream a port ca w h :
  0 <= port < 65536 -> sent_on w (TcpEnd h) = [] ->
  (forall peer (s : Server) (v : W) (conn : list byte),
   let '(_, (_, v', _)) := serve_connection ctx peer false (s, v, conn) in
   forwards_for ctx (sa_ip peer) (vm_registry s) conn (net_log v) (net_log v')) /\
  let client := mkSocketAddr (V4 a) port in
  let '(_, (ca', w')) := handle_connection stream client (ca, w) in
  let conn := sent_on w' (TcpEnd h) in
  forall peer (s : Server) (v : W),
  let '(_, (_, v', _)) := serve_connection ctx peer true (s, v, conn) in
  net_log v' = net_log v \/
  exists hello sni cfg rest,
    (tcp_peek stream 4096 w).1 = Ok hello /\ extract_sni hello = Done (Some sni) /\
    handshakes w' = handshakes w ++ [(stream, cfg)] /\ presents ca ca' sni cfg /\
    conn = proxy_header client ++ rest /\
    forwards_for ctx (V4 a) (vm_registry s) rest (net_log v) (net_log v').
Proof.
  intros Hport Hfresh. split; [intros; apply plain_connection_forwards|]. intros client.
  pose proof (tls_connection_attributed stream a port ca w Hport) as Ht. cbn zeta in Ht. fold client in Ht.
  destruct (handle_connection stream client (ca, w)) as [r [ca' w']]. destruct Ht as [Hshake Hsent]. cbn zeta. intros peer s v.
  pose proof (proxied_connection_forwards ctx peer s v (sent_on w' (TcpEnd h))) as Hp.
  destruct (serve_connection ctx peer true (s, v, sent_on w' (TcpEnd h))) as [o [[s' v'] c']].
  destruct Hp as [Hp|(ip & conn1 & Hread & Hf)]; [by left|]. right.
  destruct (Hsent h) as [Hs|[Hne Hs]]; [rewrite Hs, Hfresh in Hread; discriminate|].
  destruct Hshake as [Heq|(hello & sni & cfg & Hpeek & Hsni & Hh & Hpr)]; [done|].
  assert (exists rest, sent_on w' (TcpEnd h) = proxy_header client ++ rest) as [rest Hrest].
  { destruct Hs as [Hs|(rest & Hs & _)]; [|by exists rest]. exists []. rewrite app_nil_r. by eapply header_cut. }
  exists hello, sni, cfg, rest. split_and!; try done.
  rewrite Hrest in Hread. unfold proxy_header, client, mitm_addr in Hread. rewrite read_proxy_line in Hread by lia.
  by injection Hread as <- <-.
Qed.

End path.

(** * A run *)

(** A connection that carries the example request once a byte of it has arrived. *)
#[local] Instance example_http1 : Http1 (list byte) := {|
  next_request := fun bs => (match bs with [] => None | _ => Some example_request end, []);
  send_response _ := ret tt;
|}.

(** The VM at 192.168.100.2 connects to the TLS proxy, and its request is forwarded
    although the HTTP proxy sees the loopback address. *)
Lemma web_traffic_attributed_witness :
  let client := mkSocketAddr (V4 (ipv4 192 168 100 2)) 40000 in
  let w' := (handle_connection 1 client (example_tls_ca, example_tls_host)).2.2 in
  let v' := (serve_connection example_ctx (mkSocketAddr (V4 (ipv4 127 0 0 1)) 5) true
               (example_create.2.1, (empty_sim, []), sent_on w' (TcpEnd 7))).2.1.2 in
  exists rest, sent_on w' (TcpEnd 7) = proxy_header client ++ rest /\
    forwards_for example_ctx (V4 (ipv4 192 168 100 2)) (vm_registry example_create.2.1) rest [] (net_log v') /\
    length (net_log v') = 2%nat.
Proof.
  intros client w' v'.
  assert (length (net_log v') = 2%nat) as Hlen by (vm_compute; reflexivity).
  destruct (web_traffic_attributed example_ctx 1 (ipv4 192 168 100 2) 40000 example_tls_ca example_tls_host 7) as [_ Ht];
    [lia|reflexivity|]. cbn zeta in Ht. fold client in Ht.
  unfold v', w' in *. destruct (handle_connection 1 client (example_tls_ca, example_tls_host)) as [r [ca1 w1]]. cbn [fst snd] in *.
  specialize (Ht (mkSocketAddr (V4 (ipv4 127 0 0 1)) 5) example_create.2.1 (empty_sim, [])).
  destruct (serve_connection example_ctx _ true _) as [o [[s1 v1] c1]]. cbn [fst snd] in *.
  destruct Ht as [Hn|(hello & sni & cfg & rest & _ & _ & _ & _ & Hc & Hf)]; [exfalso; assert (0 = 2)%nat as E by (rewrite <- Hlen; exact (eq_sym (f_equal length Hn))); discriminate E|].
  exists rest. split; [exact Hc|]. split; [exact Hf|exact Hlen].
Defined.

(** The listener believes the line of any peer: a connection from another address
    whose first line names the VM is served as that VM's, and its request forwarded. *)
Example proxy_line_is_believed :
  let other := mkSocketAddr (V4 (ipv4 192 168 100 77)) 5 in
  let bytes := bytes_of_str ("PROXY TCP4 192.168.100.2 0.0.0.0 1 2" +:+ crlf +:+ "G") in
  let '(o, (s, v, _)) := serve_connection example_ctx other true (example_create.2.1, (empty_sim, []) : http_host, bytes) in
  o = Done tt /\ find_by_ip (sa_ip other) (vm_registry example_create.2.1) = None /\
  exists req up, net_log v = [req; Forwarded up] /\ up_uri up = "https://API.anthropic.com:443/v1/messages"%string.
Proof. vm_compute. split; [reflexivity|]. split; [reflexivity|]. do 2 eexists. split; reflexivity. Qed.
