(* ===== verification/Listeners.v ===== *)
(** The listening parts of the three proxies of clawpot-server/src/proxy/
    (tls_mitm.rs, dns_proxy.rs, http_proxy.rs): binding the sockets, reporting that
    they are ready, and the loops that accept connections until the server is
    cancelled.

    A loop is driven by what its [select!] picks each time.  What it does with a
    connection or a packet is a task it spawns; the tasks themselves are
    [TlsProxy.handle_connection], [HttpProxy.serve_connection],
    [DnsProxy.process_dns_query] and [DnsProxy.handle_tcp_dns_connection]. *)

From S2P Require Import Prelude RustStr Addr World SimWorld TlsProxy Ca.
From Stdlib Require Import ZArith Lia Ascii String.
From Stdlib Require Import Strings.Byte.
From stdpp Require Import base gmap strings list.

(** [TcpListener::bind] and [UdpSocket::bind] *)
Class Sockets (W : Type) := {
  tcp_bind : string -> ST W (result Z io_error);
  udp_bind : string -> ST W (result Z io_error);
}.

(** The certificates that upstream servers are checked against: those of the crate
    [webpki_roots], and those that [rustls_native_certs::load_native_certs] finds on
    the host, with its errors; rustls adds the ones it can parse. *)
Class TlsRoots (W : Type) := {
  RootCert : Type;
  TLS_SERVER_ROOTS : list RootCert;
  load_native_certs : ST W (list RootCert * list string);
  parsable : RootCert -> bool;
}.

(** A task that a loop spawned, on the stream or the packet of a peer. *)
Inductive spawned : Type :=
| TlsConnection (stream : Z) (peer : SocketAddr)
| HttpConnection (stream : Z) (peer : SocketAddr) (proxy_protocol : bool)
| DnsQuery (packet : list byte) (peer : SocketAddr)
| DnsConnection (stream : Z) (peer : SocketAddr).

(** One turn of a [loop { select! { .. } }]. *)
Inductive turn : Type :=
| Go (tasks : list spawned)
| Fail (e : error)    (* [?] *)
| Break.

(** The loop on the events that occur: the tasks it spawns, and how it ended if it
    did. *)
Fixpoint serve_loop {E : Type} (body : E -> turn) (events : list E) : list spawned * option (result unit error) :=
  match events with
  | [] => ([], None)
  | ev :: rest =>
      match body ev with
      | Go tasks => let '(more, r) := serve_loop body rest in (tasks ++ more, r)
      | Fail e => ([], Some (Err e))
      | Break => ([], Some (Ok tt))
      end
  end.

(** What the [select!] of an accepting loop picks. *)
Inductive accept_event : Type :=
| Accept (r : result (Z * SocketAddr) io_error)
| CancelChanged.

(** ** The TLS proxy *)

(** The [select!] of [run_inner] in tls_mitm.rs *)
Definition tls_turn (ev : accept_event) : turn :=
  match ev with
  | Accept (Ok (stream, addr)) => Go [TlsConnection stream addr]
  | Accept (Err e) => Fail ["Failed to accept connection"%string; io_error_msg e]
  | CancelChanged => Break
  end.

Section listeners.
Context {W : Type} `{Sockets W} `{TlsRoots W}.

(** [run_inner] of tls_mitm.rs: whether the readiness was reported, the tasks, and
    the end. *)
Definition tls_run_inner (events : list accept_event) : ST W (bool * list spawned * option (result unit error)) :=
  let! bound := tcp_bind MITM_LISTEN_ADDR in
  match with_io ("Failed to bind TLS MITM proxy on " +:+ MITM_LISTEN_ADDR) bound with
  | Err e => ret (false, [], Some (Err e))
  | Ok listener => let '(tasks, r) := serve_loop tls_turn events in ret (true, tasks, r)
  end.

(** ** The HTTP proxy *)

Definition HTTP_LISTEN_ADDR : string := "0.0.0.0:10080".
Definition HTTPS_LISTEN_ADDR : string := "0.0.0.0:10081".

(** The [select!] of [run_listener] in http_proxy.rs *)
Definition http_turn (proxy_protocol : bool) (ev : accept_event) : turn :=
  match ev with
  | Accept (Ok (stream, peer_addr)) => Go [HttpConnection stream peer_addr proxy_protocol]
  | Accept (Err e) => Fail ["Failed to accept connection"%string; io_error_msg e]
  | CancelChanged => Break
  end.

(** [run_listener(listener, ctx, cancel, proxy_protocol)] *)
Definition run_listener (proxy_protocol : bool) (events : list accept_event) : list spawned * option (result unit error) :=
  serve_loop (http_turn proxy_protocol) events.

(** The client of the HTTP proxy: its root store, no client certificate, either scheme,
    and HTTP/1. *)
Record HttpClient : Type := mkHttpClient { roots : list RootCert; client_auth : bool; https_or_http : bool; http1 : bool }.

Definition upstream_client : ST W HttpClient :=
  let! native := load_native_certs in
  let roots := TLS_SERVER_ROOTS in
  let roots := if (0 <? length native.1)%nat then roots ++ List.filter parsable native.1 else roots in
  ret (mkHttpClient roots false true true).

(** [run] of http_proxy.rs: the client is built, which cannot fail; both listeners are bound before
    either serves; a listener that fails is logged and leaves the other alone. *)
Definition http_run (events events_tls : list accept_event) : ST W (bool * list spawned * option (result unit error)) :=
  do! upstream_client in
  let! bound := (let? _ := st_map (with_io ("Failed to bind HTTP proxy on " +:+ HTTP_LISTEN_ADDR)) (tcp_bind HTTP_LISTEN_ADDR) in
                 st_map (with_io ("Failed to bind HTTP proxy on " +:+ HTTPS_LISTEN_ADDR)) (tcp_bind HTTPS_LISTEN_ADDR)) in
  match bound with
  | Err e => ret (false, [], Some (Err e))
  | Ok _ =>
      let '(http, r1) := run_listener false events in
      let '(https, r2) := run_listener true events_tls in
      ret (true, http ++ https, match r1, r2 with Some _, Some _ => Some (Ok tt) | _, _ => None end)
  end.

(** ** The DNS proxy *)

Definition DNS_LISTEN_ADDR : string := "0.0.0.0:10053".

(** A packet comes with whether a socket for the upstream could be bound. *)
Inductive dns_event : Type :=
| Datagram (r : result (list byte * SocketAddr) io_error) (upstream_bound : bool)
| DnsAccept (r : result (Z * SocketAddr) io_error)
| DnsCancelChanged.

(** The [select!] of [run_inner] in dns_proxy.rs *)
Definition dns_turn (ev : dns_event) : turn :=
  match ev with
  | Datagram (Ok (packet, peer_addr)) upstream_bound => Go (if upstream_bound then [DnsQuery packet peer_addr] else [])
  | Datagram (Err e) _ => Fail ["Failed to receive DNS packet"%string; io_error_msg e]
  | DnsAccept (Ok (stream, peer_addr)) => Go [DnsConnection stream peer_addr]
  | DnsAccept (Err e) => Fail ["Failed to accept TCP DNS connection"%string; io_error_msg e]
  | DnsCancelChanged => Break
  end.

(** [run_inner] of dns_proxy.rs *)
Definition dns_run_inner (events : list dns_event) : ST W (bool * list spawned * option (result unit error)) :=
  let! bound := (let? _ := st_map (with_io ("Failed to bind DNS proxy UDP on " +:+ DNS_LISTEN_ADDR)) (udp_bind DNS_LISTEN_ADDR) in
                 st_map (with_io ("Failed to bind DNS proxy TCP on " +:+ DNS_LISTEN_ADDR)) (tcp_bind DNS_LISTEN_ADDR)) in
  match bound with
  | Err e => ret (false, [], Some (Err e))
  | Ok _ => let '(tasks, r) := serve_loop dns_turn events in ret (true, tasks, r)
  end.

(** [run] of tls_mitm.rs and of dns_proxy.rs: how [run_inner] ended is only logged. *)
Definition logged_end (run_inner : ST W (bool * list spawned * option (result unit error)))
  : ST W (bool * list spawned * option (result unit error)) :=
  st_map (fun '(is_ready, tasks, ended) => (is_ready, tasks, (fun _ => Ok tt) <$> ended)) run_inner.

Definition tls_run (events : list accept_event) : ST W (bool * list spawned * option (result unit error)) :=
  logged_end (tls_run_inner events).

Definition dns_run (events : list dns_event) : ST W (bool * list spawned * option (result unit error)) :=
  logged_end (dns_run_inner events).

End listeners.

(** * Properties *)

(** The tasks a turn spawns, none if it ends the loop. *)
Definition tasks_of (t : turn) : list spawned := match t with Go ts => ts | _ => [] end.
Definition goes_on (t : turn) : bool := match t with Go _ => true | _ => false end.

(** A loop serves every event up to the first that ends it, and none after. *)
Lemma serve_loop_spec {E : Type} (body : E -> turn) events :
  exists served rest, events = served ++ rest /\ Forall (fun ev => goes_on (body ev) = true) served /\
    (serve_loop body events).1 = concat (map (fun ev => tasks_of (body ev)) served) /\
    match (serve_loop body events).2 with
    | None => rest = []
    | Some (Ok _) => exists ev later, rest = ev :: later /\ body ev = Break
    | Some (Err e) => exists ev later, rest = ev :: later /\ body ev = Fail e
    end.
Proof.
  induction events as [|ev events (served & rest & Hev & Hgo & Ht & Hr)]; simpl.
  { exists [], []. by split_and!. }
  destruct (body ev) as [ts|e|] eqn:Eb.
  - destruct (serve_loop body events) as [more r]. exists (ev :: served), rest. simpl in *. rewrite Eb. simpl.
    split_and!; [by rewrite Hev| |by rewrite Ht|done]. constructor; [by rewrite Eb|done].
  - exists [], (ev :: events). split_and!; [done..|]. by exists ev, events.
  - exists [], (ev :: events). split_and!; [done..|]. by exists ev, events.
Qed.
