(* ===== verification/Telemetry.v ===== *)
(** clawpot-server/src/telemetry.rs: the spans of a session go to an OTLP exporter,
    and log lines to standard output.  The crates that do so are a parameter; what
    the module itself decides is what they are given, and in which order. *)

From S2P Require Import Prelude World.
From Stdlib Require Import String.
From stdpp Require Import base strings list.

Open Scope string_scope.

(** [Resource] *)
Record Resource : Type := mkResource { service_name : string; attributes : list (string * string) }.

(** [fmt::layer()] with what is set on it. *)
Record FmtLayer : Type := mkFmtLayer { with_target : bool; with_level : bool }.

(** The crates [opentelemetry_sdk], [opentelemetry_otlp] and [tracing_subscriber]. *)
Class OpenTelemetry (W : Type) := {
  OtelExporter : Type;
  OtelProvider : Type;
  OtelTracer : Type;
  EnvFilter : Type;
  span_exporter_build : ST W (result OtelExporter string);          (* [SpanExporter::builder().with_tonic().build()] *)
  provider_build : Resource -> OtelExporter -> ST W OtelProvider;       (* with a [BatchSpanProcessor] on the exporter *)
  provider_tracer : OtelProvider -> string -> OtelTracer;
  try_from_default_env : ST W (result EnvFilter string);           (* [RUST_LOG] *)
  filter_new : string -> EnvFilter;
  subscriber_init : EnvFilter -> FmtLayer -> OtelTracer -> ST W bool;  (* [false]: there is one already, and it panics *)
  provider_shutdown : OtelProvider -> ST W (result unit string);
}.

Section telemetry.
Context {W : Type} `{OpenTelemetry W} (version : string).

Definition telemetry_resource (session_id : string) : Resource :=
  mkResource "clawpot-server" [("service.version", version); ("session.id", session_id)].

(** [init_telemetry(session_id) -> Result<SdkTracerProvider>] *)
Definition init_telemetry (session_id : string) : ST W (outcome (result OtelProvider string)) :=
  let! exporter := span_exporter_build in
  match exporter with
  | Err e => ret (Done (Err e))
  | Ok exporter =>
      let! provider := provider_build (telemetry_resource session_id) exporter in
      let tracer := provider_tracer provider "clawpot-server" in
      let fmt_layer := mkFmtLayer false true in
      let! filter := try_from_default_env in
      let filter := match filter with Ok f => f | Err _ => filter_new "info" end in
      let! installed := subscriber_init filter fmt_layer tracer in
      if (installed : bool) then ret (Done (Ok provider)) else ret Panic
  end.

End telemetry.

(** The subscriber of the process, which is set once. *)
Class TelemetryLaws (W : Type) `{OpenTelemetry W} := {
  subscriber : W -> option (EnvFilter * FmtLayer * OtelTracer);
  exporter_law : forall w, subscriber (span_exporter_build w).2 = subscriber w;
  provider_law : forall r e w, subscriber (provider_build r e w).2 = subscriber w;
  filter_law : forall w, subscriber (try_from_default_env w).2 = subscriber w;
  subscriber_law : forall f l t w,
    (subscriber_init f l t w).1 = bool_decide (subscriber w = None) /\
    (subscriber w = None -> subscriber (subscriber_init f l t w).2 = Some (f, l, t));
}.

(** In a process without a subscriber [init_telemetry] does not panic; it sets one
    that logs without targets and traces to the provider it returns, or fails
    before it sets any. *)
Lemma init_telemetry_run {W} `{TelemetryLaws W} version sid w :
  subscriber w = None ->
  match init_telemetry version sid w with
  | (Done (Ok provider), w') =>
      exists f, subscriber w' = Some (f, mkFmtLayer false true, provider_tracer provider "clawpot-server")
  | (Done (Err _), w') => subscriber w' = None
  | _ => False
  end.
Proof.
  intros Hn. unfold init_telemetry, bind, ret. pose proof (exporter_law w) as He.
  destruct (span_exporter_build w) as [[x|e] w1]; simpl in *; [|congruence].
  pose proof (provider_law (telemetry_resource version sid) x w1) as Hp. destruct (provider_build _ x w1) as [p w2]. simpl in *.
  pose proof (filter_law w2) as Hf. destruct (try_from_default_env w2) as [f w3]. simpl in *.
  set (f' := match f with Ok _ => _ | Err _ => _ end).
  destruct (subscriber_law f' (mkFmtLayer false true) (provider_tracer p "clawpot-server") w3) as [H1 H2].
  destruct (subscriber_init f' _ _ w3) as [ok w4]. simpl in *. rewrite bool_decide_true in H1 by congruence. subst ok.
  exists f'. apply H2. congruence.
Qed.

(** A process that remembers its subscriber, with [RUST_LOG] not set. *)
Definition process : Type := option (string * FmtLayer * (Resource * string)).

#[local] Instance process_telemetry : OpenTelemetry process := {|
  OtelExporter := unit;
  OtelProvider := Resource;
  OtelTracer := Resource * string;
  EnvFilter := string;
  span_exporter_build := ret (Ok tt);
  provider_build r _ := ret r;
  provider_tracer r n := (r, n);
  try_from_default_env := ret (Err "environment variable not found");
  filter_new s := s;
  subscriber_init f l t := fun p => match p with None => (true, Some (f, l, t)) | Some _ => (false, p) end;
  provider_shutdown _ := ret (Ok tt);
|}.

#[local] Instance process_laws : TelemetryLaws process.
Proof. refine {| subscriber := fun p : process => p |}; intros; try done. by destruct w. Defined.

(** The second initialisation of a process panics. *)
Example telemetry_twice :
  let first := init_telemetry "0.1.0" "s" (None : process) in
  (first.2 : process) = Some ("info", mkFmtLayer false true, (telemetry_resource "0.1.0" "s", "clawpot-server")) /\
  (init_telemetry "0.1.0" "s" first.2).1 = Panic.
Proof. split; reflexivity. Qed.
