(* ===== verification/Startup.v ===== *)
(** clawpot-server/src/main.rs, [main]: the order in which the server starts its
    parts, from the privileges and the event store to the gRPC server, and how it
    ends. *)

From S2P Require Import Prelude RustStr Addr World Json SimWorld Events Sql EventQueries.
From S2P Require Import IpAllocator Network Registry AuthClient Llm HttpProxy Ca Listeners Service.
From S2P Require Import Telemetry.
From Stdlib Require Import ZArith Lia Ascii String.
From stdpp Require Import base gmap strings list.

Open Scope Z_scope.

(** What [main] asks of the process and of crates it only sets up. *)
Class Host (W : Type) := {
  install_crypto : ST W bool;                      (* [install_default().is_ok()] *)
  is_root : ST W bool;                             (* [geteuid().is_root()] *)
  process_id : ST W Z;
  netlink_connect : ST W (result unit string);     (* [rtnetlink::new_connection()] *)
}.

Section startup.
Context {W : Type} `{FileSystem W} `{Directories W} `{Timestamps W} `{SqliteFiles W} `{Iptables W} `{Netlink W}
  `{TunDevice W} `{Rcgen W} `{AuthService W} `{Sockets W} `{TlsRoots W} `{Host W} `{OpenTelemetry W} `{UuidGen W} `{UuidText}
  `{SerdeJson} `{SqlDisplay}.

(** The environment variables, and the version of the package. *)
Context (env : string -> option string) (version : string).

Definition project_root : string := default "/workspaces/clawpot"%string (env "CLAWPOT_ROOT").
Definition events_db_path : string := default (path_join project_root "data/events.db") (env "CLAWPOT_EVENTS_DB").
Definition auth_addr : option string := env "CLAWPOT_AUTH_ADDR".
Definition kernel_path : string := path_join project_root "assets/kernels/vmlinux".
Definition rootfs_path : string := path_join project_root "assets/rootfs/ubuntu.ext4".

Definition slog (msg : string) : ST (Server * W) unit := server_log None msg.
Definition server_event (event_type : string) (data : list (string * json)) : ST (Server * W) unit :=
  do! on_events (emit event_type "server" None None (JObject data)) in ret tt.

(** [serde_json::json!({..}).to_string()]; printing a value does not fail. *)
Definition config_json : string :=
  default EmptyString (res_ok (json_to_string (JObject [("root", JString project_root); ("auth_addr", jopt JString auth_addr)]%string))).

(** The network: the bridge and its rules. *)
Definition start_network : ST (Server * W) (result NetworkManager error) :=
  let? nm := st_map (context "Failed to create network manager")
               (do? st_map (with_msg "Failed to create netlink connection") (Service.on_w netlink_connect) in ret (Ok nm_new)) in
  do! slog "Ensuring network bridge exists..." in
  do? st_map (context "Failed to ensure bridge exists") (Service.on_w (nm_ensure_bridge nm)) in
  do! slog "Network bridge ready" in
  ret (Ok nm).

(** What the proxies share. *)
Record ProxyParts : Type := mkProxyParts {
  pa_ca : CertificateAuthority W;
  pa_body_store : BodyStore;
  pa_auth : AuthClient;
  pa_llm_keys : LlmKeyStore;
}.

Definition start_parts : ST (Server * W) (result ProxyParts error) :=
  let? ca := st_map (context "Failed to initialize CA") (Service.on_w (new_ca (path_join project_root "ca"))) in
  do! slog "Certificate authority ready" in
  let? body_store := st_map (context "Failed to initialize body store")
                       (Service.on_w (body_store_new (path_join project_root "data/bodies"))) in
  do! slog "Body store ready" in
  let? auth := st_map (context "Failed to initialize auth client") (Service.on_w (AuthClient.new auth_addr)) in
  do! slog "Authorization client ready" in
  let llm_keys := Llm.from_env env in
  do! slog "LLM key store initialized" in
  do! slog "IP allocator initialized (192.168.100.2-254)" in
  do! slog "VM registry initialized" in
  ret (Ok (mkProxyParts ca body_store auth llm_keys)).

(** The receiver of a proxy's readiness fails when the proxy ended without
    reporting it; the proxies serve no events before that. *)
Definition ready (msg : string) (run : ST W (bool * list spawned * option (result unit error))) : ST W (result unit error) :=
  let! r := run in
  ret (if r.1.1 then Ok tt else Err [msg; "channel closed"%string]).

(** The three proxies are spawned, and each is waited for.  They start side by side
    and bind different sockets; the model starts them in the order of the code. *)
Definition start_proxies : ST (Server * W) (result unit error) :=
  let! mitm := Service.on_w (ready "TLS MITM proxy failed to start" (tls_run [])) in
  let! http := Service.on_w (ready "HTTP proxy failed to start" (http_run [] [])) in
  let! dns := Service.on_w (ready "DNS proxy failed to start" (dns_run [])) in
  do? ret mitm in
  do! slog "TLS MITM proxy started" in
  do? ret http in
  do! slog "HTTP proxy started" in
  do? ret dns in
  do! slog "DNS proxy started" in
  ret (Ok tt).

Definition check_assets : ST (Server * W) (result unit error) :=
  let! have_kernel := Service.on_w (path_exists kernel_path) in
  if negb have_kernel then
    ret (Err (anyhow "Kernel image not found. Run './scripts/install-vm-assets.sh' to download assets."))
  else
    let! have_rootfs := Service.on_w (path_exists rootfs_path) in
    if negb have_rootfs then
      ret (Err (anyhow "Rootfs image not found. Run './scripts/install-vm-assets.sh' to download assets."))
    else do! slog "VM assets verified" in ret (Ok tt).

(** From the open event store to the point where the gRPC server is started; the
    shared memory has a fresh allocator and an empty registry all along. *)
Definition start_server : ST (Server * W) (result (ServerConfig * ProxyParts) error) :=
  let! pid := Service.on_w process_id in
  do! server_event "server.started" [("version", JString version); ("pid", jint pid); ("config_root", JString project_root);
                                     ("auth_addr", jopt JString auth_addr)]%string in
  let? network_manager := start_network in
  let? parts := start_parts in
  do? start_proxies in
  do? check_assets in
  do! slog "Starting gRPC server on 0.0.0.0:50051" in
  ret (Ok (mkServerConfig network_manager kernel_path rootfs_path, parts)).

(** [main()], with [serve] for the gRPC server and its shutdown handler: the result,
    and the shared memory if it came to be. *)
Definition server_main (serve : ServerConfig * ProxyParts -> ST (Server * W) (result unit string))
  : ST W (outcome (result unit error * option Server)) :=
  let! installed := install_crypto in
  if negb installed then ret Panic
  else
    let! id := new_v4 in
    let session_id := uuid_string id in
    let! telemetry := init_telemetry version session_id in
    match telemetry with
    | Done (Ok tracer_provider) =>
      let! root := is_root in
      if negb root then
        ret (Done (Err (anyhow "Server must be run as root (sudo required for TAP devices, bridge, and iptables)"), None))
      else
        let! opened := st_map (context "Failed to initialize event store")
                         (open_store events_db_path session_id version config_json (Events.from_env (env "CLAWPOT_EVENTS_PERSIST"))) in
        match opened with
        | Err e => ret (Done (Err e, None))
        | Ok (store, _) =>
            fun w =>
              let '(r, (srv, w')) :=
                (let? started := start_server in
                 do? st_map (with_msg "gRPC server failed") (serve started) in
                 do! server_event "server.stopped" [("reason", JString "shutdown")]%string in
                 do! on_events close_session in
                 do! Service.on_w (provider_shutdown tracer_provider) in
                 ret (Ok tt)) (mkServer ∅ IpAllocator.new store false, w) in
              (Done (r, Some srv), w')
        end
    | _ => ret Panic
    end.

End startup.

(** * Properties *)

(** What the steps after the bridge rely on: none of them touches the packet filter,
    and binding a socket that succeeds leaves it bound. *)
Class StartLaws (W : Type) `{NetworkLaws W, Directories W, Timestamps W, Rcgen W, AuthService W, Sockets W, TlsRoots W} := {
  bound : W -> list (bool * string);   (* UDP or not, address *)
  now_start : forall w, rules (rfc3339_now w).2 = rules w /\ bound (rfc3339_now w).2 = bound w;
  exists_start : forall p w, rules (path_exists p w).2 = rules w /\ bound (path_exists p w).2 = bound w;
  create_dir_start : forall d w, rules (create_dir_all d w).2 = rules w;
  key_generate_start : forall w, rules (key_generate w).2 = rules w;
  self_signed_start : forall p k w, rules (self_signed p k w).2 = rules w;
  auth_connect_start : forall a w, rules (auth_connect a w).2 = rules w;
  native_certs_start : forall w, rules (load_native_certs w).2 = rules w /\ bound (load_native_certs w).2 = bound w;
  tcp_bind_start : forall a w, rules (tcp_bind a w).2 = rules w /\
    bound (tcp_bind a w).2 = if is_ok (tcp_bind a w).1 then (false, a) :: bound w else bound w;
  udp_bind_start : forall a w, rules (udp_bind a w).2 = rules w /\
    bound (udp_bind a w).2 = if is_ok (udp_bind a w).1 then (true, a) :: bound w else bound w;
}.

(** The sockets of the proxies. *)
Definition proxy_sockets : list (bool * string) :=
  [(false, "0.0.0.0:10443"); (false, "0.0.0.0:10080"); (false, "0.0.0.0:10081"); (true, "0.0.0.0:10053"); (false, "0.0.0.0:10053")]%string.

Section started.
Context {W : Type} `{StartLaws W} `{SqliteFiles W} `{Host W} `{OpenTelemetry W} `{UuidGen W} `{UuidText} `{SerdeJson} `{SqlDisplay}.
Context (env : string -> option string) (version : string).

(** The part of the shared memory that start-up leaves alone. *)
Definition memory (s : Server * W) : VmRegistry * IpAllocator * bool := (vm_registry s.1, ip_allocator s.1, cancelled s.1).
Definition host_rules (s : Server * W) : ruleset := rules s.2.
Definition host_bound (s : Server * W) : list (bool * string) := bound s.2.

Lemma emit_inner_keeps {X} (f : W -> X) et cat vm corr dur ok d :
  (forall w, f (rfc3339_now w).2 = f w) -> keeps (fun s : EventStore * W => f s.2) (emit_inner et cat vm corr dur ok d).
Proof.
  intros Hf [st w]. unfold emit_inner. destruct (should_persist _ et); [|done]. specialize (Hf w).
  by destruct (rfc3339_now w).
Qed.

Lemma on_events_keeps {A X} (f : W -> X) (m : ST (EventStore * W) A) :
  keeps (fun s => f s.2) m -> keeps (fun s : Server * W => f s.2) (on_events m).
Proof. intros Hm [s w]. unfold on_events. specialize (Hm (event_store s, w)). by destruct (m (event_store s, w)) as [a [ev w']]. Qed.

Lemma on_events_memory {A} (m : ST (EventStore * W) A) : keeps memory (on_events m).
Proof. intros [s w]. unfold on_events. by destruct (m (event_store s, w)) as [a [ev w']]. Qed.

Lemma on_w_memory {A} (m : ST W A) : keeps memory (Service.on_w m).
Proof. intros [s w]. unfold Service.on_w. by destruct (m w). Qed.

Lemma on_w_keeps {A X} (f : W -> X) (m : ST W A) : keeps f m -> keeps (fun s : Server * W => f s.2) (Service.on_w m).
Proof. intros Hm [s w]. unfold Service.on_w. specialize (Hm w). by destruct (m w). Qed.

Lemma slog_keeps {X} (f : W -> X) msg : (forall w, f (rfc3339_now w).2 = f w) -> keeps (fun s : Server * W => f s.2) (slog msg).
Proof.
  intros Hf. unfold slog, server_log, log. apply keeps_bind; [|intros; apply keeps_ret]. by apply on_events_keeps, emit_inner_keeps.
Qed.

Lemma slog_memory msg : keeps memory (slog msg).
Proof. apply keeps_bind; [apply on_events_memory|intros; apply keeps_ret]. Qed.

Lemma slog_rules msg : keeps host_rules (slog msg).
Proof. apply slog_keeps. intros w. apply now_start. Qed.

Lemma slog_bound msg : keeps host_bound (slog msg).
Proof. apply slog_keeps. intros w. apply now_start. Qed.

Hint Resolve slog_memory slog_rules slog_bound on_w_memory on_events_memory : rs.

(** Opening the authority, the body store and the authorization client leaves the
    packet filter alone. *)
Lemma fs_read_rules p : keeps rules (read_to_string p).
Proof. intros w. apply fs_read_law. Qed.
Lemma fs_write_rules p t : keeps rules (write_file p t).
Proof. intros w. apply fs_write_law. Qed.
Lemma exists_rules p : keeps rules (path_exists p).
Proof. intros w. apply exists_start. Qed.
Lemma create_dir_rules d : keeps rules (create_dir_all d).
Proof. intros w. apply create_dir_start. Qed.
Lemma key_generate_rules : keeps rules key_generate.
Proof. intros w. apply key_generate_start. Qed.
Lemma self_signed_rules p k : keeps rules (self_signed p k).
Proof. intros w. apply self_signed_start. Qed.
Lemma auth_connect_rules a : keeps rules (auth_connect a).
Proof. intros w. apply auth_connect_start. Qed.
Lemma tcp_bind_rules a : keeps rules (tcp_bind a).
Proof. intros w. apply tcp_bind_start. Qed.
Lemma client_rules : keeps rules upstream_client.
Proof. intros w. unfold upstream_client, bind, ret. destruct (native_certs_start w) as [Hr _]. by destruct (load_native_certs w). Qed.
Lemma client_bound : keeps bound upstream_client.
Proof. intros w. unfold upstream_client, bind, ret. destruct (native_certs_start w) as [_ Hb]. by destruct (load_native_certs w). Qed.
Lemma udp_bind_rules a : keeps rules (udp_bind a).
Proof. intros w. apply udp_bind_start. Qed.
Hint Resolve fs_read_rules fs_write_rules exists_rules create_dir_rules key_generate_rules self_signed_rules
  auth_connect_rules tcp_bind_rules udp_bind_rules client_rules : rs.

Ltac keep :=
  repeat first [solve [auto with rs] | apply keeps_ret | apply keeps_st_map | apply keeps_bind_ok; [|intros ?]
               | apply keeps_bind; [|intros ?] | case_match].

Lemma new_ca_rules d : keeps rules (new_ca d).
Proof. unfold new_ca, load_ca, generate_ca. keep. Qed.

Lemma body_store_rules d : keeps rules (body_store_new d).
Proof. unfold body_store_new. keep. Qed.

Lemma auth_new_rules a : keeps rules (AuthClient.new a).
Proof. unfold AuthClient.new. keep. Qed.

Lemma ready_rules msg run : keeps rules run -> keeps rules (ready msg run).
Proof. intros Hr. unfold ready. keep. Qed.

Lemma tls_run_rules evs : keeps rules (tls_run evs).
Proof. apply keeps_st_map. unfold tls_run_inner. keep. Qed.
Lemma http_run_rules e1 e2 : keeps rules (http_run e1 e2).
Proof. unfold http_run. keep. Qed.
Lemma dns_run_rules evs : keeps rules (dns_run evs).
Proof. apply keeps_st_map. unfold dns_run_inner. keep. Qed.
Hint Resolve new_ca_rules body_store_rules auth_new_rules ready_rules tls_run_rules http_run_rules dns_run_rules : rs.

Lemma on_w_rules {A} (m : ST W A) : keeps rules m -> keeps host_rules (Service.on_w m).
Proof. apply on_w_keeps. Qed.
Hint Resolve on_w_rules : rs.

Lemma start_parts_rules : keeps host_rules (start_parts env).
Proof. unfold start_parts. keep. Qed.
Lemma start_proxies_rules : keeps host_rules start_proxies.
Proof. unfold start_proxies. keep. Qed.
Lemma check_assets_rules : keeps host_rules (check_assets env).
Proof. unfold check_assets. keep. Qed.

Lemma start_memory : keeps memory (start_server env version).
Proof. unfold start_server, start_network, start_parts, start_proxies, check_assets, server_event. keep. Qed.

(** The network is up once [start_network] succeeds. *)
Lemma start_network_run s nm s' :
  start_network s = (Ok nm, s') -> nm = nm_new /\ Forall (has_rule (host_rules s')) (bridge_rules (bridge_name nm_new)).
Proof.
  intros Hr. unfold start_network in Hr. apply bind_ok_inv in Hr as (nm0 & s1 & Hc & Hr). apply context_inv in Hc.
  apply bind_ok_inv in Hc as (u & s2 & _ & Hc). injection Hc as <- <-.
  apply bind_inv in Hr as (u1 & s3 & _ & Hr). apply bind_ok_inv in Hr as (u2 & s4 & Hb & Hr). apply context_inv in Hb.
  apply bind_inv in Hr as (u3 & s5 & Hl & Hr). injection Hr as <- <-. split; [done|].
  pose proof (slog_rules "Network bridge ready" s4) as Hk. rewrite Hl in Hk. simpl in Hk. rewrite Hk.
  destruct s3 as [srv w]. unfold Service.on_w in Hb. destruct (nm_ensure_bridge nm_new w) as [x w'] eqn:En. injection Hb as -> <-.
  pose proof (ensure_bridge_run nm_new w) as Hrun. rewrite En in Hrun. destruct u2. by destruct Hrun as (_ & Hok & _); apply Hok.
Qed.

(** Sockets stay bound. *)
Definition binds (m : ST W (bool * list spawned * option (result unit error))) (socks : list (bool * string)) : Prop :=
  forall w, bound w ⊆ bound (m w).2 /\ ((m w).1.1.1 = true -> forall x, x ∈ socks -> x ∈ bound (m w).2).

Lemma binds_logged m socks : binds m socks -> binds (logged_end m) socks.
Proof.
  intros Hm w. specialize (Hm w). unfold logged_end, st_map, bind, ret. by destruct (m w) as [[[ok ts] e] w1].
Qed.

Lemma tls_binds : binds (tls_run []) [(false, TlsProxy.MITM_LISTEN_ADDR)].
Proof.
  apply binds_logged. intros w. unfold tls_run_inner, bind, ret. destruct (tcp_bind_start TlsProxy.MITM_LISTEN_ADDR w) as [_ Hb].
  destruct (tcp_bind TlsProxy.MITM_LISTEN_ADDR w) as [[l|e] w1]; simpl in *; rewrite Hb; set_solver.
Qed.

Lemma http_binds : binds (http_run [] []) [(false, HTTP_LISTEN_ADDR); (false, HTTPS_LISTEN_ADDR)].
Proof.
  intros w0. pose proof (client_bound w0) as Hc. unfold http_run, bind_ok, st_map, bind, ret.
  destruct (upstream_client w0) as [client w]. simpl in Hc. rewrite <- Hc. clear Hc client. destruct (tcp_bind_start HTTP_LISTEN_ADDR w) as [_ Hb].
  destruct (tcp_bind HTTP_LISTEN_ADDR w) as [[l|e] w1]; simpl in *; [|rewrite Hb; set_solver].
  destruct (tcp_bind_start HTTPS_LISTEN_ADDR w1) as [_ Hb2].
  destruct (tcp_bind HTTPS_LISTEN_ADDR w1) as [[l2|e] w2]; simpl in *; rewrite Hb2, Hb; set_solver.
Qed.

Lemma dns_binds : binds (dns_run []) [(true, DNS_LISTEN_ADDR); (false, DNS_LISTEN_ADDR)].
Proof.
  apply binds_logged. intros w. unfold dns_run_inner, bind_ok, st_map, bind, ret. destruct (udp_bind_start DNS_LISTEN_ADDR w) as [_ Hb].
  destruct (udp_bind DNS_LISTEN_ADDR w) as [[l|e] w1]; simpl in *; [|rewrite Hb; set_solver].
  destruct (tcp_bind_start DNS_LISTEN_ADDR w1) as [_ Hb2].
  destruct (tcp_bind DNS_LISTEN_ADDR w1) as [[l2|e] w2]; simpl in *; rewrite Hb2, Hb; set_solver.
Qed.

(** Waiting for a proxy that reports. *)
Lemma ready_binds msg m socks srv w r s :
  binds m socks -> Service.on_w (ready msg m) (srv, w) = (r, s) ->
  bound w ⊆ bound s.2 /\ (r = Ok tt -> forall x, x ∈ socks -> x ∈ bound s.2).
Proof.
  intros Hm Hr. unfold Service.on_w, ready, bind, ret in Hr. destruct (Hm w) as [Hg Hb]. destruct (m w) as [[[ok ts] e] w1].
  injection Hr as <- <-. simpl in *. split; [done|]. destruct ok; [|done]. intros _. by apply Hb.
Qed.

Lemma start_proxies_run s s' : start_proxies s = (Ok tt, s') -> forall x, x ∈ proxy_sockets -> x ∈ host_bound s'.
Proof.
  intros Hr. unfold start_proxies in Hr. apply bind_inv in Hr as (mitm & s1 & H1' & Hr). apply bind_inv in Hr as (http & s2 & H2' & Hr).
  apply bind_inv in Hr as (dns & s3 & H3' & Hr). destruct s as [srv w], s1 as [srv1 w1], s2 as [srv2 w2], s3 as [srv3 w3].
  apply (ready_binds _ _ _ _ _ _ _ tls_binds) in H1' as [G1 B1]. apply (ready_binds _ _ _ _ _ _ _ http_binds) in H2' as [G2 B2].
  apply (ready_binds _ _ _ _ _ _ _ dns_binds) in H3' as [G3 B3]. simpl in *.
  apply bind_ok_inv in Hr as ([] & ? & [= -> <-] & Hr). apply bind_inv in Hr as (? & s4 & L1 & Hr).
  apply bind_ok_inv in Hr as ([] & ? & [= -> <-] & Hr). apply bind_inv in Hr as (? & s5 & L2 & Hr).
  apply bind_ok_inv in Hr as ([] & ? & [= -> <-] & Hr). apply bind_inv in Hr as (? & s6 & L3 & Hr). injection Hr as <-.
  assert (host_bound s6 = bound w3) as ->.
  { pose proof (slog_bound "TLS MITM proxy started" (srv3, w3)) as E1. pose proof (slog_bound "HTTP proxy started" s4) as E2.
    pose proof (slog_bound "DNS proxy started" s5) as E3. rewrite L1 in E1. rewrite L2 in E2. rewrite L3 in E3. cbn [snd] in E1, E2, E3. by rewrite E3, E2, E1. }
  intros y. unfold proxy_sockets. specialize (B1 eq_refl). specialize (B2 eq_refl). specialize (B3 eq_refl).
  unfold TlsProxy.MITM_LISTEN_ADDR, HTTP_LISTEN_ADDR, HTTPS_LISTEN_ADDR, DNS_LISTEN_ADDR in *. set_solver.
Qed.

(** The state in which the gRPC server is started. *)
Definition confined (started : ServerConfig * ProxyParts) (s : Server * W) : Prop :=
  started.1 = mkServerConfig nm_new (kernel_path env) (rootfs_path env) /\
  Forall (has_rule (rules s.2)) (bridge_rules (bridge_name nm_new)) /\
  (forall x, x ∈ proxy_sockets -> x ∈ bound s.2) /\
  vm_registry s.1 = ∅ /\ ip_allocator s.1 = IpAllocator.new /\ cancelled s.1 = false /\
  pa_auth started.2 = match auth_addr env with Some _ => Connected | None => Disabled end /\
  pa_llm_keys started.2 = Llm.from_env env.

Lemma start_parts_run s parts s' :
  start_parts env s = (Ok parts, s') ->
  pa_auth parts = match auth_addr env with Some _ => Connected | None => Disabled end /\ pa_llm_keys parts = Llm.from_env env.
Proof.
  intros Hr. unfold start_parts in Hr. apply bind_ok_inv in Hr as (ca & ? & _ & Hr). apply bind_inv in Hr as (? & ? & _ & Hr).
  apply bind_ok_inv in Hr as (bs & ? & _ & Hr). apply bind_inv in Hr as (? & ? & _ & Hr).
  apply bind_ok_inv in Hr as (auth & ? & Ha & Hr). do 4 apply bind_inv in Hr as (? & ? & _ & Hr). injection Hr as <- <-. simpl.
  split; [|done]. apply context_inv in Ha. destruct x4 as [srv w]. unfold Service.on_w, AuthClient.new in Ha.
  unfold bind_ok, st_map, bind, ret in Ha. destruct (auth_addr env) as [a|]; [|congruence].
  destruct (auth_connect a w) as [[]]; simpl in Ha; congruence.
Qed.

Lemma start_server_run srv w started s' :
  vm_registry srv = ∅ -> ip_allocator srv = IpAllocator.new -> cancelled srv = false ->
  start_server env version (srv, w) = (Ok started, s') -> confined started s'.
Proof.
  intros Hreg Hal Hcan Hr. pose proof (start_memory (srv, w)) as Hmem. rewrite Hr in Hmem. simpl in Hmem.
  unfold memory in Hmem. simpl in Hmem. injection Hmem as M1 M2 M3.
  unfold start_server in Hr. apply bind_inv in Hr as (pid & s1 & _ & Hr). apply bind_inv in Hr as (? & s2 & _ & Hr).
  apply bind_ok_inv in Hr as (nm & s3 & Hn & Hr). apply bind_ok_inv in Hr as (parts & s4 & Hp & Hr).
  apply bind_ok_inv in Hr as ([] & s5 & Hx & Hr). apply bind_ok_inv in Hr as ([] & s6 & Hk & Hr).
  apply bind_inv in Hr as (? & s7 & Hl & Hr). injection Hr as <- <-.
  apply start_network_run in Hn as [-> Hrules]. pose proof (start_parts_rules s3) as R1. pose proof (start_proxies_rules s4) as R2.
  pose proof (check_assets_rules s5) as R3. pose proof (slog_rules "Starting gRPC server on 0.0.0.0:50051" s6) as R4.
  rewrite Hp in R1. rewrite Hx in R2. rewrite Hk in R3. rewrite Hl in R4. cbn [snd] in *.
  pose proof (start_proxies_run _ _ Hx) as Hb. destruct (start_parts_run _ _ _ Hp) as [Ha Hkeys].
  assert (host_bound s7 = host_bound s5) as Hbound.
  { pose proof (slog_bound "Starting gRPC server on 0.0.0.0:50051" s6) as E2. rewrite Hl in E2. cbn [snd] in E2. rewrite E2.
    assert (keeps host_bound (check_assets env)) as E1.
    { unfold check_assets. repeat first [apply slog_bound | apply keeps_ret | apply keeps_bind; [|intros ?] | case_match];
        apply on_w_keeps; intros w'; apply exists_start. }
    specialize (E1 s5). by rewrite Hk in E1. }
  split_and!; [done| |by unfold host_bound in *; rewrite Hbound|congruence..|done|done].
  unfold host_rules in *. by rewrite R4, R3, R2, R1.
Qed.

(** The message that closes the session has not been sent. *)
Definition session_open (s : Server * W) : Prop := MsgClose ∉ tx (event_store s.1).

Definition stays {A} (m : ST (Server * W) A) : Prop := hoare session_open m (fun _ => session_open).

Lemma stays_ret {A} (a : A) : stays (ret a).
Proof. by intros s Hs. Qed.

Lemma stays_bind {A B} (m : ST (Server * W) A) (k : A -> ST (Server * W) B) : stays m -> (forall a, stays (k a)) -> stays (bind m k).
Proof. intros Hm Hk. by eapply hoare_bind. Qed.

Lemma stays_bind_ok {A B E} (m : ST (Server * W) (result A E)) (k : A -> ST (Server * W) (result B E)) :
  stays m -> (forall a, stays (k a)) -> stays (bind_ok m k).
Proof. intros Hm Hk. apply stays_bind; [done|]. intros [a|e]; [apply Hk|apply stays_ret]. Qed.

Lemma stays_st_map {A B} (f : A -> B) (m : ST (Server * W) A) : stays m -> stays (st_map f m).
Proof. intros Hm. apply stays_bind; [done|]. intros. apply stays_ret. Qed.

Lemma stays_on_w {A} (m : ST W A) : stays (Service.on_w m).
Proof. intros [s w] Hs. unfold Service.on_w. by destruct (m w). Qed.

Lemma stays_emit et cat vm corr dur ok d : stays (on_events (emit_inner et cat vm corr dur ok d)).
Proof.
  intros [s w] Hs. unfold session_open, on_events, emit_inner in *. simpl in *. destruct (should_persist _ et); [|done].
  destruct (rfc3339_now w) as [ts w1]. simpl. unfold Events.send. simpl. destruct (rx_open (event_store s)); [|done].
  simpl. intros [?|He]%elem_of_app; [done|]. by apply list_elem_of_singleton in He.
Qed.

Lemma stays_slog msg : stays (slog msg).
Proof. apply stays_bind; [apply stays_emit|]. intros. apply stays_ret. Qed.
Hint Resolve stays_slog stays_on_w stays_emit : rs.

Lemma start_server_open : stays (start_server env version).
Proof.
  unfold start_server, start_network, start_parts, start_proxies, check_assets, server_event, emit.
  repeat first [solve [auto with rs] | apply stays_ret | apply stays_st_map | apply stays_bind_ok; [|intros ?]
               | apply stays_bind; [|intros ?] | case_match].
Qed.

(** C14. The gRPC server is started only in a confined state: [main] behaves the same
    whatever the server would do elsewhere than where the five redirect and drop
    rules of the bridge are installed, the sockets of all three proxies are bound,
    the registry is empty and the address pool fresh, the proxies are not cancelled
    and authorization is connected exactly if an address for it is set.  When
    [main] returns an error although serving would have succeeded, so that start-up
    failed, and the event store was open, the session has not been closed. *)
Theorem main_serves_confined (serve serve' : ServerConfig * ProxyParts -> ST (Server * W) (result unit string)) w :
  (forall started s, confined started s -> serve started s = serve' started s) ->
  server_main env version serve w = server_main env version serve' w /\
  ((forall started s, is_ok (serve started s).1 = true) ->
   forall e srv w', server_main env version serve w = (Done (Err e, Some srv), w') -> MsgClose ∉ tx (event_store srv)).
Proof.
  intros Hserve. unfold server_main, bind. destruct (install_crypto w) as [[] w1]; simpl; [|done].
  destruct (new_v4 w1) as [id w2]. destruct (init_telemetry version (uuid_string id) w2) as [[[provider|e]| |] w3]; simpl; [|done..].
  destruct (is_root w3) as [[] w4]; simpl; [|done].
  destruct (st_map _ (open_store _ _ _ _ _) w4) as [[[store conn]|e] w5] eqn:Eo; [|done].
  assert (tx store = []) as Htx.
  { apply context_inv in Eo. unfold open_store in Eo. do 4 apply bind_ok_inv in Eo as (? & ? & _ & Eo).
    apply bind_inv in Eo as (? & ? & _ & Eo). apply bind_ok_inv in Eo as (? & ? & _ & Eo). by injection Eo as <-. }
  unfold bind_ok, bind. set (s0 := (mkServer ∅ IpAllocator.new store false, w5)).
  assert (session_open s0) as Hopen by (unfold session_open; simpl; rewrite Htx; by intros ?%elem_of_nil).
  pose proof (start_server_open s0 Hopen) as Hst. destruct (start_server env version s0) as [[started|e] s1] eqn:Es.
  - apply start_server_run in Es; [|done..]. unfold st_map, bind. rewrite (Hserve started s1 Es). split; [done|].
    intros Hok e srv w'. specialize (Hok started s1). rewrite (Hserve started s1 Es) in Hok.
    destruct (serve' started s1) as [[u'|e'] s2]; [|done]. simpl. unfold ret.
    destruct (server_event _ _ s2) as [v s3]. destruct (on_events close_session s3) as [v' s4].
    by destruct (Service.on_w (provider_shutdown provider) s4) as [v'' [srv' w6]].
  - split; [done|]. intros _ e' srv w'. destruct s1 as [srv1 w6]. simpl. unfold ret. intros [= <- <- <-]. exact Hst.
Qed.

End started.

(** ** A start on the in-memory host *)

(** Its sockets are files. *)
Definition sim_socket (f : string) : option (bool * string) :=
  match RustStr.strip_prefix "tcp/" f, RustStr.strip_prefix "udp/" f with
  | Some a, _ => Some (false, a)
  | None, Some a => Some (true, a)
  | None, None => None
  end.

#[export] Instance sim_sockets : Sockets sim := {|
  tcp_bind a := scripted io_fail (fun s => (Ok 1, set_files (("tcp/" +:+ a) :: sim_files s) s));
  udp_bind a := scripted io_fail (fun s => (Ok 1, set_files (("udp/" +:+ a) :: sim_files s) s));
|}.

#[export] Instance sim_roots : TlsRoots sim := {|
  RootCert := string;
  TLS_SERVER_ROOTS := ["webpki"%string];
  load_native_certs := ret (["native"%string], []);
  parsable _ := true;
|}.

#[export] Instance sim_dirs : Directories sim := {| create_dir_all _ := ret (Ok tt) |}.

#[export] Instance sim_rcgen : Rcgen sim := {|
  KeyPair := unit;
  Certificate := unit;
  san := string;
  key_generate := ret (Ok tt);
  key_from_pem _ := Ok tt;
  key_serialize_pem _ := "key"%string;
  subject_names := Ok;
  self_signed _ _ := ret (Ok tt);
  signed_by _ _ _ _ := ret (Ok tt);
  cert_pem_text _ := "cert"%string;
|}.

#[export] Instance sim_sqlite : SqliteFiles sim := {|
  db_open _ := ret (Ok 1);
  db_open_readonly _ := ret (Ok 1);
  db_execute_batch _ _ := ret (Ok tt);
  db_execute _ _ _ := ret (Ok 1);
  db_select _ _ _ := ret (Ok []);
|}.

#[export] Instance sim_display : SqlDisplay := {| sql_error_string _ := "error"%string |}.

#[export] Instance sim_telemetry : OpenTelemetry sim := {|
  OtelExporter := unit;
  OtelProvider := Resource;
  OtelTracer := Resource * string;
  EnvFilter := string;
  span_exporter_build := ret (Ok tt);
  provider_build r _ := ret r;
  provider_tracer r n := (r, n);
  try_from_default_env := ret (Err "unset"%string);
  filter_new s := s;
  subscriber_init _ _ _ := ret true;
  provider_shutdown _ := ret (Ok tt);
|}.

#[export] Instance sim_host : Host sim := {|
  install_crypto := ret true;
  is_root := ret true;
  process_id := ret 1;
  netlink_connect := ret (Ok tt);
|}.

Lemma starts_tcp a : sim_socket ("tcp/" +:+ a) = Some (false, a).
Proof. reflexivity. Qed.
Lemma starts_udp a : sim_socket ("udp/" +:+ a) = Some (true, a).
Proof. reflexivity. Qed.

#[export] Instance sim_start_laws : StartLaws sim.
Proof.
  refine {| bound s := omap sim_socket (sim_files s) |}; intros; try done.
  - unfold tcp_bind, sim_sockets, scripted. simpl. by destruct (default false (head (sim_script w))).
  - unfold udp_bind, sim_sockets, scripted. simpl. by destruct (default false (head (sim_script w))).
Defined.

Definition example_env (v : string) : option string := if String.eqb v "CLAWPOT_ROOT" then Some "/c"%string else None.

Definition asset_host : sim := set_files ["/c/assets/kernels/vmlinux"; "/c/assets/rootfs/ubuntu.ext4"]%string empty_sim.

(** The server starts, serves and closes its session. *)
Example example_start :
  match (server_main example_env "0.1.0" (fun _ => ret (Ok tt)) asset_host).1 with
  | Done (Ok _, Some srv) => last (tx (event_store srv)) = Some MsgClose
  | _ => False
  end.
Proof. by vm_compute. Qed.

(** A server that would misbehave without the bridge, with the rules in place. *)
Lemma main_serves_confined_witness :
  let serve := fun (_ : ServerConfig * ProxyParts) => ret (S := Server * sim) (Ok tt) in
  let serve' := fun (_ : ServerConfig * ProxyParts) (s : Server * sim) =>
    if bool_decide (sim_rules s.2 "nat" "PREROUTING" = []) then (Err "unconfined"%string, s) else (Ok tt, s) in
  server_main example_env "0.1.0" serve asset_host = server_main example_env "0.1.0" serve' asset_host /\
  ((forall started s, is_ok (serve started s).1 = true) ->
   forall e srv w', server_main example_env "0.1.0" serve asset_host = (Done (Err e, Some srv), w') -> MsgClose ∉ tx (event_store srv)).
Proof.
  intros serve serve'. apply (main_serves_confined example_env "0.1.0" serve serve' asset_host).
  intros started s (_ & Hrules & _). unfold serve, serve', ret. rewrite bool_decide_false; [done|].
  intros Hnil. assert (Exists (fun e : rule_at => e.1 = ("nat", "PREROUTING")%string) (bridge_rules (bridge_name nm_new))) as Hex.
  { vm_compute. repeat (apply Exists_cons; first [left; reflexivity | right]). }
  apply Exists_exists in Hex as (e & He & Heq). eapply Forall_forall in Hrules; [|exact He].
  unfold has_rule in Hrules. rewrite Heq in Hrules. simpl in Hrules. rewrite Hnil in Hrules. by apply elem_of_nil in Hrules.
Defined.
