(* ===== verification/Cli.v ===== *)
(** clawpot-cli/src: the command-line client (main.rs and commands/; the log
    commands are in [CliLogs]), and a command run through all three programs: the
    client, the server's handler and the guest agent. *)

From S2P Require Import Prelude RustStr World Grpc Json SimWorld Events Sql Registry.
From S2P Require Import IpAllocator AgentClient Agent CliLogs Service.
From Stdlib Require Import ZArith Lia Ascii String.
From Stdlib Require Import Strings.Byte.
From stdpp Require Import base gmap strings list.

Open Scope Z_scope.

(** * The command line, as clap parses it *)

Inductive LogsAction : Type :=
| LogsSessions (db : option string)
| LogsShow (db session vm category event_type : option string) (limit : option Z)
| LogsExport (db session : option string) (format : string)
| LogsTimeline (db session vm : option string).

Inductive CliCommand : Type :=
| CmdCreate (vcpus memory : option Z)   (* u32 *)
| CmdDelete (vm_id : string)
| CmdList
| CmdExec (vm_id : string) (command : list string)
| CmdLogs (action : LogsAction).

Record Cli : Type := mkCli { cli_server : string; cli_command : CliCommand }.

(** * What the client uses *)

(** The channel ([Channel::from_shared(server)?.connect()]) and the calls of the
    generated client, which have no time limit: [None] is one never answered. *)
Class ClawpotClient (W : Type) := {
  channel_connect : string -> ST W (result Z string);
  rpc_create_vm : Z -> CreateVmRequest -> ST W (option (result CreateVmResponse Status));
  rpc_delete_vm : Z -> string -> ST W (option (result bool Status));
  rpc_list_v_ms : Z -> ST W (option (result (list VmInfo) Status));
  rpc_exec_vm : Z -> ExecVmRequest -> ST W (option (result ExecResponse Status));
}.

(** [std::io::stdout().write_all] and the same of stderr *)
Class StdStreams (W : Type) := {
  stdout_write : list byte -> ST W (result unit io_error);
  stderr_write : list byte -> ST W (result unit io_error);
}.

Record VmRow : Type := mkVmRow { row_vm_id : string; row_state : string; row_ip_address : string; row_vcpus : Z; row_memory : Z }.

(** [Display] of [tonic::Status], and the text of a table of the [tabled] crate. *)
Class CliText := {
  status_text : Status -> string;
  table_text : list VmRow -> string;
}.

(** How the program ends: [main] returns, or the process exits with a code. *)
Inductive program_end : Type :=
| Returned (r : result unit error)
| Exited (exit_code : Z).

Section commands.
Context {W : Type} `{ClawpotClient W} `{StdStreams W} `{Console W} `{CliText}.

Definition rpc_err {A} (r : result A Status) : result A error := map_err (fun s => anyhow (status_text s)) r.

(** create.rs, [execute] *)
Definition create_execute (client : Z) (vcpus memory : option Z) : ST W (option (result unit error)) :=
  let request := mkCreateVmRequest vcpus memory in
  do! println "Creating VM..." in
  let* vm_info := st_map (fmap rpc_err) (rpc_create_vm client request) in
  do! println (nl +:+ "✓ VM created successfully!") in
  do! println ("  VM ID:      " +:+ resp_vm_id vm_info) in
  do! println ("  IP Address: " +:+ resp_ip_address vm_info) in
  do! println ("  Socket:     " +:+ resp_socket_path vm_info) in
  ret (Some (Ok tt)).

(** delete.rs, [execute] *)
Definition delete_execute (client : Z) (vm_id : string) : ST W (option (result unit error)) :=
  do! println ("Deleting VM " +:+ vm_id +:+ "...") in
  let* success := st_map (fmap rpc_err) (rpc_delete_vm client vm_id) in
  do! println (if (success : bool) then nl +:+ "✓ VM deleted successfully!" else nl +:+ "✗ Failed to delete VM") in
  ret (Some (Ok tt)).

(** [VmState::try_from(state)] and its name *)
Definition state_str (state : Z) : string :=
  if state =? 0 then "Unspecified" else if state =? 1 then "Starting" else if state =? 2 then "Running"
  else if state =? 3 then "Stopping" else if state =? 4 then "Stopped" else if state =? 5 then "Error" else "Unknown".

Definition vm_row (vm : VmInfo) : VmRow :=
  mkVmRow (vi_vm_id vm) (state_str (vi_state vm)) (vi_ip_address vm) (vi_vcpu_count vm) (vi_mem_size_mib vm).

(** list.rs, [execute] *)
Definition list_execute (client : Z) : ST W (option (result unit error)) :=
  let* vms := st_map (fmap rpc_err) (rpc_list_v_ms client) in
  match vms with
  | [] => do! println "No VMs running" in ret (Some (Ok tt))
  | _ =>
      let rows := map vm_row vms in
      do! println (table_text rows) in
      do! println (nl +:+ "Total: " +:+ show_Z (Z.of_nat (length rows)) +:+ " VM(s)") in
      ret (Some (Ok tt))
  end.

Definition plain {A} (r : result A io_error) : result A error := map_err (fun e => anyhow (io_error_msg e)) r.

(** exec.rs, [execute]: it ends the process, so that it returns only an error. *)
Definition exec_execute (client : Z) (vm_id : string) (command : list string) : ST W (outcome program_end) :=
  match command with
  | [] => ret (Done (Returned (Err (anyhow "No command specified"))))
  | cmd :: args =>
      let request := mkExecVmRequest vm_id cmd args [] EmptyString in
      let! r := (let* response := st_map (fmap rpc_err) (rpc_exec_vm client request) in
                 do* st_map (fun r => Some (plain r)) (stdout_write (rs_stdout response)) in
                 do* st_map (fun r => Some (plain r)) (stderr_write (rs_stderr response)) in
                 ret (Some (Ok (rs_exit_code response)))) in
      ret (settled ((fun r => match r with Ok code => Exited code | Err e => Returned (Err e) end) <$> r))
  end.

End commands.

Section main.
Context {W : Type} `{ClawpotClient W} `{StdStreams W} `{Console W} `{CliText} `{SqliteFiles W} `{FileSystem W}
  `{SqlDisplay} `{SerdeJson} `{JsonPretty}.
Context (root : option string).   (* CLAWPOT_ROOT *)

Definition returned (m : ST W (result unit error)) : ST W (outcome program_end) := st_map (fun r => Done (Returned r)) m.

(** The same for a command that awaits the server. *)
Definition awaited (m : ST W (option (result unit error))) : ST W (outcome program_end) :=
  st_map (fun r => settled (Returned <$> r)) m.

(** [main()] on the parsed command line: the log commands need no server. *)
Definition cli_main (cli : Cli) : ST W (outcome program_end) :=
  match cli_command cli with
  | CmdLogs action =>
      match action with
      | LogsSessions db => returned (Logs.execute_sessions root db)
      | LogsShow db session vm category event_type limit => returned (Logs.execute_show root db session vm category event_type limit)
      | LogsExport db session format => returned (Logs.execute_export root db session format)
      | LogsTimeline db session vm =>
          st_map (fun o => match o with Done r => Done (Returned r) | Panic => Panic | NoFuel => NoFuel end)
            (Logs.execute_timeline root db session vm)
      end
  | command =>
      let! channel := channel_connect (cli_server cli) in
      match channel with
      | Err e => ret (Done (Returned (Err (anyhow e))))
      | Ok client =>
          match command with
          | CmdCreate vcpus memory => awaited (create_execute client vcpus memory)
          | CmdDelete vm_id => awaited (delete_execute client vm_id)
          | CmdList => awaited (list_execute client)
          | CmdExec vm_id command => exec_execute client vm_id command
          | CmdLogs _ => ret Panic
          end
      end
  end.

End main.

(** * A command from end to end *)

(** The standard streams of a client that runs next to the server's memory. *)
#[export] Instance shared_streams {W : Type} `{StdStreams W} : StdStreams (Server * W) := {|
  stdout_write bs := Service.on_w (stdout_write bs);
  stderr_write bs := Service.on_w (stderr_write bs);
|}.

(** What the two streams have received, and that nothing else writes to them. *)
Class StreamLaws (W : Type) `{StdStreams W, AgentTransport W, Commands W, Clock W, Timestamps W} := {
  on_stdout : W -> list byte;
  on_stderr : W -> list byte;
  stdout_law : forall bs w, (stdout_write bs w).1 = Ok tt /\ on_stdout (stdout_write bs w).2 = on_stdout w ++ bs /\
    on_stderr (stdout_write bs w).2 = on_stderr w;
  stderr_law : forall bs w, (stderr_write bs w).1 = Ok tt /\ on_stderr (stderr_write bs w).2 = on_stderr w ++ bs /\
    on_stdout (stderr_write bs w).2 = on_stdout w;
  instant_streams : forall w, on_stdout (instant_now w).2 = on_stdout w /\ on_stderr (instant_now w).2 = on_stderr w;
  now_streams : forall w, on_stdout (rfc3339_now w).2 = on_stdout w /\ on_stderr (rfc3339_now w).2 = on_stderr w;
  uds_connect_streams : forall p w, on_stdout (uds_connect p w).2 = on_stdout w /\ on_stderr (uds_connect p w).2 = on_stderr w;
  uds_write_streams : forall h s w, on_stdout (uds_write_all h s w).2 = on_stdout w /\ on_stderr (uds_write_all h s w).2 = on_stderr w;
  uds_read_streams : forall h w, on_stdout (uds_read_line h w).2 = on_stdout w /\ on_stderr (uds_read_line h w).2 = on_stderr w;
  output_streams : forall t c w, on_stdout (timeout_output t c w).2 = on_stdout w /\ on_stderr (timeout_output t c w).2 = on_stderr w;
}.

Definition streams {W : Type} `{StreamLaws W} (w : W) : list byte * list byte := (on_stdout w, on_stderr w).

(** *** Unary calls

    A call of a tonic client reaches its handler and brings the answer back, or it ends
    with an error status, or it is never answered.  Both ends decode messages of up to
    tonic's default size only, which no code here raises: a longer request is refused
    before the handler runs, and a longer answer is an error for the caller. *)
Definition MAX_RECV_MESSAGE_SIZE : Z := 4 * 1024 * 1024.

(** The sizes of the messages of a command, as prost encodes them ([ExecVmResponse] has
    the fields of [ExecResponse]).  A [bytes] field is copied into the message. *)
Class ExecMessages := {
  exec_vm_request_len : ExecVmRequest -> Z;
  exec_request_len : ExecRequest -> Z;
  exec_response_len : ExecResponse -> Z;
  response_holds_output : forall r,
    Z.of_nat (length (rs_stdout r)) + Z.of_nat (length (rs_stderr r)) <= exec_response_len r;
}.

(** [handled] is what the handler does with the request; a call that fails or is not
    answered leaves [seen] alone, whatever became of the handler. *)
Inductive unary_call {S A E X} (seen : S -> X) (request_len : Z) (response_len : A -> Z)
    (handled : option (result A Status) * S) (s : S) : option (result A E) * S -> Prop :=
| call_answered resp s' :
    request_len <= MAX_RECV_MESSAGE_SIZE -> handled = (Some (Ok resp), s') ->
    response_len resp <= MAX_RECV_MESSAGE_SIZE -> unary_call seen request_len response_len handled s (Some (Ok resp), s')
| call_failed e s' : seen s' = seen s -> unary_call seen request_len response_len handled s (Some (Err e), s')
| call_pending s' : seen s' = seen s -> unary_call seen request_len response_len handled s (None, s').

(** The registry, the allocator and the client's streams. *)
Definition shared {W : Type} `{StreamLaws W} (s : Server * W) : VmRegistry * IpAllocator * (list byte * list byte) :=
  (vm_registry s.1, ip_allocator s.1, streams s.2).

(** The three programs are connected: the client's call goes to the server's [exec_vm]
    and the server's to the agent's [exec]. *)
Class Deployment (W : Type) `{ClawpotClient (Server * W), UuidText, SerdeJson, CliText, ExecMessages, StreamLaws W} := {
  exec_vm_rpc : forall client req s,
    unary_call shared (exec_vm_request_len req) exec_response_len (exec_vm req s) s (rpc_exec_vm client req s);
  agent_exec_rpc : forall client req (w : W),
    unary_call streams (exec_request_len req) exec_response_len (st_map Some (agent_exec req) w) w (rpc_exec client req w);
}.

(** What the client shows for what became of the process. *)
Definition shown (o : option (result Output io_error)) : ExecResponse :=
  match o with
  | Some (Ok out) => mkExecResponse (default (-1) (status_code out)) (out_stdout out) (out_stderr out)
  | Some (Err e) => mkExecResponse (-1) [] (bytes_of_str ("Failed to execute command: " +:+ io_error_msg e +:+ nl))
  | None => mkExecResponse (-1) [] (bytes_of_str ("Command timed out after 300 seconds" +:+ nl))
  end.

Section end_to_end.
Context {W : Type} `{Deployment W}.

Lemma streams_eq (w w' : W) : on_stdout w' = on_stdout w /\ on_stderr w' = on_stderr w -> streams w' = streams w.
Proof. intros [Ho He]. unfold streams. by rewrite Ho, He. Qed.

Lemma connect_streams path : keeps streams (connect path).
Proof.
  unfold connect, connector. apply keeps_st_map, keeps_bind_awaited; [intros w; apply streams_eq, uds_connect_streams|].
  intros h. apply keeps_bind_awaited; [intros w; apply streams_eq, uds_write_streams|].
  intros ?. apply keeps_bind_awaited; [intros w; apply streams_eq, uds_read_streams|].
  intros r. destruct (starts_with "OK" r); apply keeps_ret.
Qed.

(** The agent answers every request. *)
Lemma agent_exec_run req w o w' :
  timeout_output EXEC_TIMEOUT (command_of req) w = (o, w') -> agent_exec req w = (Ok (shown o), w').
Proof.
  intros Ho. unfold agent_exec, run_command, st_map, bind, ret. rewrite Ho.
  by destruct o as [[out|e]|].
Qed.

Lemma emit_duration_run et vm dur ok d (srv : Server) (w : W) :
  exists n s', on_events (emit_with_duration et "vm" vm None dur ok d) (srv, w) = (n, s') /\ shared s' = shared (srv, w).
Proof.
  unfold on_events, emit_with_duration, emit_inner. destruct (should_persist _ et); [|by do 2 eexists].
  pose proof (now_streams w) as Hn. destruct (rfc3339_now w) as [ts w1]. do 2 eexists. split; [done|].
  apply streams_eq in Hn. unfold shared. simpl in *. by rewrite Hn.
Qed.

(** *** The server's part *)

(** The command was run in the VM, with these arguments, and [o] became of it. *)
Definition ran (vm_id cmd : string) (args : list string) (srv : Server) (w : W) (o : option (result Output io_error)) : Prop :=
  exists id path start w1 agent w2 w3,
    uuid_parse_str vm_id = Ok id /\ get_vsock_path id (vm_registry srv) = Ok path /\
    instant_now w = (start, w1) /\ connect path w1 = (Some (Ok agent), w2) /\
    timeout_output EXEC_TIMEOUT (mkCommand cmd args None ∅) w2 = (o, w3).


(** What is seen of the client's answer. *)
Lemma exec_vm_answered vm_id cmd args srv w resp s' :
  exec_vm (mkExecVmRequest vm_id cmd args [] EmptyString) (srv, w) = (Some (Ok resp), s') ->
  shared s' = shared (srv, w) /\ exists o, ran vm_id cmd args srv w o /\ resp = shown o.
Proof.
  unfold exec_vm. cbn [ex_vm_id]. unfold bind at 1, Service.on_w at 1.
  pose proof (instant_streams w) as S1. destruct (instant_now w) as [start w1] eqn:Hnow. apply streams_eq in S1. simpl in S1.
  destruct (uuid_parse_str vm_id) as [id|e] eqn:Hid; [|done].
  unfold bind_awaited at 1, st_map at 1, bind at 1 2, read_registry at 1. cbn [fst ret].
  destruct (get_vsock_path id (vm_registry srv)) as [path|e] eqn:Hpath; [|done]. cbn [map_err].
  unfold bind_awaited at 1, st_map at 1, bind at 1 2, Service.on_w at 1.
  pose proof (connect_streams path w1) as S2. destruct (connect path w1) as [[[agent|e]|] w2] eqn:Hconn; [|done..].
  simpl in S2. cbn [ret fmap option_fmap option_map map_err].
  unfold bind_awaited at 1, st_map at 1, bind at 1 2, Service.on_w at 1, exec, st_map at 1, bind at 1.
  set (req := mkExecRequest _ _ _ _).
  pose proof (output_streams EXEC_TIMEOUT (mkCommand cmd args None ∅) w2) as S3.
  destruct (timeout_output EXEC_TIMEOUT (mkCommand cmd args None ∅) w2) as [o w3] eqn:Hout. apply streams_eq in S3. simpl in S3.
  pose proof (agent_exec_run req w2 o w3 Hout) as Ha.
  pose proof (agent_exec_rpc agent req w2) as Hrpc. unfold st_map, bind, ret in Hrpc. rewrite Ha in Hrpc.
  inversion Hrpc as [r w' _ Hh _ Hc|e w' Hs Hc|w' Hs Hc]; [|done..]. injection Hh as <- <-.
  cbn [ret fmap option_fmap option_map map_err]. unfold bind at 1, Service.on_w at 1.
  pose proof (instant_streams w3) as S4. destruct (instant_now w3) as [now w5]. apply streams_eq in S4. simpl in S4.
  edestruct (emit_duration_run "vm.exec") as (n & s6 & He & Hs6). erewrite bind_eq by exact He. intros [= <- <-].
  split; [|by exists o; split; [do 7 eexists|]]. rewrite Hs6. unfold shared. simpl. by rewrite S4, S3, S2, S1.
Qed.

(** A command that reached the agent, whose answer reached the server. *)
Lemma exec_vm_delivered vm_id cmd args srv w id path start w1 agent w2 o w3 :
  uuid_parse_str vm_id = Ok id -> get_vsock_path id (vm_registry srv) = Ok path ->
  instant_now w = (start, w1) -> connect path w1 = (Some (Ok agent), w2) ->
  timeout_output EXEC_TIMEOUT (mkCommand cmd args None ∅) w2 = (o, w3) ->
  rpc_exec agent (mkExecRequest cmd args [] EmptyString) w2 = (Some (Ok (shown o)), w3) ->
  exists s', exec_vm (mkExecVmRequest vm_id cmd args [] EmptyString) (srv, w) = (Some (Ok (shown o)), s').
Proof.
  intros Hid Hpath Hnow Hconn Hout Hrpc. unfold exec_vm.
  erewrite bind_eq by (unfold Service.on_w; by rewrite Hnow). cbn [ex_vm_id ex_command ex_args ex_env ex_working_dir].
  rewrite Hid. erewrite bind_awaited_eq by (unfold st_map, bind, read_registry, ret; cbn [fst]; by rewrite Hpath).
  erewrite bind_awaited_eq by (unfold st_map, bind, Service.on_w, ret; by rewrite Hconn).
  erewrite bind_awaited_eq by (unfold st_map, bind, Service.on_w, exec, st_map, bind, ret; by rewrite Hrpc).
  destruct (instant_now w3) as [now w5] eqn:En. erewrite bind_eq by (unfold Service.on_w; by rewrite En).
  edestruct (emit_duration_run "vm.exec") as (n & s' & He & _). erewrite bind_eq by exact He. by exists s'.
Qed.

(** *** The client's part *)

(** The client writes what it is answered, and nothing when it is not. *)
Lemma exec_execute_run client vm_id cmd args (s : Server * W) r s1 :
  rpc_exec_vm client (mkExecVmRequest vm_id cmd args [] EmptyString) s = (r, s1) ->
  exists s', exec_execute client vm_id (cmd :: args) s =
    (match r with
     | Some (Ok resp) => Done (Exited (rs_exit_code resp))
     | Some (Err st) => Done (Returned (Err (anyhow (status_text st))))
     | None => NoFuel
     end, s') /\
    s'.1 = s1.1 /\
    streams s'.2 = match r with
                   | Some (Ok resp) => (on_stdout s1.2 ++ rs_stdout resp, on_stderr s1.2 ++ rs_stderr resp)
                   | _ => streams s1.2
                   end.
Proof.
  intros Hrpc. unfold exec_execute. unfold bind at 1, bind_awaited at 1, st_map at 1, bind at 1 2. rewrite Hrpc.
  destruct r as [[resp|st]|]; [|by exists s1..]. destruct s1 as [srv w1]. cbn [ret fmap option_fmap option_map rpc_err map_err].
  unfold bind_awaited at 1, st_map at 1, bind at 1 2. cbn [stdout_write shared_streams]. unfold Service.on_w at 1.
  destruct (stdout_law (rs_stdout resp) w1) as (W1 & W2 & W3). destruct (stdout_write _ w1) as [r5 w5]. simpl in W1, W2, W3. subst r5.
  cbn [plain map_err ret]. unfold bind_awaited at 1, st_map at 1, bind at 1 2. cbn [stderr_write shared_streams]. unfold Service.on_w at 1.
  destruct (stderr_law (rs_stderr resp) w5) as (V1 & V2 & V3). destruct (stderr_write _ w5) as [r6 w6]. simpl in V1, V2, V3. subst r6.
  exists (srv, w6). split; [done|]. split; [done|]. unfold streams. simpl. by rewrite V2, V3, W2, W3.
Qed.

(** C22. A command from end to end: when the client's [exec] exits with a code, the VM
    was registered, its agent was reached, and exactly the program with the arguments
    given was run there, with no variables and no directory; the client has written
    what the process wrote to its standard output and error to its own and exits with
    its code (-1 when a signal ended it); a command that could not be run or took more
    than five minutes gives -1 and a line on the error output that says so.  Together
    the two outputs are then no longer than tonic's limit of 4 MiB.  In every other
    case, longer outputs among them, the client returns an error or waits, and has
    written nothing.  The registry and the addresses are untouched.  When the VM is
    registered, its agent reached, and the two calls get through, the client does exit
    with the code of the process. *)
Theorem cli_exec_end_to_end client vm_id cmd args srv (w : W) :
  let '(r, (srv', w')) := exec_execute client vm_id (cmd :: args) (srv, w) in
  (vm_registry srv' = vm_registry srv /\ ip_allocator srv' = ip_allocator srv /\
   match r with
   | Done (Exited code) => exists o, ran vm_id cmd args srv w o /\ code = rs_exit_code (shown o) /\
       on_stdout w' = on_stdout w ++ rs_stdout (shown o) /\ on_stderr w' = on_stderr w ++ rs_stderr (shown o) /\
       Z.of_nat (length (rs_stdout (shown o))) + Z.of_nat (length (rs_stderr (shown o))) <= MAX_RECV_MESSAGE_SIZE
   | Done (Returned (Err _)) | NoFuel => on_stdout w' = on_stdout w /\ on_stderr w' = on_stderr w
   | Done (Returned (Ok _)) | Panic => False
   end) /\
  (forall id path start w1 agent w2 o w3,
     uuid_parse_str vm_id = Ok id -> get_vsock_path id (vm_registry srv) = Ok path ->
     instant_now w = (start, w1) -> connect path w1 = (Some (Ok agent), w2) ->
     timeout_output EXEC_TIMEOUT (mkCommand cmd args None ∅) w2 = (o, w3) ->
     rpc_exec agent (mkExecRequest cmd args [] EmptyString) w2 = (Some (Ok (shown o)), w3) ->
     rpc_exec_vm client (mkExecVmRequest vm_id cmd args [] EmptyString) (srv, w) =
       exec_vm (mkExecVmRequest vm_id cmd args [] EmptyString) (srv, w) ->
     r = Done (Exited (rs_exit_code (shown o)))).
Proof.
  set (req := mkExecVmRequest vm_id cmd args [] EmptyString).
  pose proof (exec_vm_rpc client req (srv, w)) as Hcall. destruct (rpc_exec_vm client req (srv, w)) as [r0 s1] eqn:Hrpc.
  destruct (exec_execute_run client vm_id cmd args (srv, w) r0 s1 Hrpc) as ([srv' w'] & -> & Hsrv & Hst). simpl in Hsrv.
  split.
  - inversion Hcall as [resp s2 _ Hh Hlen Heq|e s2 Hs Heq|s2 Hs Heq]; subst r0 s1.
    + destruct (exec_vm_answered vm_id cmd args srv w _ _ Hh) as (Hs & o & Hran & ->). injection Hs as Hreg Hal Ho He.
      injection Hst as Ho' He'. subst srv'. split; [done|]. split; [done|]. exists o.
      rewrite Ho', He', Ho, He. pose proof (response_holds_output (shown o)). split_and!; [done..|lia].
    + injection Hs as Hreg Hal Ho He. injection Hst as Ho' He'. subst srv'. by rewrite Ho', He', Ho, He.
    + injection Hs as Hreg Hal Ho He. injection Hst as Ho' He'. subst srv'. by rewrite Ho', He', Ho, He.
  - intros id path start w1 agent w2 o w3 Hid Hpath Hnow Hconn Hout Hagent Hreq.
    destruct (exec_vm_delivered _ _ _ _ _ _ _ _ _ _ _ _ _ Hid Hpath Hnow Hconn Hout Hagent) as [s2 Hx].
    fold req in Hx. rewrite Hx in Hreq. by injection Hreq as -> ->.
Qed.

End end_to_end.

(** ** A deployment in one process *)

Record cli_host : Type := mkCliHost { ch_sim : sim; ch_out : list byte; ch_err : list byte }.

Definition on_ch {A} (m : ST sim A) : ST cli_host A :=
  fun h => let '(a, s) := m (ch_sim h) in (a, mkCliHost s (ch_out h) (ch_err h)).

#[export] Instance ch_clock : Clock cli_host := {|
  instant_now := on_ch instant_now; system_now := on_ch system_now; sleep_ms n := on_ch (sleep_ms n) |}.
#[export] Instance ch_timestamps : Timestamps cli_host := {| rfc3339_now := on_ch rfc3339_now; rfc3339_long := on_ch rfc3339_long |}.
#[export] Instance ch_streams : StdStreams cli_host := {|
  stdout_write bs := fun h => (Ok tt, mkCliHost (ch_sim h) (ch_out h ++ bs) (ch_err h));
  stderr_write bs := fun h => (Ok tt, mkCliHost (ch_sim h) (ch_out h) (ch_err h ++ bs));
|}.

(** In the VM, [echo] prints its arguments and everything else cannot be run. *)
#[export] Instance ch_commands : Commands cli_host := {|
  timeout_output _ c := ret (Some (
    if String.eqb (cmd_program c) "echo"
    then Ok (mkOutput (Some 0) (bytes_of_str (str_join " " (cmd_args c) +:+ nl)) [])
    else Err (mkIoError OtherKind "No such file or directory")));
|}.

#[export] Instance debug_text : CliText := {| status_text := message; table_text _ := "table"%string |}.

(** Sizes without the few bytes of the encoding. *)
#[export] Instance plain_sizes : ExecMessages.
Proof.
  refine {| exec_vm_request_len r := Z.of_nat (String.length (ex_command r)); exec_request_len r := Z.of_nat (String.length (er_command r));
            exec_response_len r := Z.of_nat (length (rs_stdout r)) + Z.of_nat (length (rs_stderr r)) |}. intros r. lia.
Defined.

(** A call that arrives when both messages are of an accepted size. *)
Definition limited {S A E} (to_err : Status -> E) (request_len : Z) (response_len : A -> Z)
    (handler : ST S (option (result A Status))) : ST S (option (result A E)) :=
  let too_long := ret (Some (Err (to_err (mkStatus (OtherCode 11) "decoded message length too large")))) in
  if MAX_RECV_MESSAGE_SIZE <? request_len then too_long
  else let! r := handler in
       match r with
       | Some (Ok resp) => if MAX_RECV_MESSAGE_SIZE <? response_len resp then too_long else ret (Some (Ok resp))
       | Some (Err st) => ret (Some (Err (to_err st)))
       | None => ret None
       end.

Lemma limited_keeps {S A E X} (seen : S -> X) (to_err : Status -> E) request_len (response_len : A -> Z) handler :
  keeps seen handler -> keeps seen (limited to_err request_len response_len handler).
Proof.
  intros Hk. unfold limited. case_match; [apply keeps_ret|]. apply keeps_bind; [done|].
  intros [[resp|st]|]; [case_match|..]; apply keeps_ret.
Qed.

Lemma limited_call {S A E X} (seen : S -> X) (to_err : Status -> E) request_len (response_len : A -> Z) handler s :
  keeps seen handler ->
  unary_call seen request_len response_len (handler s) s (limited to_err request_len response_len handler s).
Proof.
  intros Hk. unfold limited. destruct (Z.ltb_spec MAX_RECV_MESSAGE_SIZE request_len) as [Hl|Hl]; [by apply call_failed|].
  unfold bind. specialize (Hk s). destruct (handler s) as [[[resp|st]|] s']; simpl in Hk; [|by constructor..].
  destruct (Z.ltb_spec MAX_RECV_MESSAGE_SIZE (response_len resp)); by econstructor.
Qed.

#[export] Instance ch_agent : AgentTransport cli_host := {|
  uds_connect p := on_ch (uds_connect p);
  uds_write_all h s := on_ch (uds_write_all h s);
  uds_read_line h := on_ch (uds_read_line h);
  rpc_health h := on_ch (rpc_health h);
  rpc_exec _ req := limited status_text (exec_request_len req) exec_response_len (st_map Some (agent_exec req));
|}.

#[export] Instance ch_client : ClawpotClient (Server * cli_host) := {|
  channel_connect _ := ret (Ok 1);
  rpc_create_vm _ _ := ret (Some (Err (mkStatus Unavailable "down")));
  rpc_delete_vm _ _ := ret (Some (Err (mkStatus Unavailable "down")));
  rpc_list_v_ms _ := ret (Some (Ok []));
  rpc_exec_vm _ req := limited id (exec_vm_request_len req) exec_response_len (exec_vm req);
|}.

#[export] Instance ch_laws : StreamLaws cli_host.
Proof.
  refine {| on_stdout := ch_out; on_stderr := ch_err |}; intros; try done; simpl; unfold on_ch; by case_match.
Defined.

Lemma agent_exec_streams req : keeps (S := cli_host) streams (agent_exec req).
Proof.
  apply keeps_st_map, keeps_bind; [intros w; apply streams_eq, output_streams|]. intros [[out|e]|]; apply keeps_ret.
Qed.

Lemma on_w_shared {A} (m : ST cli_host A) : keeps streams m -> keeps shared (Service.on_w m).
Proof.
  intros Hm [srv w]. unfold Service.on_w. specialize (Hm w). destruct (m w) as [a w']. unfold shared. simpl in *. by rewrite Hm.
Qed.

Lemma exec_vm_shared req : keeps (S := Server * cli_host) shared (exec_vm req).
Proof.
  unfold exec_vm. apply keeps_bind; [by apply on_w_shared|]. intros start.
  destruct (uuid_parse_str (ex_vm_id req)) as [id|e]; [|apply keeps_ret].
  apply keeps_bind_awaited; [by apply keeps_st_map|]. intros path.
  apply keeps_bind_awaited; [apply keeps_st_map, on_w_shared, connect_streams|]. intros agent.
  apply keeps_bind_awaited.
  { apply keeps_st_map, on_w_shared, keeps_st_map, limited_keeps, keeps_st_map, agent_exec_streams. }
  intros resp. apply keeps_bind; [by apply on_w_shared|]. intros now.
  apply keeps_bind; [|intros _; apply keeps_ret]. intros [srv w].
  edestruct (emit_duration_run "vm.exec") as (n & s' & He & Hs). by erewrite He.
Qed.

#[export] Instance ch_deployment : Deployment cli_host.
Proof.
  split.
  - intros client req s. apply limited_call, exec_vm_shared.
  - intros client req w. apply limited_call, keeps_st_map, agent_exec_streams.
Defined.

Definition example_cli_host : cli_host := mkCliHost empty_sim [] [].

(** A command in the VM that [example_create] made: the two outputs are copied. *)
Lemma cli_exec_end_to_end_witness :
  let '(r, (srv', w')) := exec_execute 1 "101001e" ["echo"; "hi"; "there"]%string (example_create.2.1, example_cli_host) in
  r = Done (Exited 0) /\ on_stdout w' = on_stdout example_cli_host ++ bytes_of_str ("hi there" +:+ nl) /\
  on_stderr w' = on_stderr example_cli_host ++ [] /\ vm_registry srv' = vm_registry example_create.2.1.
Proof.
  pose proof (cli_exec_end_to_end 1 "101001e" "echo" ["hi"; "there"]%string example_create.2.1 example_cli_host) as Hx.
  destruct (exec_execute 1 "101001e" ["echo"; "hi"; "there"]%string (example_create.2.1, example_cli_host)) as [r [srv' w']].
  destruct Hx as [(Hreg & _ & Hx) Hd].
  assert (r = Done (Exited 0)) as ->.
  { apply (Hd 100%N (vsock_path_of 100%N) 0 example_cli_host 7 example_cli_host
             (Some (Ok (mkOutput (Some 0) (bytes_of_str ("hi there" +:+ nl)) []))) example_cli_host); by vm_compute. }
  destruct Hx as (o & (id & path & start & w1 & agent & w2 & w3 & Hid & Hpath & Hnow & Hconn & Hout) & _ & Ho & He & _).
  split; [reflexivity|]. injection Hout as <- <-. split; [exact Ho|]. split; [exact He|exact Hreg].
Defined.

(** A program that does not exist: the exit code is -1 and the reason is shown. *)
Example example_exec_missing :
  let r := exec_execute 1 "101001e" ["nope"%string] (example_create.2.1, example_cli_host) in
  r.1 = Done (Exited (-1)) /\ str_of_bytes (ch_err r.2.2) = "Failed to execute command: No such file or directory" +:+ nl.
Proof. by vm_compute. Qed.
