(* ===== verification/UnitTests.v ===== *)
(** The unit tests of the sources, run on the model.

    Each [#[test]] function of the [tests] modules under src/ is a function here that
    makes the same calls and the same assertions; it returns [Done tt] when it
    passes and [Panic] when an assertion or an [unwrap] fails.  The tests of the
    event store are in [EventTests].  Tests that the repository ignores by default
    because they need root run on the in-memory host of [SimWorld]. *)

From S2P Require Import Prelude RustStr Addr World Json SimWorld IpAllocator Lifecycle FcConfig.
From S2P Require Import VmManager Network Events Registry ProxyProtocol Sni DnsProxy DnsTcp Llm.
From Stdlib Require Import ZArith Lia Ascii String.
From Stdlib Require Import Strings.Byte.
From stdpp Require Import base gmap strings list.

Open Scope Z_scope.

(** * Assertions *)

(** [r.unwrap()] and [r.expect("...")] *)
Definition unwrap {A E} (r : result A E) : outcome A := match r with Ok a => Done a | Err _ => Panic end.
Definition unwrap_some {A} (o : option A) : outcome A := match o with Some a => Done a | None => Panic end.

(** [assert!(b)], [assert_eq!(a, b)], [assert_ne!(a, b)] *)
Definition assert (b : bool) : outcome unit := if b then Done tt else Panic.
Definition assert_eq {A} `{EqDecision A} (a b : A) : outcome unit := assert (bool_decide (a = b)).
Definition assert_ne {A} `{EqDecision A} (a b : A) : outcome unit := assert (negb (bool_decide (a = b))).

(** All of a list of tests or assertions. *)
Fixpoint all (ts : list (outcome unit)) : outcome unit :=
  match ts with [] => Done tt | t :: rest => let$ _ := t in all rest end.

Definition is_err {A E} (r : result A E) : bool := negb (is_ok r).

(** * clawpot-server/src/network/ip_allocator.rs *)

Module IpAllocatorTests.

Definition test_allocate_first_ip : outcome unit :=
  let '(r, _) := allocate IpAllocator.new in
  let$ ip := unwrap r in
  assert_eq ip (V4 (ipv4 192 168 100 2)).

Definition test_allocate_multiple_ips : outcome unit :=
  let '(r1, a) := allocate IpAllocator.new in
  let$ ip1 := unwrap r1 in
  let '(r2, a) := allocate a in
  let$ ip2 := unwrap r2 in
  let '(r3, a) := allocate a in
  let$ ip3 := unwrap r3 in
  all [assert_eq ip1 (V4 (ipv4 192 168 100 2)); assert_eq ip2 (V4 (ipv4 192 168 100 3)); assert_eq ip3 (V4 (ipv4 192 168 100 4))].

Definition test_release_and_reallocate : outcome unit :=
  let '(r1, a) := allocate IpAllocator.new in
  let$ ip1 := unwrap r1 in
  let '(r2, a) := allocate a in
  let$ _ := unwrap r2 in
  let '(r, a) := release ip1 a in
  let$ _ := unwrap r in
  let$ _ := assert_eq (available_count a) 252%nat in
  let '(r3, a) := allocate a in
  let$ ip3 := unwrap r3 in
  assert_ne ip3 ip1.

(** [for i in 0..n]: each allocation succeeds. *)
Fixpoint allocate_n (n : nat) (a : IpAllocator) : outcome IpAllocator :=
  match n with
  | O => Done a
  | S n' => let '(r, a') := allocate a in let$ _ := assert (is_ok r) in allocate_n n' a'
  end.

Definition test_allocate_all_ips : outcome unit :=
  let$ a := allocate_n 253 IpAllocator.new in
  let '(result, _) := allocate a in
  all [assert (is_err result);
       match result with Err e => assert (contains "No available IP" (err_string e)) | Ok _ => Panic end].

Definition test_release_invalid_ip : outcome unit :=
  let '(r1, a) := release (V4 (ipv4 192 168 100 1)) IpAllocator.new in
  let$ _ := assert (is_err r1) in
  let '(r2, a) := release (V4 (ipv4 192 168 100 255)) a in
  let$ _ := assert (is_err r2) in
  let '(r3, a) := release (V4 (ipv4 10 0 0 1)) a in
  assert (is_err r3).

Definition test_gateway : outcome unit := assert_eq (gateway IpAllocator.new) (V4 (ipv4 192 168 100 1)).

Example ip_allocator_pass :
  Forall (eq (Done tt)) [test_allocate_first_ip; test_allocate_multiple_ips; test_release_and_reallocate; test_allocate_all_ips;
                         test_release_invalid_ip; test_gateway].
Proof. repeat (constructor; [vm_compute; reflexivity|]); constructor. Qed.

End IpAllocatorTests.

(** * clawpot-common/src/vm/lifecycle.rs *)

Module LifecycleTests.

Definition test_valid_transitions : outcome unit :=
  let l := Lifecycle.new in
  let$ _ := assert_eq (current_state l) NotStarted in
  let '(r, l) := transition_to Starting l in
  let$ _ := unwrap r in
  let$ _ := assert_eq (current_state l) Starting in
  let '(r, l) := transition_to Running l in
  let$ _ := unwrap r in
  let$ _ := assert_eq (current_state l) Running in
  let '(r, l) := transition_to Stopping l in
  let$ _ := unwrap r in
  let$ _ := assert_eq (current_state l) Stopping in
  let '(r, l) := transition_to Stopped l in
  let$ _ := unwrap r in
  assert_eq (current_state l) Stopped.

Definition test_invalid_transition : outcome unit := assert (is_err (transition_to Running Lifecycle.new).1).

Definition test_error_state_always_valid : outcome unit :=
  let '(r, l) := transition_to VmErr Lifecycle.new in
  let$ _ := unwrap r in
  assert_eq (current_state l) VmErr.

Example lifecycle_pass : Forall (eq (Done tt)) [test_valid_transitions; test_invalid_transition; test_error_state_always_valid].
Proof. repeat (constructor; [vm_compute; reflexivity|]); constructor. Qed.

End LifecycleTests.

(** * clawpot-common/src/firecracker/config.rs *)

Module ConfigTests.

Definition test_default_config : outcome unit :=
  let config := FcConfig.new "/tmp/kernel" "/tmp/rootfs" in
  all [assert_eq (FcConfig.vcpu_count config) 1; assert_eq (FcConfig.mem_size_mib config) 256;
       assert_eq (boot_args config) "console=ttyS0 reboot=k panic=1 pci=off"%string].

Definition test_builder_pattern : outcome unit :=
  let config := with_memory 1024 (with_vcpus 4 (FcConfig.new "/tmp/kernel" "/tmp/rootfs")) in
  all [assert_eq (FcConfig.vcpu_count config) 4; assert_eq (FcConfig.mem_size_mib config) 1024].

Example config_pass : Forall (eq (Done tt)) [test_default_config; test_builder_pattern].
Proof. repeat (constructor; [vm_compute; reflexivity|]); constructor. Qed.

End ConfigTests.

(** * clawpot-server/src/vm/registry.rs *)

Module RegistryTests.

(** The entry of the first two tests. *)
Definition test_entry (id : Uuid) (w : sim) : outcome VmEntry :=
  let$ ip := unwrap_some (parse_ip "192.168.100.2") in
  Done (mkVmEntry id (VmManager.new "/tmp/test.sock") ip "tap-test" (system_now w).1 2 512 "/tmp/test-vsock.sock").

Definition test_insert_and_get : outcome unit :=
  let registry := Registry.new in
  let '(id, w) := new_v4 empty_sim in
  let$ entry := test_entry id w in
  let '(r, registry) := Registry.insert id entry registry in
  let$ _ := unwrap r in
  all [assert_eq (count registry) 1%nat; assert (is_ok (Registry.get id registry))].

Definition test_remove : outcome unit :=
  let registry := Registry.new in
  let '(id, w) := new_v4 empty_sim in
  let$ entry := test_entry id w in
  let '(r, registry) := Registry.insert id entry registry in
  let$ _ := unwrap r in
  let '(r, registry) := Registry.remove id registry in
  let$ removed := unwrap r in
  all [assert_eq (entry_id removed) id; assert_eq (count registry) 0%nat].

(** [for i in from..from + n] of [test_list] *)
Fixpoint insert_n (n : nat) (i : Z) (registry : VmRegistry) (w : sim) : outcome VmRegistry :=
  match n with
  | O => Done registry
  | S n' =>
      let '(id, w) := new_v4 w in
      let$ ip := unwrap_some (parse_ip ("192.168.100." +:+ show_Z (i + 2))) in
      let entry := mkVmEntry id (VmManager.new ("/tmp/test-" +:+ show_Z i +:+ ".sock")) ip ("tap-test-" +:+ show_Z i)
                     (system_now w).1 1 256 ("/tmp/test-" +:+ show_Z i +:+ "-vsock.sock") in
      let '(r, registry) := Registry.insert id entry registry in
      let$ _ := unwrap r in
      insert_n n' (i + 1) registry w
  end.

Definition test_list : outcome unit :=
  let$ registry := insert_n 3 0 Registry.new empty_sim in
  assert_eq (length (vm_list registry)) 3%nat.

Example registry_pass : Forall (eq (Done tt)) [test_insert_and_get; test_remove; test_list].
Proof. repeat (constructor; [vm_compute; reflexivity|]); constructor. Qed.

End RegistryTests.

(** * clawpot-server/src/network/ *)

Module NetworkTests.

(** iptables.rs *)
Definition test_add_and_remove_rule : outcome unit :=
  let tap := "test-tap0"%string in
  let ip := V4 (ipv4 192 168 100 2) in
  let '(r, w) := add_source_ip_rule tap ip empty_sim in
  let$ _ := unwrap r in
  let '(r, w) := remove_source_ip_rule tap ip w in
  unwrap r.

(** tap.rs *)
Definition test_create_and_delete_tap : outcome unit :=
  let tap_name := "test-tap-device"%string in
  let '(r, w) := create_tap tap_name empty_sim in
  let$ _ := unwrap r in
  let '(r, w) := delete_tap tap_name w in
  unwrap r.

(** bridge.rs, with its clean-up *)
Definition test_ensure_bridge : outcome unit :=
  let gateway := V4 (ipv4 192 168 100 1) in
  let '(r, w) := ensure_bridge "test-br0" gateway empty_sim in
  let$ _ := unwrap r in
  let '(index, w) := get_link_index "test-br0" w in
  match index with
  | Ok index => let '(_, w) := nl_link_del index w in Done tt
  | Err _ => Done tt
  end.

(** mod.rs *)
Definition test_network_manager_creation : outcome unit := assert_eq (bridge_name nm_new) "br0"%string.

Example network_pass :
  Forall (eq (Done tt)) [test_add_and_remove_rule; test_create_and_delete_tap; test_ensure_bridge; test_network_manager_creation].
Proof. repeat (constructor; [vm_compute; reflexivity|]); constructor. Qed.

End NetworkTests.

(** * clawpot-server/src/proxy/proxy_protocol.rs and tls_mitm.rs *)

Module ProxyTests.

(** ["ip:port".parse::<SocketAddr>().unwrap()] *)
Definition socket_addr (ip : string) (port : Z) : outcome SocketAddr :=
  let$ ip := unwrap_some (parse_ip ip) in Done (mkSocketAddr ip port).

Definition test_round_trip : outcome unit :=
  let$ client := socket_addr "192.168.100.2" 45678 in
  let$ server := socket_addr "0.0.0.0" 10443 in
  let '(r, buf) := write_proxy_header client server ([] : list byte) in
  let$ _ := unwrap r in
  let expected := "PROXY TCP4 192.168.100.2 0.0.0.0 45678 10443" +:+ crlf in
  let$ _ := assert_eq (from_utf8_lossy buf) expected in
  let$ r := (read_proxy_header buf).1 in
  let$ ip := unwrap r in
  assert_eq ip (sa_ip client).

Definition test_invalid_header : outcome unit :=
  let$ result := (read_proxy_header (bytes_of_str ("GET / HTTP/1.1" +:+ crlf))).1 in
  assert (is_err result).

Definition test_invalid_ip : outcome unit :=
  let$ result := (read_proxy_header (bytes_of_str ("PROXY TCP4 not-an-ip 0.0.0.0 1234 5678" +:+ crlf))).1 in
  assert (is_err result).

Definition test_extract_sni_none_for_non_tls : outcome unit :=
  let$ sni := extract_sni (bytes_of_str ("GET / HTTP/1.1" +:+ crlf)) in
  let$ _ := assert_eq sni None in
  let$ sni := extract_sni [] in
  assert_eq sni None.

Example proxy_pass :
  Forall (eq (Done tt)) [test_round_trip; test_invalid_header; test_invalid_ip; test_extract_sni_none_for_non_tls].
Proof. repeat (constructor; [vm_compute; reflexivity|]); constructor. Qed.

End ProxyTests.

(** * clawpot-server/src/proxy/dns_proxy.rs *)

Module DnsTests.

Definition test_parse_dns_question : outcome unit :=
  let packet :=
    [x00; x01] ++                             (* ID *)
    [x01; x00] ++                             (* flags: standard query *)
    [x00; x01] ++                             (* QDCOUNT *)
    [x00; x00; x00; x00; x00; x00] ++         (* ANCOUNT, NSCOUNT, ARCOUNT *)
    [x07] ++ bytes_of_str "example" ++ [x03] ++ bytes_of_str "com" ++ [x00] ++
    [x00; x01] ++                             (* QTYPE=A *)
    [x00; x01] in                             (* QCLASS=IN *)
  let$ question := parse_dns_question packet in
  let$ question := unwrap_some question in
  all [assert_eq question.1 "example.com"%string; assert_eq question.2 "A"%string].

Definition test_build_refused_response : outcome unit :=
  let query := [xab; xcd; x01; x00; x00; x01; x00; x00; x00; x00; x00; x00] in
  let resp := build_refused_response query in
  let$ id := slice resp 0 2 in
  let$ flags := idx resp 2 in
  let$ rcode := idx resp 3 in
  all [assert_eq id [xab; xcd]; assert (negb (Z.land (u8 flags) 0x80 =? 0)); assert_eq (Z.land (u8 rcode) 0x0F) 5].

(** What is written to one end of [tokio::io::duplex] is read at the other. *)
Definition other_end (t : duplex) : duplex := mkDuplex (outgoing t) [].

Definition test_tcp_dns_roundtrip : outcome unit :=
  let message := bytes_of_str "hello dns world" in
  let '(r, client) := write_dns_message message (mkDuplex [] []) in
  let$ _ := unwrap r in
  let '(r, server) := read_dns_length (other_end client) in
  let$ len := unwrap r in
  let$ _ := assert_eq len (Z.of_nat (length message)) in
  let '(r, server) := read_exact (Z.to_nat len) server in
  let$ buf := unwrap r in
  assert_eq buf message.

(** The body of the loop over the sizes. *)
Definition length_encoding (size : Z) : outcome unit :=
  let msg := replicate (Z.to_nat size) xaa in
  let len_bytes := be_u16 (wrap16 size) in
  let '(r, writer) := write_all len_bytes (mkDuplex [] []) in
  let$ _ := unwrap r in
  let '(r, reader) := read_dns_length (other_end writer) in
  let$ read_len := unwrap r in
  let$ _ := assert_eq read_len size in
  let '(r, w2) := write_dns_message msg (mkDuplex [] []) in
  let$ _ := unwrap r in
  let '(r, r2) := read_dns_length (other_end w2) in
  let$ decoded_len := unwrap r in
  let$ _ := assert_eq decoded_len size in
  if 0 <? size then
    let '(r, r2) := read_exact (Z.to_nat decoded_len) r2 in
    let$ decoded_buf := unwrap r in
    assert_eq decoded_buf msg
  else Done tt.

Definition test_tcp_dns_length_encoding : outcome unit := all (map length_encoding [0; 512; 65535]).

Example dns_pass :
  Forall (eq (Done tt)) [test_parse_dns_question; test_build_refused_response; test_tcp_dns_roundtrip; test_tcp_dns_length_encoding].
Proof. repeat (constructor; [vm_compute; reflexivity|]); constructor. Qed.

End DnsTests.
