(* ===== verification/LlmTests.v ===== *)
(** The unit tests of clawpot-server/src/proxy/llm.rs, run on the model (see
    [UnitTests]).  They parse JSON: the reader here, for texts without escapes and
    with whole numbers, stands for serde_json. *)

From S2P Require Import Prelude RustStr Json Llm UnitTests.
From Stdlib Require Import ZArith Lia Ascii String.
From Stdlib Require Import Strings.Byte.
From stdpp Require Import base gmap strings list.

Open Scope Z_scope.

(** * Reading JSON *)

Definition quote : ascii := "034"%char.

(** The text with double quotes for single ones. *)
Fixpoint dq (s : string) : string :=
  match s with
  | EmptyString => EmptyString
  | String c rest => String (if Ascii.eqb c "'" then quote else c) (dq rest)
  end.

(** The text up to a quote, and what follows it. *)
Fixpoint read_text (s : string) : option (string * string) :=
  match s with
  | EmptyString => None
  | String c rest => if Ascii.eqb c quote then Some (EmptyString, rest) else r ← read_text rest; Some (String c r.1, r.2)
  end.

Definition digit (c : ascii) : option Z :=
  let n := Z.of_nat (nat_of_ascii c) - 48 in if (0 <=? n) && (n <? 10) then Some n else None.

Fixpoint read_digits (acc : Z) (s : string) : Z * string :=
  match s with
  | String c rest => match digit c with Some d => read_digits (10 * acc + d) rest | None => (acc, s) end
  | EmptyString => (acc, s)
  end.

Fixpoint skip_blanks (s : string) : string :=
  match s with
  | String c rest => if Ascii.eqb c " " then skip_blanks rest else s
  | EmptyString => s
  end.

(** The rest of a text after a character that must come next. *)
Definition next (c : ascii) (s : string) : option string :=
  match skip_blanks s with
  | String d rest => if Ascii.eqb d c then Some rest else None
  | EmptyString => None
  end.

(** A value; the elements of an array and the fields of an object from the first one
    on, to the bracket that closes it. *)
Fixpoint read_value (n : nat) (s : string) : option (json * string) :=
  match n with
  | O => None
  | S n =>
      let s := skip_blanks s in
      match next quote s, next "[" s, next "{" s with
      | Some rest, _, _ => r ← read_text rest; Some (JString r.1, r.2)
      | _, Some rest, _ =>
          match next "]" rest with
          | Some rest => Some (JArray [], rest)
          | None => r ← read_elements n rest; Some (JArray r.1, r.2)
          end
      | _, _, Some rest =>
          match next "}" rest with
          | Some rest => Some (JObject [], rest)
          | None => r ← read_fields n rest; Some (JObject r.1, r.2)
          end
      | _, _, _ =>
          if String.prefix "true" s then Some (JBool true, String.substring 4 (String.length s) s)
          else if String.prefix "false" s then Some (JBool false, String.substring 5 (String.length s) s)
          else if String.prefix "null" s then Some (JNull, String.substring 4 (String.length s) s)
          else match s with
               | String c _ => _ ← digit c; let r := read_digits 0 s in Some (jint r.1, r.2)
               | EmptyString => None
               end
      end
  end
with read_elements (n : nat) (s : string) : option (list json * string) :=
  match n with
  | O => None
  | S n =>
      v ← read_value n s;
      match next "," v.2, next "]" v.2 with
      | Some rest, _ => r ← read_elements n rest; Some (v.1 :: r.1, r.2)
      | None, Some rest => Some ([v.1], rest)
      | None, None => None
      end
  end
with read_fields (n : nat) (s : string) : option (list (string * json) * string) :=
  match n with
  | O => None
  | S n =>
      s ← next quote s;
      key ← read_text s;
      s ← next ":" key.2;
      v ← read_value n s;
      match next "," v.2, next "}" v.2 with
      | Some rest, _ => r ← read_fields n rest; Some ((key.1, v.1) :: r.1, r.2)
      | None, Some rest => Some ([(key.1, v.1)], rest)
      | None, None => None
      end
  end.

Definition read_json (s : string) : result json string :=
  match read_value (String.length s) s with
  | Some (v, rest) => if String.eqb (skip_blanks rest) EmptyString then Ok v else Err "trailing characters"%string
  | None => Err "expected value"%string
  end.

#[local] Instance text_json : SerdeJson := {|
  json_to_string _ := Err "unsupported"%string;
  json_from_slice bs := read_json (str_of_bytes bs);
  de_error_response _ := Err "unsupported"%string;
  de_instance_info _ := Err "unsupported"%string;
|}.

(** [json.pointer("/a/0/b")], by keys and indices *)
Fixpoint pointer (path : list (string + nat)) (v : json) : option json :=
  match path with
  | [] => Some v
  | inl key :: rest => match Json.get key v with Some v' => pointer rest v' | None => None end
  | inr i :: rest => match as_array v with Some vs => match vs !! i with Some v' => pointer rest v' | None => None end | None => None end
  end.

(** [json.pointer(path).and_then(Value::as_str)] *)
Definition str_at (path : list (string + nat)) (v : json) : option string :=
  match pointer path v with Some v' => as_str v' | None => None end.

(** * Detection *)

Module LlmTests.

(** [make_key_store(keys)] *)
Definition make_key_store (keys : list (string * string)) : LlmKeyStore := list_to_map (reverse keys).

Definition anthropic_keys : LlmKeyStore := make_key_store [("anthropic", "sk-ant-test")]%string.
Definition openai_keys : LlmKeyStore := make_key_store [("openai", "sk-openai-test")]%string.

Definition detect_anthropic_messages : outcome unit :=
  let$ det := unwrap_some (detect_llm_request "api.anthropic.com" "/v1/messages" anthropic_keys) in
  let$ hv := unwrap_some (inject_header det) in
  all [assert_eq (provider det) "anthropic"%string; assert_eq (endpoint det) "messages"%string;
       assert_eq (strip_header det) (Some "x-api-key"%string); assert_eq hv.1 "x-api-key"%string; assert_eq hv.2 "sk-ant-test"%string].

Definition detect_anthropic_with_port : outcome unit :=
  let$ det := unwrap_some (detect_llm_request "api.anthropic.com:443" "/v1/messages" anthropic_keys) in
  all [assert_eq (provider det) "anthropic"%string; assert_eq (endpoint det) "messages"%string].

Definition detect_openai_chat : outcome unit :=
  let$ det := unwrap_some (detect_llm_request "api.openai.com" "/v1/chat/completions" openai_keys) in
  let$ hv := unwrap_some (inject_header det) in
  all [assert_eq (provider det) "openai"%string; assert_eq (endpoint det) "chat_completions"%string;
       assert_eq hv.1 "authorization"%string; assert_eq hv.2 "Bearer sk-openai-test"%string].

Definition detect_openai_responses : outcome unit :=
  let$ det := unwrap_some (detect_llm_request "api.openai.com" "/v1/responses" openai_keys) in
  all [assert_eq (provider det) "openai"%string; assert_eq (endpoint det) "responses"%string].

Definition detect_unknown_endpoint : outcome unit :=
  let$ det := unwrap_some (detect_llm_request "api.anthropic.com" "/v2/something" anthropic_keys) in
  all [assert_eq (provider det) "anthropic"%string; assert_eq (endpoint det) "unknown"%string].

Definition detect_no_key_passthrough : outcome unit :=
  let$ det := unwrap_some (detect_llm_request "api.anthropic.com" "/v1/messages" (make_key_store [])) in
  all [assert_eq (provider det) "anthropic"%string; assert_eq (strip_header det) None; assert_eq (inject_header det) None].

Definition detect_non_llm_host : outcome unit :=
  assert (match detect_llm_request "example.com" "/v1/messages" anthropic_keys with None => true | Some _ => false end).

Example detection_pass :
  Forall (eq (Done tt)) [detect_anthropic_messages; detect_anthropic_with_port; detect_openai_chat; detect_openai_responses;
                         detect_unknown_endpoint; detect_no_key_passthrough; detect_non_llm_host].
Proof. repeat (constructor; [vm_compute; reflexivity|]); constructor. Qed.

(** * Server-sent events *)

Definition bytes_q (s : string) : list byte := bytes_of_str (dq s).

Definition parse_sse_anthropic_format : outcome unit :=
  let body := bytes_q ("event: message_start" +:+ nl +:+ "data: {'type':'message_start'}" +:+ nl +:+ nl
    +:+ "event: content_block_delta" +:+ nl +:+ "data: {'delta':{'text':'hello'}}" +:+ nl +:+ nl
    +:+ "event: message_delta" +:+ nl +:+ "data: {'delta':{}}" +:+ nl +:+ nl) in
  let events := parse_sse body in
  let$ _ := assert_eq (length events) 3%nat in
  let$ e0 := idx events 0 in
  let$ e1 := idx events 1 in
  let$ e2 := idx events 2 in
  all [assert_eq (event_type e0) (Some "message_start"%string); assert_eq (event_type e1) (Some "content_block_delta"%string);
       assert_eq (event_type e2) (Some "message_delta"%string)].

Definition parse_sse_openai_chat_format : outcome unit :=
  let body := bytes_q ("data: {'choices':[{'delta':{'content':'hi'}}]}" +:+ nl +:+ nl
    +:+ "data: {'choices':[{'delta':{'content':'!'}}]}" +:+ nl +:+ nl +:+ "data: [DONE]" +:+ nl +:+ nl) in
  let events := parse_sse body in
  let$ _ := assert_eq (length events) 2%nat in
  let$ e0 := idx events 0 in
  assert_eq (event_type e0) None.

Definition parse_sse_with_comments : outcome unit :=
  let body := bytes_q (": keepalive" +:+ nl +:+ nl +:+ "data: {'test': true}" +:+ nl +:+ nl) in
  let events := parse_sse body in
  let$ _ := assert_eq (length events) 1%nat in
  let$ e0 := idx events 0 in
  assert_eq (data e0) (dq "{'test': true}").

(** * Streams *)

Definition sse (ty : option string) (text : string) : SseEvent := mkSseEvent ty (dq text).

Definition reassemble_anthropic_stream : outcome unit :=
  let events :=
    [sse (Some "message_start")
       "{'message':{'id':'msg_01','model':'claude-sonnet-4-20250514','usage':{'input_tokens':150}}}";
     sse (Some "content_block_delta") "{'delta':{'type':'text_delta','text':'Hello '}}";
     sse (Some "content_block_delta") "{'delta':{'type':'text_delta','text':'world'}}";
     sse (Some "message_delta") "{'delta':{'stop_reason':'end_turn'},'usage':{'output_tokens':85}}"]%string in
  let '(json, model, input, output) := reassemble_stream "messages" events in
  all [assert_eq model (Some "claude-sonnet-4-20250514"%string); assert_eq input (Some 150); assert_eq output (Some 85);
       assert_eq (str_at [inl "content"%string; inr 0%nat; inl "text"%string] json) (Some "Hello world"%string)].

Definition reassemble_openai_chat_stream : outcome unit :=
  let events :=
    [sse None "{'id':'chatcmpl-01','model':'gpt-4o','choices':[{'delta':{'role':'assistant','content':'Hi'}}]}";
     sse None "{'id':'chatcmpl-01','model':'gpt-4o','choices':[{'delta':{'content':' there'}}]}";
     sse None "{'id':'chatcmpl-01','model':'gpt-4o','choices':[{'delta':{},'finish_reason':'stop'}]}";
     sse None "{'id':'chatcmpl-01','model':'gpt-4o','choices':[],'usage':{'prompt_tokens':10,'completion_tokens':5}}"]%string in
  let '(json, model, input, output) := reassemble_stream "chat_completions" events in
  all [assert_eq model (Some "gpt-4o"%string); assert_eq input (Some 10); assert_eq output (Some 5);
       assert_eq (str_at [inl "choices"%string; inr 0%nat; inl "message"%string; inl "content"%string] json) (Some "Hi there"%string)].

Definition reassemble_openai_responses_stream : outcome unit :=
  let events :=
    [sse (Some "response.output_text.delta") "{'delta':'Hello'}";
     sse (Some "response.completed")
       "{'response':{'id':'resp_01','model':'gpt-4o','output':[{'type':'message','content':[{'type':'output_text','text':'Hello world'}]}],'usage':{'input_tokens':20,'output_tokens':10}}}"]%string in
  let '(json, model, input, output) := reassemble_stream "responses" events in
  all [assert_eq model (Some "gpt-4o"%string); assert_eq input (Some 20); assert_eq output (Some 10);
       assert (match Json.get "output" json with Some _ => true | None => false end)].

Example stream_pass :
  Forall (eq (Done tt)) [parse_sse_anthropic_format; parse_sse_openai_chat_format; parse_sse_with_comments;
                         reassemble_anthropic_stream; reassemble_openai_chat_stream; reassemble_openai_responses_stream].
Proof. repeat (constructor; [vm_compute; reflexivity|]); constructor. Qed.

(** * Summaries *)

Definition extract_summary_anthropic : outcome unit :=
  let body := bytes_q "{'model':'claude-sonnet-4-20250514','messages':[{'role':'user','content':'hi'},{'role':'assistant','content':'hello'},{'role':'user','content':'bye'}],'stream':true}" in
  let '(model, count, streaming) := extract_request_summary "messages" body in
  all [assert_eq model (Some "claude-sonnet-4-20250514"%string); assert_eq count (Some 3%nat); assert_eq streaming (Some true)].

Definition extract_summary_openai_chat : outcome unit :=
  let body := bytes_q "{'model':'gpt-4o','messages':[{'role':'user','content':'hello'}],'stream':false}" in
  let '(model, count, streaming) := extract_request_summary "chat_completions" body in
  all [assert_eq model (Some "gpt-4o"%string); assert_eq count (Some 1%nat); assert_eq streaming (Some false)].

Definition extract_summary_openai_responses_array : outcome unit :=
  let body := bytes_q "{'model':'gpt-4o','input':[{'role':'user','content':'hello'},{'role':'user','content':'world'}]}" in
  let '(model, count, streaming) := extract_request_summary "responses" body in
  all [assert_eq model (Some "gpt-4o"%string); assert_eq count (Some 2%nat); assert_eq streaming None].

Definition extract_summary_openai_responses_string : outcome unit :=
  let body := bytes_q "{'model':'gpt-4o','input':'hello'}" in
  let '(_, count, _) := extract_request_summary "responses" body in
  assert_eq count (Some 1%nat).

Definition process_anthropic_non_streaming : outcome unit :=
  let body := bytes_q "{'id':'msg_01','model':'claude-sonnet-4-20250514','content':[{'type':'text','text':'Hello'}],'usage':{'input_tokens':100,'output_tokens':50}}" in
  let '(json, model, input, output) := process_response "messages" (Some "application/json"%string) body in
  all [assert_eq model (Some "claude-sonnet-4-20250514"%string); assert_eq input (Some 100); assert_eq output (Some 50);
       assert (match Json.get "content" json with Some _ => true | None => false end)].

Definition process_openai_non_streaming : outcome unit :=
  let body := bytes_q "{'id':'chatcmpl-01','model':'gpt-4o','choices':[{'message':{'role':'assistant','content':'Hi'}}],'usage':{'prompt_tokens':10,'completion_tokens':5}}" in
  let '(json, model, input, output) := process_response "chat_completions" (Some "application/json"%string) body in
  all [assert_eq model (Some "gpt-4o"%string); assert_eq input (Some 10); assert_eq output (Some 5);
       assert (match Json.get "choices" json with Some _ => true | None => false end)].

Example summary_pass :
  Forall (eq (Done tt)) [extract_summary_anthropic; extract_summary_openai_chat; extract_summary_openai_responses_array;
                         extract_summary_openai_responses_string; process_anthropic_non_streaming; process_openai_non_streaming].
Proof. repeat (constructor; [vm_compute; reflexivity|]); constructor. Qed.

End LlmTests.
