(* ===== verification/EventTests.v ===== *)
(** The unit tests of clawpot-server/src/events/store.rs, run on the model (see
    [UnitTests]) with an in-memory SQLite: the store is opened, events are emitted,
    the session is closed, the writer runs, and the file is opened again and
    queried. *)

From S2P Require Import Prelude RustStr World Json Events Sql EventQueries CliLogs UnitTests.
From Stdlib Require Import ZArith Lia Ascii String.
From Stdlib Require Import Strings.Byte.
From stdpp Require Import base gmap strings list.

Open Scope Z_scope.

(** * A host with database files *)

Record store_host : Type := mkStoreHost {
  sh_files : list (string * database);
  sh_conns : list string;
  sh_tx : list event_row;      (* the rows of the open transaction *)
  sh_clock : Z;
}.

Definition sh_db (c : Z) (h : store_host) : database :=
  default (mkDatabase [] [])
    (path ← sh_conns h !! Z.to_nat c; (list_to_map (sh_files h) : gmap string database) !! path).

Definition sh_set_db (c : Z) (d : database) (h : store_host) : store_host :=
  match sh_conns h !! Z.to_nat c with
  | Some path => mkStoreHost ((path, d) :: sh_files h) (sh_conns h) (sh_tx h) (sh_clock h)
  | None => h
  end.

Definition sh_set_tx (rows : list event_row) (h : store_host) : store_host :=
  mkStoreHost (sh_files h) (sh_conns h) rows (sh_clock h).

Definition sh_open (path : string) : ST store_host (result Z sql_error) := fun h =>
  (Ok (Z.of_nat (length (sh_conns h))), mkStoreHost (sh_files h) (sh_conns h ++ [path]) (sh_tx h) (sh_clock h)).

(** The one INSERT of a session row; other statements do nothing. *)
Definition sh_execute (c : Z) (sql : string) (ps : list sql_value) : ST store_host (result Z sql_error) := fun h =>
  match ps with
  | [SqlText sid; SqlText started; SqlText version; SqlText config] =>
      let d := sh_db c h in
      (Ok 1, sh_set_db c (mkDatabase (db_events d) (mkSessionRow sid started None version (Some config) :: db_sessions d)) h)
  | _ => (Ok 0, h)
  end.

#[local] Instance store_sqlite : SqliteFiles store_host := {|
  db_open := sh_open;
  db_open_readonly := sh_open;
  db_execute_batch _ _ := ret (Ok tt);
  db_execute := sh_execute;
  db_select c sql ps := fun h => (memory_select (sh_db c h) sql ps, h);
|}.

#[local] Instance store_dirs : Directories store_host := {| create_dir_all _ := ret (Ok tt) |}.

(** A clock that advances with each reading. *)
Definition sh_now : ST store_host string := fun h =>
  (show_Z (sh_clock h), mkStoreHost (sh_files h) (sh_conns h) (sh_tx h) (sh_clock h + 1)).

#[local] Instance store_ts : Timestamps store_host := {| rfc3339_now := sh_now; rfc3339_long := sh_now |}.

(** AUTOINCREMENT: rows get the next ids. *)
Definition sh_commit (c : Z) : ST store_host (result unit string) := fun h =>
  let d := sh_db c h in
  let ids := seqZ (Z.of_nat (length (db_events d)) + 1) (Z.of_nat (length (sh_tx h))) in
  (Ok tt, sh_set_tx [] (sh_set_db c (mkDatabase (db_events d ++ zip ids (sh_tx h)) (db_sessions d)) h)).

Definition sh_close (c : Z) (sid : string) : ST store_host (result unit string) := fun h =>
  let '(now, h) := sh_now h in
  let d := sh_db c h in
  (Ok tt, sh_set_db c (mkDatabase (db_events d)
    (map (fun s => if String.eqb (sess_id s) sid
                   then mkSessionRow (sess_id s) (sess_started_at s) (Some now) (sess_server_version s) (sess_config s) else s)
         (db_sessions d))) h).

(** The statements of the writer on its connection. *)
Definition writer_on (c : Z) : Sqlite store_host := {|
  sql_begin := fun h => (Ok tt, sh_set_tx [] h);
  sql_prepare_insert := ret (Ok tt);
  sql_insert r := fun h => (Ok tt, sh_set_tx (sh_tx h ++ [r]) h);
  sql_commit := sh_commit c;
  sql_rollback := fun h => (tt, sh_set_tx [] h);
  sql_close_session := sh_close c;
  sql_checkpoint := ret (Ok tt);
|}.

#[local] Existing Instance brief_json.

(** * Tests *)

Module EventTests.

Definition temp_db_path : string := "/tmp/events.db".

Definition empty_host : store_host := mkStoreHost [] [] [] 100.

(** A store on a fresh file, what the test does with it, and [close_session], which
    waits until the writer has taken all messages. *)
Definition with_store (sid : string) (mode : PersistMode) (body : ST (EventStore * store_host) unit) : outcome store_host :=
  let '(r, w) := open_store temp_db_path sid "0.1.0" "{}" mode empty_host in
  let$ sc := unwrap r in
  let '(_, (st, w)) := (do! body in close_session) (sc.1, w) in
  Done (@background_writer _ (writer_on sc.2) sid [tx st] w).2.

Definition any : EventFilters := mkEventFilters None None None None None.

Definition query (f : EventFilters) (conn : Z) (w : store_host) : outcome (list EventQueries.Event) := unwrap (query_events conn f w).1.

Definition test_event_store_basic : outcome unit :=
  let$ w := with_store "test-session-1" PersistAll
    (do! emit "vm.create.started" "vm" (Some "vm-123"%string) None (JObject [("vcpu_count", jint 1); ("mem_size_mib", jint 256)]%string) in
     do! emit "vm.create.ip_allocated" "vm" (Some "vm-123"%string) None (JObject [("ip_address", JString "192.168.100.2")]%string) in
     do! Events.log "server" None "Hello from test" in ret tt) in
  let '(r, w) := open_readonly temp_db_path w in
  let$ conn := unwrap r in
  let$ sessions := unwrap (list_sessions conn w).1 in
  let$ _ := assert_eq (length sessions) 1%nat in
  let$ s0 := idx sessions 0 in
  let$ _ := all [assert_eq (si_id s0) "test-session-1"%string; assert_eq (si_event_count s0) 3;
                 assert (match si_stopped_at s0 with Some _ => true | None => false end)] in
  let$ events := query any conn w in
  let$ _ := assert_eq (length events) 3%nat in
  let$ e0 := idx events 0 in
  let$ e1 := idx events 1 in
  let$ e2 := idx events 2 in
  all [assert_eq (e_event_type e0) "vm.create.started"%string; assert_eq (e_category e0) "vm"%string;
       assert_eq (e_vm_id e0) (Some "vm-123"%string); assert_eq (e_event_type e1) "vm.create.ip_allocated"%string;
       assert_eq (e_event_type e2) "log"%string].

Definition test_event_store_filters : outcome unit :=
  let$ w := with_store "test-session-2" PersistAll
    (do! emit "vm.create.started" "vm" (Some "vm-1"%string) None (JObject []) in
     do! emit "network.http.request" "network" (Some "vm-1"%string) (Some "corr-1"%string) (JObject [("method", JString "GET")]%string) in
     do! emit "vm.create.started" "vm" (Some "vm-2"%string) None (JObject []) in ret tt) in
  let '(r, w) := open_readonly temp_db_path w in
  let$ conn := unwrap r in
  let$ events := query (mkEventFilters None (Some "vm-1"%string) None None None) conn w in
  let$ _ := assert_eq (length events) 2%nat in
  let$ events := query (mkEventFilters None None (Some "network"%string) None None) conn w in
  let$ _ := assert_eq (length events) 1%nat in
  let$ e0 := idx events 0 in
  let$ _ := assert_eq (e_correlation_id e0) (Some "corr-1"%string) in
  let$ events := query (mkEventFilters None None None None (Some 1)) conn w in
  assert_eq (length events) 1%nat.

Definition test_persist_mode_structured : outcome unit :=
  let$ w := with_store "test-session-3" PersistStructured
    (do! emit "vm.create.started" "vm" (Some "vm-1"%string) None (JObject []) in
     do! Events.log "server" None "this should not be persisted" in ret tt) in
  let '(r, w) := open_readonly temp_db_path w in
  let$ conn := unwrap r in
  let$ events := query any conn w in
  let$ _ := assert_eq (length events) 1%nat in
  let$ e0 := idx events 0 in
  assert_eq (e_event_type e0) "vm.create.started"%string.

Definition test_emit_with_duration : outcome unit :=
  let$ w := with_store "test-session-4" PersistAll
    (do! emit_with_duration "vm.create.completed" "vm" (Some "vm-1"%string) None 1500 (Some true)
           (JObject [("ip", JString "192.168.100.2")]%string) in ret tt) in
  let '(r, w) := open_readonly temp_db_path w in
  let$ conn := unwrap r in
  let$ events := query any conn w in
  let$ _ := assert_eq (length events) 1%nat in
  let$ e0 := idx events 0 in
  all [assert_eq (e_duration_ms e0) (Some 1500); assert_eq (e_success e0) (Some true)].

Example event_store_pass :
  Forall (eq (Done tt)) [test_event_store_basic; test_event_store_filters; test_persist_mode_structured; test_emit_with_duration].
Proof. repeat (constructor; [vm_compute; reflexivity|]); constructor. Qed.

End EventTests.
